(** * The renderer core of js/render/core/renderer.js

    A shallow embedding of the WebGL renderer: the GPU resource wrappers
    (RenderBuffer, RenderTexture, RenderPrimitive, RenderMaterial), the two
    caches of the Renderer (programs and textures), the render-order buckets
    and the per-frame draw protocol of [drawViews].

    JavaScript objects live in a store and are named by their index, so that
    two references to one object observe each other's writes.  Calls made on
    the WebGL context are appended to a log; exceptions are an outcome of
    the computation.  Promises are kept as a list of pending continuations
    that the host runs when their sources are ready. *)

From Stdlib Require Import QArith DecimalString Ascii String.
From stdpp Require Import gmap strings list.

Open Scope Z_scope.

(** ** Numbers and bitwise operators *)

(** JavaScript applies [&], [^], [~] and [>>] to the 32-bit signed view of
    their operands. *)
Definition ToInt32 (n : Z) : Z := (n + 2 ^ 31) mod 2 ^ 32 - 2 ^ 31.

Definition js_and (a b : Z) : Z := Z.land (ToInt32 a) (ToInt32 b).
Definition js_or (a b : Z) : Z := Z.lor (ToInt32 a) (ToInt32 b).
Definition js_xor (a b : Z) : Z := Z.lxor (ToInt32 a) (ToInt32 b).
Definition js_not (a : Z) : Z := Z.lnot (ToInt32 a).
Definition js_shr (a b : Z) : Z := Z.shiftr (ToInt32 a) (b mod 32).

(** A number is truthy when it is not zero. *)
Definition truthy (n : Z) : bool := negb (n =? 0).

(** [a || b] on numbers. *)
Definition js_or_else (a b : Z) : Z := if truthy a then a else b.

Definition isPowerOfTwo (n : Z) : bool := js_and n (n - 1) =? 0.

(** Payload numbers (matrix entries, light colours, uniform values) are
    only stored and passed on; rationals stand for them. *)
Definition number := Q.
Definition vec3 := list number.
Definition mat4 := list number.

Definition vec3_create : vec3 := [0%Q; 0%Q; 0%Q].

(** ** The WebGL context *)

Module GL.
Definition NEVER := 512.
Definition CULL_FACE := 2884.
Definition DEPTH_TEST := 2929.
Definition STENCIL_TEST := 2960.
Definition BLEND := 3042.
Definition TEXTURE_2D := 3553.
Definition UNSIGNED_BYTE := 5121.
Definition LINEAR := 9729.
Definition LINEAR_MIPMAP_LINEAR := 9987.
Definition TEXTURE_MAG_FILTER := 10240.
Definition TEXTURE_MIN_FILTER := 10241.
Definition TEXTURE_WRAP_S := 10242.
Definition TEXTURE_WRAP_T := 10243.
Definition REPEAT := 10497.
Definition CLAMP_TO_EDGE := 33071.
Definition TEXTURE0 := 33984.
Definition ARRAY_BUFFER := 34962.
Definition ELEMENT_ARRAY_BUFFER := 34963.
Definition STATIC_DRAW := 35044.
Definition TEXTURE_2D_ARRAY := 35866.
End GL.

(** Objects of the store are named by their index. *)
Abbreviation bufref := nat (only parsing).
Abbreviation texref := nat (only parsing).
Abbreviation progref := nat (only parsing).
Abbreviation matref := nat (only parsing).
Abbreviation primref := nat (only parsing).
Abbreviation noderef := nat (only parsing).

(** Names of objects made by the context (createBuffer, createTexture,
    createVertexArrayOES). *)
Abbreviation handle := nat (only parsing).

(** What a texImage2D call reads its pixels from. *)
Inductive pixels :=
  | PixelData (width height border format type : Z) (data : list Z)
  | PixelSource (format type : Z) (source : string).

(** The calls the renderer issues.  Uniform uploads carry the name under
    which the location was looked up in [program.uniform]; the two draw
    calls carry, as their first argument, the render primitive they are
    issued for. *)
Inductive glcall :=
  | viewport (x y width height : Z)
  | useProgram (program : progref)
  | uniform1i (name : string) (v : Z)
  | uniform1ui (name : string) (v : Z)
  | uniform1f (name : string) (v : number)
  | uniform1fv (name : string) (v : list number)
  | uniform2fv (name : string) (v : list number)
  | uniform3fv (name : string) (v : list number)
  | uniform4fv (name : string) (v : list number)
  | uniformMatrix4fv (name : string) (m : mat4)
  | enable (cap : Z)
  | disable (cap : Z)
  | colorMask (r g b a : bool)
  | depthMask (flag : bool)
  | stencilMask (mask : Z)
  | blendFunc (sfactor dfactor : Z)
  | depthFunc (func : Z)
  | activeTexture (unit : Z)
  | bindTexture (target : Z) (texture : option handle)
  | createTexture (texture : handle)
  | texImage2D (target level internalformat : Z) (src : pixels)
  | generateMipmap (target : Z)
  | texParameteri (target pname param : Z)
  | createBuffer (buffer : handle)
  | bindBuffer (target : Z) (buffer : option handle)
  | bufferData (target : Z) (byteLength : Z) (usage : Z)
  | createVertexArrayOES (vao : handle)
  | bindVertexArrayOES (vao : option handle)
  | enableVertexAttribArray (index : Z)
  | disableVertexAttribArray (index : Z)
  | vertexAttribPointer (index : option Z) (size type : Z) (normalized : bool)
      (stride offset : Z)
  | drawElements (primitive : primref) (mode count type offset : Z)
  | drawArrays (primitive : primref) (mode first count : Z).

(** The primitive a draw call was issued for. *)
Definition drawn (c : glcall) : option primref :=
  match c with
  | drawElements p _ _ _ _ | drawArrays p _ _ _ => Some p
  | _ => None
  end.

Definition is_draw (c : glcall) : bool :=
  match drawn c with Some _ => true | None => false end.

(** ** ATTRIB and ATTRIB_MASK *)

Definition ATTRIB_names : list string :=
  ["POSITION"; "NORMAL"; "TANGENT"; "TEXCOORD_0"; "TEXCOORD_1"; "COLOR_0"].

Definition ATTRIB (name : string) : option Z :=
  if String.eqb name "POSITION" then Some 1
  else if String.eqb name "NORMAL" then Some 2
  else if String.eqb name "TANGENT" then Some 3
  else if String.eqb name "TEXCOORD_0" then Some 4
  else if String.eqb name "TEXCOORD_1" then Some 5
  else if String.eqb name "COLOR_0" then Some 6
  else None.

Definition ATTRIB_MASK (name : string) : option Z :=
  if String.eqb name "POSITION" then Some 1
  else if String.eqb name "NORMAL" then Some 2
  else if String.eqb name "TANGENT" then Some 4
  else if String.eqb name "TEXCOORD_0" then Some 8
  else if String.eqb name "TEXCOORD_1" then Some 16
  else if String.eqb name "COLOR_0" then Some 32
  else None.

(** ** What the scene graph and the session layer hand to the renderer *)

(** A promise is described by what it will do: resolve with a value once
    the host gets to it, or stay pending for ever. *)
Inductive promised (A : Type) :=
  | Resolves (a : A)
  | NeverSettles.
Arguments Resolves {A} a.
Arguments NeverSettles {A}.

(** The data argument of [createRenderBuffer]: an array buffer, of which
    only the byte length is looked at, or a promise of one. *)
Inductive bufferData_arg :=
  | ArrayBuffer (byteLength : Z)
  | DataPromise (data : promised Z).

Module PrimitiveAttribute.
Record t := {
  name : string;
  buffer : bufref;
  componentCount : Z;
  componentType : Z;
  stride : Z;
  byteOffset : Z;
  normalized : bool;
}.
End PrimitiveAttribute.

Module Primitive.
Record t := {
  mode : Z;
  elementCount : Z;
  attributes : list PrimitiveAttribute.t;
  indexBuffer : option bufref;
  indexByteOffset : Z;
  indexType : Z;
  _min : option vec3;
  _max : option vec3;
}.
End Primitive.

(** Sampler settings; an unset field is 0, which is as falsy as the
    undefined it stands for. *)
Module Sampler.
Record t := {
  minFilter : Z;
  magFilter : Z;
  wrapS : Z;
  wrapT : Z;
}.
End Sampler.

(** The classes of texture.js that [_getRenderTexture] tells apart with
    [instanceof]; [ImageTexture] stands for every other texture, which is
    uploaded once its image is decoded. *)
Inductive textureClass :=
  | ExternalTexture
  | DataTexture (_type : Z) (_data : list Z)
  | ImageTexture
  | VideoTexture (_video : nat).

Module Texture.
Record t := {
  textureKey : option string;
  class : textureClass;
  format : Z;
  width : Z;
  height : Z;
  mipmap : bool;
  sampler : Sampler.t;
  source : string;
}.
End Texture.

(** [!key] for a key that is a string, null or undefined. *)
Definition valid_key (key : option string) : option string :=
  match key with
  | Some k => if String.eqb k "" then None else Some k
  | None => None
  end.

Module MaterialSampler.
Record t := {
  _uniformName : string;
  _texture : option Texture.t;
}.
End MaterialSampler.

Inductive uniform_value :=
  | ScalarValue (v : number)
  | ArrayValue (v : list number).

Module MaterialUniform.
Record t := {
  _uniformName : string;
  _length : Z;
  _value : uniform_value;
}.
End MaterialUniform.

(** A value stored in a defines dictionary, and its string conversion. *)
Inductive define_value :=
  | DefNumber (n : Z)
  | DefString (s : string).

Definition string_of_Z (n : Z) : string :=
  NilZero.string_of_int (Z.to_int n).

Definition define_to_string (v : define_value) : string :=
  match v with
  | DefNumber n => string_of_Z n
  | DefString s => s
  end.

(** ** Objects used as dictionaries *)

Module JsObject.
(** An object's own enumerable string-keyed properties, in the order in
    which [for ... in] visits them: array indices first, ascending, then
    the other keys in the order of their creation. *)
Definition t (V : Type) := list (string * V).

Definition is_digit (c : ascii) : bool :=
  let n := nat_of_ascii c in (48 <=? n)%nat && (n <=? 57)%nat.

Fixpoint digits_value (acc : N) (s : string) : option N :=
  match s with
  | EmptyString => Some acc
  | String c s' =>
      if is_digit c
      then digits_value (10 * acc + N.of_nat (nat_of_ascii c - 48))%N s'
      else None
  end.

(** The canonical numeric strings below 2^32 - 1. *)
Definition array_index (k : string) : option N :=
  match k with
  | EmptyString => None
  | String c rest =>
      if Ascii.eqb c "0" && negb (String.eqb rest "") then None
      else match digits_value 0 k with
           | Some n => if (n <? 4294967295)%N then Some n else None
           | None => None
           end
  end.

Fixpoint get {V} (k : string) (o : t V) : option V :=
  match o with
  | [] => None
  | (k', v) :: o' => if String.eqb k k' then Some v else get k o'
  end.

(** Where a new key goes. *)
Fixpoint add {V} (k : string) (v : V) (o : t V) : t V :=
  match o with
  | [] => [(k, v)]
  | (k', v') :: o' =>
      match array_index k, array_index k' with
      | Some n, Some n' =>
          if (n <? n')%N then (k, v) :: o else (k', v') :: add k v o'
      | Some _, None => (k, v) :: o
      | None, _ => (k', v') :: add k v o'
      end
  end.

Fixpoint replace {V} (k : string) (v : V) (o : t V) : t V :=
  match o with
  | [] => []
  | (k', v') :: o' =>
      if String.eqb k k' then (k, v) :: o' else (k', v') :: replace k v o'
  end.

(** [o[k] = v] *)
Definition set {V} (k : string) (v : V) (o : t V) : t V :=
  match get k o with
  | Some _ => replace k v o
  | None => add k v o
  end.
End JsObject.

Definition defines := JsObject.t define_value.

(** ** Imports of renderer.js that are not part of the sources at hand *)

(** material.js: the capability bits of CAP, the bit ranges of MAT_STATE,
    the bucket ids of RENDER_ORDER and [stateToBlendFunc]. *)
Class MaterialJs := {
  CAP_CULL_FACE : Z;
  CAP_BLEND : Z;
  CAP_DEPTH_TEST : Z;
  CAP_STENCIL_TEST : Z;
  CAP_COLOR_MASK : Z;
  CAP_DEPTH_MASK : Z;
  CAP_STENCIL_MASK : Z;
  MAT_STATE_CAPS_RANGE : Z;
  MAT_STATE_BLEND_SRC_SHIFT : Z;
  MAT_STATE_BLEND_SRC_RANGE : Z;
  MAT_STATE_BLEND_DST_SHIFT : Z;
  MAT_STATE_BLEND_DST_RANGE : Z;
  MAT_STATE_BLEND_FUNC_RANGE : Z;
  MAT_STATE_DEPTH_FUNC_SHIFT : Z;
  MAT_STATE_DEPTH_FUNC_RANGE : Z;
  RENDER_ORDER_OPAQUE : nat;
  RENDER_ORDER_TRANSPARENT : nat;
  RENDER_ORDER_DEFAULT : nat;
  stateToBlendFunc : Z -> Z -> Z -> Z;
}.

(** program.js: which uniform names a linked program ends up declaring,
    from its two sources and its defines. *)
Class ProgramJs := {
  linked_uniforms : string -> string -> defines -> list string;
}.

(** ** The objects of the renderer *)

Module RenderView.
Record DOMPoint := { x : number; y : number; z : number; w : number }.

(** An XRRigidTransform as the browser exposes it; [inverse_matrix] is
    [inverse.matrix]. *)
Record XRRigidTransform := {
  position : DOMPoint;
  orientation : DOMPoint;
  matrix : mat4;
  inverse_matrix : mat4;
}.

Definition mat4_identity : mat4 :=
  [1; 0; 0; 0;  0; 1; 0; 0;  0; 0; 1; 0;  0; 0; 0; 1]%Q.

(** [new XRRigidTransform()] *)
Definition XRRigidTransform_new : XRRigidTransform :=
  {| position := {| x := 0; y := 0; z := 0; w := 1 |}%Q;
     orientation := {| x := 0; y := 0; z := 0; w := 1 |}%Q;
     matrix := mat4_identity;
     inverse_matrix := mat4_identity |}.

Record Viewport := { vp_x : Z; vp_y : Z; vp_width : Z; vp_height : Z }.

Inductive viewTransform_arg :=
  | Float32Array (m : mat4)
  | RigidTransform (t : XRRigidTransform).

Record t := {
  projectionMatrix : mat4;
  viewport : option Viewport;
  _eye : string;
  _eyeIndex : Z;
  _viewMatrix : mat4;
  viewTransform : XRRigidTransform;
}.

Definition eyeIndex_of (eye : string) : Z :=
  if String.eqb eye "left" then 0 else 1.

Definition constructor (projectionMatrix : mat4)
    (viewTransform : viewTransform_arg) (viewport : option Viewport)
    (eye : string) : t :=
  match viewTransform with
  | Float32Array m =>
      {| projectionMatrix := projectionMatrix;
         viewport := viewport;
         _eye := eye;
         _eyeIndex := eyeIndex_of eye;
         _viewMatrix := m;
         viewTransform := XRRigidTransform_new |}
  | RigidTransform tr =>
      {| projectionMatrix := projectionMatrix;
         viewport := viewport;
         _eye := eye;
         _eyeIndex := eyeIndex_of eye;
         _viewMatrix := inverse_matrix tr;
         viewTransform := tr |}
  end.

Definition viewMatrix (v : t) : mat4 := _viewMatrix v.
Definition eyeIndex (v : t) : Z := _eyeIndex v.
End RenderView.

(** One entry of the depthData list of [drawViews];
    [transform_inverse_matrix] is [transform.inverse.matrix]. *)
Module DepthData.
Record t := {
  rawValueToMeters : number;
  projectionMatrix : option mat4;
  transform_inverse_matrix : mat4;
  texture : option handle;
}.
End DepthData.

Module RenderBuffer.
(** [_promise] is kept with the pending continuations of the world: it
    has resolved exactly when [_buffer] is set. *)
Record t := {
  _target : Z;
  _usage : Z;
  _length : Z;
  _buffer : option handle;
}.
End RenderBuffer.

Module RenderPrimitiveAttribute.
Record t := {
  _attrib_index : option Z;
  _componentCount : Z;
  _componentType : Z;
  _stride : Z;
  _byteOffset : Z;
  _normalized : bool;
}.

Definition constructor (a : PrimitiveAttribute.t) : t :=
  {| _attrib_index := ATTRIB (PrimitiveAttribute.name a);
     _componentCount := PrimitiveAttribute.componentCount a;
     _componentType := PrimitiveAttribute.componentType a;
     _stride := PrimitiveAttribute.stride a;
     _byteOffset := PrimitiveAttribute.byteOffset a;
     _normalized := PrimitiveAttribute.normalized a |}.
End RenderPrimitiveAttribute.

Module RenderPrimitiveAttributeBuffer.
Record t := {
  _buffer : bufref;
  _attributes : list RenderPrimitiveAttribute.t;
}.
End RenderPrimitiveAttributeBuffer.

Module RenderPrimitive.
(** [_promise] only records whether a completion promise exists; its
    continuation is kept with the pending continuations of the world. *)
Record t := {
  _activeFrameId : Z;
  _instances : list noderef;
  _material : option matref;
  _mode : Z;
  _elementCount : Z;
  _promise : bool;
  _vao : option handle;
  _complete : bool;
  _attributeBuffers : list RenderPrimitiveAttributeBuffer.t;
  _attributeMask : Z;
  _indexBuffer : option bufref;
  _indexByteOffset : Z;
  _indexType : Z;
  _min : option vec3;
  _max : option vec3;
}.
End RenderPrimitive.

Module RenderTexture.
(** [is_instance] tells the objects made by [new RenderTexture] from the
    plain objects that [addExternalTexture] puts into the cache, which
    have no [markActive].  [_activeCallback] holds what the callback
    closes over: the texture, its video and the texture handle. *)
Record t := {
  is_instance : bool;
  _texture : option handle;
  _complete : bool;
  _activeFrameId : Z;
  _activeCallback : option (Texture.t * nat * handle);
  _isExternalTexture : bool;
  _isArray : bool;
}.

Definition constructor (texture : handle) : t :=
  {| is_instance := true;
     _texture := Some texture;
     _complete := false;
     _activeFrameId := 0;
     _activeCallback := None;
     _isExternalTexture := false;
     _isArray := false |}.
End RenderTexture.

Module RenderMaterialSampler.
Record t := {
  _uniformName : string;
  _renderTexture : option texref;
  _index : Z;
}.
End RenderMaterialSampler.

Module RenderMaterialUniform.
(** [_uniform] is the location found for the name, if any. *)
Record t := {
  _uniformName : string;
  _uniform : bool;
  _length : Z;
  _value : list number;
}.

Definition constructor (u : MaterialUniform.t) : t :=
  {| _uniformName := MaterialUniform._uniformName u;
     _uniform := false;
     _length := MaterialUniform._length u;
     _value := match MaterialUniform._value u with
               | ArrayValue v => v
               | ScalarValue v => [v]
               end |}.
End RenderMaterialUniform.

Module RenderMaterial.
Record t := {
  _program : progref;
  _state : Z;
  _activeFrameId : Z;
  _completeForActiveFrame : bool;
  _samplers : list RenderMaterialSampler.t;
  _uniforms : list RenderMaterialUniform.t;
  _firstBind : bool;
  _renderOrder : nat;
}.
End RenderMaterial.

(** The material descriptor of material.js, as far as the renderer reads
    it; [state] is [material.state._state]. *)
Module Material.
Record t := {
  materialName : option string;
  vertexSource : option string;
  fragmentSource : option string;
  state : Z;
  renderOrder : nat;
  _samplers : list MaterialSampler.t;
  _uniforms : list MaterialUniform.t;
  getProgramDefines : RenderPrimitive.t -> defines;
}.
End Material.

(** The entry points appended to the shader bodies. *)
Inductive vertex_entry :=
  | VERTEX_SHADER_ENTRY
  | VERTEX_SHADER_MULTI_ENTRY
  | VERTEX_SHADER_DEPTH_ENTRY
  | VERTEX_SHADER_MULTI_DEPTH_ENTRY.

Inductive fragment_entry :=
  | FRAGMENT_SHADER_ENTRY
  | FRAGMENT_SHADER_MULTI_ENTRY
  | FRAGMENT_SHADER_DEPTH_ENTRY
  | FRAGMENT_SHADER_MULTI_DEPTH_ENTRY.

(** Modelled from the spec: the Program class of program.js, which is not
    part of the sources at hand.  A compiled program is built from the two
    full sources, the defines, the extensions and the layouts; it exposes
    a name-indexed lookup of its uniforms in which a missing name resolves
    to absence; [use] makes it current and runs, once, the callbacks left
    with [onNextUse] (each is kept as the sampler names it walks). *)
Module Program.
Record t := {
  fullVertexSource : string * vertex_entry;
  fullFragmentSource : string * string * fragment_entry;
  program_defines : defines;
  extensions : list string;
  layouts : list string;
  uniform : list string;
  _nextUseCallbacks : list (list string);
}.

Definition has_uniform (p : t) (name : string) : bool :=
  existsb (String.eqb name) (uniform p).
End Program.

(** Modelled from the spec: the Node class of node.js, which is not part
    of the sources at hand.  A scene node carries a world matrix and the
    frame in which it was last marked active, and refers to the render
    primitives attached to it. *)
Module Node.
Record t := {
  _activeFrameId : Z;
  worldMatrix : mat4;
  _renderPrimitives : list primref;
}.
End Node.

(** What the constructor asks of a context. *)
Module GLContext.
Record t := {
  OES_vertex_array_object : bool;
  OVR_multiview2 : bool;
  (** the precision of HIGH_FLOAT in fragment shaders; none when
      getShaderPrecisionFormat returns null *)
  fragHighPrecision : option Z;
}.
End GLContext.

Module Renderer.
Record t := {
  _gl : option GLContext.t;
  _frameId : Z;
  _programCache : gmap string progref;
  _textureCache : gmap string texref;
  _renderPrimitives : list (option (list primref));
  _cameraPositions : list vec3;
  _vaoExt : bool;
  _defaultFragPrecision : string;
  _depthMaskNeedsReset : bool;
  _colorMaskNeedsReset : bool;
  _globalLightColor : vec3;
  _globalLightDir : vec3;
  _mv_ext : bool;
  _multiview : bool;
  _multisampledMultiview : bool;
  _useDepth : bool;
}.
End Renderer.

(** ** The world: the context's log, the store and the pending promises *)

Inductive continuation :=
  (** [data.then(...)] of createRenderBuffer, followed by the [then] of the
      RenderBuffer constructor *)
  | FillBuffer (b : bufref) (glBuffer : handle) (data : promised Z)
  (** [Promise.all(completionPromises).then(...)] of waitForComplete *)
  | CompletePrimitive (p : primref) (completionPromises : list bufref)
  (** [texture.waitForComplete().then(...)] of _getRenderTexture *)
  | UploadTexture (texture : Texture.t) (renderTexture : texref)
      (textureHandle : handle)
  (** the listener for the 'playing' event of a video *)
  | OnPlaying (video : nat) (texture : Texture.t) (renderTexture : texref)
      (textureHandle : handle).

Record World := {
  gl_log : list glcall;
  next_handle : handle;
  buffers : list RenderBuffer.t;
  textures : list RenderTexture.t;
  programs : list Program.t;
  materials : list RenderMaterial.t;
  primitives : list RenderPrimitive.t;
  nodes : list Node.t;
  (** the videos that are paused or waiting *)
  stalled_videos : list nat;
  pending : list continuation;
  renderer : Renderer.t;
}.

(** ** Computations on the world *)

Inductive exn :=
  | Error (message : string)
  | TypeError (message : string).

Inductive outcome (A : Type) :=
  | Return (a : A)
  | Throw (e : exn).
Arguments Return {A} a.
Arguments Throw {A} e.

(** A computation runs on a world and leaves a world, whether it returns
    or throws. *)
Definition M (A : Type) : Type := World -> World * outcome A.

Definition ret {A} (a : A) : M A := fun w => (w, Return a).

Definition throw {A} (e : exn) : M A := fun w => (w, Throw e).

Definition bind {A B} (m : M A) (k : A -> M B) : M B :=
  fun w =>
    match m w with
    | (w', Return a) => k a w'
    | (w', Throw e) => (w', Throw e)
    end.

Notation "x <- m ;; k" := (bind m (fun x => k))
  (at level 100, m at next level, right associativity).
Notation "m ;; k" := (bind m (fun _ => k))
  (at level 100, right associativity).

Definition gets {A} (f : World -> A) : M A := fun w => (w, Return (f w)).

Definition modify (f : World -> World) : M unit := fun w => (f w, Return tt).

Fixpoint for_each {A} (l : list A) (body : A -> M unit) : M unit :=
  match l with
  | [] => ret tt
  | a :: l' => body a ;; for_each l' body
  end.

Definition when (b : bool) (m : M unit) : M unit := if b then m else ret tt.

(** *** The fields of the world *)

Definition set_gl_log (f : list glcall -> list glcall) (w : World) : World :=
  {| gl_log := f (gl_log w); next_handle := next_handle w;
     buffers := buffers w; textures := textures w; programs := programs w;
     materials := materials w; primitives := primitives w; nodes := nodes w;
     stalled_videos := stalled_videos w; pending := pending w;
     renderer := renderer w |}.

Definition set_next_handle (f : handle -> handle) (w : World) : World :=
  {| gl_log := gl_log w; next_handle := f (next_handle w);
     buffers := buffers w; textures := textures w; programs := programs w;
     materials := materials w; primitives := primitives w; nodes := nodes w;
     stalled_videos := stalled_videos w; pending := pending w;
     renderer := renderer w |}.

Definition set_buffers (f : list RenderBuffer.t -> list RenderBuffer.t)
    (w : World) : World :=
  {| gl_log := gl_log w; next_handle := next_handle w;
     buffers := f (buffers w); textures := textures w; programs := programs w;
     materials := materials w; primitives := primitives w; nodes := nodes w;
     stalled_videos := stalled_videos w; pending := pending w;
     renderer := renderer w |}.

Definition set_textures (f : list RenderTexture.t -> list RenderTexture.t)
    (w : World) : World :=
  {| gl_log := gl_log w; next_handle := next_handle w;
     buffers := buffers w; textures := f (textures w); programs := programs w;
     materials := materials w; primitives := primitives w; nodes := nodes w;
     stalled_videos := stalled_videos w; pending := pending w;
     renderer := renderer w |}.

Definition set_programs (f : list Program.t -> list Program.t)
    (w : World) : World :=
  {| gl_log := gl_log w; next_handle := next_handle w;
     buffers := buffers w; textures := textures w; programs := f (programs w);
     materials := materials w; primitives := primitives w; nodes := nodes w;
     stalled_videos := stalled_videos w; pending := pending w;
     renderer := renderer w |}.

Definition set_materials (f : list RenderMaterial.t -> list RenderMaterial.t)
    (w : World) : World :=
  {| gl_log := gl_log w; next_handle := next_handle w;
     buffers := buffers w; textures := textures w; programs := programs w;
     materials := f (materials w); primitives := primitives w; nodes := nodes w;
     stalled_videos := stalled_videos w; pending := pending w;
     renderer := renderer w |}.

Definition set_primitives (f : list RenderPrimitive.t -> list RenderPrimitive.t)
    (w : World) : World :=
  {| gl_log := gl_log w; next_handle := next_handle w;
     buffers := buffers w; textures := textures w; programs := programs w;
     materials := materials w; primitives := f (primitives w); nodes := nodes w;
     stalled_videos := stalled_videos w; pending := pending w;
     renderer := renderer w |}.

Definition set_nodes (f : list Node.t -> list Node.t) (w : World) : World :=
  {| gl_log := gl_log w; next_handle := next_handle w;
     buffers := buffers w; textures := textures w; programs := programs w;
     materials := materials w; primitives := primitives w; nodes := f (nodes w);
     stalled_videos := stalled_videos w; pending := pending w;
     renderer := renderer w |}.

Definition set_stalled_videos (f : list nat -> list nat) (w : World) : World :=
  {| gl_log := gl_log w; next_handle := next_handle w;
     buffers := buffers w; textures := textures w; programs := programs w;
     materials := materials w; primitives := primitives w; nodes := nodes w;
     stalled_videos := f (stalled_videos w); pending := pending w;
     renderer := renderer w |}.

Definition set_pending (f : list continuation -> list continuation)
    (w : World) : World :=
  {| gl_log := gl_log w; next_handle := next_handle w;
     buffers := buffers w; textures := textures w; programs := programs w;
     materials := materials w; primitives := primitives w; nodes := nodes w;
     stalled_videos := stalled_videos w; pending := f (pending w);
     renderer := renderer w |}.

Definition set_renderer (f : Renderer.t -> Renderer.t) (w : World) : World :=
  {| gl_log := gl_log w; next_handle := next_handle w;
     buffers := buffers w; textures := textures w; programs := programs w;
     materials := materials w; primitives := primitives w; nodes := nodes w;
     stalled_videos := stalled_videos w; pending := pending w;
     renderer := f (renderer w) |}.

(** *** The context and the store *)

(** A call on the context. *)
Definition gl (c : glcall) : M unit := modify (set_gl_log (fun l => l ++ [c])).

Definition gl_all (cs : list glcall) : M unit := for_each cs gl.

(** The name of the next object the context creates. *)
Definition fresh_handle : M handle :=
  h <- gets next_handle ;;
  modify (set_next_handle S) ;;
  ret h.

(** One kind of object of the store: where the objects are, and how to
    change them. *)
Record heap (A : Type) := {
  objects : World -> list A;
  set_objects : (list A -> list A) -> World -> World;
}.
Arguments objects {A} h w.
Arguments set_objects {A} h f w.

Definition bufferH := {| objects := buffers; set_objects := set_buffers |}.
Definition textureH := {| objects := textures; set_objects := set_textures |}.
Definition programH := {| objects := programs; set_objects := set_programs |}.
Definition materialH := {| objects := materials; set_objects := set_materials |}.
Definition primitiveH := {| objects := primitives; set_objects := set_primitives |}.
Definition nodeH := {| objects := nodes; set_objects := set_nodes |}.

(** Reading through a reference; a reference to nothing is undefined, and
    reading a property of undefined throws. *)
Definition deref {A} (H : heap A) (r : nat) : M A :=
  fun w =>
    match objects H w !! r with
    | Some a => (w, Return a)
    | None => (w, Throw (TypeError "Cannot read properties of undefined"))
    end.

(** Writing the fields of an object in place. *)
Definition update {A} (H : heap A) (r : nat) (f : A -> A) : M unit :=
  modify (set_objects H (alter f r)).

(** [new]: the object is added to the store and its reference returned. *)
Definition alloc {A} (H : heap A) (a : A) : M nat :=
  r <- gets (fun w => length (objects H w)) ;;
  modify (set_objects H (fun l => l ++ [a])) ;;
  ret r.

Definition get_renderer : M Renderer.t := gets renderer.

Definition update_renderer (f : Renderer.t -> Renderer.t) : M unit :=
  modify (set_renderer f).

Definition add_continuation (c : continuation) : M unit :=
  modify (set_pending (fun l => l ++ [c])).

Definition item {A} (l : list A) (i : nat) : M A :=
  match l !! i with
  | Some a => ret a
  | None => throw (TypeError "Cannot read properties of undefined")
  end.

(** *** Field assignments *)

Definition prim_set_activeFrameId (v : Z) (p : RenderPrimitive.t) :=
  {| RenderPrimitive._activeFrameId := v;
     RenderPrimitive._instances := RenderPrimitive._instances p;
     RenderPrimitive._material := RenderPrimitive._material p;
     RenderPrimitive._mode := RenderPrimitive._mode p;
     RenderPrimitive._elementCount := RenderPrimitive._elementCount p;
     RenderPrimitive._promise := RenderPrimitive._promise p;
     RenderPrimitive._vao := RenderPrimitive._vao p;
     RenderPrimitive._complete := RenderPrimitive._complete p;
     RenderPrimitive._attributeBuffers := RenderPrimitive._attributeBuffers p;
     RenderPrimitive._attributeMask := RenderPrimitive._attributeMask p;
     RenderPrimitive._indexBuffer := RenderPrimitive._indexBuffer p;
     RenderPrimitive._indexByteOffset := RenderPrimitive._indexByteOffset p;
     RenderPrimitive._indexType := RenderPrimitive._indexType p;
     RenderPrimitive._min := RenderPrimitive._min p;
     RenderPrimitive._max := RenderPrimitive._max p |}.

Definition prim_set_instances (v : list noderef) (p : RenderPrimitive.t) :=
  {| RenderPrimitive._activeFrameId := RenderPrimitive._activeFrameId p;
     RenderPrimitive._instances := v;
     RenderPrimitive._material := RenderPrimitive._material p;
     RenderPrimitive._mode := RenderPrimitive._mode p;
     RenderPrimitive._elementCount := RenderPrimitive._elementCount p;
     RenderPrimitive._promise := RenderPrimitive._promise p;
     RenderPrimitive._vao := RenderPrimitive._vao p;
     RenderPrimitive._complete := RenderPrimitive._complete p;
     RenderPrimitive._attributeBuffers := RenderPrimitive._attributeBuffers p;
     RenderPrimitive._attributeMask := RenderPrimitive._attributeMask p;
     RenderPrimitive._indexBuffer := RenderPrimitive._indexBuffer p;
     RenderPrimitive._indexByteOffset := RenderPrimitive._indexByteOffset p;
     RenderPrimitive._indexType := RenderPrimitive._indexType p;
     RenderPrimitive._min := RenderPrimitive._min p;
     RenderPrimitive._max := RenderPrimitive._max p |}.

(** [_material], [_promise] and [_complete], which setRenderMaterial
    assigns together. *)
Definition prim_set_material (m : option matref) (promise complete : bool)
    (p : RenderPrimitive.t) :=
  {| RenderPrimitive._activeFrameId := RenderPrimitive._activeFrameId p;
     RenderPrimitive._instances := RenderPrimitive._instances p;
     RenderPrimitive._material := m;
     RenderPrimitive._mode := RenderPrimitive._mode p;
     RenderPrimitive._elementCount := RenderPrimitive._elementCount p;
     RenderPrimitive._promise := promise;
     RenderPrimitive._vao := RenderPrimitive._vao p;
     RenderPrimitive._complete := complete;
     RenderPrimitive._attributeBuffers := RenderPrimitive._attributeBuffers p;
     RenderPrimitive._attributeMask := RenderPrimitive._attributeMask p;
     RenderPrimitive._indexBuffer := RenderPrimitive._indexBuffer p;
     RenderPrimitive._indexByteOffset := RenderPrimitive._indexByteOffset p;
     RenderPrimitive._indexType := RenderPrimitive._indexType p;
     RenderPrimitive._min := RenderPrimitive._min p;
     RenderPrimitive._max := RenderPrimitive._max p |}.

Definition prim_set_promise (v : bool) (p : RenderPrimitive.t) :=
  prim_set_material (RenderPrimitive._material p) v
    (RenderPrimitive._complete p) p.

Definition prim_set_complete (v : bool) (p : RenderPrimitive.t) :=
  prim_set_material (RenderPrimitive._material p)
    (RenderPrimitive._promise p) v p.

Definition prim_set_vao (v : option handle) (p : RenderPrimitive.t) :=
  {| RenderPrimitive._activeFrameId := RenderPrimitive._activeFrameId p;
     RenderPrimitive._instances := RenderPrimitive._instances p;
     RenderPrimitive._material := RenderPrimitive._material p;
     RenderPrimitive._mode := RenderPrimitive._mode p;
     RenderPrimitive._elementCount := RenderPrimitive._elementCount p;
     RenderPrimitive._promise := RenderPrimitive._promise p;
     RenderPrimitive._vao := v;
     RenderPrimitive._complete := RenderPrimitive._complete p;
     RenderPrimitive._attributeBuffers := RenderPrimitive._attributeBuffers p;
     RenderPrimitive._attributeMask := RenderPrimitive._attributeMask p;
     RenderPrimitive._indexBuffer := RenderPrimitive._indexBuffer p;
     RenderPrimitive._indexByteOffset := RenderPrimitive._indexByteOffset p;
     RenderPrimitive._indexType := RenderPrimitive._indexType p;
     RenderPrimitive._min := RenderPrimitive._min p;
     RenderPrimitive._max := RenderPrimitive._max p |}.

Definition buf_set_filled (length : Z) (buffer : handle) (b : RenderBuffer.t) :=
  {| RenderBuffer._target := RenderBuffer._target b;
     RenderBuffer._usage := RenderBuffer._usage b;
     RenderBuffer._length := length;
     RenderBuffer._buffer := Some buffer |}.

Definition tex_set_complete (v : bool) (t : RenderTexture.t) :=
  {| RenderTexture.is_instance := RenderTexture.is_instance t;
     RenderTexture._texture := RenderTexture._texture t;
     RenderTexture._complete := v;
     RenderTexture._activeFrameId := RenderTexture._activeFrameId t;
     RenderTexture._activeCallback := RenderTexture._activeCallback t;
     RenderTexture._isExternalTexture := RenderTexture._isExternalTexture t;
     RenderTexture._isArray := RenderTexture._isArray t |}.

Definition tex_set_activeFrameId (v : Z) (t : RenderTexture.t) :=
  {| RenderTexture.is_instance := RenderTexture.is_instance t;
     RenderTexture._texture := RenderTexture._texture t;
     RenderTexture._complete := RenderTexture._complete t;
     RenderTexture._activeFrameId := v;
     RenderTexture._activeCallback := RenderTexture._activeCallback t;
     RenderTexture._isExternalTexture := RenderTexture._isExternalTexture t;
     RenderTexture._isArray := RenderTexture._isArray t |}.

Definition tex_set_activeCallback (v : option (Texture.t * nat * handle))
    (t : RenderTexture.t) :=
  {| RenderTexture.is_instance := RenderTexture.is_instance t;
     RenderTexture._texture := RenderTexture._texture t;
     RenderTexture._complete := RenderTexture._complete t;
     RenderTexture._activeFrameId := RenderTexture._activeFrameId t;
     RenderTexture._activeCallback := v;
     RenderTexture._isExternalTexture := RenderTexture._isExternalTexture t;
     RenderTexture._isArray := RenderTexture._isArray t |}.

Definition tex_set_isExternalTexture (v : bool) (t : RenderTexture.t) :=
  {| RenderTexture.is_instance := RenderTexture.is_instance t;
     RenderTexture._texture := RenderTexture._texture t;
     RenderTexture._complete := RenderTexture._complete t;
     RenderTexture._activeFrameId := RenderTexture._activeFrameId t;
     RenderTexture._activeCallback := RenderTexture._activeCallback t;
     RenderTexture._isExternalTexture := v;
     RenderTexture._isArray := RenderTexture._isArray t |}.

(** The three fields that addExternalTexture assigns. *)
Definition tex_set_external (texture : option handle) (isArray : bool)
    (t : RenderTexture.t) :=
  {| RenderTexture.is_instance := RenderTexture.is_instance t;
     RenderTexture._texture := texture;
     RenderTexture._complete := true;
     RenderTexture._activeFrameId := RenderTexture._activeFrameId t;
     RenderTexture._activeCallback := RenderTexture._activeCallback t;
     RenderTexture._isExternalTexture := RenderTexture._isExternalTexture t;
     RenderTexture._isArray := isArray |}.

Definition mat_set_active (frameId : Z) (complete : bool)
    (m : RenderMaterial.t) :=
  {| RenderMaterial._program := RenderMaterial._program m;
     RenderMaterial._state := RenderMaterial._state m;
     RenderMaterial._activeFrameId := frameId;
     RenderMaterial._completeForActiveFrame := complete;
     RenderMaterial._samplers := RenderMaterial._samplers m;
     RenderMaterial._uniforms := RenderMaterial._uniforms m;
     RenderMaterial._firstBind := RenderMaterial._firstBind m;
     RenderMaterial._renderOrder := RenderMaterial._renderOrder m |}.

Definition mat_set_completeForActiveFrame (complete : bool)
    (m : RenderMaterial.t) :=
  mat_set_active (RenderMaterial._activeFrameId m) complete m.

Definition mat_set_bound (samplers : list RenderMaterialSampler.t)
    (uniforms : list RenderMaterialUniform.t) (m : RenderMaterial.t) :=
  {| RenderMaterial._program := RenderMaterial._program m;
     RenderMaterial._state := RenderMaterial._state m;
     RenderMaterial._activeFrameId := RenderMaterial._activeFrameId m;
     RenderMaterial._completeForActiveFrame :=
       RenderMaterial._completeForActiveFrame m;
     RenderMaterial._samplers := samplers;
     RenderMaterial._uniforms := uniforms;
     RenderMaterial._firstBind := false;
     RenderMaterial._renderOrder := RenderMaterial._renderOrder m |}.

Definition uniform_set_uniform (v : bool) (u : RenderMaterialUniform.t) :=
  {| RenderMaterialUniform._uniformName := RenderMaterialUniform._uniformName u;
     RenderMaterialUniform._uniform := v;
     RenderMaterialUniform._length := RenderMaterialUniform._length u;
     RenderMaterialUniform._value := RenderMaterialUniform._value u |}.

Definition prog_clear_callbacks (p : Program.t) :=
  {| Program.fullVertexSource := Program.fullVertexSource p;
     Program.fullFragmentSource := Program.fullFragmentSource p;
     Program.program_defines := Program.program_defines p;
     Program.extensions := Program.extensions p;
     Program.layouts := Program.layouts p;
     Program.uniform := Program.uniform p;
     Program._nextUseCallbacks := [] |}.

Definition node_set_activeFrameId (v : Z) (n : Node.t) :=
  {| Node._activeFrameId := v;
     Node.worldMatrix := Node.worldMatrix n;
     Node._renderPrimitives := Node._renderPrimitives n |}.

Definition node_add_primitive (p : primref) (n : Node.t) :=
  {| Node._activeFrameId := Node._activeFrameId n;
     Node.worldMatrix := Node.worldMatrix n;
     Node._renderPrimitives := Node._renderPrimitives n ++ [p] |}.

(** The fields of the renderer that change after construction. *)
Definition rend_set (frameId : Z) (programCache : gmap string progref)
    (textureCache : gmap string texref)
    (renderPrimitives : list (option (list primref)))
    (cameraPositions : list vec3) (depthMaskNeedsReset colorMaskNeedsReset : bool)
    (r : Renderer.t) :=
  {| Renderer._gl := Renderer._gl r;
     Renderer._frameId := frameId;
     Renderer._programCache := programCache;
     Renderer._textureCache := textureCache;
     Renderer._renderPrimitives := renderPrimitives;
     Renderer._cameraPositions := cameraPositions;
     Renderer._vaoExt := Renderer._vaoExt r;
     Renderer._defaultFragPrecision := Renderer._defaultFragPrecision r;
     Renderer._depthMaskNeedsReset := depthMaskNeedsReset;
     Renderer._colorMaskNeedsReset := colorMaskNeedsReset;
     Renderer._globalLightColor := Renderer._globalLightColor r;
     Renderer._globalLightDir := Renderer._globalLightDir r;
     Renderer._mv_ext := Renderer._mv_ext r;
     Renderer._multiview := Renderer._multiview r;
     Renderer._multisampledMultiview := Renderer._multisampledMultiview r;
     Renderer._useDepth := Renderer._useDepth r |}.

Definition rend_set_frameId (v : Z) (r : Renderer.t) :=
  rend_set v (Renderer._programCache r) (Renderer._textureCache r)
    (Renderer._renderPrimitives r) (Renderer._cameraPositions r)
    (Renderer._depthMaskNeedsReset r) (Renderer._colorMaskNeedsReset r) r.

Definition rend_set_programCache (v : gmap string progref) (r : Renderer.t) :=
  rend_set (Renderer._frameId r) v (Renderer._textureCache r)
    (Renderer._renderPrimitives r) (Renderer._cameraPositions r)
    (Renderer._depthMaskNeedsReset r) (Renderer._colorMaskNeedsReset r) r.

Definition rend_set_textureCache (v : gmap string texref) (r : Renderer.t) :=
  rend_set (Renderer._frameId r) (Renderer._programCache r) v
    (Renderer._renderPrimitives r) (Renderer._cameraPositions r)
    (Renderer._depthMaskNeedsReset r) (Renderer._colorMaskNeedsReset r) r.

Definition rend_set_renderPrimitives (v : list (option (list primref)))
    (r : Renderer.t) :=
  rend_set (Renderer._frameId r) (Renderer._programCache r)
    (Renderer._textureCache r) v (Renderer._cameraPositions r)
    (Renderer._depthMaskNeedsReset r) (Renderer._colorMaskNeedsReset r) r.

Definition rend_set_cameraPositions (v : list vec3) (r : Renderer.t) :=
  rend_set (Renderer._frameId r) (Renderer._programCache r)
    (Renderer._textureCache r) (Renderer._renderPrimitives r) v
    (Renderer._depthMaskNeedsReset r) (Renderer._colorMaskNeedsReset r) r.

Definition rend_set_depthMaskNeedsReset (v : bool) (r : Renderer.t) :=
  rend_set (Renderer._frameId r) (Renderer._programCache r)
    (Renderer._textureCache r) (Renderer._renderPrimitives r)
    (Renderer._cameraPositions r) v (Renderer._colorMaskNeedsReset r) r.

Definition rend_set_colorMaskNeedsReset (v : bool) (r : Renderer.t) :=
  rend_set (Renderer._frameId r) (Renderer._programCache r)
    (Renderer._textureCache r) (Renderer._renderPrimitives r)
    (Renderer._cameraPositions r) (Renderer._depthMaskNeedsReset r) v r.

(** ** The code of renderer.js *)

Definition some {A} (o : option A) : bool :=
  match o with Some _ => true | None => false end.

(** *** RenderPrimitive *)

(** The search of setPrimitive for the attribute buffer of a buffer. *)
Fixpoint push_attribute (buffer : bufref) (a : RenderPrimitiveAttribute.t)
    (abs : list RenderPrimitiveAttributeBuffer.t)
    : option (list RenderPrimitiveAttributeBuffer.t) :=
  match abs with
  | [] => None
  | ab :: rest =>
      if Nat.eqb (RenderPrimitiveAttributeBuffer._buffer ab) buffer
      then Some ({| RenderPrimitiveAttributeBuffer._buffer :=
                      RenderPrimitiveAttributeBuffer._buffer ab;
                    RenderPrimitiveAttributeBuffer._attributes :=
                      RenderPrimitiveAttributeBuffer._attributes ab ++ [a] |}
                 :: rest)
      else option_map (cons ab) (push_attribute buffer a rest)
  end.

(** One round of the loop of setPrimitive over [primitive.attributes]. *)
Definition setPrimitive_attribute
    (acc : Z * list RenderPrimitiveAttributeBuffer.t)
    (attribute : PrimitiveAttribute.t)
    : Z * list RenderPrimitiveAttributeBuffer.t :=
  let mask :=
    js_or (fst acc) (default 0 (ATTRIB_MASK (PrimitiveAttribute.name attribute))) in
  let renderAttribute := RenderPrimitiveAttribute.constructor attribute in
  match push_attribute (PrimitiveAttribute.buffer attribute) renderAttribute (snd acc) with
  | Some abs => (mask, abs)
  | None =>
      (mask,
       snd acc ++
       [{| RenderPrimitiveAttributeBuffer._buffer := PrimitiveAttribute.buffer attribute;
           RenderPrimitiveAttributeBuffer._attributes := [renderAttribute] |}])
  end.

(** The assignments of setPrimitive. *)
Definition setPrimitive_fields (primitive : Primitive.t)
    (p : RenderPrimitive.t) : RenderPrimitive.t :=
  let acc := fold_left setPrimitive_attribute (Primitive.attributes primitive) (0, []) in
  {| RenderPrimitive._activeFrameId := RenderPrimitive._activeFrameId p;
     RenderPrimitive._instances := RenderPrimitive._instances p;
     RenderPrimitive._material := RenderPrimitive._material p;
     RenderPrimitive._mode := Primitive.mode primitive;
     RenderPrimitive._elementCount := Primitive.elementCount primitive;
     RenderPrimitive._promise := false;
     RenderPrimitive._vao := None;
     RenderPrimitive._complete := false;
     RenderPrimitive._attributeBuffers := snd acc;
     RenderPrimitive._attributeMask := fst acc;
     RenderPrimitive._indexBuffer := Primitive.indexBuffer primitive;
     RenderPrimitive._indexByteOffset :=
       if some (Primitive.indexBuffer primitive)
       then Primitive.indexByteOffset primitive else 0;
     RenderPrimitive._indexType :=
       if some (Primitive.indexBuffer primitive)
       then Primitive.indexType primitive else 0;
     RenderPrimitive._min := Primitive._min primitive;
     RenderPrimitive._max :=
       if some (Primitive._min primitive) then Primitive._max primitive else None |}.

(** The loop of waitForComplete over the attribute buffers. *)
Fixpoint completionPromises_of (abs : list RenderPrimitiveAttributeBuffer.t)
    (acc : list bufref) : M (list bufref) :=
  match abs with
  | [] => ret acc
  | attributeBuffer :: rest =>
      b <- deref bufferH (RenderPrimitiveAttributeBuffer._buffer attributeBuffer) ;;
      completionPromises_of rest
        (if some (RenderBuffer._buffer b) then acc
         else acc ++ [RenderPrimitiveAttributeBuffer._buffer attributeBuffer])
  end.

(** The promise it returns is not used by the renderer; what matters is
    the continuation it leaves behind. *)
Definition RenderPrimitive_waitForComplete (this : primref) : M unit :=
  p <- deref primitiveH this ;;
  if RenderPrimitive._promise p then ret tt
  else
    match RenderPrimitive._material p with
    | None => ret tt
    | Some _ =>
        completionPromises <-
          completionPromises_of (RenderPrimitive._attributeBuffers p) [] ;;
        completionPromises <-
          match RenderPrimitive._indexBuffer p with
          | Some ib =>
              b <- deref bufferH ib ;;
              ret (if some (RenderBuffer._buffer b) then completionPromises
                   else completionPromises ++ [ib])
          | None => ret completionPromises
          end ;;
        add_continuation (CompletePrimitive this completionPromises) ;;
        update primitiveH this (prim_set_promise true)
    end.

Definition RenderPrimitive_setPrimitive (this : primref)
    (primitive : Primitive.t) : M unit :=
  update primitiveH this (setPrimitive_fields primitive) ;;
  p <- deref primitiveH this ;;
  when (some (RenderPrimitive._material p)) (RenderPrimitive_waitForComplete this).

(** The constructor leaves [_material] null, so that its setPrimitive
    does not wait. *)
Definition RenderPrimitive_constructor (primitive : Primitive.t) : M primref :=
  alloc primitiveH
    (setPrimitive_fields primitive
       {| RenderPrimitive._activeFrameId := 0;
          RenderPrimitive._instances := [];
          RenderPrimitive._material := None;
          RenderPrimitive._mode := 0;
          RenderPrimitive._elementCount := 0;
          RenderPrimitive._promise := false;
          RenderPrimitive._vao := None;
          RenderPrimitive._complete := false;
          RenderPrimitive._attributeBuffers := [];
          RenderPrimitive._attributeMask := 0;
          RenderPrimitive._indexBuffer := None;
          RenderPrimitive._indexByteOffset := 0;
          RenderPrimitive._indexType := 0;
          RenderPrimitive._min := None;
          RenderPrimitive._max := None |}).

Definition RenderPrimitive_setRenderMaterial (this : primref)
    (material : option matref) : M unit :=
  update primitiveH this (prim_set_material material false false) ;;
  when (some material) (RenderPrimitive_waitForComplete this).

(** *** RenderTexture *)

Definition texImage2D_source (texture : Texture.t) : glcall :=
  texImage2D GL.TEXTURE_2D 0 (Texture.format texture)
    (PixelSource (Texture.format texture) GL.UNSIGNED_BYTE (Texture.source texture)).

(** The callback installed for a playing video. *)
Definition activeCallback (texture : Texture.t) (video : nat)
    (textureHandle : handle) : M unit :=
  stalled <- gets stalled_videos ;;
  if existsb (Nat.eqb video) stalled then ret tt
  else
    gl (bindTexture GL.TEXTURE_2D (Some textureHandle)) ;;
    gl (texImage2D_source texture).

Definition RenderTexture_markActive (this : texref) (frameId : Z) : M unit :=
  t <- deref textureH this ;;
  if negb (RenderTexture.is_instance t)
  then throw (TypeError "markActive is not a function")
  else
    match RenderTexture._activeCallback t with
    | Some (texture, video, textureHandle) =>
        if RenderTexture._activeFrameId t =? frameId then ret tt
        else
          update textureH this (tex_set_activeFrameId frameId) ;;
          activeCallback texture video textureHandle
    | None => ret tt
    end.

(** *** RenderMaterial.markActive *)

(** The loop over the samplers, left at the first incomplete texture. *)
Fixpoint markActive_samplers (this : matref)
    (samplers : list RenderMaterialSampler.t) (frameId : Z) : M unit :=
  match samplers with
  | [] => ret tt
  | sampler :: rest =>
      match RenderMaterialSampler._renderTexture sampler with
      | Some r =>
          t <- deref textureH r ;;
          if negb (RenderTexture._complete t)
          then update materialH this (mat_set_completeForActiveFrame false)
          else
            RenderTexture_markActive r frameId ;;
            markActive_samplers this rest frameId
      | None => markActive_samplers this rest frameId
      end
  end.

Definition RenderMaterial_markActive (this : matref) (frameId : Z) : M bool :=
  m <- deref materialH this ;;
  (if RenderMaterial._activeFrameId m =? frameId then ret tt
   else
     update materialH this (mat_set_active frameId true) ;;
     markActive_samplers this (RenderMaterial._samplers m) frameId) ;;
  m <- deref materialH this ;;
  ret (RenderMaterial._completeForActiveFrame m).

Definition RenderPrimitive_markActive (this : primref) (frameId : Z) : M unit :=
  p <- deref primitiveH this ;;
  if RenderPrimitive._complete p && negb (RenderPrimitive._activeFrameId p =? frameId)
  then
    match RenderPrimitive._material p with
    | Some m =>
        complete <- RenderMaterial_markActive m frameId ;;
        if complete
        then update primitiveH this (prim_set_activeFrameId frameId)
        else ret tt
    | None => update primitiveH this (prim_set_activeFrameId frameId)
    end
  else ret tt.

(** Modelled from the spec: markActive of the Node class of node.js,
    which is not part of the sources at hand.  Marking a node stamps it
    with the frame id and propagates to the render primitives attached to
    it. *)
Definition Node_markActive (this : noderef) (frameId : Z) : M unit :=
  n <- deref nodeH this ;;
  update nodeH this (node_set_activeFrameId frameId) ;;
  for_each (Node._renderPrimitives n) (fun p => RenderPrimitive_markActive p frameId).

(** Modelled from the spec: addRenderPrimitive of the Node class, which
    makes the node an instance of the primitive. *)
Definition Node_addRenderPrimitive (this : noderef) (p : primref) : M unit :=
  rp <- deref primitiveH p ;;
  n <- deref nodeH this ;;
  update nodeH this (node_add_primitive p) ;;
  update primitiveH p (prim_set_instances (RenderPrimitive._instances rp ++ [this])).

(** *** Textures of the Renderer *)

(** [_textureCache] is a plain object, [{}]: besides its own properties,
    which the map holds, it answers [key in cache] and [cache[key]] for
    the properties that it inherits from Object.prototype.  These are
    their names.  The objects they name exist before the renderer does:
    they are the first objects of the store of a new world, in this
    order (the one under "__proto__" is Object.prototype itself).  They
    are not instances of RenderTexture and have none of its fields; the
    fields that addExternalTexture assigns to one become fields of that
    object.  When the object is Object.prototype itself (the key is
    "__proto__"), the three fields are recorded on it; that every object
    of the page without such a field of its own then shows them, in its
    property reads and in the for-in loops over it, is not followed: the
    model stops at the objects of the renderer, as the sources at hand
    do. *)
Definition Object_prototype_names : list string :=
  ["constructor"; "__defineGetter__"; "__defineSetter__"; "hasOwnProperty";
   "__lookupGetter__"; "__lookupSetter__"; "isPrototypeOf";
   "propertyIsEnumerable"; "toString"; "valueOf"; "__proto__";
   "toLocaleString"].

Fixpoint index_of (key : string) (names : list string) : option nat :=
  match names with
  | [] => None
  | name :: rest =>
      if String.eqb key name then Some 0%nat else S <$> index_of key rest
  end.

(** The object that a plain object inherits under [key], if any. *)
Definition inherited (key : string) : option texref :=
  index_of key Object_prototype_names.

(** An object without any of the fields of a RenderTexture: reading one
    gives undefined. *)
Definition inherited_object : RenderTexture.t :=
  {| RenderTexture.is_instance := false;
     RenderTexture._texture := None;
     RenderTexture._complete := false;
     RenderTexture._activeFrameId := 0;
     RenderTexture._activeCallback := None;
     RenderTexture._isExternalTexture := false;
     RenderTexture._isArray := false |}.

(** [this._textureCache[key]]: the own property, or else the inherited
    one; [key in this._textureCache] is whether there is either. *)
Definition cache_get (r : Renderer.t) (key : string) : option texref :=
  match Renderer._textureCache r !! key with
  | Some t => Some t
  | None => inherited key
  end.

Definition addExternalTexture (key : string) (texture : option handle)
    (isArray : bool) : M unit :=
  r <- get_renderer ;;
  match cache_get r key with
  | Some t => update textureH t (tex_set_external texture isArray)
  | None =>
      t <- alloc textureH
             {| RenderTexture.is_instance := false;
                RenderTexture._texture := texture;
                RenderTexture._complete := true;
                RenderTexture._activeFrameId := 0;
                RenderTexture._activeCallback := None;
                RenderTexture._isExternalTexture := false;
                RenderTexture._isArray := isArray |} ;;
      update_renderer (fun r => rend_set_textureCache (<[key := t]> (Renderer._textureCache r)) r)
  end.

Definition powerOfTwo (texture : Texture.t) : bool :=
  isPowerOfTwo (Texture.width texture) && isPowerOfTwo (Texture.height texture).

Definition _setSamplerParameters (texture : Texture.t) : list glcall :=
  let sampler := Texture.sampler texture in
  let mipmap := powerOfTwo texture && Texture.mipmap texture in
  let minFilter :=
    js_or_else (Sampler.minFilter sampler)
      (if mipmap then GL.LINEAR_MIPMAP_LINEAR else GL.LINEAR) in
  let wrapS :=
    js_or_else (Sampler.wrapS sampler)
      (if powerOfTwo texture then GL.REPEAT else GL.CLAMP_TO_EDGE) in
  let wrapT :=
    js_or_else (Sampler.wrapT sampler)
      (if powerOfTwo texture then GL.REPEAT else GL.CLAMP_TO_EDGE) in
  (if mipmap then [generateMipmap GL.TEXTURE_2D] else []) ++
  [texParameteri GL.TEXTURE_2D GL.TEXTURE_MAG_FILTER
     (js_or_else (Sampler.magFilter sampler) GL.LINEAR);
   texParameteri GL.TEXTURE_2D GL.TEXTURE_MIN_FILTER minFilter;
   texParameteri GL.TEXTURE_2D GL.TEXTURE_WRAP_S wrapS;
   texParameteri GL.TEXTURE_2D GL.TEXTURE_WRAP_T wrapT].

Definition _getRenderTexture (texture : option Texture.t) : M (option texref) :=
  match texture with
  | None => ret None
  | Some texture =>
      match valid_key (Texture.textureKey texture) with
      | None => throw (Error "Texure does not have a valid key")
      | Some key =>
          r <- get_renderer ;;
          match cache_get r key with
          | Some t => ret (Some t)
          | None =>
              textureHandle <- fresh_handle ;;
              gl (createTexture textureHandle) ;;
              renderTexture <- alloc textureH (RenderTexture.constructor textureHandle) ;;
              update_renderer (fun r =>
                rend_set_textureCache (<[key := renderTexture]> (Renderer._textureCache r)) r) ;;
              match Texture.class texture with
              | ExternalTexture =>
                  update textureH renderTexture (tex_set_isExternalTexture true)
              | DataTexture _type _data =>
                  gl (bindTexture GL.TEXTURE_2D (Some textureHandle)) ;;
                  gl (texImage2D GL.TEXTURE_2D 0 (Texture.format texture)
                        (PixelData (Texture.width texture) (Texture.height texture) 0
                           (Texture.format texture) _type _data)) ;;
                  gl_all (_setSamplerParameters texture) ;;
                  update textureH renderTexture (tex_set_complete true)
              | _ =>
                  add_continuation (UploadTexture texture renderTexture textureHandle)
              end ;;
              ret (Some renderTexture)
          end
      end
  end.

(** The continuation of [texture.waitForComplete()] in _getRenderTexture. *)
Definition upload_texture (texture : Texture.t) (renderTexture : texref)
    (textureHandle : handle) : M unit :=
  gl (bindTexture GL.TEXTURE_2D (Some textureHandle)) ;;
  gl (texImage2D_source texture) ;;
  gl_all (_setSamplerParameters texture) ;;
  update textureH renderTexture (tex_set_complete true) ;;
  match Texture.class texture with
  | VideoTexture video =>
      add_continuation (OnPlaying video texture renderTexture textureHandle)
  | _ => ret tt
  end.

(** *** Buffers of the Renderer *)

Definition createRenderBuffer (target : Z) (data : bufferData_arg) (usage : Z)
    : M bufref :=
  glBuffer <- fresh_handle ;;
  gl (createBuffer glBuffer) ;;
  match data with
  | DataPromise data =>
      renderBuffer <- alloc bufferH
        {| RenderBuffer._target := target;
           RenderBuffer._usage := usage;
           RenderBuffer._length := 0;
           RenderBuffer._buffer := None |} ;;
      add_continuation (FillBuffer renderBuffer glBuffer data) ;;
      ret renderBuffer
  | ArrayBuffer byteLength =>
      gl (bindBuffer target (Some glBuffer)) ;;
      gl (bufferData target byteLength usage) ;;
      alloc bufferH
        {| RenderBuffer._target := target;
           RenderBuffer._usage := usage;
           RenderBuffer._length := byteLength;
           RenderBuffer._buffer := Some glBuffer |}
  end.

(** The two continuations of a buffer whose data has arrived. *)
Definition fill_buffer (renderBuffer : bufref) (glBuffer : handle)
    (byteLength : Z) : M unit :=
  b <- deref bufferH renderBuffer ;;
  gl (bindBuffer (RenderBuffer._target b) (Some glBuffer)) ;;
  gl (bufferData (RenderBuffer._target b) byteLength (RenderBuffer._usage b)) ;;
  update bufferH renderBuffer (buf_set_filled byteLength glBuffer).

Definition newline : string := String "010"%char EmptyString.
Definition dquote : string := String "034"%char EmptyString.

Fixpoint contains (pattern s : string) : bool :=
  String.prefix pattern s ||
  match s with
  | EmptyString => false
  | String _ s' => contains pattern s'
  end.

(** [fragmentSource.match(PRECISION_REGEX)] *)
Definition precisionMatch (fragmentSource : string) : bool :=
  contains "precision lowp float;" fragmentSource ||
  contains "precision mediump float;" fragmentSource ||
  contains "precision highp float;" fragmentSource.

Definition _getProgramKey (name : string) (defines : defines) : string :=
  fold_left
    (fun key d => key +:+ fst d +:+ "=" +:+ define_to_string (snd d) +:+ ",")
    defines (name +:+ ":").

(** [arr[i] = a] on an array with holes, which grows when [i] is past
    its end. *)
Definition array_set {A} (i : nat) (a : A) (arr : list (option A))
    : list (option A) :=
  if (i <? length arr)%nat then <[i := Some a]> arr
  else arr ++ replicate (i - length arr) None ++ [Some a].

(** The bucket at [i]; a hole is undefined. *)
Definition bucket (arr : list (option (list primref))) (i : nat)
    : option (list primref) :=
  mjoin (arr !! i).

Definition bucket_push (i : nat) (p : primref)
    (arr : list (option (list primref))) : list (option (list primref)) :=
  array_set i (default [] (bucket arr i) ++ [p]) arr.

Section RendererCode.
Context {material_js : MaterialJs} {program_js : ProgramJs}.

(** *** RenderMaterial *)

Fixpoint RenderMaterial_samplers (i : Z) (samplers : list MaterialSampler.t)
    : M (list RenderMaterialSampler.t) :=
  match samplers with
  | [] => ret []
  | materialSampler :: rest =>
      renderTexture <- _getRenderTexture (MaterialSampler._texture materialSampler) ;;
      renderSamplers <- RenderMaterial_samplers (i + 1) rest ;;
      ret ({| RenderMaterialSampler._uniformName :=
                MaterialSampler._uniformName materialSampler;
              RenderMaterialSampler._renderTexture := renderTexture;
              RenderMaterialSampler._index := i |} :: renderSamplers)
  end.

Definition renderOrder_of (renderOrder : nat) (state : Z) : nat :=
  if Nat.eqb renderOrder RENDER_ORDER_DEFAULT then
    if truthy (js_and state CAP_BLEND) then RENDER_ORDER_TRANSPARENT
    else RENDER_ORDER_OPAQUE
  else renderOrder.

Definition RenderMaterial_constructor (material : Material.t)
    (program : progref) : M matref :=
  samplers <- RenderMaterial_samplers 0 (Material._samplers material) ;;
  alloc materialH
    {| RenderMaterial._program := program;
       RenderMaterial._state := Material.state material;
       RenderMaterial._activeFrameId := 0;
       RenderMaterial._completeForActiveFrame := false;
       RenderMaterial._samplers := samplers;
       RenderMaterial._uniforms :=
         map RenderMaterialUniform.constructor (Material._uniforms material);
       RenderMaterial._firstBind := true;
       RenderMaterial._renderOrder :=
         renderOrder_of (Material.renderOrder material) (Material.state material) |}.

Definition bind_sampler (sampler : RenderMaterialSampler.t) : M unit :=
  match RenderMaterialSampler._renderTexture sampler with
  | None => throw (TypeError "Cannot read properties of null (reading '_isArray')")
  | Some r =>
      t <- deref textureH r ;;
      let type := if RenderTexture._isArray t then GL.TEXTURE_2D_ARRAY
                  else GL.TEXTURE_2D in
      gl (activeTexture (GL.TEXTURE0 + RenderMaterialSampler._index sampler)) ;;
      if RenderTexture._complete t
      then gl (bindTexture type (RenderTexture._texture t))
      else gl (bindTexture type None)
  end.

Definition bind_uniform (u : RenderMaterialUniform.t) : M unit :=
  let name := RenderMaterialUniform._uniformName u in
  let value := RenderMaterialUniform._value u in
  match RenderMaterialUniform._length u with
  | 1 => gl (uniform1fv name value)
  | 2 => gl (uniform2fv name value)
  | 3 => gl (uniform3fv name value)
  | 4 => gl (uniform4fv name value)
  | _ => ret tt
  end.

Definition RenderMaterial_bind (this : matref) : M unit :=
  m <- deref materialH this ;;
  (if RenderMaterial._firstBind m then
     program <- deref programH (RenderMaterial._program m) ;;
     update materialH this
       (mat_set_bound
          (List.filter
             (fun s => Program.has_uniform program
                         (RenderMaterialSampler._uniformName s))
             (RenderMaterial._samplers m))
          (map (uniform_set_uniform true)
             (List.filter
                (fun u => Program.has_uniform program
                            (RenderMaterialUniform._uniformName u))
                (RenderMaterial._uniforms m))))
   else ret tt) ;;
  m <- deref materialH this ;;
  for_each (RenderMaterial._samplers m) bind_sampler ;;
  for_each (RenderMaterial._uniforms m) bind_uniform.

(** The getters of the packed state. *)
Definition material_blend (state : Z) : bool := truthy (js_and state CAP_BLEND).
Definition material_depthTest (state : Z) : bool := truthy (js_and state CAP_DEPTH_TEST).
Definition material_depthFunc (state : Z) : Z :=
  js_shr (js_and state MAT_STATE_DEPTH_FUNC_RANGE) MAT_STATE_DEPTH_FUNC_SHIFT + GL.NEVER.
Definition material_blendFuncSrc (state : Z) : Z :=
  stateToBlendFunc state MAT_STATE_BLEND_SRC_RANGE MAT_STATE_BLEND_SRC_SHIFT.
Definition material_blendFuncDst (state : Z) : Z :=
  stateToBlendFunc state MAT_STATE_BLEND_DST_RANGE MAT_STATE_BLEND_DST_SHIFT.

Definition _capsDiff (state otherState : Z) : Z :=
  js_xor (js_and otherState MAT_STATE_CAPS_RANGE) (js_and state MAT_STATE_CAPS_RANGE).

Definition _blendDiff (state otherState : Z) : Z :=
  if negb (truthy (js_and state CAP_BLEND)) then 0
  else js_xor (js_and otherState MAT_STATE_BLEND_FUNC_RANGE)
              (js_and state MAT_STATE_BLEND_FUNC_RANGE).

Definition _depthFuncDiff (state otherState : Z) : Z :=
  if negb (truthy (js_and state CAP_DEPTH_TEST)) then 0
  else js_xor (js_and otherState MAT_STATE_DEPTH_FUNC_RANGE)
              (js_and state MAT_STATE_DEPTH_FUNC_RANGE).

(** *** Programs of the Renderer *)

Definition _getMaterialProgram (material : Material.t)
    (renderPrimitive : primref) : M progref :=
  match Material.materialName material with
  | None => throw (Error "Material does not have a name")
  | Some materialName =>
  match Material.vertexSource material with
  | None =>
      throw (Error ("Material " +:+ dquote +:+ materialName +:+ dquote +:+
                    " does not have a vertex source"))
  | Some vertexSource =>
  match Material.fragmentSource material with
  | None =>
      throw (Error ("Material " +:+ dquote +:+ materialName +:+ dquote +:+
                    " does not have a fragment source"))
  | Some fragmentSource =>
      rp <- deref primitiveH renderPrimitive ;;
      let defines := Material.getProgramDefines material rp in
      let key := _getProgramKey materialName defines in
      r <- get_renderer ;;
      let multiview := Renderer._multiview r in
      let extensions := if multiview then ["GL_OVR_multiview2"] else [] in
      let layouts := if multiview then ["num_views=2"] else [] in
      match Renderer._programCache r !! key with
      | Some program => ret program
      | None =>
          let fullVertexSource :=
            (vertexSource,
             if Renderer._useDepth r
             then (if multiview then VERTEX_SHADER_MULTI_DEPTH_ENTRY
                   else VERTEX_SHADER_DEPTH_ENTRY)
             else (if multiview then VERTEX_SHADER_MULTI_ENTRY
                   else VERTEX_SHADER_ENTRY)) in
          let fragPrecisionHeader :=
            if precisionMatch fragmentSource then ""
            else "precision " +:+ Renderer._defaultFragPrecision r +:+ " float;"
                 +:+ newline in
          let fullFragmentSource :=
            (fragPrecisionHeader, fragmentSource,
             if Renderer._useDepth r
             then (if multiview then FRAGMENT_SHADER_MULTI_DEPTH_ENTRY
                   else FRAGMENT_SHADER_DEPTH_ENTRY)
             else (if multiview then FRAGMENT_SHADER_MULTI_ENTRY
                   else FRAGMENT_SHADER_ENTRY)) in
          program <- alloc programH
            {| Program.fullVertexSource := fullVertexSource;
               Program.fullFragmentSource := fullFragmentSource;
               Program.program_defines := defines;
               Program.extensions := extensions;
               Program.layouts := layouts;
               Program.uniform := linked_uniforms vertexSource fragmentSource defines;
               Program._nextUseCallbacks :=
                 [map MaterialSampler._uniformName (Material._samplers material)] |} ;;
          update_renderer (fun r =>
            rend_set_programCache (<[key := program]> (Renderer._programCache r)) r) ;;
          ret program
      end
  end end end.

(** The callback that _getMaterialProgram leaves with onNextUse. *)
Fixpoint bind_sampler_indices (program : Program.t) (i : Z)
    (names : list string) : list glcall :=
  match names with
  | [] => []
  | name :: rest =>
      (if Program.has_uniform program name then [uniform1i name i] else []) ++
      bind_sampler_indices program (i + 1) rest
  end.

(** Modelled from the spec: [use] of the Program class of program.js. *)
Definition Program_use (this : progref) : M unit :=
  program <- deref programH this ;;
  gl (useProgram this) ;;
  for_each (Program._nextUseCallbacks program)
    (fun names => gl_all (bind_sampler_indices program 0 names)) ;;
  update programH this prog_clear_callbacks.

Definition createRenderPrimitive (primitive : Primitive.t)
    (material : Material.t) : M primref :=
  renderPrimitive <- RenderPrimitive_constructor primitive ;;
  program <- _getMaterialProgram material renderPrimitive ;;
  renderMaterial <- RenderMaterial_constructor material program ;;
  RenderPrimitive_setRenderMaterial renderPrimitive (Some renderMaterial) ;;
  m <- deref materialH renderMaterial ;;
  update_renderer (fun r =>
    rend_set_renderPrimitives
      (bucket_push (RenderMaterial._renderOrder m) renderPrimitive
         (Renderer._renderPrimitives r)) r) ;;
  ret renderPrimitive.

(** *** Drawing *)

Definition attrib_array (attributeMask : Z) (attrib : string) : list glcall :=
  match ATTRIB attrib with
  | Some index =>
      if truthy (js_and attributeMask (default 0 (ATTRIB_MASK attrib)))
      then [enableVertexAttribArray index]
      else [disableVertexAttribArray index]
  | None => []
  end.

Definition attrib_pointer (attrib : RenderPrimitiveAttribute.t) : glcall :=
  vertexAttribPointer
    (RenderPrimitiveAttribute._attrib_index attrib)
    (RenderPrimitiveAttribute._componentCount attrib)
    (RenderPrimitiveAttribute._componentType attrib)
    (RenderPrimitiveAttribute._normalized attrib)
    (RenderPrimitiveAttribute._stride attrib)
    (RenderPrimitiveAttribute._byteOffset attrib).

(** [attribMask] is undefined when the call passes one argument. *)
Definition _bindPrimitive (primitive : primref) (attribMask : option Z) : M unit :=
  p <- deref primitiveH primitive ;;
  when (negb (bool_decide (attribMask = Some (RenderPrimitive._attributeMask p))))
    (gl_all (concat (map (attrib_array (RenderPrimitive._attributeMask p)) ATTRIB_names))) ;;
  for_each (RenderPrimitive._attributeBuffers p) (fun attributeBuffer =>
    b <- deref bufferH (RenderPrimitiveAttributeBuffer._buffer attributeBuffer) ;;
    gl (bindBuffer GL.ARRAY_BUFFER (RenderBuffer._buffer b)) ;;
    gl_all (map attrib_pointer (RenderPrimitiveAttributeBuffer._attributes attributeBuffer))) ;;
  match RenderPrimitive._indexBuffer p with
  | Some ib =>
      b <- deref bufferH ib ;;
      gl (bindBuffer GL.ELEMENT_ARRAY_BUFFER (RenderBuffer._buffer b))
  | None => gl (bindBuffer GL.ELEMENT_ARRAY_BUFFER None)
  end.

Definition setCap (glEnum cap prevState state : Z) : list glcall :=
  let change := js_and state cap - js_and prevState cap in
  if change =? 0 then []
  else if 0 <? change then [enable glEnum]
  else [disable glEnum].

(** The state that the first material of a bucket is compared with. *)
Definition prevState_of (state : Z) (prev : option Z) : Z :=
  match prev with
  | Some prevState => prevState
  | None => js_not state
  end.

Definition colorMaskChange (state prevState : Z) : Z :=
  js_and state CAP_COLOR_MASK - js_and prevState CAP_COLOR_MASK.
Definition depthMaskChange (state prevState : Z) : Z :=
  js_and state CAP_DEPTH_MASK - js_and prevState CAP_DEPTH_MASK.
Definition stencilMaskChange (state prevState : Z) : Z :=
  js_and state CAP_STENCIL_MASK - js_and prevState CAP_STENCIL_MASK.

(** The calls of _bindMaterialState once the two states are known. *)
Definition bindMaterialState_calls (state prevState : Z) : list glcall :=
  if state =? prevState then []
  else
    (if truthy (_capsDiff state prevState) then
       setCap GL.CULL_FACE CAP_CULL_FACE prevState state ++
       setCap GL.BLEND CAP_BLEND prevState state ++
       setCap GL.DEPTH_TEST CAP_DEPTH_TEST prevState state ++
       setCap GL.STENCIL_TEST CAP_STENCIL_TEST prevState state ++
       (if truthy (colorMaskChange state prevState) then
          let mask := 1 <? colorMaskChange state prevState in
          [colorMask mask mask mask mask]
        else []) ++
       (if truthy (depthMaskChange state prevState) then
          [depthMask (1 <? depthMaskChange state prevState)]
        else []) ++
       (if truthy (stencilMaskChange state prevState) then
          [stencilMask (if 1 <? stencilMaskChange state prevState then 255 else 0)]
        else [])
     else []) ++
    (if truthy (_blendDiff state prevState)
     then [blendFunc (material_blendFuncSrc state) (material_blendFuncDst state)]
     else []) ++
    (if truthy (_depthFuncDiff state prevState)
     then [depthFunc (material_depthFunc state)]
     else []).

(** The two flags that _bindMaterialState assigns among its calls. *)
Definition bindMaterialState_flags (state prevState : Z) (r : Renderer.t)
    : Renderer.t :=
  if (state =? prevState) || negb (truthy (_capsDiff state prevState)) then r
  else
    let r :=
      if truthy (colorMaskChange state prevState)
      then rend_set_colorMaskNeedsReset (negb (1 <? colorMaskChange state prevState)) r
      else r in
    if truthy (depthMaskChange state prevState)
    then rend_set_depthMaskNeedsReset (negb (1 <? depthMaskChange state prevState)) r
    else r.

Definition _bindMaterialState (material : matref) (prevMaterial : option matref)
    : M unit :=
  m <- deref materialH material ;;
  let state := RenderMaterial._state m in
  prev <- match prevMaterial with
          | Some pm => pm' <- deref materialH pm ;; ret (Some (RenderMaterial._state pm'))
          | None => ret None
          end ;;
  let prevState := prevState_of state prev in
  gl_all (bindMaterialState_calls state prevState) ;;
  update_renderer (bindMaterialState_flags state prevState).

(** The draw calls of one view for the active instances. *)
Definition draw_instances (primitive : primref) (frameId : Z) : M unit :=
  p <- deref primitiveH primitive ;;
  for_each (RenderPrimitive._instances p) (fun instance =>
    n <- deref nodeH instance ;;
    if negb (Node._activeFrameId n =? frameId) then ret tt
    else
      gl (uniformMatrix4fv "MODEL_MATRIX" (Node.worldMatrix n)) ;;
      if some (RenderPrimitive._indexBuffer p)
      then gl (drawElements primitive (RenderPrimitive._mode p)
                 (RenderPrimitive._elementCount p) (RenderPrimitive._indexType p)
                 (RenderPrimitive._indexByteOffset p))
      else gl (drawArrays primitive (RenderPrimitive._mode p) 0
                 (RenderPrimitive._elementCount p))).

Definition set_viewport (vp : RenderView.Viewport) : glcall :=
  viewport (RenderView.vp_x vp) (RenderView.vp_y vp)
    (RenderView.vp_width vp) (RenderView.vp_height vp).

(** What the loop over the views does for view [i] before it draws,
    when there is more than one view. *)
Definition upload_view (views : list RenderView.t)
    (depthData : option (list DepthData.t)) (material : matref)
    (i : nat) (view : RenderView.t) : M unit :=
  match RenderView.viewport view with
  | Some vp => gl (set_viewport vp)
  | None => ret tt
  end ;;
  r <- get_renderer ;;
  (if Renderer._multiview r then
     (if Nat.eqb i 0 then
        view0 <- item views 0 ;;
        view1 <- item views 1 ;;
        gl (uniformMatrix4fv "LEFT_PROJECTION_MATRIX" (RenderView.projectionMatrix view0)) ;;
        gl (uniformMatrix4fv "LEFT_VIEW_MATRIX" (RenderView.viewMatrix view0)) ;;
        gl (uniformMatrix4fv "RIGHT_PROJECTION_MATRIX" (RenderView.projectionMatrix view1)) ;;
        gl (uniformMatrix4fv "RIGHT_VIEW_MATRIX" (RenderView.viewMatrix view1))
      else ret tt) ;;
     cameraPosition <- item (Renderer._cameraPositions r) i ;;
     gl (uniform3fv "CAMERA_POSITION" cameraPosition) ;;
     gl (uniform1i "EYE_INDEX" (RenderView.eyeIndex view))
   else
     gl (uniformMatrix4fv "PROJECTION_MATRIX" (RenderView.projectionMatrix view)) ;;
     gl (uniformMatrix4fv "VIEW_MATRIX" (RenderView.viewMatrix view)) ;;
     cameraPosition <- item (Renderer._cameraPositions r) i ;;
     gl (uniform3fv "CAMERA_POSITION" cameraPosition) ;;
     gl (uniform1i "EYE_INDEX" (RenderView.eyeIndex view)) ;;
     match depthData with
     | Some (_ :: _) => gl (uniform1ui "VIEW_ID" (Z.of_nat i))
     | _ => ret tt
     end) ;;
  match depthData with
  | Some d => gl (uniform1i "sortDepth" (if (0 <? length d)%nat then 1 else 0))
  | None => ret tt
  end ;;
  match depthData with
  | Some (depth0 :: rest) =>
      if Nat.eqb i 0 then
        view0 <- item views 0 ;;
        view1 <- item views 1 ;;
        gl (uniformMatrix4fv "LEFT_DEPTH_PROJECTION_MATRIX" (RenderView.projectionMatrix view0)) ;;
        gl (uniformMatrix4fv "LEFT_DEPTH_VIEW_MATRIX" (RenderView.viewMatrix view0)) ;;
        gl (uniformMatrix4fv "RIGHT_DEPTH_PROJECTION_MATRIX" (RenderView.projectionMatrix view1)) ;;
        gl (uniformMatrix4fv "RIGHT_DEPTH_VIEW_MATRIX" (RenderView.viewMatrix view1)) ;;
        gl (uniform1f "rawValueToMeters" (DepthData.rawValueToMeters depth0)) ;;
        match DepthData.projectionMatrix depth0 with
        | Some projectionMatrix0 =>
            gl (uniformMatrix4fv "LEFT_DEPTH_PROJECTION_MATRIX" projectionMatrix0) ;;
            gl (uniformMatrix4fv "LEFT_DEPTH_VIEW_MATRIX"
                  (DepthData.transform_inverse_matrix depth0)) ;;
            depth1 <- item rest 0 ;;
            projectionMatrix1 <-
              match DepthData.projectionMatrix depth1 with
              | Some m => ret m
              | None => throw (TypeError "parameter 3 is not of type 'Float32Array'")
              end ;;
            gl (uniformMatrix4fv "RIGHT_DEPTH_PROJECTION_MATRIX" projectionMatrix1) ;;
            gl (uniformMatrix4fv "RIGHT_DEPTH_VIEW_MATRIX"
                  (DepthData.transform_inverse_matrix depth1))
        | None => ret tt
        end ;;
        m <- deref materialH material ;;
        let unit := Z.of_nat (length (RenderMaterial._samplers m)) in
        gl (activeTexture (GL.TEXTURE0 + unit)) ;;
        gl (bindTexture GL.TEXTURE_2D_ARRAY (DepthData.texture depth0)) ;;
        gl (uniform1i "depthColor" unit)
      else ret tt
  | _ => ret tt
  end.

(** The loop over the views for one primitive, from view [i] on; with
    multiview it is left after the first round. *)
Fixpoint draw_views (views : list RenderView.t)
    (depthData : option (list DepthData.t)) (primitive : primref)
    (material : matref) (frameId : Z) (i : nat)
    (rest : list RenderView.t) : M unit :=
  match rest with
  | [] => ret tt
  | view :: rest' =>
      when (1 <? length views)%nat (upload_view views depthData material i view) ;;
      draw_instances primitive frameId ;;
      r <- get_renderer ;;
      if Renderer._multiview r then ret tt
      else draw_views views depthData primitive material frameId (S i) rest'
  end.

(** The local variables that _drawRenderPrimitiveSet carries from one
    primitive to the next. *)
Record draw_locals := {
  cur_program : option progref;
  cur_material : option matref;
  cur_attribMask : Z;
}.

(** One round of the loop of _drawRenderPrimitiveSet, for a primitive
    that is active in this frame. *)
Definition draw_primitive (views : list RenderView.t)
    (depthData : option (list DepthData.t)) (primitive : primref)
    (locals : draw_locals) : M draw_locals :=
  r <- get_renderer ;;
  p <- deref primitiveH primitive ;;
  material <- match RenderPrimitive._material p with
              | Some m => ret m
              | None => throw (TypeError "Cannot read properties of null (reading '_program')")
              end ;;
  m <- deref materialH material ;;
  let program := RenderMaterial._program m in
  when (negb (bool_decide (cur_program locals = Some program)))
    (Program_use program ;;
     prog <- deref programH program ;;
     when (Program.has_uniform prog "LIGHT_DIRECTION")
       (gl (uniform3fv "LIGHT_DIRECTION" (Renderer._globalLightDir r))) ;;
     when (Program.has_uniform prog "LIGHT_COLOR")
       (gl (uniform3fv "LIGHT_COLOR" (Renderer._globalLightColor r))) ;;
     when (Nat.eqb (length views) 1)
       (view0 <- item views 0 ;;
        gl (uniformMatrix4fv "PROJECTION_MATRIX" (RenderView.projectionMatrix view0)) ;;
        gl (uniformMatrix4fv "VIEW_MATRIX" (RenderView.viewMatrix view0)) ;;
        cameraPosition <- item (Renderer._cameraPositions r) 0 ;;
        gl (uniform3fv "CAMERA_POSITION" cameraPosition) ;;
        gl (uniform1i "EYE_INDEX" (RenderView.eyeIndex view0)))) ;;
  when (negb (bool_decide (cur_material locals = Some material)))
    (_bindMaterialState material (cur_material locals) ;;
     RenderMaterial_bind material) ;;
  attribMask <-
    (if Renderer._vaoExt r then
       match RenderPrimitive._vao p with
       | Some vao => gl (bindVertexArrayOES (Some vao))
       | None =>
           vao <- fresh_handle ;;
           gl (createVertexArrayOES vao) ;;
           update primitiveH primitive (prim_set_vao (Some vao)) ;;
           gl (bindVertexArrayOES (Some vao)) ;;
           _bindPrimitive primitive None
       end ;;
       ret (cur_attribMask locals)
     else
       _bindPrimitive primitive (Some (cur_attribMask locals)) ;;
       ret (RenderPrimitive._attributeMask p)) ;;
  draw_views views depthData primitive material (Renderer._frameId r) 0 views ;;
  ret {| cur_program := Some program;
         cur_material := Some material;
         cur_attribMask := attribMask |}.

Fixpoint draw_primitives (views : list RenderView.t)
    (depthData : option (list DepthData.t)) (renderPrimitives : list primref)
    (locals : draw_locals) : M unit :=
  match renderPrimitives with
  | [] => ret tt
  | primitive :: rest =>
      r <- get_renderer ;;
      p <- deref primitiveH primitive ;;
      if negb (RenderPrimitive._activeFrameId p =? Renderer._frameId r)
      then draw_primitives views depthData rest locals
      else
        locals' <- draw_primitive views depthData primitive locals ;;
        draw_primitives views depthData rest locals'
  end.

Definition _drawRenderPrimitiveSet (views : list RenderView.t)
    (renderPrimitives : list primref) (depthData : option (list DepthData.t))
    : M unit :=
  draw_primitives views depthData renderPrimitives
    {| cur_program := None; cur_material := None; cur_attribMask := 0 |}.

(** The loop of drawViews that fills [_cameraPositions]. *)
Definition camera_position (i : nat) (view : RenderView.t) : M unit :=
  r <- get_renderer ;;
  when (length (Renderer._cameraPositions r) <=? i)%nat
    (update_renderer (fun r =>
       rend_set_cameraPositions (Renderer._cameraPositions r ++ [vec3_create]) r)) ;;
  let p := RenderView.position (RenderView.viewTransform view) in
  update_renderer (fun r =>
    rend_set_cameraPositions
      (<[i := [RenderView.x p; RenderView.y p; RenderView.z p]]>
         (Renderer._cameraPositions r)) r).

Fixpoint camera_positions (i : nat) (views : list RenderView.t) : M unit :=
  match views with
  | [] => ret tt
  | view :: rest => camera_position i view ;; camera_positions (S i) rest
  end.

(** drawViews up to its loop over the buckets: the frame counter, the
    marking of the scene, the viewport of a single view and the camera
    positions.  The root node is given as the nodes that marking it
    reaches. *)
Definition drawViews_begin (views : list RenderView.t) (root : list noderef)
    : M unit :=
  update_renderer (fun r => rend_set_frameId (Renderer._frameId r + 1) r) ;;
  r <- get_renderer ;;
  for_each root (fun n => Node_markActive n (Renderer._frameId r)) ;;
  match views with
  | [view0] =>
      match RenderView.viewport view0 with
      | Some vp => gl (set_viewport vp)
      | None => ret tt
      end
  | _ => ret tt
  end ;;
  camera_positions 0 views.

(** One round of the loop of drawViews over the buckets. *)
Definition draw_bucket (views : list RenderView.t)
    (depthData : option (list DepthData.t))
    (renderPrimitives : option (list primref)) : M unit :=
  match renderPrimitives with
  | Some (p :: ps) => _drawRenderPrimitiveSet views (p :: ps) depthData
  | _ => ret tt
  end.

(** drawViews after its loop over the buckets. *)
Definition drawViews_end : M unit :=
  r <- get_renderer ;;
  when (Renderer._vaoExt r) (gl (bindVertexArrayOES None)) ;;
  when (Renderer._depthMaskNeedsReset r) (gl (depthMask true)) ;;
  when (Renderer._colorMaskNeedsReset r) (gl (colorMask true true true true)).

Definition drawViews (views : list RenderView.t) (rootNode : option (list noderef))
    (depthData : option (list DepthData.t)) : M unit :=
  match rootNode with
  | None => ret tt
  | Some root =>
      drawViews_begin views root ;;
      r <- get_renderer ;;
      for_each (Renderer._renderPrimitives r) (draw_bucket views depthData) ;;
      drawViews_end
  end.

End RendererCode.

(** *** The constructor of the Renderer *)

Definition DEF_LIGHT_DIR : vec3 := [-1 # 10; -1; -2 # 10]%Q.
Definition DEF_LIGHT_COLOR : vec3 := [3; 3; 3]%Q.

(** [createWebGLContext] is given by what it returns in the browser at
    hand: a context, or null.  The field [_gl] is assigned first; every
    later step reads the parameter [gl]. *)
Definition Renderer_constructor {material_js : MaterialJs}
    (createWebGLContext : option GLContext.t)
    (gl : option GLContext.t) (multiview multisampledMultiview useDepth : bool)
    : outcome Renderer.t :=
  let _gl := match gl with Some c => Some c | None => createWebGLContext end in
  match gl with
  | None => Throw (TypeError "Cannot read properties of null (reading 'getExtension')")
  | Some gl =>
      match GLContext.fragHighPrecision gl with
      | None => Throw (TypeError "Cannot read properties of null (reading 'precision')")
      | Some precision =>
          Return
            {| Renderer._gl := _gl;
               Renderer._frameId := 0;
               Renderer._programCache := ∅;
               Renderer._textureCache := ∅;
               Renderer._renderPrimitives := replicate RENDER_ORDER_DEFAULT None;
               Renderer._cameraPositions := [];
               Renderer._vaoExt := GLContext.OES_vertex_array_object gl;
               Renderer._defaultFragPrecision :=
                 if 0 <? precision then "highp" else "mediump";
               Renderer._depthMaskNeedsReset := false;
               Renderer._colorMaskNeedsReset := false;
               Renderer._globalLightColor := DEF_LIGHT_COLOR;
               Renderer._globalLightDir := DEF_LIGHT_DIR;
               Renderer._mv_ext := GLContext.OVR_multiview2 gl;
               Renderer._multiview := multiview && GLContext.OVR_multiview2 gl;
               Renderer._multisampledMultiview := multisampledMultiview;
               Renderer._useDepth := useDepth |}
      end
  end.

(** ** The renderer in use *)

(** The world in which a renderer has just been constructed.  The store
    holds the objects that the page has before: those that the plain
    objects inherit from Object.prototype. *)
Definition new_world (r : Renderer.t) : World :=
  {| gl_log := []; next_handle := 0%nat; buffers := [];
     textures := map (fun _ => inherited_object) Object_prototype_names;
     programs := []; materials := []; primitives := []; nodes := [];
     stalled_videos := []; pending := []; renderer := r |}.

Definition remove_continuation (i : nat) : M unit :=
  modify (set_pending (delete i)).

Definition resolved (w : World) (b : bufref) : bool :=
  match buffers w !! b with
  | Some rb => some (RenderBuffer._buffer rb)
  | None => false
  end.

(** The host runs the pending continuation at [i], if what it waits for
    has come: the data of a buffer, the buffers of a primitive, the image
    of a texture, or the 'playing' event of a video, whose listener stays
    in place. *)
Definition settle (i : nat) : M unit :=
  cs <- gets pending ;;
  match cs !! i with
  | None => ret tt
  | Some (FillBuffer b glBuffer (Resolves byteLength)) =>
      remove_continuation i ;;
      fill_buffer b glBuffer byteLength
  | Some (FillBuffer _ _ NeverSettles) => ret tt
  | Some (CompletePrimitive p completionPromises) =>
      ready <- gets (fun w => forallb (resolved w) completionPromises) ;;
      if ready then
        remove_continuation i ;;
        update primitiveH p (prim_set_complete true)
      else ret tt
  | Some (UploadTexture texture renderTexture textureHandle) =>
      remove_continuation i ;;
      upload_texture texture renderTexture textureHandle
  | Some (OnPlaying video texture renderTexture textureHandle) =>
      update textureH renderTexture
        (tex_set_activeCallback (Some (texture, video, textureHandle)))
  end.

(** What the scene graph, the session layer and the host do with a
    renderer. *)
Inductive op :=
  | CreateNode (worldMatrix : mat4)
  | AddRenderPrimitive (node : noderef) (p : primref)
  | CreateRenderBuffer (target : Z) (data : bufferData_arg) (usage : Z)
  | CreateRenderPrimitive (primitive : Primitive.t) (material : Material.t)
  | SetPrimitive (p : primref) (primitive : Primitive.t)
  | SetRenderMaterial (p : primref) (material : option matref)
  | AddExternalTexture (key : string) (texture : option handle) (isArray : bool)
  | GetRenderTexture (texture : option Texture.t)
  | DrawViews (views : list RenderView.t) (rootNode : option (list noderef))
      (depthData : option (list DepthData.t))
  | Settle (i : nat)
  | VideoStalls (video : nat)
  | VideoResumes (video : nat).

Section Operations.
Context {material_js : MaterialJs} {program_js : ProgramJs}.

Definition exec (o : op) : M unit :=
  match o with
  | CreateNode worldMatrix =>
      alloc nodeH {| Node._activeFrameId := 0;
                     Node.worldMatrix := worldMatrix;
                     Node._renderPrimitives := [] |} ;;
      ret tt
  | AddRenderPrimitive node p => Node_addRenderPrimitive node p
  | CreateRenderBuffer target data usage =>
      createRenderBuffer target data usage ;; ret tt
  | CreateRenderPrimitive primitive material =>
      createRenderPrimitive primitive material ;; ret tt
  | SetPrimitive p primitive => RenderPrimitive_setPrimitive p primitive
  | SetRenderMaterial p material =>
      match material with
      | Some m => deref materialH m ;; RenderPrimitive_setRenderMaterial p material
      | None => RenderPrimitive_setRenderMaterial p material
      end
  | AddExternalTexture key texture isArray => addExternalTexture key texture isArray
  | GetRenderTexture texture => _getRenderTexture texture ;; ret tt
  | DrawViews views rootNode depthData => drawViews views rootNode depthData
  | Settle i => settle i
  | VideoStalls video => modify (set_stalled_videos (cons video))
  | VideoResumes video =>
      modify (set_stalled_videos (List.filter (fun v => negb (Nat.eqb v video))))
  end.

(** The world after an operation, whether it returned or threw. *)
Definition step (w : World) (o : op) : World := fst (exec o w).

Definition run (w : World) (ops : list op) : World := fold_left step ops w.

End Operations.

(** ** A choice of the imported constants, and a small scene *)

(** One assignment of the constants of material.js: seven capability
    bits, the blend and depth function ranges above them, and five
    buckets of which the default one is last. *)
#[local] Instance sample_material_js : MaterialJs := {|
  CAP_CULL_FACE := 1;
  CAP_BLEND := 2;
  CAP_DEPTH_TEST := 4;
  CAP_STENCIL_TEST := 8;
  CAP_COLOR_MASK := 16;
  CAP_DEPTH_MASK := 32;
  CAP_STENCIL_MASK := 64;
  MAT_STATE_CAPS_RANGE := 255;
  MAT_STATE_BLEND_SRC_SHIFT := 8;
  MAT_STATE_BLEND_SRC_RANGE := 3840;
  MAT_STATE_BLEND_DST_SHIFT := 12;
  MAT_STATE_BLEND_DST_RANGE := 61440;
  MAT_STATE_BLEND_FUNC_RANGE := 65280;
  MAT_STATE_DEPTH_FUNC_SHIFT := 16;
  MAT_STATE_DEPTH_FUNC_RANGE := 983040;
  RENDER_ORDER_OPAQUE := 0;
  RENDER_ORDER_TRANSPARENT := 2;
  RENDER_ORDER_DEFAULT := 4;
  stateToBlendFunc := fun state mask shift =>
    let value := js_shr (js_and state mask) shift in
    if (value =? 0) || (value =? 1) then value else value - 2 + 768;
|}.

(** Programs that declare the uniforms the renderer fills in by itself. *)
#[local] Instance sample_program_js : ProgramJs := {|
  linked_uniforms := fun _ _ _ =>
    ["PROJECTION_MATRIX"; "VIEW_MATRIX"; "MODEL_MATRIX"; "LIGHT_DIRECTION"];
|}.

Definition sample_context : GLContext.t :=
  {| GLContext.OES_vertex_array_object := true;
     GLContext.OVR_multiview2 := true;
     GLContext.fragHighPrecision := Some 23 |}.

Definition sample_renderer (multiview : bool) : Renderer.t :=
  match Renderer_constructor None (Some sample_context) multiview false false with
  | Return r => r
  | Throw _ =>
      {| Renderer._gl := None; Renderer._frameId := 0;
         Renderer._programCache := ∅; Renderer._textureCache := ∅;
         Renderer._renderPrimitives := []; Renderer._cameraPositions := [];
         Renderer._vaoExt := false; Renderer._defaultFragPrecision := "";
         Renderer._depthMaskNeedsReset := false;
         Renderer._colorMaskNeedsReset := false;
         Renderer._globalLightColor := []; Renderer._globalLightDir := [];
         Renderer._mv_ext := false; Renderer._multiview := false;
         Renderer._multisampledMultiview := false; Renderer._useDepth := false |}
  end.

(** A triangle read from one vertex buffer. *)
Definition sample_primitive (buffer : bufref) : Primitive.t :=
  {| Primitive.mode := 4;
     Primitive.elementCount := 3;
     Primitive.attributes :=
       [{| PrimitiveAttribute.name := "POSITION";
           PrimitiveAttribute.buffer := buffer;
           PrimitiveAttribute.componentCount := 3;
           PrimitiveAttribute.componentType := 5126;
           PrimitiveAttribute.stride := 12;
           PrimitiveAttribute.byteOffset := 0;
           PrimitiveAttribute.normalized := false |}];
     Primitive.indexBuffer := None;
     Primitive.indexByteOffset := 0;
     Primitive.indexType := 0;
     Primitive._min := None;
     Primitive._max := None |}.

(** A material without textures, with the given name and state, whose
    bucket is chosen from the state. *)
Definition sample_material (name : string) (state : Z) : Material.t :=
  {| Material.materialName := Some name;
     Material.vertexSource := Some "vec4 vertex_main(mat4 p, mat4 v, mat4 m) {}";
     Material.fragmentSource := Some "vec4 fragment_main() {}";
     Material.state := state;
     Material.renderOrder := 4;
     Material._samplers := [];
     Material._uniforms := [];
     Material.getProgramDefines := fun _ => [] |}.

Definition sample_view : RenderView.t :=
  RenderView.constructor RenderView.mat4_identity
    (RenderView.RigidTransform RenderView.XRRigidTransform_new) None "left".

(** A texture of width 0 and height 3 that asks for mipmaps and leaves
    its sampler unset, and one of width 0 and height 4. *)
Definition zero_by (height : Z) : Texture.t :=
  {| Texture.textureKey := Some "zero";
     Texture.class := DataTexture 5121 [];
     Texture.format := 6408;
     Texture.width := 0;
     Texture.height := height;
     Texture.mipmap := true;
     Texture.sampler :=
       {| Sampler.minFilter := 0; Sampler.magFilter := 0;
          Sampler.wrapS := 0; Sampler.wrapT := 0 |};
     Texture.source := "" |}.

(** What the spec says of the constants of material.js: every capability
    is one bit of the packed state word, the write masks are bits above
    the lowest one, and the three ranges are non-empty sets of bits; all
    of them fit the 31 low bits. *)
Definition is_bit (lowest : Z) (c : Z) : Prop :=
  exists k, lowest <= k < 31 /\ c = 2 ^ k.

Definition is_range (c : Z) : Prop := 0 < c < 2 ^ 31.

Record packed_state {material_js : MaterialJs} : Prop := {
  cull_face_bit : is_bit 0 CAP_CULL_FACE;
  blend_bit : is_bit 0 CAP_BLEND;
  depth_test_bit : is_bit 0 CAP_DEPTH_TEST;
  stencil_test_bit : is_bit 0 CAP_STENCIL_TEST;
  color_mask_bit : is_bit 1 CAP_COLOR_MASK;
  depth_mask_bit : is_bit 1 CAP_DEPTH_MASK;
  stencil_mask_bit : is_bit 1 CAP_STENCIL_MASK;
  caps_range : is_range MAT_STATE_CAPS_RANGE;
  blend_func_range : is_range MAT_STATE_BLEND_FUNC_RANGE;
  depth_func_range : is_range MAT_STATE_DEPTH_FUNC_RANGE;
}.

(** A capability as the first material of a bucket leaves it. *)
Definition apply_cap {material_js : MaterialJs} (state glEnum cap : Z) : glcall :=
  if truthy (js_and state cap) then enable glEnum else disable glEnum.

(** The calls that apply every part of a packed state. *)
Definition apply_state {material_js : MaterialJs} {program_js : ProgramJs}
    (state : Z) : list glcall :=
  [apply_cap state GL.CULL_FACE CAP_CULL_FACE;
   apply_cap state GL.BLEND CAP_BLEND;
   apply_cap state GL.DEPTH_TEST CAP_DEPTH_TEST;
   apply_cap state GL.STENCIL_TEST CAP_STENCIL_TEST;
   colorMask (truthy (js_and state CAP_COLOR_MASK)) (truthy (js_and state CAP_COLOR_MASK))
     (truthy (js_and state CAP_COLOR_MASK)) (truthy (js_and state CAP_COLOR_MASK));
   depthMask (truthy (js_and state CAP_DEPTH_MASK));
   stencilMask (if truthy (js_and state CAP_STENCIL_MASK) then 255 else 0)] ++
  (if material_blend state
   then [blendFunc (material_blendFuncSrc state) (material_blendFuncDst state)]
   else []) ++
  (if material_depthTest state then [depthFunc (material_depthFunc state)] else []).

(** The world after a buffer with data and two primitives on it were
    created: first one whose material blends, then one whose material
    does not. *)
Definition sample_world (multiview : bool) : World :=
  run (new_world (sample_renderer multiview))
    [CreateRenderBuffer GL.ARRAY_BUFFER (ArrayBuffer 36) GL.STATIC_DRAW;
     CreateRenderPrimitive (sample_primitive 0%nat) (sample_material "glass" 2);
     CreateRenderPrimitive (sample_primitive 0%nat) (sample_material "stone" 4)].

(** Two dictionaries with the same two defines, written in the two
    orders, and two materials of one name that hand them out. *)
Definition defines_AB : defines :=
  JsObject.set "B" (DefNumber 1) (JsObject.set "A" (DefNumber 1) []).

Definition defines_BA : defines :=
  JsObject.set "A" (DefNumber 1) (JsObject.set "B" (DefNumber 1) []).

Definition material_with_defines (d : defines) : Material.t :=
  {| Material.materialName := Some "PBR";
     Material.vertexSource := Some "vec4 vertex_main(mat4 p, mat4 v, mat4 m) {}";
     Material.fragmentSource := Some "vec4 fragment_main() {}";
     Material.state := 4;
     Material.renderOrder := 4;
     Material._samplers := [];
     Material._uniforms := [];
     Material.getProgramDefines := fun _ => d |}.

(** A material without a name, and a texture without a key. *)
Definition nameless_material : Material.t :=
  {| Material.materialName := None;
     Material.vertexSource := Some "vec4 vertex_main(mat4 p, mat4 v, mat4 m) {}";
     Material.fragmentSource := Some "vec4 fragment_main() {}";
     Material.state := 4;
     Material.renderOrder := 4;
     Material._samplers := [];
     Material._uniforms := [];
     Material.getProgramDefines := fun _ => [] |}.

Definition keyless_texture : Texture.t :=
  {| Texture.textureKey := None;
     Texture.class := ImageTexture;
     Texture.format := 6408;
     Texture.width := 2;
     Texture.height := 2;
     Texture.mipmap := true;
     Texture.sampler :=
       {| Sampler.minFilter := 0; Sampler.magFilter := 0;
          Sampler.wrapS := 0; Sampler.wrapT := 0 |};
     Texture.source := "image" |}.

(** The material lacks its name or one of its two sources. *)
Definition lacks_identity (material : Material.t) : Prop :=
  Material.materialName material = None \/
  Material.vertexSource material = None \/
  Material.fragmentSource material = None.

Definition throws {A} (r : World * outcome A) : Prop :=
  exists e, snd r = Throw e.

(** ** What the code keeps *)

(** A computation respects a relation between worlds when the world it
    leaves, returning or throwing, is related to the one it started in. *)
Definition respects (R : World -> World -> Prop) {A} (m : M A) : Prop :=
  forall w, R w (fst (m w)).

(** What every step but the bucket assignment of createRenderPrimitive
    keeps: the buckets stay as they are, the primitives of the store and
    what the texture cache answers for a key stays in place, and the
    context only receives further calls, here of the kind [P]. *)
Definition evolves (P : glcall -> Prop) (w w' : World) : Prop :=
  Renderer._renderPrimitives (renderer w') = Renderer._renderPrimitives (renderer w) /\
  (length (primitives w) <= length (primitives w'))%nat /\
  (forall key t,
     cache_get (renderer w) key = Some t ->
     cache_get (renderer w') key = Some t) /\
  exists l, gl_log w' = gl_log w ++ l /\ Forall P l.

(** Calls that draw nothing, and calls that draw nothing but [p]. *)
Definition no_draw (c : glcall) : Prop := drawn c = None.

Definition draws_only (p : primref) (c : glcall) : Prop :=
  forall q, drawn c = Some q -> q = p.

Definition draws_within (ps : list primref) (c : glcall) : Prop :=
  forall q, drawn c = Some q -> q ∈ ps.

(** ** Buckets, frames and the worlds a renderer can be in *)

(** The primitives of all buckets, in bucket order. *)
Definition members (arr : list (option (list primref))) : list primref :=
  concat (map (default []) arr).

Definition in_bucket (w : World) (i : nat) (p : primref) : Prop :=
  p ∈ default [] (bucket (Renderer._renderPrimitives (renderer w)) i).

(** The calls that the context has received since the world [w]. *)
Definition calls_since (w w' : World) : list glcall :=
  drop (length (gl_log w)) (gl_log w').

(** A renderer as its constructor returns it. *)
Definition constructed {material_js : MaterialJs} (r : Renderer.t) : Prop :=
  exists createWebGLContext gl multiview multisampledMultiview useDepth,
    Renderer_constructor createWebGLContext gl multiview multisampledMultiview useDepth
    = Return r.

(** The worlds that operations lead to from a new renderer. *)
Definition reachable {material_js : MaterialJs} {program_js : ProgramJs}
    (w : World) : Prop :=
  exists r ops, constructed r /\ w = run (new_world r) ops.

(** Every primitive of a bucket is an object of the store, and none is in
    two buckets or twice in one. *)
Definition buckets_wf (w : World) : Prop :=
  NoDup (members (Renderer._renderPrimitives (renderer w))) /\
  Forall (fun p => (p < length (primitives w))%nat)
    (members (Renderer._renderPrimitives (renderer w))).

(** A frame: the world in which a scene of one node with two primitives,
    created transparent first, has become complete. *)
Definition sample_scene (multiview : bool) : World :=
  run (sample_world multiview)
    [CreateNode RenderView.mat4_identity;
     AddRenderPrimitive 0%nat 0%nat;
     AddRenderPrimitive 0%nat 1%nat;
     Settle 0%nat;
     Settle 0%nat].

(** Calls issued in phases: one segment of calls for each predicate, which
    all the calls of the segment satisfy. *)
Definition phased {A} (Ps : list (A -> Prop)) (segs : list (list A)) : Prop :=
  Forall2 (fun P seg => Forall P seg) Ps segs.

(** The phases of a frame: the calls before the buckets are drawn, the
    calls for each bucket in turn, and the calls after them. *)
Definition frame_phases (arr : list (option (list primref)))
    : list (glcall -> Prop) :=
  no_draw :: map (fun b => draws_within (default [] b)) arr ++ [no_draw].

(** The materials of the store are left as they are. *)
Definition same_materials (w w' : World) : Prop := materials w' = materials w.

(** ** Matrices, to speak of the inverse of a view matrix *)

(** Matrices are laid out as gl-matrix has them, column after column, so
    that the translation is at 12, 13 and 14. *)
Definition mat4_at (m : mat4) (i : nat) : number := nth i m 0%Q.

Definition mat4_multiply (a b : mat4) : mat4 :=
  map (fun i =>
         let c := (i / 4)%nat in
         let r := (i mod 4)%nat in
         (mat4_at a r * mat4_at b (4 * c) +
          mat4_at a (4 + r) * mat4_at b (4 * c + 1) +
          mat4_at a (8 + r) * mat4_at b (4 * c + 2) +
          mat4_at a (12 + r) * mat4_at b (4 * c + 3))%Q)
      (seq 0 16).

Definition mat4_getTranslation (m : mat4) : vec3 :=
  [mat4_at m 12; mat4_at m 13; mat4_at m 14].

Definition mat4_fromTranslation (x y z : number) : mat4 :=
  [1; 0; 0; 0;  0; 1; 0; 0;  0; 0; 1; 0;  x; y; z; 1]%Q.

(** [n] is the inverse of [m]. *)
Definition is_inverse (m n : mat4) : Prop :=
  Forall2 Qeq (mat4_multiply m n) RenderView.mat4_identity /\
  Forall2 Qeq (mat4_multiply n m) RenderView.mat4_identity.

(** The position of the viewTransform of a view, as drawViews reads it. *)
Definition viewTransform_position (view : RenderView.t) : vec3 :=
  let p := RenderView.position (RenderView.viewTransform view) in
  [RenderView.x p; RenderView.y p; RenderView.z p].

(** A view made from the raw view matrix of a camera that stands at
    (1, 2, 3). *)
Definition view_from_matrix : RenderView.t :=
  RenderView.constructor RenderView.mat4_identity
    (RenderView.Float32Array (mat4_fromTranslation (-1) (-2) (-3))%Q) None "left".

(** ** The calls for one primitive under multiview *)

(** The draw call of draw_instances for a primitive. *)
Definition draw_call (primitive : primref) (p : RenderPrimitive.t) : glcall :=
  if some (RenderPrimitive._indexBuffer p)
  then drawElements primitive (RenderPrimitive._mode p)
         (RenderPrimitive._elementCount p) (RenderPrimitive._indexType p)
         (RenderPrimitive._indexByteOffset p)
  else drawArrays primitive (RenderPrimitive._mode p) 0
         (RenderPrimitive._elementCount p).

Definition active_in (frameId : Z) (n : Node.t) : bool :=
  Node._activeFrameId n =? frameId.

(** The calls for the instances of a primitive: its world matrix and a
    draw call for each instance that is active in the frame. *)
Definition instance_calls (primitive : primref) (p : RenderPrimitive.t)
    (frameId : Z) (instances : list Node.t) : list glcall :=
  concat
    (map (fun n =>
            if active_in frameId n
            then [uniformMatrix4fv "MODEL_MATRIX" (Node.worldMatrix n);
                  draw_call primitive p]
            else [])
         instances).

(** The matrices uploaded under a uniform name. *)
Definition uploads_of (name : string) (calls : list glcall) : list mat4 :=
  omap (fun c =>
          match c with
          | uniformMatrix4fv n m => if String.eqb n name then Some m else None
          | _ => None
          end)
       calls.

(** Depth data as the session layer hands it over: when the first entry
    overrides the projection matrix there is a second entry that does so
    too. *)
Definition depth_ok (depthData : option (list DepthData.t)) : Prop :=
  match depthData with
  | Some (depth0 :: rest) =>
      match DepthData.projectionMatrix depth0 with
      | Some _ =>
          exists depth1 rest' m1,
            rest = depth1 :: rest' /\ DepthData.projectionMatrix depth1 = Some m1
      | None => True
      end
  | _ => True
  end.

Definition sample_view_right : RenderView.t :=
  RenderView.constructor RenderView.mat4_identity
    (RenderView.RigidTransform RenderView.XRRigidTransform_new) None "right".

(** What the calls of the first round of the view loop have to be for two
    views under multiview: no draw call among them, and each of the four
    matrices of the two eyes uploaded once. *)
Definition stereo_uploads (view0 view1 : RenderView.t) (calls : list glcall) : Prop :=
  Forall no_draw calls /\
  uploads_of "LEFT_PROJECTION_MATRIX" calls = [RenderView.projectionMatrix view0] /\
  uploads_of "LEFT_VIEW_MATRIX" calls = [RenderView.viewMatrix view0] /\
  uploads_of "RIGHT_PROJECTION_MATRIX" calls = [RenderView.projectionMatrix view1] /\
  uploads_of "RIGHT_VIEW_MATRIX" calls = [RenderView.viewMatrix view1].

(** ** A primitive whose geometry is replaced while a completion is pending *)

(** A buffer filled at once and a buffer whose data never comes, a
    primitive created on the first and set at once to geometry on the
    second, and a node that shows it. *)
Definition swap_ops : list op :=
  [CreateRenderBuffer GL.ARRAY_BUFFER (ArrayBuffer 36) GL.STATIC_DRAW;
   CreateRenderBuffer GL.ARRAY_BUFFER (DataPromise NeverSettles) GL.STATIC_DRAW;
   CreateRenderPrimitive (sample_primitive 0%nat) (sample_material "stone" 4);
   SetPrimitive 0%nat (sample_primitive 1%nat);
   CreateNode RenderView.mat4_identity;
   AddRenderPrimitive 0%nat 0%nat].

Definition swap_world : World :=
  run (new_world (sample_renderer false)) swap_ops.

(** The buffers that the attributes of a primitive are read from. *)
Definition buffers_of (p : RenderPrimitive.t) : list bufref :=
  map RenderPrimitiveAttributeBuffer._buffer (RenderPrimitive._attributeBuffers p).

(** The calls of the frame that draw primitive [p]. *)
Definition draws_of (p : primref) (calls : list glcall) : list glcall :=
  List.filter (fun c => bool_decide (drawn c = Some p)) calls.

(** ** Powers of two *)

(** The sizes that isPowerOfTwo is meant to accept. *)
Definition is_power_of_two (n : Z) : Prop := exists k, 0 <= k < 31 /\ n = 2 ^ k.

(** A texture of the given size that asks for mipmaps and sets nothing in
    its sampler. *)
Definition sized_texture (width height : Z) : Texture.t :=
  {| Texture.textureKey := Some "sized";
     Texture.class := DataTexture 5121 [];
     Texture.format := 6408;
     Texture.width := width;
     Texture.height := height;
     Texture.mipmap := true;
     Texture.sampler :=
       {| Sampler.minFilter := 0; Sampler.magFilter := 0;
          Sampler.wrapS := 0; Sampler.wrapT := 0 |};
     Texture.source := "" |}.

(** ** The attribute buffers of a primitive *)

(** The attributes that a list of attribute buffers holds for a buffer. *)
Definition attributes_for (b : bufref)
    (abs : list RenderPrimitiveAttributeBuffer.t) : list RenderPrimitiveAttribute.t :=
  concat (map RenderPrimitiveAttributeBuffer._attributes
            (List.filter (fun ab => Nat.eqb (RenderPrimitiveAttributeBuffer._buffer ab) b) abs)).

(** The attributes of a descriptor that are read from a buffer, as
    setPrimitive wraps them. *)
Definition attributes_on (b : bufref) (attributes : list PrimitiveAttribute.t)
    : list RenderPrimitiveAttribute.t :=
  map RenderPrimitiveAttribute.constructor
    (List.filter (fun a => Nat.eqb (PrimitiveAttribute.buffer a) b) attributes).







(** ** The capabilities and write masks of the context *)

(** The part of the state of a WebGL context that enable, disable,
    colorMask, depthMask and stencilMask set. *)
Record gl_caps := {
  enabled : Z -> bool;
  color_writemask : bool * bool * bool * bool;
  depth_writemask : bool;
  stencil_writemask : Z;
}.

Definition gl_step (s : gl_caps) (c : glcall) : gl_caps :=
  match c with
  | enable cap =>
      {| enabled := fun e => if e =? cap then true else enabled s e;
         color_writemask := color_writemask s;
         depth_writemask := depth_writemask s;
         stencil_writemask := stencil_writemask s |}
  | disable cap =>
      {| enabled := fun e => if e =? cap then false else enabled s e;
         color_writemask := color_writemask s;
         depth_writemask := depth_writemask s;
         stencil_writemask := stencil_writemask s |}
  | colorMask r g b a =>
      {| enabled := enabled s;
         color_writemask := (r, g, b, a);
         depth_writemask := depth_writemask s;
         stencil_writemask := stencil_writemask s |}
  | depthMask flag =>
      {| enabled := enabled s;
         color_writemask := color_writemask s;
         depth_writemask := flag;
         stencil_writemask := stencil_writemask s |}
  | stencilMask mask =>
      {| enabled := enabled s;
         color_writemask := color_writemask s;
         depth_writemask := depth_writemask s;
         stencil_writemask := mask |}
  | _ => s
  end.

Definition gl_run (calls : list glcall) (s : gl_caps) : gl_caps :=
  fold_left gl_step calls s.

(** A context whose capabilities and write masks are those of a packed
    material state. *)
Definition caps_agree {material_js : MaterialJs} (s : gl_caps) (state : Z) : Prop :=
  enabled s GL.CULL_FACE = truthy (js_and state CAP_CULL_FACE) /\
  enabled s GL.BLEND = truthy (js_and state CAP_BLEND) /\
  enabled s GL.DEPTH_TEST = truthy (js_and state CAP_DEPTH_TEST) /\
  enabled s GL.STENCIL_TEST = truthy (js_and state CAP_STENCIL_TEST) /\
  color_writemask s =
    (truthy (js_and state CAP_COLOR_MASK), truthy (js_and state CAP_COLOR_MASK),
     truthy (js_and state CAP_COLOR_MASK), truthy (js_and state CAP_COLOR_MASK)) /\
  depth_writemask s = truthy (js_and state CAP_DEPTH_MASK) /\
  stencil_writemask s = (if truthy (js_and state CAP_STENCIL_MASK) then 255 else 0).

(** The seven capability bits lie in the range that _capsDiff compares. *)
Definition caps_in_range {material_js : MaterialJs} : Prop :=
  Forall (fun c => js_and c MAT_STATE_CAPS_RANGE = c)
    [CAP_CULL_FACE; CAP_BLEND; CAP_DEPTH_TEST; CAP_STENCIL_TEST;
     CAP_COLOR_MASK; CAP_DEPTH_MASK; CAP_STENCIL_MASK].

(** A context in the state that a packed material state asks for. *)
Definition caps_of {material_js : MaterialJs} (state : Z) : gl_caps :=
  {| enabled := fun e =>
       if e =? GL.CULL_FACE then truthy (js_and state CAP_CULL_FACE)
       else if e =? GL.BLEND then truthy (js_and state CAP_BLEND)
       else if e =? GL.DEPTH_TEST then truthy (js_and state CAP_DEPTH_TEST)
       else if e =? GL.STENCIL_TEST then truthy (js_and state CAP_STENCIL_TEST)
       else false;
     color_writemask :=
       (truthy (js_and state CAP_COLOR_MASK), truthy (js_and state CAP_COLOR_MASK),
        truthy (js_and state CAP_COLOR_MASK), truthy (js_and state CAP_COLOR_MASK));
     depth_writemask := truthy (js_and state CAP_DEPTH_MASK);
     stencil_writemask := if truthy (js_and state CAP_STENCIL_MASK) then 255 else 0 |}.


(** ** The textures of a render material *)

Definition texture_complete (w : World) (t : texref) : bool :=
  match textures w !! t with
  | Some rt => RenderTexture._complete rt
  | None => false
  end.

(** Whether the textures of all samplers are complete; a sampler without
    a texture does not count. *)
Definition samplers_complete (w : World) (samplers : list RenderMaterialSampler.t) : bool :=
  forallb (fun s => match RenderMaterialSampler._renderTexture s with
                    | Some t => texture_complete w t
                    | None => true
                    end) samplers.






(** The scene with a material that samples an image that has not been
    loaded. *)
Definition image_texture (key : string) : Texture.t :=
  {| Texture.textureKey := Some key;
     Texture.class := ImageTexture;
     Texture.format := 6408;
     Texture.width := 64;
     Texture.height := 64;
     Texture.mipmap := true;
     Texture.sampler :=
       {| Sampler.minFilter := 0; Sampler.magFilter := 0;
          Sampler.wrapS := 0; Sampler.wrapT := 0 |};
     Texture.source := "wood.png" |}.





(** ** What a computation leaves as it is *)

(** A part of the world, read by [proj], is the same afterwards. *)
Definition keeps {X} (proj : World -> X) (w w' : World) : Prop := proj w' = proj w.

(** The frame counter of the renderer. *)
Definition frame_of (w : World) : Z := Renderer._frameId (renderer w).

(** The scene as drawing finds it: the primitives, the nodes and the
    frame counter. *)
Definition still (w : World) : list RenderPrimitive.t * list Node.t * Z :=
  (primitives w, nodes w, frame_of w).

(** ** A primitive that is not complete *)

(** What is known of one primitive: the object and the frame counter. *)
Definition at_p (p : primref) (w : World) : option RenderPrimitive.t * Z :=
  (primitives w !! p, frame_of w).

(** The primitive is not complete, and its stamp is not ahead of the
    frame counter. *)
Definition unfinished (p : primref) (w : World) : Prop :=
  exists rp, primitives w !! p = Some rp /\
    RenderPrimitive._complete rp = false /\
    RenderPrimitive._activeFrameId rp <= frame_of w.

(** The same inside a frame, whose counter is ahead of the stamp. *)
Definition stale (p : primref) (w : World) : Prop :=
  exists rp, primitives w !! p = Some rp /\
    RenderPrimitive._complete rp = false /\
    RenderPrimitive._activeFrameId rp < frame_of w.

Definition not_drawing (p : primref) (c : glcall) : Prop := drawn c <> Some p.

(** A step of a frame that leaves a stale primitive stale, and as it is,
    and issues no draw call for it. *)
Definition skips (p : primref) (w w' : World) : Prop :=
  stale p w ->
  stale p w' /\
  primitives w' !! p = primitives w !! p /\
  exists l, gl_log w' = gl_log w ++ l /\ Forall (not_drawing p) l.

Definition is_frame (o : op) : Prop :=
  exists views rootNode depthData, o = DrawViews views rootNode depthData.

(** ** A sampler without a texture *)

(** Programs that declare a texture uniform besides the uniforms of the
    renderer. *)
Definition textured_program_js : ProgramJs := {|
  linked_uniforms := fun _ _ _ =>
    ["PROJECTION_MATRIX"; "VIEW_MATRIX"; "MODEL_MATRIX"; "baseColorTex"];
|}.

(** A material whose sampler has not been given a texture. *)
Definition untextured_material : Material.t :=
  {| Material.materialName := Some "bare";
     Material.vertexSource := Some "vec4 vertex_main(mat4 p, mat4 v, mat4 m) {}";
     Material.fragmentSource := Some "vec4 fragment_main() {}";
     Material.state := 4;
     Material.renderOrder := 4;
     Material._samplers :=
       [{| MaterialSampler._uniformName := "baseColorTex";
           MaterialSampler._texture := None |}];
     Material._uniforms := [];
     Material.getProgramDefines := fun _ => [] |}.

Definition untextured_world : World :=
  @run sample_material_js textured_program_js (new_world (sample_renderer false))
    [CreateRenderBuffer GL.ARRAY_BUFFER (ArrayBuffer 36) GL.STATIC_DRAW;
     CreateRenderPrimitive (sample_primitive 0%nat) untextured_material].

(** Whether a primitive is complete and which frame it is stamped with,
    beside the frame counter. *)
Definition shape_p (p : primref) (w : World) : option (bool * Z) * Z :=
  ((fun rp => (RenderPrimitive._complete rp, RenderPrimitive._activeFrameId rp))
     <$> primitives w !! p,
   frame_of w).

(** ** The order of the primitives in a frame *)

(** The phases of a frame, primitive by primitive: the calls before the
    buckets, the calls for each primitive of each bucket in turn, and the
    calls after them. *)
Definition primitive_phases (arr : list (option (list primref)))
    : list (glcall -> Prop) :=
  no_draw :: map draws_only (members arr) ++ [no_draw].

(** The scene with a second opaque primitive, made after the first. *)
Definition crowd_scene : World :=
  run (sample_scene false)
    [CreateRenderPrimitive (sample_primitive 0%nat) (sample_material "slate" 4);
     AddRenderPrimitive 0%nat 2%nat;
     Settle 0%nat].

(** ** The stamps of the primitives *)

(** The stamps that markActive leaves on the primitives, with the frame
    counter. *)
Definition stamps (w : World) : list Z * Z :=
  (RenderPrimitive._activeFrameId <$> primitives w, frame_of w).

(** No stamp is ahead of the frame counter, and neither a stamp nor the
    counter is negative. *)
Definition stamped (w : World) : Prop :=
  0 <= snd (stamps w) /\
  Forall (fun s => 0 <= s <= snd (stamps w)) (fst (stamps w)).

(** A step inside the frame [F] that leaves the stamps within the
    counter. *)
Definition stays_stamped (F : Z) (w w' : World) : Prop :=
  frame_of w = F /\ stamped w -> frame_of w' = F /\ stamped w'.

(** ** A primitive that the marking does not reach *)

(** The stamp of the primitive is behind the frame counter. *)
Definition behind (p : primref) (w : World) : Prop :=
  exists rp, primitives w !! p = Some rp /\
    RenderPrimitive._activeFrameId rp < frame_of w.

(** A step of a frame that leaves the primitive behind and issues no
    draw call for it. *)
Definition passes (p : primref) (w w' : World) : Prop :=
  behind p w ->
  behind p w' /\ exists l, gl_log w' = gl_log w ++ l /\ Forall (not_drawing p) l.

(** The primitives attached to each node. *)
Definition attached (w : World) : list (list primref) :=
  Node._renderPrimitives <$> nodes w.

(** The primitive is attached to none of the nodes of [root]. *)
Definition detached (p : primref) (root : list noderef) (w : World) : Prop :=
  forall n ps, n ∈ root -> attached w !! n = Some ps -> p ∉ ps.

(** What the marking of other primitives leaves alone: the primitive
    with the frame counter, and what is attached to the nodes. *)
Definition apart (p : primref) (w : World)
    : (option RenderPrimitive.t * Z) * list (list primref) :=
  (at_p p w, attached w).

(** The scene with a second node, which holds a third primitive and is
    not below the first node. *)
Definition two_node_scene : World :=
  run (sample_scene false)
    [CreateRenderPrimitive (sample_primitive 0%nat) (sample_material "slate" 4);
     CreateNode RenderView.mat4_identity;
     AddRenderPrimitive 1%nat 2%nat;
     Settle 0%nat].

(** ** The frames of a run *)

(** The calls of drawViews that are given a root node. *)
Definition rooted_frame (o : op) : bool :=
  match o with
  | DrawViews _ (Some _) _ => true
  | _ => false
  end.

Definition frames_in (ops : list op) : Z :=
  Z.of_nat (length (filter (fun o => rooted_frame o = true) ops)).

(** ** A material with two samplers *)

(** A material whose second sampler is the one its program declares. *)
Definition layered_material : Material.t :=
  {| Material.materialName := Some "layered";
     Material.vertexSource := Some "vec4 vertex_main(mat4 p, mat4 v, mat4 m) {}";
     Material.fragmentSource := Some "vec4 fragment_main() {}";
     Material.state := 4;
     Material.renderOrder := 4;
     Material._samplers :=
       [{| MaterialSampler._uniformName := "occlusionTex";
           MaterialSampler._texture := None |};
        {| MaterialSampler._uniformName := "baseColorTex";
           MaterialSampler._texture := Some (image_texture "wood.png") |}];
     Material._uniforms := [];
     Material.getProgramDefines := fun _ => [] |}.

(** ** The write masks of the context *)

(** The calls that set the colour or the depth write mask. *)
Definition mask_call (c : glcall) : bool :=
  match c with
  | colorMask _ _ _ _ | depthMask _ => true
  | _ => false
  end.

(** The two flags that drawViews reads at its end. *)
Definition reset_flags (w : World) : bool * bool :=
  (Renderer._depthMaskNeedsReset (renderer w),
   Renderer._colorMaskNeedsReset (renderer w)).

(** A step that sets no write mask and leaves the two flags. *)
Definition calm (w w' : World) : Prop :=
  reset_flags w' = reset_flags w /\
  exists l, gl_log w' = gl_log w ++ l /\ Forall (fun c => mask_call c = false) l.

Definition masks_of (s : gl_caps) : bool * (bool * bool * bool * bool) :=
  (depth_writemask s, color_writemask s).

(** Depth and colour writes are enabled. *)
Definition writes_on (s : gl_caps) : Prop :=
  masks_of s = (true, (true, true, true, true)).

(** The context after the calls of the log, from the state [s0] that it
    was in when the renderer was made. *)
Definition context_of (s0 : gl_caps) (w : World) : gl_caps :=
  gl_run (gl_log w) s0.

(** A write mask that is off has its flag set. *)
Definition flags_cover (masks : bool * (bool * bool * bool * bool))
    (flags : bool * bool) : Prop :=
  (fst masks = true \/ fst flags = true) /\
  (snd masks = (true, true, true, true) \/ snd flags = true).

Definition masks_flagged (s0 : gl_caps) (w : World) : Prop :=
  flags_cover (masks_of (context_of s0 w)) (reset_flags w).

Definition flagged (s0 : gl_caps) (w w' : World) : Prop :=
  masks_flagged s0 w -> masks_flagged s0 w'.

(** A context as WebGL makes it: nothing enabled, every write mask on. *)
Definition fresh_context : gl_caps :=
  {| enabled := fun _ => false;
     color_writemask := (true, true, true, true);
     depth_writemask := true;
     stencil_writemask := 255 |}.

(** ** A frame of two views under multiview *)

(** Whether the renderer draws with multiview. *)
Definition multiview_of (w : World) : bool := Renderer._multiview (renderer w).

(** What drawing leaves of the scene: the primitives but for their vertex
    array objects, the nodes, the frame counter and multiview. *)
Definition scene (w : World) : list RenderPrimitive.t * list Node.t * Z * bool :=
  (map (prim_set_vao None) (primitives w), nodes w, frame_of w, multiview_of w).

(** Calls that neither draw nor upload a matrix. *)
Definition plain (c : glcall) : bool :=
  match c with
  | drawElements _ _ _ _ _ | drawArrays _ _ _ _ | uniformMatrix4fv _ _ => false
  | _ => true
  end.

(** A step that leaves the scene as it is and issues plain calls only. *)
Definition prepares (w w' : World) : Prop :=
  scene w' = scene w /\
  exists l, gl_log w' = gl_log w ++ l /\ Forall (fun c => plain c = true) l.

(** What holds of the result of a computation when it returns. *)
Definition returns_with {A} (r : World * outcome A) (Post : World -> A -> Prop) : Prop :=
  match r with
  | (w', Return a) => Post w' a
  | (_, Throw _) => True
  end.

(** Each of the four matrices of the two eyes is uploaded once among the
    calls. *)
Definition stereo_once (view0 view1 : RenderView.t) (calls : list glcall) : Prop :=
  uploads_of "LEFT_PROJECTION_MATRIX" calls = [RenderView.projectionMatrix view0] /\
  uploads_of "LEFT_VIEW_MATRIX" calls = [RenderView.viewMatrix view0] /\
  uploads_of "RIGHT_PROJECTION_MATRIX" calls = [RenderView.projectionMatrix view1] /\
  uploads_of "RIGHT_VIEW_MATRIX" calls = [RenderView.viewMatrix view1].

(** The calls of a frame of two views under multiview for a primitive of
    a bucket, in the world [w] that the frame has marked: none when the
    primitive is not stamped with the frame; otherwise calls that draw
    nothing and upload each of the LEFT and RIGHT projection and view
    matrices once, followed by the world matrix and one draw call for
    each instance that is active in the frame, among which none of the
    four matrices is uploaded again. *)
Definition multiview_segment (view0 view1 : RenderView.t) (w : World)
    (p : primref) (seg : list glcall) : Prop :=
  exists rp, primitives w !! p = Some rp /\
    if RenderPrimitive._activeFrameId rp =? frame_of w
    then exists pre ns,
           Forall2 (fun r n => nodes w !! r = Some n) (RenderPrimitive._instances rp) ns /\
           seg = pre ++ instance_calls p rp (frame_of w) ns /\
           stereo_uploads view0 view1 pre /\
           stereo_once view0 view1 seg
    else seg = [].

(** One draw call for every pair of the primitive [p], stamped with the
    frame, and an instance of it that is stamped with the frame. *)
Definition frame_draws (w : World) (p : primref) : list glcall :=
  match primitives w !! p with
  | Some rp =>
      if RenderPrimitive._activeFrameId rp =? frame_of w
      then map (fun _ => draw_call p rp)
             (List.filter (active_in (frame_of w))
                (omap (fun r => nodes w !! r) (RenderPrimitive._instances rp)))
      else []
  | None => []
  end.

(** Depth data of one entry, which overrides the projection matrix. *)
Definition lone_depth : DepthData.t :=
  {| DepthData.rawValueToMeters := 1 # 1000;
     DepthData.projectionMatrix := Some RenderView.mat4_identity;
     DepthData.transform_inverse_matrix := RenderView.mat4_identity;
     DepthData.texture := Some 0%nat |}.


(** * Properties *)

(** ** Numbers *)

Lemma ToInt32_small n : - 2 ^ 31 <= n < 2 ^ 31 -> ToInt32 n = n.
Proof.
  intros Hn. unfold ToInt32.
  rewrite Z.mod_small by lia. lia.
Qed.

Lemma ToInt32_range n : - 2 ^ 31 <= ToInt32 n < 2 ^ 31.
Proof.
  unfold ToInt32.
  pose proof (Z.mod_pos_bound (n + 2 ^ 31) (2 ^ 32) ltac:(lia)). lia.
Qed.

Lemma isPowerOfTwo_0 : isPowerOfTwo 0 = true.
Proof. reflexivity. Qed.

Example isPowerOfTwo_3 : isPowerOfTwo 3 = false.
Proof. reflexivity. Qed.

Example isPowerOfTwo_64 : isPowerOfTwo 64 = true.
Proof. reflexivity. Qed.

(** ** Sampler parameters of a texture with a zero dimension *)

(** C9, as stated, fails: a texture of width 0 whose height is 3 is not
    classified as power-of-two; it gets the CLAMP_TO_EDGE wrap modes and
    the LINEAR filter without mipmaps, although it asks for mipmaps and
    sets nothing in its sampler. *)
Lemma C9_zero_width_odd_height :
  Texture.width (zero_by 3) = 0 /\
  Texture.mipmap (zero_by 3) = true /\
  powerOfTwo (zero_by 3) = false /\
  _setSamplerParameters (zero_by 3) =
    [texParameteri GL.TEXTURE_2D GL.TEXTURE_MAG_FILTER GL.LINEAR;
     texParameteri GL.TEXTURE_2D GL.TEXTURE_MIN_FILTER GL.LINEAR;
     texParameteri GL.TEXTURE_2D GL.TEXTURE_WRAP_S GL.CLAMP_TO_EDGE;
     texParameteri GL.TEXTURE_2D GL.TEXTURE_WRAP_T GL.CLAMP_TO_EDGE].
Proof. repeat split; reflexivity. Qed.

(** C9, amended: isPowerOfTwo is true of 0, so a texture one of whose
    dimensions is 0 is classified as power-of-two as soon as its other
    dimension passes isPowerOfTwo too.  It then gets, wherever its sampler
    sets nothing else, the REPEAT wrap modes and, when it asks for
    mipmaps, mipmap generation and the LINEAR_MIPMAP_LINEAR filter. *)
Theorem C9_zero_dimension_power_of_two (texture : Texture.t) :
  (Texture.width texture = 0 /\ isPowerOfTwo (Texture.height texture) = true) \/
  (Texture.height texture = 0 /\ isPowerOfTwo (Texture.width texture) = true) ->
  isPowerOfTwo 0 = true /\
  powerOfTwo texture = true /\
  _setSamplerParameters texture =
    (if Texture.mipmap texture then [generateMipmap GL.TEXTURE_2D] else []) ++
    [texParameteri GL.TEXTURE_2D GL.TEXTURE_MAG_FILTER
       (js_or_else (Sampler.magFilter (Texture.sampler texture)) GL.LINEAR);
     texParameteri GL.TEXTURE_2D GL.TEXTURE_MIN_FILTER
       (js_or_else (Sampler.minFilter (Texture.sampler texture))
          (if Texture.mipmap texture then GL.LINEAR_MIPMAP_LINEAR else GL.LINEAR));
     texParameteri GL.TEXTURE_2D GL.TEXTURE_WRAP_S
       (js_or_else (Sampler.wrapS (Texture.sampler texture)) GL.REPEAT);
     texParameteri GL.TEXTURE_2D GL.TEXTURE_WRAP_T
       (js_or_else (Sampler.wrapT (Texture.sampler texture)) GL.REPEAT)].
Proof.
  intros Hdim.
  assert (Hpot : powerOfTwo texture = true).
  { unfold powerOfTwo.
    destruct Hdim as [[-> ->] | [-> ->]]; reflexivity. }
  split; [reflexivity |]. split; [exact Hpot |].
  unfold _setSamplerParameters. rewrite Hpot. reflexivity.
Qed.

Lemma C9_zero_dimension_power_of_two_witness :
  powerOfTwo (zero_by 4) = true /\
  _setSamplerParameters (zero_by 4) =
    [generateMipmap GL.TEXTURE_2D;
     texParameteri GL.TEXTURE_2D GL.TEXTURE_MAG_FILTER GL.LINEAR;
     texParameteri GL.TEXTURE_2D GL.TEXTURE_MIN_FILTER GL.LINEAR_MIPMAP_LINEAR;
     texParameteri GL.TEXTURE_2D GL.TEXTURE_WRAP_S GL.REPEAT;
     texParameteri GL.TEXTURE_2D GL.TEXTURE_WRAP_T GL.REPEAT].
Proof.
  pose proof (C9_zero_dimension_power_of_two (zero_by 4)) as H.
  destruct H as (_ & Hpot & Hcalls).
  - left. split; reflexivity.
  - split; [exact Hpot | exact Hcalls].
Defined.

(** ** The constructor of the Renderer *)

(** C10: constructed without a context, the Renderer throws, whatever
    [createWebGLContext] would return: the fallback is assigned to [_gl],
    but the next statement calls getExtension on the parameter. *)
Theorem C10_constructor_without_context {material_js : MaterialJs}
    (createWebGLContext : option GLContext.t)
    (multiview multisampledMultiview useDepth : bool) :
  Renderer_constructor createWebGLContext None multiview multisampledMultiview useDepth
  = Throw (TypeError "Cannot read properties of null (reading 'getExtension')").
Proof. reflexivity. Qed.

(** With a context of its own the constructor returns, and [_gl] is that
    context. *)
Lemma constructor_with_context {material_js : MaterialJs} createWebGLContext gl
    precision multiview multisampledMultiview useDepth :
  GLContext.fragHighPrecision gl = Some precision ->
  exists r,
    Renderer_constructor createWebGLContext (Some gl) multiview
      multisampledMultiview useDepth = Return r /\
    Renderer._gl r = Some gl /\
    Renderer._renderPrimitives r = replicate RENDER_ORDER_DEFAULT None.
Proof.
  intros Hp. unfold Renderer_constructor. rewrite Hp.
  eexists. split; [reflexivity |]. split; reflexivity.
Qed.

(** ** Bits of the packed state *)

Lemma land_pow2 x k :
  0 <= k -> Z.land x (2 ^ k) = if Z.testbit x k then 2 ^ k else 0.
Proof.
  intros Hk. apply Z.bits_inj'. intros n Hn.
  rewrite Z.land_spec, Z.pow2_bits_eqb by lia.
  destruct (Z.eqb_spec k n) as [-> | Hne].
  - destruct (Z.testbit x n) eqn:E.
    + rewrite Z.pow2_bits_eqb, Z.eqb_refl by lia. reflexivity.
    + rewrite Z.bits_0. reflexivity.
  - rewrite andb_false_r.
    destruct (Z.testbit x k).
    + rewrite Z.pow2_bits_eqb by lia.
      symmetry. apply Z.eqb_neq. exact Hne.
    + rewrite Z.bits_0. reflexivity.
Qed.

Lemma lxor_land_lnot a r : Z.lxor (Z.land (Z.lnot a) r) (Z.land a r) = r.
Proof.
  apply Z.bits_inj'. intros n Hn.
  rewrite Z.lxor_spec, !Z.land_spec, Z.lnot_spec by lia.
  destruct (Z.testbit a n), (Z.testbit r n); reflexivity.
Qed.

Lemma ToInt32_js_not s : ToInt32 (js_not s) = Z.lnot (ToInt32 s).
Proof.
  unfold js_not. apply ToInt32_small.
  pose proof (ToInt32_range s). unfold Z.lnot. lia.
Qed.

Lemma js_not_differs s : (s =? js_not s) = false.
Proof.
  apply Z.eqb_neq. intros Heq.
  pose proof (ToInt32_range s) as Hr.
  assert (Hn : js_not s = - ToInt32 s - 1) by (unfold js_not, Z.lnot; lia).
  assert (Hs : ToInt32 s = s) by (apply ToInt32_small; lia).
  lia.
Qed.

Lemma pow2_bit_range k : 0 <= k < 31 -> 0 < 2 ^ k < 2 ^ 31.
Proof.
  intros Hk. split; [apply Z.pow_pos_nonneg; lia |].
  apply Z.pow_lt_mono_r; lia.
Qed.

Section Bits.
Variables (lowest c s : Z).
Hypothesis Hlow : 0 <= lowest.
Hypothesis Hc : is_bit lowest c.

Lemma js_and_bit :
  exists k, 0 <= k < 31 /\ lowest <= k /\ c = 2 ^ k /\
    js_and s c = (if Z.testbit (ToInt32 s) k then c else 0) /\
    js_and (js_not s) c = (if Z.testbit (ToInt32 s) k then 0 else c).
Proof.
  destruct Hc as (k & Hk & ->).
  exists k. pose proof (pow2_bit_range k ltac:(lia)) as Hp.
  split; [lia |]. split; [lia |]. split; [reflexivity |].
  unfold js_and. rewrite ToInt32_js_not.
  rewrite (ToInt32_small (2 ^ k)) by lia.
  rewrite !land_pow2 by lia.
  rewrite Z.lnot_spec by lia.
  destruct (Z.testbit (ToInt32 s) k); split; reflexivity.
Qed.

Lemma bit_positive : 0 < c.
Proof.
  destruct Hc as (k & Hk & ->). apply Z.pow_pos_nonneg; lia.
Qed.

Lemma setCap_first glEnum :
  setCap glEnum c (js_not s) s =
    [if truthy (js_and s c) then enable glEnum else disable glEnum].
Proof.
  pose proof bit_positive as Hpos.
  unfold setCap, truthy.
  destruct js_and_bit as (k & Hk & _ & Hck & -> & ->).
  destruct (Z.testbit (ToInt32 s) k).
  - rewrite Z.sub_0_r.
    destruct (Z.eqb_spec c 0); [lia |]. simpl.
    destruct (Z.ltb_spec 0 c); [reflexivity | lia].
  - rewrite Z.sub_0_l.
    destruct (Z.eqb_spec (- c) 0); [lia |]. simpl.
    destruct (Z.ltb_spec 0 (- c)); [lia | reflexivity].
Qed.

Lemma mask_change_first :
  1 <= lowest ->
  truthy (js_and s c - js_and (js_not s) c) = true /\
  (1 <? js_and s c - js_and (js_not s) c) = truthy (js_and s c).
Proof.
  intros Hone.
  destruct js_and_bit as (k & Hk & Hlk & Hck & -> & ->).
  assert (2 <= c).
  { subst c. change 2 with (2 ^ 1). apply Z.pow_le_mono_r; lia. }
  unfold truthy.
  destruct (Z.testbit (ToInt32 s) k).
  - rewrite Z.sub_0_r.
    destruct (Z.eqb_spec c 0); [lia |].
    destruct (Z.ltb_spec 1 c); [split; reflexivity | lia].
  - rewrite Z.sub_0_l.
    destruct (Z.eqb_spec (- c) 0); [lia |].
    destruct (Z.ltb_spec 1 (- c)); [lia | split; reflexivity].
Qed.
End Bits.

Lemma range_diff_first r s :
  is_range r ->
  js_xor (js_and (js_not s) r) (js_and s r) = r.
Proof.
  intros Hr. unfold is_range in Hr.
  unfold js_xor, js_and. rewrite ToInt32_js_not.
  rewrite (ToInt32_small r) by lia.
  assert (Hland : forall a, - 2 ^ 31 <= Z.land a r < 2 ^ 31).
  { intros a.
    assert (Hr31 : Z.land r (Z.ones 31) = r).
    { rewrite Z.land_ones by lia. apply Z.mod_small. lia. }
    assert (Hmod : Z.land a r = Z.land a r mod 2 ^ 31).
    { rewrite <- Z.land_ones by lia.
      rewrite <- Z.land_assoc, Hr31. reflexivity. }
    pose proof (Z.mod_pos_bound (Z.land a r) (2 ^ 31) ltac:(lia)). lia. }
  rewrite (ToInt32_small (Z.land (Z.lnot (ToInt32 s)) r)) by apply Hland.
  rewrite (ToInt32_small (Z.land (ToInt32 s) r)) by apply Hland.
  apply lxor_land_lnot.
Qed.

(** ** The first material of a bucket *)

Section FirstMaterial.
Context {material_js : MaterialJs} {program_js : ProgramJs}.
Hypothesis Hpacked : packed_state.

Lemma bindMaterialState_calls_first state :
  bindMaterialState_calls state (prevState_of state None) = apply_state state.
Proof.
  destruct Hpacked.
  unfold bindMaterialState_calls, apply_state, prevState_of.
  rewrite js_not_differs.
  unfold _capsDiff, _blendDiff, _depthFuncDiff.
  rewrite !range_diff_first by assumption.
  assert (Ht : forall r, is_range r -> truthy r = true).
  { intros r [Hr _]. unfold truthy.
    destruct (Z.eqb_spec r 0); [lia | reflexivity]. }
  rewrite !Ht by assumption.
  rewrite !(setCap_first 0) by (assumption || lia).
  unfold colorMaskChange, depthMaskChange, stencilMaskChange.
  destruct (mask_change_first 1 CAP_COLOR_MASK state ltac:(lia) color_mask_bit0
              ltac:(lia)) as [-> ->].
  destruct (mask_change_first 1 CAP_DEPTH_MASK state ltac:(lia) depth_mask_bit0
              ltac:(lia)) as [-> ->].
  destruct (mask_change_first 1 CAP_STENCIL_MASK state ltac:(lia) stencil_mask_bit0
              ltac:(lia)) as [-> ->].
  unfold apply_cap, material_blend, material_depthTest.
  destruct (truthy (js_and state CAP_BLEND)),
           (truthy (js_and state CAP_DEPTH_TEST));
    simpl;
    rewrite ?(Ht MAT_STATE_BLEND_FUNC_RANGE), ?(Ht MAT_STATE_DEPTH_FUNC_RANGE)
      by assumption;
    reflexivity.
Qed.
End FirstMaterial.

(** ** Running computations *)

Lemma set_gl_log_id w : set_gl_log (fun l => l ++ []) w = w.
Proof. destruct w. unfold set_gl_log. simpl. rewrite app_nil_r. reflexivity. Qed.

Lemma gl_all_run cs w :
  gl_all cs w = (set_gl_log (fun l => l ++ cs) w, Return tt).
Proof.
  revert w. induction cs as [| c cs IH]; intros w.
  - rewrite set_gl_log_id. reflexivity.
  - unfold gl_all in *. simpl. unfold bind at 1. unfold gl at 1, modify.
    rewrite IH. unfold set_gl_log. simpl.
    rewrite <- app_assoc. reflexivity.
Qed.

Lemma deref_run {A} (H : heap A) r a w :
  objects H w !! r = Some a -> deref H r w = (w, Return a).
Proof. intros Hr. unfold deref. rewrite Hr. reflexivity. Qed.

Lemma bind_deref {A B} (H : heap A) r a (k : A -> M B) w :
  objects H w !! r = Some a -> (x <- deref H r ;; k x) w = k a w.
Proof. intros Hr. unfold bind. rewrite (deref_run H r a w Hr). reflexivity. Qed.

Lemma bind_deref_none {A B} (H : heap A) r (k : A -> M B) w :
  objects H w !! r = None ->
  (x <- deref H r ;; k x) w =
    (w, Throw (TypeError "Cannot read properties of undefined")).
Proof. intros Hr. unfold bind, deref. rewrite Hr. reflexivity. Qed.

Lemma bind_gets {A B} (f : World -> A) (k : A -> M B) w :
  (x <- gets f ;; k x) w = k (f w) w.
Proof. reflexivity. Qed.

Lemma bind_ret {A B} (a : A) (k : A -> M B) w : (x <- ret a ;; k x) w = k a w.
Proof. reflexivity. Qed.

Lemma bind_modify {B} (f : World -> World) (k : M B) w :
  (modify f ;; k) w = k (f w).
Proof. reflexivity. Qed.

Lemma bind_throw {A B} (e : exn) (k : A -> M B) w :
  (x <- throw e ;; k x) w = (w, Throw e).
Proof. reflexivity. Qed.

Lemma fst_bind_ret {A B} (m : M A) (b : B) w : fst ((m ;; ret b) w) = fst (m w).
Proof. unfold bind. destruct (m w) as [w' [a | e]]; reflexivity. Qed.

Lemma bind_assoc {A B C} (m : M A) (k : A -> M B) (h : B -> M C) w :
  (y <- (x <- m ;; k x) ;; h y) w = (x <- m ;; y <- k x ;; h y) w.
Proof. unfold bind. destruct (m w) as [w' [a | e]]; reflexivity. Qed.

Lemma bind_gl_all {B} cs (k : M B) w :
  (gl_all cs ;; k) w = k (set_gl_log (fun l => l ++ cs) w).
Proof. unfold bind. rewrite gl_all_run. reflexivity. Qed.

Section FirstMaterialBound.
Context {material_js : MaterialJs} {program_js : ProgramJs}.

(** C7: bound with no previous material, a material is compared with
    the complement of its own state, and every part of its state is
    applied: the four capabilities and the three write masks each once,
    then the blend function if it blends and the depth function if it
    tests depth.  Nothing of the world enters the calls but the state
    of the material. *)
Theorem C7_first_material_applies_its_state (material : matref)
    (m : RenderMaterial.t) (w : World) :
  packed_state ->
  materials w !! material = Some m ->
  prevState_of (RenderMaterial._state m) None = js_not (RenderMaterial._state m) /\
  exists w',
    _bindMaterialState material None w = (w', Return tt) /\
    gl_log w' = gl_log w ++ apply_state (RenderMaterial._state m).
Proof.
  intros Hpacked Hm. split; [reflexivity |].
  unfold _bindMaterialState.
  unfold bind at 1. rewrite (deref_run materialH material m w Hm).
  unfold bind at 1. unfold ret at 1.
  unfold bind at 1. rewrite gl_all_run.
  rewrite (bindMaterialState_calls_first Hpacked).
  eexists. split; [reflexivity |]. reflexivity.
Qed.
End FirstMaterialBound.

Lemma sample_packed_state : @packed_state sample_material_js.
Proof.
  split.
  - exists 0. split; [lia | reflexivity].
  - exists 1. split; [lia | reflexivity].
  - exists 2. split; [lia | reflexivity].
  - exists 3. split; [lia | reflexivity].
  - exists 4. split; [lia | reflexivity].
  - exists 5. split; [lia | reflexivity].
  - exists 6. split; [lia | reflexivity].
  - split; reflexivity.
  - split; reflexivity.
  - split; reflexivity.
Defined.

Lemma C7_first_material_applies_its_state_witness :
  exists m w',
    materials (sample_world false) !! 1%nat = Some m /\
    _bindMaterialState 1%nat None (sample_world false) = (w', Return tt) /\
    gl_log w' =
      gl_log (sample_world false) ++
      [disable GL.CULL_FACE; disable GL.BLEND; enable GL.DEPTH_TEST;
       disable GL.STENCIL_TEST; colorMask false false false false;
       depthMask false; stencilMask 0; depthFunc GL.NEVER].
Proof.
  assert (Hm : { m | materials (sample_world false) !! 1%nat = Some m }).
  { vm_compute. eexists. reflexivity. }
  destruct Hm as [m Hm].
  destruct (C7_first_material_applies_its_state 1%nat m (sample_world false)
              sample_packed_state Hm) as (_ & w' & Hrun & Hlog).
  exists m, w'. split; [exact Hm |]. split; [exact Hrun |].
  rewrite Hlog. f_equal.
  vm_compute in Hm. injection Hm as <-. reflexivity.
Defined.

(** ** The program cache *)

Example array_indices_first :
  JsObject.set "B" 1 (JsObject.set "10" 2 (JsObject.set "A" 3 (JsObject.set "9" 4 [])))
  = [("9", 4); ("10", 2); ("A", 3); ("B", 1)].
Proof. reflexivity. Qed.

Example string_of_Z_negative : string_of_Z (-12) = "-12".
Proof. reflexivity. Qed.

(** The key is the name, a colon, and the defines in the order in which
    the dictionary enumerates them. *)
Lemma _getProgramKey_spec name (d : defines) :
  _getProgramKey name d =
    fold_left String.append
      (map (fun e => fst e +:+ "=" +:+ define_to_string (snd e) +:+ ",") d)
      (name +:+ ":").
Proof.
  unfold _getProgramKey. generalize (name +:+ ":") as key.
  induction d as [| e d IH]; intros key; [reflexivity |].
  simpl. rewrite IH. reflexivity.
Qed.

(** C2, as stated, fails: the dictionaries {A: 1, B: 1} and {B: 1, A: 1}
    hold the same define=value pairs and get two keys, and two materials
    of one name that hand them out get two programs. *)
Lemma C2_insertion_order_changes_key :
  (forall define, JsObject.get define defines_AB = JsObject.get define defines_BA) /\
  _getProgramKey "PBR" defines_AB = "PBR:A=1,B=1," /\
  _getProgramKey "PBR" defines_BA = "PBR:B=1,A=1," /\
  (let w := sample_world false in
   let r1 := _getMaterialProgram (material_with_defines defines_AB) 0%nat w in
   let r2 := _getMaterialProgram (material_with_defines defines_BA) 0%nat (fst r1) in
   snd r1 = Return 2%nat /\ snd r2 = Return 3%nat).
Proof.
  split.
  { intros define. unfold defines_AB, defines_BA. simpl.
    destruct (String.eqb define "A"), (String.eqb define "B"); reflexivity. }
  split; [reflexivity |]. split; [reflexivity |].
  split; vm_compute; reflexivity.
Qed.

Section ProgramCache.
Context {material_js : MaterialJs} {program_js : ProgramJs}.

(** C2, amended: the key lists the define=value pairs in the order in
    which the dictionary enumerates them, so two materials of one name
    whose dictionaries enumerate the same pairs in the same order get one
    key, and the program resolved for the first is the one returned for
    the second, which leaves the world as it is. *)
Theorem C2_same_enumeration_shares_program (material1 material2 : Material.t)
    (name vs1 fs1 vs2 fs2 : string) (p1 p2 : primref)
    (rp1 rp2 : RenderPrimitive.t) (w : World) :
  Material.materialName material1 = Some name ->
  Material.materialName material2 = Some name ->
  Material.vertexSource material1 = Some vs1 ->
  Material.fragmentSource material1 = Some fs1 ->
  Material.vertexSource material2 = Some vs2 ->
  Material.fragmentSource material2 = Some fs2 ->
  primitives w !! p1 = Some rp1 ->
  primitives w !! p2 = Some rp2 ->
  Material.getProgramDefines material1 rp1 = Material.getProgramDefines material2 rp2 ->
  _getProgramKey name (Material.getProgramDefines material1 rp1) =
    _getProgramKey name (Material.getProgramDefines material2 rp2) /\
  exists program w1,
    _getMaterialProgram material1 p1 w = (w1, Return program) /\
    _getMaterialProgram material2 p2 w1 = (w1, Return program).
Proof.
  intros Hn1 Hn2 Hv1 Hf1 Hv2 Hf2 Hp1 Hp2 Hd.
  split; [rewrite Hd; reflexivity |].
  unfold _getMaterialProgram.
  rewrite Hn1, Hn2, Hv1, Hf1, Hv2, Hf2.
  unfold bind at 1. rewrite (deref_run primitiveH p1 rp1 w Hp1).
  unfold bind at 1, get_renderer at 1, gets at 1.
  set (key := _getProgramKey name (Material.getProgramDefines material1 rp1)).
  destruct (Renderer._programCache (renderer w) !! key) as [program |] eqn:Hc.
  - exists program, w. split; [reflexivity |].
    rewrite (bind_deref primitiveH p2 rp2) by exact Hp2.
    unfold get_renderer. rewrite bind_gets.
    rewrite <- Hd. fold key. rewrite Hc. reflexivity.
  - eexists _, _. split; [reflexivity |].
    rewrite (bind_deref primitiveH p2 rp2) by exact Hp2.
    unfold get_renderer. rewrite bind_gets.
    rewrite <- Hd. fold key. simpl.
    rewrite lookup_insert_eq. reflexivity.
Qed.
End ProgramCache.

Lemma C2_same_enumeration_shares_program_witness :
  exists w1,
    _getMaterialProgram (material_with_defines defines_AB) 0%nat (sample_world false)
      = (w1, Return 2%nat) /\
    _getMaterialProgram (material_with_defines defines_AB) 1%nat w1
      = (w1, Return 2%nat).
Proof.
  assert (Hp1 : { rp | primitives (sample_world false) !! 0%nat = Some rp }).
  { vm_compute. eexists. reflexivity. }
  assert (Hp2 : { rp | primitives (sample_world false) !! 1%nat = Some rp }).
  { vm_compute. eexists. reflexivity. }
  destruct Hp1 as [rp1 Hp1], Hp2 as [rp2 Hp2].
  destruct (C2_same_enumeration_shares_program
              (material_with_defines defines_AB) (material_with_defines defines_AB)
              "PBR" _ _ _ _ 0%nat 1%nat rp1 rp2 (sample_world false)
              eq_refl eq_refl eq_refl eq_refl eq_refl eq_refl Hp1 Hp2 eq_refl)
    as (_ & program & w1 & H1 & H2).
  exists w1.
  assert (Hprog : program = 2%nat).
  { assert (Hs : snd (_getMaterialProgram (material_with_defines defines_AB) 0%nat
                        (sample_world false)) = Return 2%nat)
      by (vm_compute; reflexivity).
    rewrite H1 in Hs. simpl in Hs. congruence. }
  subst program. split; assumption.
Defined.

(** ** Identity errors *)

Section IdentityErrors.
Context {material_js : MaterialJs} {program_js : ProgramJs}.

Lemma lacks_identity_dec material :
  {lacks_identity material} + {~ lacks_identity material}.
Proof.
  unfold lacks_identity.
  destruct (Material.materialName material); [| left; tauto].
  destruct (Material.vertexSource material); [| left; tauto].
  destruct (Material.fragmentSource material); [| left; tauto].
  right. intros [? | [? | ?]]; discriminate.
Qed.

Lemma _getMaterialProgram_returns material renderPrimitive rp w :
  primitives w !! renderPrimitive = Some rp ->
  ~ lacks_identity material ->
  exists w' program, _getMaterialProgram material renderPrimitive w = (w', Return program).
Proof.
  intros Hrp Hid. unfold lacks_identity in Hid. unfold _getMaterialProgram.
  destruct (Material.materialName material) as [name |]; [| tauto].
  destruct (Material.vertexSource material) as [vs |]; [| tauto].
  destruct (Material.fragmentSource material) as [fs |]; [| tauto].
  rewrite (bind_deref primitiveH renderPrimitive rp) by exact Hrp.
  unfold get_renderer. rewrite bind_gets.
  destruct (Renderer._programCache (renderer w) !! _).
  - eexists _, _. reflexivity.
  - eexists _, _. reflexivity.
Qed.

Lemma _getMaterialProgram_throws material :
  lacks_identity material ->
  exists message, forall renderPrimitive w,
    _getMaterialProgram material renderPrimitive w = (w, Throw (Error message)).
Proof.
  intros Hid. unfold lacks_identity in Hid. unfold _getMaterialProgram.
  destruct (Material.materialName material) as [name |];
    [| eexists; reflexivity].
  destruct (Material.vertexSource material) as [vs |];
    [| eexists; reflexivity].
  destruct (Material.fragmentSource material) as [fs |];
    [| eexists; reflexivity].
  destruct Hid as [? | [? | ?]]; discriminate.
Qed.

(** C4: _getMaterialProgram throws exactly when the material lacks its
    name, its vertex source or its fragment source, and createRenderPrimitive
    then throws that error to its caller; _getRenderTexture throws exactly
    when the descriptor it is given has no valid key.  In each case the
    error is the whole effect: no call reaches the context, nothing is
    put into a cache or a bucket, and no continuation is left behind. *)
Theorem C4_identity_errors_are_thrown (material : Material.t)
    (primitive : Primitive.t) (texture : Texture.t)
    (renderPrimitive : primref) (rp : RenderPrimitive.t) (w : World) :
  primitives w !! renderPrimitive = Some rp ->
  (throws (_getMaterialProgram material renderPrimitive w) <-> lacks_identity material) /\
  (lacks_identity material ->
   exists message,
     _getMaterialProgram material renderPrimitive w = (w, Throw (Error message)) /\
     snd (createRenderPrimitive primitive material w) = Throw (Error message) /\
     gl_log (fst (createRenderPrimitive primitive material w)) = gl_log w /\
     renderer (fst (createRenderPrimitive primitive material w)) = renderer w /\
     pending (fst (createRenderPrimitive primitive material w)) = pending w) /\
  (throws (_getRenderTexture (Some texture) w) <->
   valid_key (Texture.textureKey texture) = None) /\
  (valid_key (Texture.textureKey texture) = None ->
   _getRenderTexture (Some texture) w =
     (w, Throw (Error "Texure does not have a valid key"))).
Proof.
  intros Hrp. split; [| split; [| split]].
  - split.
    + intros [e He].
      destruct (lacks_identity_dec material) as [Hid | Hid]; [exact Hid |].
      destruct (_getMaterialProgram_returns material renderPrimitive rp w Hrp Hid)
        as (w' & program & Hret).
      rewrite Hret in He. discriminate.
    + intros Hid.
      destruct (_getMaterialProgram_throws material Hid) as [msg Hmsg].
      exists (Error msg). rewrite Hmsg. reflexivity.
  - intros Hid.
    destruct (_getMaterialProgram_throws material Hid) as [msg Hmsg].
    exists msg. split; [apply Hmsg |].
    unfold createRenderPrimitive, RenderPrimitive_constructor, alloc.
    rewrite bind_assoc, bind_gets, bind_assoc, bind_modify, bind_ret.
    unfold bind. rewrite Hmsg.
    repeat split.
  - unfold _getRenderTexture.
    destruct (valid_key (Texture.textureKey texture)) as [key |].
    + split; [| discriminate].
      intros [e He]. exfalso. revert He.
      unfold get_renderer. rewrite bind_gets.
      destruct (cache_get (renderer w) key); [discriminate |].
      unfold fresh_handle. rewrite bind_assoc, bind_gets, bind_assoc, bind_modify, bind_ret.
      unfold gl at 1. rewrite bind_modify.
      unfold alloc at 1. rewrite bind_assoc, bind_gets, bind_assoc, bind_modify, bind_ret.
      unfold update_renderer at 1. rewrite bind_modify.
      destruct (Texture.class texture); unfold bind; simpl;
        rewrite ?gl_all_run; discriminate.
    + split; [reflexivity |]. intros _. eexists. reflexivity.
  - intros Hkey. unfold _getRenderTexture. rewrite Hkey. reflexivity.
Qed.
End IdentityErrors.

Lemma C4_identity_errors_are_thrown_witness :
  _getMaterialProgram nameless_material 0%nat (sample_world false)
    = (sample_world false, Throw (Error "Material does not have a name")) /\
  snd (createRenderPrimitive (sample_primitive 0%nat) nameless_material (sample_world false))
    = Throw (Error "Material does not have a name") /\
  _getRenderTexture (Some keyless_texture) (sample_world false)
    = (sample_world false, Throw (Error "Texure does not have a valid key")).
Proof.
  assert (Hp : { rp | primitives (sample_world false) !! 0%nat = Some rp }).
  { vm_compute. eexists. reflexivity. }
  destruct Hp as [rp Hp].
  destruct (C4_identity_errors_are_thrown nameless_material (sample_primitive 0%nat)
              keyless_texture 0%nat rp (sample_world false) Hp)
    as (_ & Hcreate & _ & Htex).
  destruct (Hcreate (or_introl eq_refl)) as (msg & Hprog & Hthrow & _).
  assert (Hmsg : msg = "Material does not have a name").
  { assert (H0 : _getMaterialProgram nameless_material 0%nat (sample_world false) =
                 (sample_world false, Throw (Error "Material does not have a name")))
      by reflexivity.
    rewrite H0 in Hprog. congruence. }
  subst msg.
  split; [exact Hprog |]. split; [exact Hthrow |].
  apply Htex. reflexivity.
Defined.

(** ** Relations that the code respects *)

Section Respects.
Context (R : World -> World -> Prop) {R_pre : PreOrder R}.

Lemma respects_ret {A} (a : A) : respects R (ret a).
Proof. intros w. reflexivity. Qed.

Lemma respects_throw {A} (e : exn) : respects R (@throw A e).
Proof. intros w. reflexivity. Qed.

Lemma respects_gets {A} (f : World -> A) : respects R (gets f).
Proof. intros w. reflexivity. Qed.

Lemma respects_deref {A} (H : heap A) r : respects R (deref H r).
Proof. intros w. unfold deref. destruct (objects H w !! r); reflexivity. Qed.

Lemma respects_item {A} (l : list A) i : respects R (item l i).
Proof. intros w. unfold item. destruct (l !! i); reflexivity. Qed.

Lemma respects_bind {A B} (m : M A) (k : A -> M B) :
  respects R m -> (forall a, respects R (k a)) -> respects R (bind m k).
Proof.
  intros Hm Hk w. unfold bind. specialize (Hm w).
  destruct (m w) as [w' [a | e]]; simpl in *.
  - etransitivity; [exact Hm | apply Hk].
  - exact Hm.
Qed.

Lemma respects_modify (f : World -> World) :
  (forall w, R w (f w)) -> respects R (modify f).
Proof. intros Hf w. apply Hf. Qed.

Lemma respects_when b (m : M unit) : respects R m -> respects R (when b m).
Proof. intros Hm. destruct b; [exact Hm | apply respects_ret]. Qed.

Lemma respects_for_each {A} (l : list A) (body : A -> M unit) :
  (forall a, respects R (body a)) -> respects R (for_each l body).
Proof.
  intros Hbody. induction l as [| a l IH]; simpl.
  - apply respects_ret.
  - apply respects_bind; [apply Hbody | intros _; exact IH].
Qed.
End Respects.

(** *** The code evolves the world *)

Lemma Forall_weaken {A} (P Q : A -> Prop) l :
  (forall a, P a -> Q a) -> Forall P l -> Forall Q l.
Proof. intros HPQ HP. eapply Forall_impl; eassumption. Qed.

#[local] Instance evolves_preorder P : PreOrder (evolves P).
Proof.
  split.
  - intros w. repeat split; [lia | tauto |].
    exists []. rewrite app_nil_r. split; [reflexivity | constructor].
  - intros w1 w2 w3 (Hb1 & Hl1 & Ht1 & l1 & Hg1 & HP1) (Hb2 & Hl2 & Ht2 & l2 & Hg2 & HP2).
    repeat split.
    + congruence.
    + lia.
    + intros key t Hk. apply Ht2, Ht1, Hk.
    + exists (l1 ++ l2). rewrite Hg2, Hg1, app_assoc.
      split; [reflexivity | apply Forall_app; split; assumption].
Qed.

Lemma evolves_weaken (P Q : glcall -> Prop) w w' :
  (forall c, P c -> Q c) -> evolves P w w' -> evolves Q w w'.
Proof.
  intros HPQ (Hb & Hl & Ht & l & Hg & HP).
  repeat split; try assumption.
  exists l. split; [assumption | eapply Forall_weaken; eassumption].
Qed.

Lemma respects_weaken (P Q : glcall -> Prop) {A} (m : M A) :
  (forall c, P c -> Q c) -> respects (evolves P) m -> respects (evolves Q) m.
Proof. intros HPQ Hm w. eapply evolves_weaken; [exact HPQ | apply Hm]. Qed.

Lemma evolves_gl P c w : P c -> evolves P w (set_gl_log (fun l => l ++ [c]) w).
Proof.
  intros Hc. repeat split; simpl; [lia | tauto |].
  exists [c]. split; [reflexivity | repeat constructor; exact Hc].
Qed.

Lemma evolves_quiet P w w' :
  Renderer._renderPrimitives (renderer w') = Renderer._renderPrimitives (renderer w) ->
  (length (primitives w) <= length (primitives w'))%nat ->
  Renderer._textureCache (renderer w') = Renderer._textureCache (renderer w) ->
  gl_log w' = gl_log w ->
  evolves P w w'.
Proof.
  intros Hb Hl Ht Hg. repeat split; try assumption.
  - intros key t. unfold cache_get. rewrite Ht. tauto.
  - exists []. rewrite app_nil_r. split; [assumption | constructor].
Qed.

Lemma evolves_gl_all P cs : Forall P cs -> respects (evolves P) (gl_all cs).
Proof.
  intros Hcs w. rewrite gl_all_run. simpl.
  repeat split; simpl; [lia | tauto |].
  exists cs. split; [reflexivity | exact Hcs].
Qed.

Lemma no_draw_setSamplerParameters texture :
  Forall no_draw (_setSamplerParameters texture).
Proof.
  unfold _setSamplerParameters.
  destruct (powerOfTwo texture && Texture.mipmap texture);
    repeat constructor.
Qed.

(** The side conditions that the assignments of the code leave. *)
Ltac evolve_call :=
  first
    [ assumption
    | match goal with
      | H : forall c, no_draw c -> _ |- _ => apply H; reflexivity
      end
    | reflexivity
    | intros ? ?; discriminate
    | intros ? [= <-]; reflexivity ].

Ltac evolve_side :=
  lazymatch goal with
  | |- evolves _ _ (set_gl_log _ _) => apply evolves_gl; try evolve_call
  | |- evolves _ _ _ =>
      try solve [ apply evolves_quiet; simpl;
                  rewrite ?length_alter, ?length_app; try reflexivity; try lia ]
  | |- _ => try reflexivity
  end.

Ltac evolve_known := fail.

Ltac evolve_step :=
  lazymatch goal with
  | |- PreOrder _ => typeclasses eauto
  | |- respects _ (ret _) => apply respects_ret
  | |- respects _ (throw _) => apply respects_throw
  | |- respects _ (gets _) => apply respects_gets
  | |- respects _ (deref _ _) => apply respects_deref
  | |- respects _ (item _ _) => apply respects_item
  | |- respects _ (bind _ _) => apply respects_bind; [ | | intros ? ]
  | |- respects _ (when _ _) => apply respects_when
  | |- respects _ (for_each _ _) => apply respects_for_each; [ | intros ? ]
  | |- respects _ (modify _) => apply respects_modify; intros ?; evolve_side
  | |- respects _ (gl _) => unfold gl
  | |- respects _ (gl_all _) => apply evolves_gl_all
  | |- respects _ fresh_handle => unfold fresh_handle
  | |- respects _ (update _ _ _) => unfold update
  | |- respects _ (alloc _ _) => unfold alloc
  | |- respects _ get_renderer => unfold get_renderer
  | |- respects _ (update_renderer _) => unfold update_renderer
  | |- respects _ (add_continuation _) => unfold add_continuation
  | |- respects _ (remove_continuation _) => unfold remove_continuation
  | |- respects _ (match ?x with _ => _ end) => destruct x
  | |- respects _ (let _ := _ in _) => cbv zeta
  | |- respects _ _ => evolve_known
  end.

Ltac evolve := repeat evolve_step.

(** *** Own and inherited properties of the texture cache *)



Section Evolves.
Context {material_js : MaterialJs} {program_js : ProgramJs}.
Variable P : glcall -> Prop.
Hypothesis P_no_draw : forall c, no_draw c -> P c.

Lemma Forall_P_no_draw l : Forall no_draw l -> Forall P l.
Proof. apply Forall_weaken. exact P_no_draw. Qed.

Lemma evolves_completionPromises_of abs acc :
  respects (evolves P) (completionPromises_of abs acc).
Proof.
  revert acc. induction abs as [| ab abs IH]; intros acc; simpl.
  - evolve.
  - evolve. apply IH.
Qed.

Lemma evolves_waitForComplete this :
  respects (evolves P) (RenderPrimitive_waitForComplete this).
Proof.
  unfold RenderPrimitive_waitForComplete. evolve.
  all: apply evolves_completionPromises_of.
Qed.

Ltac evolve_known ::=
  lazymatch goal with
  | |- respects _ (RenderPrimitive_waitForComplete _) => apply evolves_waitForComplete
  end.

Lemma evolves_setPrimitive this primitive :
  respects (evolves P) (RenderPrimitive_setPrimitive this primitive).
Proof. unfold RenderPrimitive_setPrimitive. evolve. Qed.

Lemma evolves_setRenderMaterial this material :
  respects (evolves P) (RenderPrimitive_setRenderMaterial this material).
Proof. unfold RenderPrimitive_setRenderMaterial. evolve. Qed.

Lemma evolves_RenderPrimitive_constructor primitive :
  respects (evolves P) (RenderPrimitive_constructor primitive).
Proof. unfold RenderPrimitive_constructor. evolve. Qed.

Lemma evolves_RenderTexture_markActive this frameId :
  respects (evolves P) (RenderTexture_markActive this frameId).
Proof. unfold RenderTexture_markActive, activeCallback, texImage2D_source. evolve. Qed.

Ltac evolve_known ::=
  lazymatch goal with
  | |- respects _ (RenderPrimitive_waitForComplete _) => apply evolves_waitForComplete
  | |- respects _ (RenderPrimitive_setRenderMaterial _ _) => apply evolves_setRenderMaterial
  | |- respects _ (RenderPrimitive_setPrimitive _ _) => apply evolves_setPrimitive
  | |- respects _ (RenderPrimitive_constructor _) => apply evolves_RenderPrimitive_constructor
  | |- respects _ (RenderTexture_markActive _ _) => apply evolves_RenderTexture_markActive
  end.

Lemma evolves_markActive_samplers this samplers frameId :
  respects (evolves P) (markActive_samplers this samplers frameId).
Proof.
  induction samplers as [| sampler samplers IH]; simpl; evolve; apply IH.
Qed.

Lemma evolves_RenderMaterial_markActive this frameId :
  respects (evolves P) (RenderMaterial_markActive this frameId).
Proof.
  unfold RenderMaterial_markActive. evolve.
  apply evolves_markActive_samplers.
Qed.

Lemma evolves_RenderPrimitive_markActive this frameId :
  respects (evolves P) (RenderPrimitive_markActive this frameId).
Proof.
  unfold RenderPrimitive_markActive. evolve.
  apply evolves_RenderMaterial_markActive.
Qed.

Lemma evolves_Node_markActive this frameId :
  respects (evolves P) (Node_markActive this frameId).
Proof.
  unfold Node_markActive. evolve.
  apply evolves_RenderPrimitive_markActive.
Qed.

Lemma evolves_Node_addRenderPrimitive this p :
  respects (evolves P) (Node_addRenderPrimitive this p).
Proof. unfold Node_addRenderPrimitive. evolve. Qed.

Ltac evolve_known ::=
  lazymatch goal with
  | |- respects _ (RenderPrimitive_waitForComplete _) => apply evolves_waitForComplete
  | |- respects _ (RenderPrimitive_setRenderMaterial _ _) => apply evolves_setRenderMaterial
  | |- respects _ (RenderPrimitive_setPrimitive _ _) => apply evolves_setPrimitive
  | |- respects _ (RenderPrimitive_constructor _) => apply evolves_RenderPrimitive_constructor
  | |- respects _ (RenderTexture_markActive _ _) => apply evolves_RenderTexture_markActive
  | |- respects _ (Node_markActive _ _) => apply evolves_Node_markActive
  | |- respects _ (Node_addRenderPrimitive _ _) => apply evolves_Node_addRenderPrimitive
  end.

(** The texture cache only grows: an entry is made for a key that has
    none. *)
Lemma evolves_cache_insert w w' key t :
  cache_get (renderer w) key = None ->
  Renderer._renderPrimitives (renderer w') = Renderer._renderPrimitives (renderer w) ->
  (length (primitives w) <= length (primitives w'))%nat ->
  Renderer._textureCache (renderer w') = <[key := t]> (Renderer._textureCache (renderer w)) ->
  (exists l, gl_log w' = gl_log w ++ l /\ Forall P l) ->
  evolves P w w'.
Proof.
  intros Hmiss Hb Hl Ht Hg. repeat split; try assumption.
  intros key' t' Hk. unfold cache_get in *. rewrite Ht.
  destruct (decide (key = key')) as [<- | Hne]; [congruence |].
  rewrite lookup_insert_ne by exact Hne. exact Hk.
Qed.

Lemma evolves_addExternalTexture key texture isArray :
  respects (evolves P) (addExternalTexture key texture isArray).
Proof.
  intros w. unfold addExternalTexture, get_renderer. rewrite bind_gets.
  destruct (cache_get (renderer w) key) as [t |] eqn:Hg.
  - apply evolves_quiet; reflexivity.
  - eapply evolves_cache_insert; [exact Hg | reflexivity | reflexivity | reflexivity |].
    exists []. simpl. rewrite app_nil_r. split; [reflexivity | constructor].
Qed.

Lemma evolves__getRenderTexture texture :
  respects (evolves P) (_getRenderTexture texture).
Proof.
  intros w. unfold _getRenderTexture.
  destruct texture as [texture |]; [| reflexivity].
  destruct (valid_key (Texture.textureKey texture)) as [key |]; [| reflexivity].
  unfold get_renderer. rewrite bind_gets.
  destruct (cache_get (renderer w) key) as [t |] eqn:Hc; [reflexivity |].
  unfold fresh_handle. rewrite bind_assoc, bind_gets, bind_assoc, bind_modify, bind_ret.
  unfold gl at 1. rewrite bind_modify.
  unfold alloc at 1. rewrite bind_assoc, bind_gets, bind_assoc, bind_modify, bind_ret.
  unfold update_renderer at 1. rewrite bind_modify.
  destruct (Texture.class texture).
  - eapply evolves_cache_insert; [exact Hc | reflexivity | reflexivity | reflexivity |].
    eexists. simpl. split; [reflexivity |].
    repeat constructor. apply P_no_draw. reflexivity.
  - rewrite bind_assoc. unfold gl at 1. rewrite bind_modify.
    rewrite bind_assoc. unfold gl at 1. rewrite bind_modify.
    rewrite bind_assoc, bind_gl_all.
    eapply evolves_cache_insert; [exact Hc | reflexivity | reflexivity | reflexivity |].
    eexists. simpl. rewrite <- !app_assoc. split; [reflexivity |].
    repeat (apply Forall_cons; split; [apply P_no_draw; reflexivity |]).
    apply Forall_P_no_draw, no_draw_setSamplerParameters.
  - eapply evolves_cache_insert; [exact Hc | reflexivity | reflexivity | reflexivity |].
    eexists. simpl. split; [reflexivity |].
    repeat constructor. apply P_no_draw. reflexivity.
  - eapply evolves_cache_insert; [exact Hc | reflexivity | reflexivity | reflexivity |].
    eexists. simpl. split; [reflexivity |].
    repeat constructor. apply P_no_draw. reflexivity.
Qed.

Lemma evolves_upload_texture texture renderTexture textureHandle :
  respects (evolves P) (upload_texture texture renderTexture textureHandle).
Proof.
  unfold upload_texture, texImage2D_source. evolve.
  apply Forall_P_no_draw, no_draw_setSamplerParameters.
Qed.

Lemma evolves_createRenderBuffer target data usage :
  respects (evolves P) (createRenderBuffer target data usage).
Proof. unfold createRenderBuffer. evolve. Qed.

Lemma evolves_fill_buffer renderBuffer glBuffer byteLength :
  respects (evolves P) (fill_buffer renderBuffer glBuffer byteLength).
Proof. unfold fill_buffer. evolve. Qed.

Ltac evolve_known ::=
  lazymatch goal with
  | |- respects _ (RenderPrimitive_waitForComplete _) => apply evolves_waitForComplete
  | |- respects _ (RenderPrimitive_setRenderMaterial _ _) => apply evolves_setRenderMaterial
  | |- respects _ (RenderPrimitive_setPrimitive _ _) => apply evolves_setPrimitive
  | |- respects _ (RenderPrimitive_constructor _) => apply evolves_RenderPrimitive_constructor
  | |- respects _ (RenderTexture_markActive _ _) => apply evolves_RenderTexture_markActive
  | |- respects _ (Node_markActive _ _) => apply evolves_Node_markActive
  | |- respects _ (Node_addRenderPrimitive _ _) => apply evolves_Node_addRenderPrimitive
  | |- respects _ (addExternalTexture _ _ _) => apply evolves_addExternalTexture
  | |- respects _ (_getRenderTexture _) => apply evolves__getRenderTexture
  | |- respects _ (upload_texture _ _ _) => apply evolves_upload_texture
  | |- respects _ (createRenderBuffer _ _ _) => apply evolves_createRenderBuffer
  | |- respects _ (fill_buffer _ _ _) => apply evolves_fill_buffer
  end.

Lemma evolves_RenderMaterial_samplers i samplers :
  respects (evolves P) (RenderMaterial_samplers i samplers).
Proof.
  revert i. induction samplers as [| s samplers IH]; intros i; simpl; evolve.
  apply IH.
Qed.

Lemma evolves_RenderMaterial_constructor material program :
  respects (evolves P) (RenderMaterial_constructor material program).
Proof.
  unfold RenderMaterial_constructor. evolve.
  apply evolves_RenderMaterial_samplers.
Qed.

Lemma evolves_RenderMaterial_bind this :
  respects (evolves P) (RenderMaterial_bind this).
Proof. unfold RenderMaterial_bind, bind_sampler, bind_uniform. evolve. Qed.

Lemma evolves__getMaterialProgram material renderPrimitive :
  respects (evolves P) (_getMaterialProgram material renderPrimitive).
Proof. unfold _getMaterialProgram. evolve. Qed.

Lemma no_draw_bind_sampler_indices program i names :
  Forall no_draw (bind_sampler_indices program i names).
Proof.
  revert i. induction names as [| name names IH]; intros i; simpl.
  - constructor.
  - apply Forall_app. split; [| apply IH].
    destruct (Program.has_uniform program name); repeat constructor.
Qed.

Lemma evolves_Program_use this : respects (evolves P) (Program_use this).
Proof.
  unfold Program_use. evolve.
  apply Forall_P_no_draw, no_draw_bind_sampler_indices.
Qed.

Lemma no_draw_attrib_arrays mask names :
  Forall no_draw (concat (map (attrib_array mask) names)).
Proof.
  induction names as [| name names IH]; simpl; [constructor |].
  apply Forall_app. split; [| exact IH].
  unfold attrib_array.
  destruct (ATTRIB name); [| constructor].
  destruct (truthy _); repeat constructor.
Qed.

Lemma no_draw_attrib_pointers attributes :
  Forall no_draw (map attrib_pointer attributes).
Proof. induction attributes; simpl; repeat constructor. assumption. Qed.

Lemma evolves__bindPrimitive primitive attribMask :
  respects (evolves P) (_bindPrimitive primitive attribMask).
Proof.
  unfold _bindPrimitive. evolve.
  - apply Forall_P_no_draw, no_draw_attrib_arrays.
  - apply Forall_P_no_draw, no_draw_attrib_pointers.
Qed.

Lemma no_draw_setCap glEnum cap prevState state :
  Forall no_draw (setCap glEnum cap prevState state).
Proof.
  unfold setCap. destruct (_ =? 0); [constructor |].
  destruct (0 <? _); repeat constructor.
Qed.

Lemma no_draw_bindMaterialState_calls state prevState :
  Forall no_draw (bindMaterialState_calls state prevState).
Proof.
  unfold bindMaterialState_calls.
  destruct (state =? prevState); [constructor |].
  apply Forall_app. split.
  - destruct (truthy (_capsDiff state prevState)); [| constructor].
    repeat (apply Forall_app; split; [apply no_draw_setCap |]).
    destruct (truthy (colorMaskChange state prevState)),
             (truthy (depthMaskChange state prevState)),
             (truthy (stencilMaskChange state prevState)); repeat constructor.
  - apply Forall_app.
    split; destruct (truthy _); repeat constructor.
Qed.

Lemma bindMaterialState_flags_keeps state prevState r :
  Renderer._renderPrimitives (bindMaterialState_flags state prevState r) =
    Renderer._renderPrimitives r /\
  Renderer._textureCache (bindMaterialState_flags state prevState r) =
    Renderer._textureCache r /\
  Renderer._frameId (bindMaterialState_flags state prevState r) = Renderer._frameId r /\
  Renderer._multiview (bindMaterialState_flags state prevState r) = Renderer._multiview r /\
  Renderer._cameraPositions (bindMaterialState_flags state prevState r) =
    Renderer._cameraPositions r.
Proof.
  unfold bindMaterialState_flags.
  destruct (_ || _); [repeat split |].
  destruct (truthy (colorMaskChange state prevState)),
           (truthy (depthMaskChange state prevState)); repeat split.
Qed.

Lemma evolves__bindMaterialState material prevMaterial :
  respects (evolves P) (_bindMaterialState material prevMaterial).
Proof.
  unfold _bindMaterialState. evolve.
  1: apply Forall_P_no_draw, no_draw_bindMaterialState_calls.
  all: destruct (bindMaterialState_flags_keeps
                   (RenderMaterial._state a) (prevState_of (RenderMaterial._state a) a0)
                   (renderer w)) as (Hb & Ht & _);
    apply evolves_quiet; simpl; try assumption; try reflexivity.
Qed.

Lemma evolves_camera_positions i views :
  respects (evolves P) (camera_positions i views).
Proof.
  revert i. induction views as [| view views IH]; intros i; simpl.
  - evolve.
  - unfold camera_position. evolve. apply IH.
Qed.

Lemma evolves_drawViews_begin views root :
  respects (evolves P) (drawViews_begin views root).
Proof.
  unfold drawViews_begin, set_viewport. evolve.
  all: apply evolves_camera_positions.
Qed.

Lemma evolves_drawViews_end : respects (evolves P) drawViews_end.
Proof. unfold drawViews_end. evolve. Qed.

Lemma evolves_upload_view views depthData material i view :
  respects (evolves P) (upload_view views depthData material i view).
Proof. unfold upload_view, set_viewport. evolve. Qed.

Lemma evolves_settle i : respects (evolves P) (settle i).
Proof. unfold settle. evolve. Qed.

End Evolves.

(** *** The draw calls of a primitive, of a bucket *)

Lemma no_draw_draws_only p c : no_draw c -> draws_only p c.
Proof. unfold no_draw, draws_only. intros Hc q Hq. congruence. Qed.

Lemma no_draw_draws_within ps c : no_draw c -> draws_within ps c.
Proof. unfold no_draw, draws_within. intros Hc q Hq. congruence. Qed.

Lemma draws_only_within p ps c : p ∈ ps -> draws_only p c -> draws_within ps c.
Proof. unfold draws_only, draws_within. intros Hp Hc q Hq. rewrite (Hc q Hq). exact Hp. Qed.

Lemma draws_within_incl ps qs c :
  (forall q, q ∈ ps -> q ∈ qs) -> draws_within ps c -> draws_within qs c.
Proof. unfold draws_within. intros Hincl Hc q Hq. apply Hincl, Hc, Hq. Qed.

Ltac evolve_use L :=
  apply L;
  try solve [ assumption | apply no_draw_draws_only | apply no_draw_draws_within
            | intros ? H; exact H ].

Ltac evolve_known ::=
  lazymatch goal with
  | |- respects _ (RenderPrimitive_waitForComplete _) => evolve_use evolves_waitForComplete
  | |- respects _ (RenderPrimitive_setRenderMaterial _ _) => evolve_use evolves_setRenderMaterial
  | |- respects _ (RenderPrimitive_setPrimitive _ _) => evolve_use evolves_setPrimitive
  | |- respects _ (RenderPrimitive_constructor _) => evolve_use evolves_RenderPrimitive_constructor
  | |- respects _ (RenderTexture_markActive _ _) => evolve_use evolves_RenderTexture_markActive
  | |- respects _ (Node_markActive _ _) => evolve_use evolves_Node_markActive
  | |- respects _ (Node_addRenderPrimitive _ _) => evolve_use evolves_Node_addRenderPrimitive
  | |- respects _ (addExternalTexture _ _ _) => evolve_use evolves_addExternalTexture
  | |- respects _ (_getRenderTexture _) => evolve_use evolves__getRenderTexture
  | |- respects _ (upload_texture _ _ _) => evolve_use evolves_upload_texture
  | |- respects _ (createRenderBuffer _ _ _) => evolve_use evolves_createRenderBuffer
  | |- respects _ (fill_buffer _ _ _) => evolve_use evolves_fill_buffer
  | |- respects _ (RenderMaterial_constructor _ _) => evolve_use evolves_RenderMaterial_constructor
  | |- respects _ (RenderMaterial_bind _) => evolve_use evolves_RenderMaterial_bind
  | |- respects _ (_getMaterialProgram _ _) => evolve_use evolves__getMaterialProgram
  | |- respects _ (Program_use _) => evolve_use evolves_Program_use
  | |- respects _ (_bindPrimitive _ _) => evolve_use evolves__bindPrimitive
  | |- respects _ (_bindMaterialState _ _) => evolve_use evolves__bindMaterialState
  | |- respects _ (drawViews_begin _ _) => evolve_use evolves_drawViews_begin
  | |- respects _ drawViews_end => evolve_use evolves_drawViews_end
  | |- respects _ (upload_view _ _ _ _ _) => evolve_use evolves_upload_view
  | |- respects _ (settle _) => evolve_use evolves_settle
  end.

Section Drawing.
Context {material_js : MaterialJs} {program_js : ProgramJs}.

Lemma evolves_draw_instances primitive frameId :
  respects (evolves (draws_only primitive)) (draw_instances primitive frameId).
Proof. unfold draw_instances. evolve. Qed.

Lemma evolves_draw_views views depthData primitive material frameId i rest :
  respects (evolves (draws_only primitive))
    (draw_views views depthData primitive material frameId i rest).
Proof.
  revert i. induction rest as [| view rest IH]; intros i; simpl.
  - evolve.
  - evolve.
    + apply evolves_draw_instances.
    + apply IH.
Qed.

Lemma evolves_draw_primitive views depthData primitive locals :
  respects (evolves (draws_only primitive))
    (draw_primitive views depthData primitive locals).
Proof.
  unfold draw_primitive. evolve.
  all: apply evolves_draw_views.
Qed.

Lemma evolves_draw_primitives views depthData renderPrimitives locals :
  respects (evolves (draws_within renderPrimitives))
    (draw_primitives views depthData renderPrimitives locals).
Proof.
  revert locals.
  induction renderPrimitives as [| primitive rest IH]; intros locals; simpl.
  - evolve.
  - evolve.
    + eapply respects_weaken; [| apply IH].
      intros c. apply draws_within_incl. intros q Hq. right. exact Hq.
    + eapply respects_weaken; [| apply evolves_draw_primitive].
      intros c. apply draws_only_within. left.
    + eapply respects_weaken; [| apply IH].
      intros c. apply draws_within_incl. intros q Hq. right. exact Hq.
Qed.

Lemma evolves_draw_bucket views depthData renderPrimitives :
  respects (evolves (draws_within (default [] renderPrimitives)))
    (draw_bucket views depthData renderPrimitives).
Proof.
  unfold draw_bucket, _drawRenderPrimitiveSet.
  destruct renderPrimitives as [[| p ps] |].
  - evolve.
  - exact (evolves_draw_primitives views depthData (p :: ps) _).
  - evolve.
Qed.
End Drawing.

(** ** Calls issued in phases *)

Section Phases.
Context {A : Type}.

Lemma phased_lookup (Ps : list (A -> Prop)) segs i c :
  phased Ps segs -> concat segs !! i = Some c ->
  exists n P, Ps !! n = Some P /\ P c.
Proof.
  intros Hph. revert i. induction Hph as [| P seg Ps segs HP Hph IH]; intros i Hi.
  - discriminate.
  - simpl in Hi. destruct (decide (i < length seg)%nat) as [Hlt | Hge].
    + rewrite lookup_app_l in Hi by exact Hlt.
      exists 0%nat, P. split; [reflexivity |].
      eapply Forall_lookup_1; eassumption.
    + rewrite lookup_app_r in Hi by lia.
      destruct (IH _ Hi) as (n & P' & Hn & HP').
      exists (S n), P'. split; assumption.
Qed.

(** A call that only fits phases up to [a] comes before a call that only
    fits phases from [b] on, when [a < b]. *)
Lemma phased_order (Ps : list (A -> Prop)) segs :
  phased Ps segs ->
  forall (a b i j : nat) ci cj,
    (a < b)%nat ->
    concat segs !! i = Some ci ->
    concat segs !! j = Some cj ->
    (forall n P, Ps !! n = Some P -> P ci -> (n <= a)%nat) ->
    (forall n P, Ps !! n = Some P -> P cj -> (b <= n)%nat) ->
    (i < j)%nat.
Proof.
  intros Hph. induction Hph as [| P seg Ps segs HP Hph IH];
    intros a b i j ci cj Hab Hi Hj Ha Hb.
  - discriminate.
  - simpl in Hi, Hj.
    destruct (decide (j < length seg)%nat) as [Hjlt | Hjge].
    + rewrite lookup_app_l in Hj by exact Hjlt.
      assert (HPj : P cj) by (eapply Forall_lookup_1; eassumption).
      specialize (Hb 0%nat P eq_refl HPj). lia.
    + destruct (decide (i < length seg)%nat) as [Hilt | Hige]; [lia |].
      rewrite lookup_app_r in Hi by lia.
      rewrite lookup_app_r in Hj by lia.
      destruct (phased_lookup Ps segs _ ci Hph Hi) as (n & P' & Hn & HP').
      pose proof (Ha (S n) P' Hn HP') as Hna.
      destruct a as [| a']; [lia |].
      destruct b as [| b']; [lia |].
      assert (i - length seg < j - length seg)%nat; [| lia].
      eapply (IH a' b'); try eassumption; try lia.
      * intros m Q Hm HQ. specialize (Ha (S m) Q Hm HQ). lia.
      * intros m Q Hm HQ. specialize (Hb (S m) Q Hm HQ). lia.
Qed.

Lemma phased_nil (Ps : list (A -> Prop)) : phased Ps (map (fun _ => []) Ps).
Proof. induction Ps; simpl; constructor; [constructor | assumption]. Qed.

Lemma concat_nils {B} (l : list B) : concat (map (fun _ => @nil A) l) = [].
Proof. induction l; simpl; [reflexivity | assumption]. Qed.
End Phases.

(** ** Buckets *)

Lemma members_app arr arr' : members (arr ++ arr') = members arr ++ members arr'.
Proof. unfold members. rewrite map_app, concat_app. reflexivity. Qed.

Lemma members_replicate_None n : members (replicate n None) = [].
Proof. induction n; simpl; [reflexivity | assumption]. Qed.

Lemma elem_of_members arr p :
  p ∈ members arr <-> exists i, p ∈ default [] (bucket arr i).
Proof.
  unfold members, bucket. induction arr as [| b arr IH]; simpl.
  - split; [intros H; inversion H |].
    intros [i Hi]. destruct i; inversion Hi.
  - rewrite elem_of_app, IH. split.
    + intros [Hb | [i Hi]].
      * exists 0%nat. simpl. destruct b; exact Hb.
      * exists (S i). exact Hi.
    + intros [[| i] Hi].
      * left. simpl in Hi. destruct b; exact Hi.
      * right. exists i. exact Hi.
Qed.

(** With no primitive in two buckets, a primitive names its bucket. *)
Lemma bucket_unique arr p a b :
  NoDup (members arr) ->
  p ∈ default [] (bucket arr a) ->
  p ∈ default [] (bucket arr b) ->
  a = b.
Proof.
  unfold members. revert a b. induction arr as [| x arr IH]; intros a b Hnd Ha Hb.
  - unfold bucket in Ha. rewrite lookup_nil in Ha. inversion Ha.
  - simpl in Hnd. apply NoDup_app in Hnd as (Hx & Hdisj & Hrest).
    destruct a as [| a], b as [| b].
    + reflexivity.
    + exfalso. apply (Hdisj p).
      * unfold bucket in Ha. simpl in Ha. destruct x; exact Ha.
      * apply elem_of_members. exists b. exact Hb.
    + exfalso. apply (Hdisj p).
      * unfold bucket in Hb. simpl in Hb. destruct x; exact Hb.
      * apply elem_of_members. exists a. exact Ha.
    + f_equal. apply IH; assumption.
Qed.

Lemma bucket_Some_lt arr i p :
  p ∈ default [] (bucket arr i) -> (i < length arr)%nat.
Proof.
  unfold bucket. intros Hp.
  destruct (arr !! i) as [b |] eqn:Hi.
  - eapply lookup_lt_Some. exact Hi.
  - simpl in Hp. inversion Hp.
Qed.

(** ** A frame is drawn bucket by bucket *)

Section Frames.
Context {material_js : MaterialJs} {program_js : ProgramJs}.

Lemma draw_buckets_phased views depthData arr w :
  exists segs,
    gl_log (fst (for_each arr (draw_bucket views depthData) w)) =
      gl_log w ++ concat segs /\
    phased (map (fun b => draws_within (default [] b)) arr) segs.
Proof.
  revert w. induction arr as [| b arr IH]; intros w.
  - exists []. simpl. rewrite app_nil_r. split; [reflexivity | constructor].
  - simpl. unfold bind.
    pose proof (evolves_draw_bucket views depthData b w) as (_ & _ & _ & l & Hl & HP).
    destruct (draw_bucket views depthData b w) as [w1 [[] | e]]; simpl in Hl.
    + destruct (IH w1) as (segs & Hsegs & Hph).
      exists (l :: segs). split.
      * rewrite Hsegs, Hl. simpl. rewrite app_assoc. reflexivity.
      * constructor; assumption.
    + exists (l :: map (fun _ => []) arr). split.
      * simpl. rewrite concat_nils, app_nil_r. exact Hl.
      * constructor; [exact HP |].
        unfold phased. rewrite <- (map_map (fun b => draws_within (default [] b))
                                     (fun _ => @nil glcall)).
        apply phased_nil.
Qed.

Lemma drawViews_phased views rootNode depthData w :
  exists segs,
    gl_log (fst (drawViews views rootNode depthData w)) = gl_log w ++ concat segs /\
    phased (frame_phases (Renderer._renderPrimitives (renderer w))) segs.
Proof.
  set (arr := Renderer._renderPrimitives (renderer w)).
  assert (Hnil : exists segs,
             gl_log w = gl_log w ++ concat segs /\ phased (frame_phases arr) segs).
  { exists (map (fun _ => []) (frame_phases arr)).
    rewrite concat_nils, app_nil_r. split; [reflexivity | apply phased_nil]. }
  unfold drawViews. destruct rootNode as [root |]; [| exact Hnil].
  unfold bind at 1.
  pose proof (evolves_drawViews_begin no_draw (fun c H => H) views root w)
    as (Hb & _ & _ & l0 & Hl0 & HP0).
  destruct (drawViews_begin views root w) as [w1 [[] | e]]; simpl in Hb, Hl0.
  - unfold get_renderer. rewrite bind_gets. rewrite Hb. fold arr.
    unfold bind.
    destruct (draw_buckets_phased views depthData arr w1) as (segs & Hsegs & Hph).
    destruct (for_each arr (draw_bucket views depthData) w1) as [w2 [[] | e]];
      simpl in Hsegs.
    + pose proof (evolves_drawViews_end no_draw (fun c H => H) w2)
        as (_ & _ & _ & l3 & Hl3 & HP3).
      exists (l0 :: segs ++ [l3]). split.
      * rewrite Hl3, Hsegs, Hl0. simpl.
        rewrite concat_app. simpl. rewrite app_nil_r, !app_assoc. reflexivity.
      * constructor; [exact HP0 |].
        apply Forall2_app; [exact Hph |]. repeat constructor. exact HP3.
    + exists (l0 :: segs ++ [[]]). split.
      * simpl. rewrite Hsegs, Hl0.
        rewrite concat_app. simpl. rewrite !app_nil_r, !app_assoc. reflexivity.
      * constructor; [exact HP0 |].
        apply Forall2_app; [exact Hph |]. repeat constructor.
  - exists (l0 :: map (fun _ => []) (map (fun b => draws_within (default [] b)) arr ++ [no_draw])).
    split.
    + simpl. rewrite concat_nils, app_nil_r. exact Hl0.
    + constructor; [exact HP0 | apply phased_nil].
Qed.

(** In a frame, a draw call for a primitive of an earlier bucket comes
    before a draw call for a primitive of a later bucket. *)
Lemma frame_order views rootNode depthData w (a b i j : nat) ci cj p q :
  NoDup (members (Renderer._renderPrimitives (renderer w))) ->
  (a < b)%nat ->
  in_bucket w a p -> in_bucket w b q ->
  calls_since w (fst (drawViews views rootNode depthData w)) !! i = Some ci ->
  calls_since w (fst (drawViews views rootNode depthData w)) !! j = Some cj ->
  drawn ci = Some p -> drawn cj = Some q ->
  (i < j)%nat.
Proof.
  intros Hnd Hab Hp Hq Hi Hj Hci Hcj.
  destruct (drawViews_phased views rootNode depthData w) as (segs & Hlog & Hph).
  unfold calls_since in Hi, Hj. rewrite Hlog, drop_app_length in Hi, Hj.
  unfold in_bucket in Hp, Hq.
  set (arr := Renderer._renderPrimitives (renderer w)) in *.
  assert (Hphase : forall n P c r k,
             frame_phases arr !! n = Some P -> P c -> drawn c = Some r ->
             r ∈ default [] (bucket arr k) -> n = S k).
  { intros n P c r k Hn HP Hc Hr. unfold frame_phases in Hn.
    destruct n as [| n]; simpl in Hn.
    - injection Hn as <-. unfold no_draw in HP. congruence.
    - f_equal.
      destruct (decide (n < length arr)%nat) as [Hlt | Hge].
      + rewrite lookup_app_l in Hn by (rewrite length_map; exact Hlt).
        rewrite list_lookup_fmap in Hn.
        destruct (arr !! n) as [bn |] eqn:Hbn; [| discriminate].
        simpl in Hn. injection Hn as <-.
        apply (bucket_unique arr r n k Hnd); [| exact Hr].
        unfold bucket. rewrite Hbn. simpl.
        apply (HP r Hc).
      + rewrite lookup_app_r in Hn by (rewrite length_map; lia).
        rewrite length_map in Hn.
        destruct (n - length arr)%nat; simpl in Hn; [| discriminate].
        injection Hn as <-. unfold no_draw in HP. congruence. }
  eapply (phased_order _ _ Hph (S a) (S b)); try eassumption; try lia.
  - intros n P Hn HP. rewrite (Hphase n P ci p a Hn HP Hci Hp). lia.
  - intros n P Hn HP. rewrite (Hphase n P cj q b Hn HP Hcj Hq). lia.
Qed.
End Frames.

(** ** Creation appends to one bucket *)

#[local] Instance same_materials_preorder : PreOrder same_materials.
Proof.
  split.
  - intros w. reflexivity.
  - intros w1 w2 w3 H1 H2. unfold same_materials in *. congruence.
Qed.

Lemma same_materials_completionPromises_of abs acc :
  respects same_materials (completionPromises_of abs acc).
Proof.
  revert acc. induction abs as [| ab abs IH]; intros acc; simpl; evolve.
  apply IH.
Qed.

Lemma same_materials_setRenderMaterial this material :
  respects same_materials (RenderPrimitive_setRenderMaterial this material).
Proof.
  unfold RenderPrimitive_setRenderMaterial. evolve.
  unfold RenderPrimitive_waitForComplete. evolve.
  all: apply same_materials_completionPromises_of.
Qed.

Lemma bucket_push_members i p arr :
  members (bucket_push i p arr) ≡ₚ p :: members arr.
Proof.
  unfold bucket_push, array_set, bucket.
  destruct (Nat.ltb_spec i (length arr)) as [Hlt | Hge].
  - destruct (lookup_lt_is_Some_2 arr i Hlt) as [b Hb].
    rewrite Hb. simpl.
    rewrite <- (take_drop_middle arr i b Hb) at 2.
    rewrite insert_take_drop by exact Hlt.
    rewrite !members_app.
    change (members (Some (default [] b ++ [p]) :: drop (S i) arr))
      with ((default [] b ++ [p]) ++ members (drop (S i) arr)).
    change (members (b :: drop (S i) arr))
      with (default [] b ++ members (drop (S i) arr)).
    transitivity ((members (take i arr) ++ default [] b) ++
                  p :: members (drop (S i) arr)).
    + rewrite <- !app_assoc. reflexivity.
    + rewrite <- Permutation_middle, <- app_assoc. reflexivity.
  - rewrite lookup_ge_None_2 by lia. simpl.
    rewrite !members_app, members_replicate_None. simpl.
    change (members [Some [p]]) with ([p] ++ []).
    rewrite app_nil_r, <- Permutation_middle, app_nil_r. reflexivity.
Qed.

Lemma bucket_push_lookup i p arr :
  bucket (bucket_push i p arr) i = Some (default [] (bucket arr i) ++ [p]) /\
  forall j, j <> i ->
    default [] (bucket (bucket_push i p arr) j) = default [] (bucket arr j).
Proof.
  unfold bucket_push, array_set, bucket.
  destruct (Nat.ltb_spec i (length arr)) as [Hlt | Hge].
  - split.
    + rewrite list_lookup_insert_eq by exact Hlt. reflexivity.
    + intros j Hj. rewrite list_lookup_insert_ne by congruence. reflexivity.
  - split.
    + rewrite lookup_app_r by lia.
      rewrite lookup_app_r by (rewrite length_replicate; lia).
      rewrite length_replicate.
      replace (i - length arr - (i - length arr))%nat with 0%nat by lia.
      reflexivity.
    + intros j Hj.
      destruct (decide (j < length arr)%nat) as [Hjlt | Hjge].
      * rewrite lookup_app_l by exact Hjlt. reflexivity.
      * rewrite (lookup_ge_None_2 arr j) by lia.
        rewrite lookup_app_r by lia.
        destruct (decide (j - length arr < i - length arr)%nat) as [Hin | Hout].
        -- rewrite lookup_app_l by (rewrite length_replicate; exact Hin).
           rewrite lookup_replicate_2 by exact Hin. reflexivity.
        -- rewrite lookup_app_r by (rewrite length_replicate; lia).
           rewrite length_replicate.
           destruct (j - length arr - (i - length arr))%nat as [| k] eqn:Hk;
             [lia | reflexivity].
Qed.

Section Creation.
Context {material_js : MaterialJs} {program_js : ProgramJs}.

Lemma RenderMaterial_constructor_renderOrder material program w w' rm :
  RenderMaterial_constructor material program w = (w', Return rm) ->
  exists m,
    materials w' !! rm = Some m /\
    RenderMaterial._renderOrder m =
      renderOrder_of (Material.renderOrder material) (Material.state material).
Proof.
  unfold RenderMaterial_constructor. unfold bind at 1.
  destruct (RenderMaterial_samplers 0 (Material._samplers material) w)
    as [w1 [samplers | e]]; [| discriminate].
  unfold alloc. rewrite bind_gets, bind_modify. unfold ret.
  intros [= <- <-]. eexists. split.
  - simpl. apply list_lookup_middle. reflexivity.
  - reflexivity.
Qed.

(** createRenderPrimitive evolves the world up to its last step, which
    appends the new primitive to the bucket of its material's render
    order. *)
Lemma createRenderPrimitive_run primitive material w w' o :
  createRenderPrimitive primitive material w = (w', o) ->
  exists w3,
    evolves (fun _ => True) w w3 /\
    match o with
    | Return p =>
        p = length (primitives w) /\
        (p < length (primitives w3))%nat /\
        w' = set_renderer
               (fun r =>
                  rend_set_renderPrimitives
                    (bucket_push
                       (renderOrder_of (Material.renderOrder material)
                          (Material.state material))
                       p (Renderer._renderPrimitives r)) r) w3
    | Throw _ => w' = w3
    end.
Proof.
  set (T := fun _ : glcall => True).
  assert (HT : forall c, no_draw c -> T c) by (intros; exact I).
  unfold createRenderPrimitive, RenderPrimitive_constructor, alloc.
  rewrite bind_assoc, bind_gets, bind_assoc, bind_modify, bind_ret.
  unfold bind at 1.
  match goal with
  | |- context [_getMaterialProgram material ?p0 ?w0'] =>
      set (p := p0); set (w0 := w0')
  end.
  assert (Hp : p = length (primitives w)) by reflexivity.
  assert (H0 : evolves T w w0).
  { subst w0. apply evolves_quiet; simpl; rewrite ?length_app; try reflexivity. lia. }
  assert (Hl0 : length (primitives w0) = S (length (primitives w))).
  { subst w0. simpl. rewrite length_app. simpl. lia. }
  clearbody w0 p.
  assert (H1 : respects (evolves T) (_getMaterialProgram material p)) by evolve.
  specialize (H1 w0).
  destruct (_getMaterialProgram material p w0)
    as [w1 [program | e]]; simpl in H1.
  2: { intros [= <- <-]. exists w1. split; [| reflexivity].
       etransitivity; eassumption. }
  assert (H01 : evolves T w w1) by (etransitivity; eassumption).
  assert (Hl1 : (length (primitives w) < length (primitives w1))%nat).
  { destruct H1 as (_ & Hl & _). lia. }
  clear H0 H1 Hl0 w0.
  unfold bind at 1.
  assert (H2 : respects (evolves T) (RenderMaterial_constructor material program))
    by evolve.
  specialize (H2 w1).
  pose proof (RenderMaterial_constructor_renderOrder material program w1) as Hrm.
  destruct (RenderMaterial_constructor material program w1) as [w2 [rm | e]];
    simpl in H2.
  2: { intros [= <- <-]. exists w2. split; [| reflexivity].
       etransitivity; eassumption. }
  destruct (Hrm w2 rm eq_refl) as (m & Hm & Horder). clear Hrm.
  assert (H02 : evolves T w w2) by (etransitivity; eassumption).
  assert (Hl2 : (length (primitives w) < length (primitives w2))%nat).
  { destruct H2 as (_ & Hl & _). lia. }
  clear H01 H2 Hl1.
  unfold bind at 1.
  assert (H3 : respects (evolves T) (RenderPrimitive_setRenderMaterial p (Some rm)))
    by evolve.
  specialize (H3 w2).
  pose proof (same_materials_setRenderMaterial p (Some rm) w2) as Hm3.
  unfold same_materials in Hm3.
  destruct (RenderPrimitive_setRenderMaterial p (Some rm) w2)
    as [w3 [[] | e]]; simpl in H3, Hm3.
  2: { intros [= <- <-]. exists w3. split; [| reflexivity].
       etransitivity; eassumption. }
  rewrite (bind_deref materialH rm m) by (simpl; rewrite Hm3; exact Hm).
  unfold update_renderer. rewrite bind_modify. unfold ret.
  intros [= <- <-]. exists w3.
  split; [etransitivity; eassumption |].
  split; [exact Hp |]. split.
  - destruct H3 as (_ & Hl & _). lia.
  - rewrite Horder. reflexivity.
Qed.

(** What createRenderPrimitive does to the buckets: when it returns, the
    new primitive has been appended to the bucket of its material's
    render order; when it throws, the buckets are as they were. *)
Lemma createRenderPrimitive_buckets primitive material w w' o :
  createRenderPrimitive primitive material w = (w', o) ->
  (length (primitives w) <= length (primitives w'))%nat /\
  match o with
  | Return p =>
      p = length (primitives w) /\
      (p < length (primitives w'))%nat /\
      Renderer._renderPrimitives (renderer w') =
        bucket_push
          (renderOrder_of (Material.renderOrder material) (Material.state material))
          p (Renderer._renderPrimitives (renderer w))
  | Throw _ =>
      Renderer._renderPrimitives (renderer w') =
        Renderer._renderPrimitives (renderer w)
  end.
Proof.
  intros Hrun.
  destruct (createRenderPrimitive_run primitive material w w' o Hrun)
    as (w3 & (Hb & Hl & _) & Ho).
  destruct o as [p | e].
  - destruct Ho as (-> & Hp & ->). simpl.
    split; [exact Hl |]. split; [reflexivity |]. split; [exact Hp |].
    rewrite Hb. reflexivity.
  - subst w'. split; assumption.
Qed.

Lemma buckets_wf_create primitive material w :
  buckets_wf w -> buckets_wf (fst (createRenderPrimitive primitive material w)).
Proof.
  intros [Hnd Hlt].
  destruct (createRenderPrimitive primitive material w) as [w' o] eqn:Hrun.
  destruct (createRenderPrimitive_buckets primitive material w w' o Hrun) as [Hlen Hr].
  simpl. destruct o as [p | e].
  - destruct Hr as (-> & Hp & Hb). unfold buckets_wf. rewrite Hb.
    split.
    + rewrite bucket_push_members. constructor; [| exact Hnd].
      intros Hin. rewrite Forall_forall in Hlt. specialize (Hlt _ Hin). lia.
    + rewrite bucket_push_members. constructor; [exact Hp |].
      eapply Forall_impl; [exact Hlt |]. simpl. intros q Hq. lia.
  - unfold buckets_wf. rewrite Hr. split; [exact Hnd |].
    eapply Forall_impl; [exact Hlt |]. simpl. intros q Hq. lia.
Qed.
End Creation.

(** ** The buckets of a reachable world *)

Ltac evolve_known ::=
  lazymatch goal with
  | |- respects _ (RenderPrimitive_waitForComplete _) => evolve_use evolves_waitForComplete
  | |- respects _ (RenderPrimitive_setRenderMaterial _ _) => evolve_use evolves_setRenderMaterial
  | |- respects _ (RenderPrimitive_setPrimitive _ _) => evolve_use evolves_setPrimitive
  | |- respects _ (RenderPrimitive_constructor _) => evolve_use evolves_RenderPrimitive_constructor
  | |- respects _ (RenderTexture_markActive _ _) => evolve_use evolves_RenderTexture_markActive
  | |- respects _ (Node_markActive _ _) => evolve_use evolves_Node_markActive
  | |- respects _ (Node_addRenderPrimitive _ _) => evolve_use evolves_Node_addRenderPrimitive
  | |- respects _ (addExternalTexture _ _ _) => evolve_use evolves_addExternalTexture
  | |- respects _ (_getRenderTexture _) => evolve_use evolves__getRenderTexture
  | |- respects _ (upload_texture _ _ _) => evolve_use evolves_upload_texture
  | |- respects _ (createRenderBuffer _ _ _) => evolve_use evolves_createRenderBuffer
  | |- respects _ (fill_buffer _ _ _) => evolve_use evolves_fill_buffer
  | |- respects _ (RenderMaterial_constructor _ _) => evolve_use evolves_RenderMaterial_constructor
  | |- respects _ (RenderMaterial_bind _) => evolve_use evolves_RenderMaterial_bind
  | |- respects _ (_getMaterialProgram _ _) => evolve_use evolves__getMaterialProgram
  | |- respects _ (Program_use _) => evolve_use evolves_Program_use
  | |- respects _ (_bindPrimitive _ _) => evolve_use evolves__bindPrimitive
  | |- respects _ (_bindMaterialState _ _) => evolve_use evolves__bindMaterialState
  | |- respects _ (drawViews_begin _ _) => evolve_use evolves_drawViews_begin
  | |- respects _ drawViews_end => evolve_use evolves_drawViews_end
  | |- respects _ (upload_view _ _ _ _ _) => evolve_use evolves_upload_view
  | |- respects _ (settle _) => evolve_use evolves_settle
  | |- respects (evolves (fun _ => True)) (draw_bucket _ _ _) =>
      eapply respects_weaken; [| apply evolves_draw_bucket]; intros; exact I
  end.

Section Reachable.
Context {material_js : MaterialJs} {program_js : ProgramJs}.

Lemma evolves_drawViews views rootNode depthData :
  respects (evolves (fun _ => True)) (drawViews views rootNode depthData).
Proof.
  assert (HT : forall c, no_draw c -> (fun _ : glcall => True) c) by (intros; exact I).
  unfold drawViews. evolve.
Qed.

(** Every operation but the creation of a render primitive leaves the
    buckets as they are. *)
Lemma evolves_exec o :
  (forall primitive material, o <> CreateRenderPrimitive primitive material) ->
  respects (evolves (fun _ => True)) (exec o).
Proof.
  assert (HT : forall c, no_draw c -> (fun _ : glcall => True) c) by (intros; exact I).
  intros Ho. destruct o; simpl; try solve [evolve].
  - exfalso. eapply Ho. reflexivity.
  - apply evolves_drawViews.
Qed.

Lemma creates_or_not o :
  (exists primitive material, o = CreateRenderPrimitive primitive material) \/
  (forall primitive material, o <> CreateRenderPrimitive primitive material).
Proof.
  destruct o; try (right; intros; discriminate).
  left. eexists _, _. reflexivity.
Qed.

Lemma buckets_wf_step w o : buckets_wf w -> buckets_wf (step w o).
Proof.
  intros Hwf.
  destruct (creates_or_not o) as [(primitive & material & ->) | Ho].
  - unfold step. simpl. rewrite fst_bind_ret.
    apply buckets_wf_create. exact Hwf.
  - destruct (evolves_exec o Ho w) as (Hb & Hl & _).
    destruct Hwf as [Hnd Hlt]. unfold buckets_wf, step. rewrite Hb.
    split; [exact Hnd |].
    eapply Forall_impl; [exact Hlt |]. simpl. intros q Hq. lia.
Qed.
End Reachable.

Section DrawOrder.
Context {material_js : MaterialJs} {program_js : ProgramJs}.

Lemma buckets_wf_run ops w : buckets_wf w -> buckets_wf (run w ops).
Proof.
  revert w. induction ops as [| o ops IH]; intros w Hwf; simpl.
  - exact Hwf.
  - apply IH, buckets_wf_step, Hwf.
Qed.

Lemma reachable_buckets_wf w : reachable w -> buckets_wf w.
Proof.
  intros (r & ops & (ctx & gl & mv & msmv & ud & Hr) & ->).
  apply buckets_wf_run.
  unfold Renderer_constructor in Hr.
  destruct gl as [gl |]; [| discriminate].
  destruct (GLContext.fragHighPrecision gl); [| discriminate].
  injection Hr as <-.
  unfold buckets_wf. simpl. rewrite members_replicate_None.
  split; constructor.
Qed.

Lemma reachable_step w o : reachable w -> reachable (step w o).
Proof.
  intros (r & ops & Hr & ->). exists r, (ops ++ [o]). split; [exact Hr |].
  unfold run. rewrite fold_left_app. reflexivity.
Qed.

(** C1: in every world that the operations lead to, (1) a render primitive
    that createRenderPrimitive returns is new, is appended to the bucket
    of its render material's render order and is in no other bucket, and
    the other primitives stay where they are; (2) no primitive is in two
    buckets or twice in one, and no operation other than the creation of
    a render primitive changes a bucket; (3) in the calls of a frame of
    drawViews, every draw call for a primitive of the opaque bucket comes
    before every draw call for a primitive of the transparent bucket. *)
Theorem C1_opaque_before_transparent (w : World)
    (primitive : Primitive.t) (material : Material.t)
    (views : list RenderView.t) (rootNode : option (list noderef))
    (depthData : option (list DepthData.t)) :
  reachable w ->
  (RENDER_ORDER_OPAQUE < RENDER_ORDER_TRANSPARENT)%nat ->
  (forall w' p,
     createRenderPrimitive primitive material w = (w', Return p) ->
     let order :=
       renderOrder_of (Material.renderOrder material) (Material.state material) in
     (forall i, ~ in_bucket w i p) /\
     bucket (Renderer._renderPrimitives (renderer w')) order =
       Some (default [] (bucket (Renderer._renderPrimitives (renderer w)) order) ++ [p]) /\
     (forall i, in_bucket w' i p -> i = order) /\
     (forall i q, i <> order -> (in_bucket w' i q <-> in_bucket w i q))) /\
  NoDup (members (Renderer._renderPrimitives (renderer w))) /\
  (forall o,
     (forall primitive' material', o <> CreateRenderPrimitive primitive' material') ->
     Renderer._renderPrimitives (renderer (step w o)) =
       Renderer._renderPrimitives (renderer w)) /\
  (forall i j ci cj p q,
     calls_since w (fst (drawViews views rootNode depthData w)) !! i = Some ci ->
     calls_since w (fst (drawViews views rootNode depthData w)) !! j = Some cj ->
     drawn ci = Some p -> drawn cj = Some q ->
     in_bucket w RENDER_ORDER_OPAQUE p ->
     in_bucket w RENDER_ORDER_TRANSPARENT q ->
     (i < j)%nat).
Proof.
  intros Hreach Horder.
  pose proof (reachable_buckets_wf w Hreach) as [Hnd Hlt].
  split; [| split; [exact Hnd | split]].
  - intros w' p Hrun order.
    destruct (createRenderPrimitive_buckets primitive material w w' _ Hrun)
      as (_ & -> & _ & Hb).
    fold order in Hb.
    assert (Hwf' : buckets_wf w').
    { change w' with (fst (w', @Return primref (length (primitives w)))).
      rewrite <- Hrun. apply buckets_wf_create. split; assumption. }
    destruct (bucket_push_lookup order (length (primitives w))
                (Renderer._renderPrimitives (renderer w))) as [Hat Hother].
    assert (Hin : in_bucket w' order (length (primitives w))).
    { unfold in_bucket. rewrite Hb, Hat. simpl.
      apply elem_of_app. right. left. }
    split; [| split; [| split]].
    + intros i Hi.
      assert (Hm : length (primitives w) ∈
                   members (Renderer._renderPrimitives (renderer w))).
      { apply elem_of_members. exists i. exact Hi. }
      rewrite Forall_forall in Hlt. specialize (Hlt _ Hm). lia.
    + rewrite Hb. exact Hat.
    + intros i Hi.
      apply (bucket_unique _ _ i order (proj1 Hwf') Hi Hin).
    + intros i q Hi. unfold in_bucket. rewrite Hb, (Hother i Hi). reflexivity.
  - intros o Ho. destruct (evolves_exec o Ho w) as (Hb & _). exact Hb.
  - intros i j ci cj p q Hi Hj Hci Hcj Hp Hq.
    eapply (frame_order views rootNode depthData w
              RENDER_ORDER_OPAQUE RENDER_ORDER_TRANSPARENT); eassumption.
Qed.
End DrawOrder.

Lemma sample_scene_reachable : reachable (sample_scene false).
Proof.
  exists (sample_renderer false),
    [CreateRenderBuffer GL.ARRAY_BUFFER (ArrayBuffer 36) GL.STATIC_DRAW;
     CreateRenderPrimitive (sample_primitive 0%nat) (sample_material "glass" 2);
     CreateRenderPrimitive (sample_primitive 0%nat) (sample_material "stone" 4);
     CreateNode RenderView.mat4_identity;
     AddRenderPrimitive 0%nat 0%nat;
     AddRenderPrimitive 0%nat 1%nat;
     Settle 0%nat;
     Settle 0%nat].
  split.
  - exists None, (Some sample_context), false, false, false. reflexivity.
  - unfold sample_scene, sample_world, run. rewrite <- fold_left_app. reflexivity.
Defined.

Lemma C1_opaque_before_transparent_witness :
  let frame :=
    calls_since (sample_scene false)
      (fst (drawViews [sample_view] (Some [0%nat]) None (sample_scene false))) in
  frame !! 26%nat = Some (drawArrays 1%nat 4 0 3) /\
  frame !! 53%nat = Some (drawArrays 0%nat 4 0 3) /\
  in_bucket (sample_scene false) RENDER_ORDER_OPAQUE 1%nat /\
  in_bucket (sample_scene false) RENDER_ORDER_TRANSPARENT 0%nat /\
  (26 < 53)%nat.
Proof.
  intros frame.
  assert (H26 : frame !! 26%nat = Some (drawArrays 1%nat 4 0 3))
    by (vm_compute; reflexivity).
  assert (H53 : frame !! 53%nat = Some (drawArrays 0%nat 4 0 3))
    by (vm_compute; reflexivity).
  assert (Ho : in_bucket (sample_scene false) RENDER_ORDER_OPAQUE 1%nat)
    by (vm_compute; left).
  assert (Ht : in_bucket (sample_scene false) RENDER_ORDER_TRANSPARENT 0%nat)
    by (vm_compute; left).
  repeat (split; [assumption |]).
  destruct (C1_opaque_before_transparent (sample_scene false)
              (sample_primitive 0%nat) (sample_material "glass" 2)
              [sample_view] (Some [0%nat]) None
              sample_scene_reachable ltac:(simpl; lia))
    as (_ & _ & _ & Horder).
  exact (Horder 26%nat 53%nat _ _ 1%nat 0%nat H26 H53 eq_refl eq_refl Ho Ht).
Defined.

(** ** The texture cache *)

Section TextureCache.
Context {material_js : MaterialJs} {program_js : ProgramJs}.





End TextureCache.


(** ** Camera positions *)

Section CameraPositions.
Context {material_js : MaterialJs} {program_js : ProgramJs}.

Lemma camera_position_run i view w :
  (i <= length (Renderer._cameraPositions (renderer w)))%nat ->
  exists w',
    camera_position i view w = (w', Return tt) /\
    Renderer._cameraPositions (renderer w') !! i = Some (viewTransform_position view) /\
    (forall j, j <> i -> (j < length (Renderer._cameraPositions (renderer w)))%nat ->
       Renderer._cameraPositions (renderer w') !! j =
         Renderer._cameraPositions (renderer w) !! j) /\
    length (Renderer._cameraPositions (renderer w')) =
      Nat.max (length (Renderer._cameraPositions (renderer w))) (S i).
Proof.
  intros Hi. unfold camera_position, get_renderer. rewrite bind_gets.
  destruct (Nat.leb_spec (length (Renderer._cameraPositions (renderer w))) i)
    as [Hle | Hgt].
  - simpl when. unfold update_renderer. rewrite bind_modify.
    eexists. split; [reflexivity |]. simpl.
    assert (Hlen : length (Renderer._cameraPositions (renderer w)) = i) by lia.
    split; [| split].
    + apply list_lookup_insert_eq. rewrite length_app. simpl. lia.
    + intros j Hj Hlt. rewrite list_lookup_insert_ne by congruence.
      apply lookup_app_l. exact Hlt.
    + rewrite length_insert, length_app. simpl. lia.
  - simpl when. rewrite bind_ret. unfold update_renderer.
    eexists. split; [reflexivity |]. simpl.
    split; [| split].
    + apply list_lookup_insert_eq. exact Hgt.
    + intros j Hj Hlt. apply list_lookup_insert_ne. congruence.
    + rewrite length_insert. lia.
Qed.

(** After the loop of drawViews, the camera position of every view is the
    position of its viewTransform, and the array has only grown to the
    number of views. *)
Lemma camera_positions_run views k w :
  (k <= length (Renderer._cameraPositions (renderer w)))%nat ->
  exists w',
    camera_positions k views w = (w', Return tt) /\
    (forall i view, views !! i = Some view ->
       Renderer._cameraPositions (renderer w') !! (k + i)%nat =
         Some (viewTransform_position view)) /\
    (forall j, (j < k)%nat ->
       Renderer._cameraPositions (renderer w') !! j =
         Renderer._cameraPositions (renderer w) !! j) /\
    length (Renderer._cameraPositions (renderer w')) =
      Nat.max (length (Renderer._cameraPositions (renderer w))) (k + length views).
Proof.
  revert k w. induction views as [| view views IH]; intros k w Hk.
  - exists w. split; [reflexivity |]. split; [| split].
    + intros i view Hi. discriminate.
    + reflexivity.
    + simpl. lia.
  - simpl camera_positions. unfold bind.
    destruct (camera_position_run k view w Hk) as (w1 & -> & Hat & Hother & Hlen).
    destruct (IH (S k) w1 ltac:(lia)) as (w2 & Hrun & Hviews & Hbelow & Hlen2).
    exists w2. split; [exact Hrun |]. split; [| split].
    + intros [| i] v Hv; simpl in Hv.
      * injection Hv as <-. rewrite Nat.add_0_r.
        rewrite Hbelow by lia. exact Hat.
      * replace (k + S i)%nat with (S k + i)%nat by lia. apply Hviews, Hv.
    + intros j Hj. rewrite Hbelow by lia. apply Hother; lia.
    + rewrite Hlen2, Hlen. simpl. lia.
Qed.

(** For a view made from an XRRigidTransform whose matrix carries its
    position and whose inverse is the inverse of its matrix, that position
    is the translation of the inverse of the view matrix. *)
Lemma rigid_transform_camera_position projectionMatrix tr viewport eye :
  mat4_getTranslation (RenderView.matrix tr) =
    [RenderView.x (RenderView.position tr); RenderView.y (RenderView.position tr);
     RenderView.z (RenderView.position tr)] ->
  is_inverse (RenderView.inverse_matrix tr) (RenderView.matrix tr) ->
  let view := RenderView.constructor projectionMatrix (RenderView.RigidTransform tr)
                viewport eye in
  exists inverse,
    is_inverse (RenderView.viewMatrix view) inverse /\
    viewTransform_position view = mat4_getTranslation inverse.
Proof.
  intros Hpos Hinv view. exists (RenderView.matrix tr).
  split; [exact Hinv |]. symmetry. exact Hpos.
Qed.

(** A view made from a raw view matrix gets the origin, whatever the
    matrix. *)
Lemma float32array_camera_position projectionMatrix m viewport eye :
  viewTransform_position
    (RenderView.constructor projectionMatrix (RenderView.Float32Array m) viewport eye)
  = [0; 0; 0]%Q.
Proof. reflexivity. Qed.

(** C3 fails on a view made from a raw view matrix: for the view matrix
    of a camera at (1, 2, 3), drawViews stores the camera position
    (0, 0, 0), while the inverse of the view matrix has the translation
    (1, 2, 3). *)
Theorem C3_raw_view_matrix_camera_position :
  Renderer._cameraPositions
    (renderer (fst (drawViews [view_from_matrix] (Some []) None (sample_world false))))
  = [[0; 0; 0]%Q] /\
  is_inverse (RenderView.viewMatrix view_from_matrix) (mat4_fromTranslation 1 2 3)%Q /\
  mat4_getTranslation (mat4_fromTranslation 1 2 3)%Q = [1; 2; 3]%Q.
Proof.
  split; [vm_compute; reflexivity |]. split; [| reflexivity].
  split; vm_compute; repeat constructor.
Qed.
End CameraPositions.

(** ** The view loop under multiview *)

Lemma set_gl_log_app a b w :
  set_gl_log (fun l => l ++ b) (set_gl_log (fun l => l ++ a) w)
  = set_gl_log (fun l => l ++ (a ++ b)) w.
Proof. unfold set_gl_log. simpl. rewrite <- app_assoc. reflexivity. Qed.

Lemma bind_gl {B} c (k : M B) w :
  (gl c ;; k) w = k (set_gl_log (fun l => l ++ [c]) w).
Proof. reflexivity. Qed.

Ltac mrun :=
  repeat first
    [ rewrite bind_assoc
    | rewrite bind_ret
    | rewrite bind_gets
    | rewrite bind_modify
    | progress unfold gl, get_renderer, item
    | progress (simpl lookup)
    | progress cbv beta iota ].

Section Multiview.
Context {material_js : MaterialJs} {program_js : ProgramJs}.

Lemma for_each_instances primitive p frameId N instances ns :
  Forall2 (fun r n => N !! r = Some n) instances ns ->
  forall w, nodes w = N ->
  for_each instances (fun instance =>
    n <- deref nodeH instance ;;
    if negb (Node._activeFrameId n =? frameId) then ret tt
    else
      gl (uniformMatrix4fv "MODEL_MATRIX" (Node.worldMatrix n)) ;;
      if some (RenderPrimitive._indexBuffer p)
      then gl (drawElements primitive (RenderPrimitive._mode p)
                 (RenderPrimitive._elementCount p) (RenderPrimitive._indexType p)
                 (RenderPrimitive._indexByteOffset p))
      else gl (drawArrays primitive (RenderPrimitive._mode p) 0
                 (RenderPrimitive._elementCount p))) w
  = (set_gl_log (fun l => l ++ instance_calls primitive p frameId ns) w, Return tt).
Proof.
  unfold instance_calls, draw_call, active_in.
  destruct (some (RenderPrimitive._indexBuffer p));
    (induction 1 as [| r n instances ns Hr _ IH]; intros w HN;
     [ simpl; rewrite set_gl_log_id; reflexivity
     | cbn [for_each map concat]; rewrite bind_assoc;
       rewrite (bind_deref nodeH r n) by (simpl; rewrite HN; exact Hr);
       destruct (Node._activeFrameId n =? frameId); cbn [negb];
       [ rewrite bind_assoc, !bind_gl, IH by (simpl; exact HN);
         rewrite !set_gl_log_app; reflexivity
       | rewrite bind_ret, IH by exact HN; reflexivity ] ]).
Qed.

Lemma draw_instances_run primitive p frameId ns w :
  primitives w !! primitive = Some p ->
  Forall2 (fun r n => nodes w !! r = Some n) (RenderPrimitive._instances p) ns ->
  draw_instances primitive frameId w
  = (set_gl_log (fun l => l ++ instance_calls primitive p frameId ns) w, Return tt).
Proof.
  intros Hp Hns. unfold draw_instances.
  rewrite (bind_deref primitiveH primitive p) by exact Hp.
  exact (for_each_instances primitive p frameId (nodes w) _ ns Hns w eq_refl).
Qed.

Lemma uploads_of_app name a b :
  uploads_of name (a ++ b) = uploads_of name a ++ uploads_of name b.
Proof. unfold uploads_of. apply omap_app. Qed.

Lemma uploads_of_instance n mat name primitive p :
  uploads_of name [uniformMatrix4fv n mat; draw_call primitive p]
  = if String.eqb n name then [mat] else [].
Proof.
  unfold uploads_of, draw_call.
  destruct (some _); simpl; destruct (String.eqb n name); reflexivity.
Qed.

Lemma uploads_of_instance_calls name primitive p frameId ns :
  String.eqb "MODEL_MATRIX" name = false ->
  uploads_of name (instance_calls primitive p frameId ns) = [].
Proof.
  intros Hname. induction ns as [| n ns IH]; [reflexivity |].
  unfold instance_calls. cbn [map concat]. fold (instance_calls primitive p frameId ns).
  rewrite uploads_of_app, IH, app_nil_r.
  destruct (active_in frameId n); [| reflexivity].
  rewrite uploads_of_instance, Hname. reflexivity.
Qed.

Lemma is_draw_draw_call primitive p : is_draw (draw_call primitive p) = true.
Proof. unfold draw_call. destruct (some _); reflexivity. Qed.

Lemma draws_of_instance_calls primitive p frameId ns :
  List.filter is_draw (instance_calls primitive p frameId ns)
  = map (fun _ => draw_call primitive p) (List.filter (active_in frameId) ns).
Proof.
  induction ns as [| n ns IH]; [reflexivity |].
  unfold instance_calls. cbn [map concat]. fold (instance_calls primitive p frameId ns).
  rewrite List.filter_app, IH. cbn [List.filter].
  destruct (active_in frameId n); [| reflexivity].
  cbn [List.filter map]. rewrite is_draw_draw_call. reflexivity.
Qed.

Lemma draws_of_no_draw calls : Forall no_draw calls -> List.filter is_draw calls = [].
Proof.
  induction 1 as [| c calls Hc _ IH]; [reflexivity |].
  cbn [List.filter]. unfold is_draw. rewrite Hc. exact IH.
Qed.

End Multiview.

(** ** Completion of a primitive *)

Section Completion.
Context {material_js : MaterialJs} {program_js : ProgramJs}.

(** The continuation of a buffer whose data never comes is never run. *)
Lemma settle_never_settles i b glBuffer w :
  pending w !! i = Some (FillBuffer b glBuffer NeverSettles) ->
  settle i w = (w, Return tt).
Proof.
  intros Hi. unfold settle. rewrite bind_gets, Hi. reflexivity.
Qed.

(** The completion of a primitive waits for as long as one of the buffers
    it was registered with is not filled. *)
Lemma settle_waits i p completionPromises b w :
  pending w !! i = Some (CompletePrimitive p completionPromises) ->
  b ∈ completionPromises ->
  resolved w b = false ->
  settle i w = (w, Return tt).
Proof.
  intros Hi Hb Hr. unfold settle. rewrite bind_gets, Hi, bind_gets.
  assert (Hready : forallb (resolved w) completionPromises = false).
  { apply not_true_is_false. intros Hall.
    rewrite forallb_forall in Hall.
    rewrite (Hall b) in Hr; [discriminate |].
    apply list_elem_of_In, Hb. }
  rewrite Hready. reflexivity.
Qed.

End Completion.

(** The completion that was registered for the first geometry is still
    pending when the geometry is replaced, and runs without waiting for
    the buffers of the second. *)
Lemma settle_stale_completion :
  pending swap_world !! 1%nat = Some (CompletePrimitive 0%nat []) /\
  option_map RenderPrimitive._complete (primitives swap_world !! 0%nat) = Some false /\
  option_map RenderPrimitive._complete
    (primitives (fst (settle 1 swap_world)) !! 0%nat) = Some true.
Proof. vm_compute. repeat split. Qed.

(** C6 fails on a primitive whose geometry is replaced before the
    completion of its first geometry has run: the primitive reads from a
    buffer whose data never comes, the completion registered for the first
    geometry sets its _complete flag all the same, and the next frame
    draws it, with no buffer behind its attributes and with no error. *)
Theorem C6_stale_completion_draws_unfilled_buffer :
  let w := run swap_world [Settle 1%nat] in
  let frame := drawViews [sample_view] (Some [0%nat]) None w in
  pending w = [FillBuffer 1%nat 1%nat NeverSettles; CompletePrimitive 0%nat [1%nat]] /\
  option_map buffers_of (primitives w !! 0%nat) = Some [1%nat] /\
  option_map RenderBuffer._buffer (buffers w !! 1%nat) = Some None /\
  option_map RenderPrimitive._complete (primitives w !! 0%nat) = Some true /\
  snd frame = Return tt /\
  option_map RenderPrimitive._activeFrameId (primitives (fst frame) !! 0%nat)
    = Some (Renderer._frameId (renderer (fst frame))) /\
  draws_of 0%nat (calls_since w (fst frame)) = [drawArrays 0%nat 4 0 3] /\
  option_map RenderBuffer._buffer (buffers (fst frame) !! 1%nat) = Some None.
Proof. vm_compute. repeat split. Qed.

(** * Further properties of the code *)

(** ** isPowerOfTwo on texture sizes *)

Lemma land_pred_pow2 k : 0 <= k -> Z.land (2 ^ k) (2 ^ k - 1) = 0.
Proof.
  intros Hk. apply Z.bits_inj'. intros i Hi.
  rewrite Z.land_spec, Z.bits_0, Z.pow2_bits_eqb by lia.
  replace (2 ^ k - 1) with (Z.ones k) by (rewrite Z.ones_equiv; lia).
  rewrite Z.testbit_ones by lia.
  destruct (Z.eqb_spec k i) as [-> | Hne]; simpl.
  - rewrite Z.ltb_irrefl, andb_false_r. reflexivity.
  - reflexivity.
Qed.

Lemma land_pred_zero n :
  0 < n -> Z.land n (n - 1) = 0 -> n = 2 ^ Z.log2 n.
Proof.
  intros Hn Hland.
  destruct (Z.log2_spec n Hn) as [Hlo Hhi].
  destruct (Z.eq_dec n (2 ^ Z.log2 n)) as [Heq | Hne]; [exact Heq | exfalso].
  assert (Hk : 0 <= Z.log2 n) by apply Z.log2_nonneg.
  assert (Hlog : Z.log2 (n - 1) = Z.log2 n).
  { apply Z.log2_unique; [exact Hk |].
    rewrite <- Z.add_1_r in Hhi. lia. }
  assert (Hbit : Z.testbit (Z.land n (n - 1)) (Z.log2 n) = true).
  { pose proof (Z.pow_pos_nonneg 2 (Z.log2 n) ltac:(lia) Hk) as Hpos.
    assert (H1 : Z.testbit n (Z.log2 n) = true) by (apply Z.bit_log2; lia).
    assert (H2 : Z.testbit (n - 1) (Z.log2 n) = true)
      by (rewrite <- Hlog; apply Z.bit_log2; lia).
    rewrite Z.land_spec, H1, H2. reflexivity. }
  rewrite Hland, Z.bits_0 in Hbit. discriminate.
Qed.

Lemma isPowerOfTwo_spec n :
  0 < n < 2 ^ 31 ->
  isPowerOfTwo n = true <-> exists k, 0 <= k < 31 /\ n = 2 ^ k.
Proof.
  intros Hn. unfold isPowerOfTwo, js_and.
  rewrite !ToInt32_small by lia.
  rewrite Z.eqb_eq. split.
  - intros Hland. exists (Z.log2 n).
    pose proof (land_pred_zero n ltac:(lia) Hland) as Heq.
    split; [| exact Heq].
    split; [apply Z.log2_nonneg |].
    apply Z.log2_lt_pow2; lia.
  - intros (k & Hk & ->). apply land_pred_pow2. lia.
Qed.

(** X1: on the sizes a texture can have, from 1 up to 2^31 - 1,
    isPowerOfTwo answers true for the powers of two and for nothing
    else. *)
Theorem isPowerOfTwo_positive (n : Z) :
  0 < n < 2 ^ 31 ->
  isPowerOfTwo n = true <-> is_power_of_two n.
Proof. apply isPowerOfTwo_spec. Qed.

Lemma isPowerOfTwo_positive_witness :
  isPowerOfTwo 1024 = true <-> is_power_of_two 1024.
Proof. apply (isPowerOfTwo_positive 1024). lia. Defined.

(** ** The sampler parameters of a texture *)

Section SamplerParameters.
Variable texture : Texture.t.
Hypothesis width_range : 0 < Texture.width texture < 2 ^ 31.
Hypothesis height_range : 0 < Texture.height texture < 2 ^ 31.

Lemma powerOfTwo_spec :
  powerOfTwo texture = true <->
  is_power_of_two (Texture.width texture) /\ is_power_of_two (Texture.height texture).
Proof.
  unfold powerOfTwo. rewrite andb_true_iff.
  rewrite (isPowerOfTwo_spec _ width_range), (isPowerOfTwo_spec _ height_range).
  reflexivity.
Qed.

Lemma generateMipmap_spec :
  generateMipmap GL.TEXTURE_2D ∈ _setSamplerParameters texture <->
  powerOfTwo texture = true /\ Texture.mipmap texture = true.
Proof.
  assert (Hnot : forall a b c d : glcall,
             a <> generateMipmap GL.TEXTURE_2D -> b <> generateMipmap GL.TEXTURE_2D ->
             c <> generateMipmap GL.TEXTURE_2D -> d <> generateMipmap GL.TEXTURE_2D ->
             ~ generateMipmap GL.TEXTURE_2D ∈ [a; b; c; d]).
  { intros a b c d Ha Hb Hc Hd Hin.
    rewrite !elem_of_cons in Hin. rewrite elem_of_nil in Hin.
    intuition congruence. }
  unfold _setSamplerParameters.
  destruct (powerOfTwo texture), (Texture.mipmap texture); simpl; split;
    try (intros _; split; reflexivity);
    try (intros _; apply list_elem_of_here);
    try (intros [? ?]; discriminate);
    intros Hin; exfalso; revert Hin; apply Hnot; discriminate.
Qed.
End SamplerParameters.

(** X2: for a texture of positive size, _setSamplerParameters generates
    mipmaps exactly when the texture asks for them and both its width and
    its height are powers of two; and when one of them is not, a sampler
    that sets nothing gets the LINEAR filters and the CLAMP_TO_EDGE wrap
    modes, whether the texture asks for mipmaps or not. *)
Theorem setSamplerParameters_mipmap (texture : Texture.t) :
  0 < Texture.width texture < 2 ^ 31 ->
  0 < Texture.height texture < 2 ^ 31 ->
  (generateMipmap GL.TEXTURE_2D ∈ _setSamplerParameters texture <->
   Texture.mipmap texture = true /\
   is_power_of_two (Texture.width texture) /\
   is_power_of_two (Texture.height texture)) /\
  (~ (is_power_of_two (Texture.width texture) /\
      is_power_of_two (Texture.height texture)) ->
   Texture.sampler texture =
     {| Sampler.minFilter := 0; Sampler.magFilter := 0;
        Sampler.wrapS := 0; Sampler.wrapT := 0 |} ->
   _setSamplerParameters texture =
     [texParameteri GL.TEXTURE_2D GL.TEXTURE_MAG_FILTER GL.LINEAR;
      texParameteri GL.TEXTURE_2D GL.TEXTURE_MIN_FILTER GL.LINEAR;
      texParameteri GL.TEXTURE_2D GL.TEXTURE_WRAP_S GL.CLAMP_TO_EDGE;
      texParameteri GL.TEXTURE_2D GL.TEXTURE_WRAP_T GL.CLAMP_TO_EDGE]).
Proof.
  intros Hw Hh. split.
  - rewrite (generateMipmap_spec texture Hw Hh), (powerOfTwo_spec texture Hw Hh). tauto.
  - intros Hnot Hs.
    assert (Hpot : powerOfTwo texture = false).
    { apply not_true_is_false. rewrite (powerOfTwo_spec texture Hw Hh). exact Hnot. }
    unfold _setSamplerParameters. rewrite Hpot, Hs. reflexivity.
Qed.

Lemma setSamplerParameters_mipmap_witness :
  generateMipmap GL.TEXTURE_2D ∈ _setSamplerParameters (sized_texture 256 128) /\
  _setSamplerParameters (sized_texture 640 480) =
    [texParameteri GL.TEXTURE_2D GL.TEXTURE_MAG_FILTER GL.LINEAR;
     texParameteri GL.TEXTURE_2D GL.TEXTURE_MIN_FILTER GL.LINEAR;
     texParameteri GL.TEXTURE_2D GL.TEXTURE_WRAP_S GL.CLAMP_TO_EDGE;
     texParameteri GL.TEXTURE_2D GL.TEXTURE_WRAP_T GL.CLAMP_TO_EDGE].
Proof.
  destruct (setSamplerParameters_mipmap (sized_texture 256 128)) as [Hgen _];
    [simpl; lia | simpl; lia |].
  destruct (setSamplerParameters_mipmap (sized_texture 640 480)) as [_ Hclamp];
    [simpl; lia | simpl; lia |].
  split.
  - apply Hgen. split; [reflexivity |].
    split; [exists 8 | exists 7]; (split; [lia | try reflexivity]).
  - apply Hclamp; [| reflexivity].
    intros [(k & Hk & Hpow) _]. simpl in Hpow.
    assert (Hcases : k = 0 \/ k = 1 \/ k = 2 \/ k = 3 \/ k = 4 \/ k = 5 \/ k = 6 \/
                     k = 7 \/ k = 8 \/ k = 9 \/ 10 <= k) by lia.
    repeat (destruct Hcases as [-> | Hcases]; [discriminate |]).
    assert (2 ^ 10 <= 2 ^ k) by (apply Z.pow_le_mono_r; lia).
    lia.
Defined.

(** ** setPrimitive groups the attributes by buffer *)

Lemma attributes_for_app b abs1 abs2 :
  attributes_for b (abs1 ++ abs2) = attributes_for b abs1 ++ attributes_for b abs2.
Proof. unfold attributes_for. rewrite List.filter_app, map_app, concat_app. reflexivity. Qed.

Lemma attributes_for_absent b abs :
  b ∉ map RenderPrimitiveAttributeBuffer._buffer abs -> attributes_for b abs = [].
Proof.
  induction abs as [| ab abs IH]; intros Hb; [reflexivity |].
  rewrite map_cons, not_elem_of_cons in Hb. destruct Hb as [Hne Hb].
  unfold attributes_for. cbn [List.filter].
  destruct (Nat.eqb_spec (RenderPrimitiveAttributeBuffer._buffer ab) b) as [Heq | _].
  - congruence.
  - apply IH, Hb.
Qed.

(** What the search of setPrimitive does to a list of attribute buffers
    with distinct buffers. *)
Lemma push_attribute_spec b ra abs :
  NoDup (map RenderPrimitiveAttributeBuffer._buffer abs) ->
  match push_attribute b ra abs with
  | Some abs' =>
      b ∈ map RenderPrimitiveAttributeBuffer._buffer abs /\
      map RenderPrimitiveAttributeBuffer._buffer abs' =
        map RenderPrimitiveAttributeBuffer._buffer abs /\
      forall b', attributes_for b' abs' =
                   attributes_for b' abs ++ (if Nat.eqb b b' then [ra] else [])
  | None => b ∉ map RenderPrimitiveAttributeBuffer._buffer abs
  end.
Proof.
  induction abs as [| ab abs IH]; intros Hnd.
  - simpl. apply not_elem_of_nil.
  - rewrite map_cons in Hnd. apply NoDup_cons in Hnd. destruct Hnd as [Hhead Hnd].
    specialize (IH Hnd). cbn [push_attribute].
    destruct (Nat.eqb_spec (RenderPrimitiveAttributeBuffer._buffer ab) b) as [Heq | Hne].
    + split; [rewrite map_cons, Heq; apply list_elem_of_here |].
      split; [reflexivity |].
      intros b'. unfold attributes_for. cbn [List.filter RenderPrimitiveAttributeBuffer._buffer].
      rewrite Heq.
      destruct (Nat.eqb_spec b b') as [-> | Hbb'].
      * cbn [map concat RenderPrimitiveAttributeBuffer._attributes].
        fold (attributes_for b' abs).
        rewrite attributes_for_absent by (rewrite <- Heq; exact Hhead).
        rewrite !app_nil_r. reflexivity.
      * rewrite app_nil_r. reflexivity.
    + destruct (push_attribute b ra abs) as [abs' |]; cbn [option_map].
      * destruct IH as (Hin & Hmap & Hfor).
        split; [rewrite map_cons; apply list_elem_of_further, Hin |].
        split; [rewrite !map_cons, Hmap; reflexivity |].
        intros b'. change (ab :: abs') with ([ab] ++ abs').
        change (ab :: abs) with ([ab] ++ abs).
        rewrite !attributes_for_app, Hfor, app_assoc. reflexivity.
      * rewrite map_cons, not_elem_of_cons. split; [congruence | exact IH].
Qed.

(** The loop of setPrimitive keeps the buffers distinct and holds, for
    every buffer, the wrapped attributes of that buffer in their order. *)
Lemma setPrimitive_attributes_spec attributes :
  let abs := snd (fold_left setPrimitive_attribute attributes (0, [])) in
  NoDup (map RenderPrimitiveAttributeBuffer._buffer abs) /\
  (forall b, attributes_for b abs = attributes_on b attributes) /\
  (forall b, b ∈ map RenderPrimitiveAttributeBuffer._buffer abs <->
             b ∈ map PrimitiveAttribute.buffer attributes).
Proof.
  induction attributes as [| a attributes IH] using rev_ind.
  - simpl. split; [constructor |]. split; [reflexivity | reflexivity].
  - rewrite fold_left_app. cbn [fold_left].
    destruct (fold_left setPrimitive_attribute attributes (0, [])) as [mask abs].
    cbn [snd] in IH. destruct IH as (Hnd & Hfor & Hin).
    unfold setPrimitive_attribute. cbn [fst snd].
    pose proof (push_attribute_spec (PrimitiveAttribute.buffer a)
                  (RenderPrimitiveAttribute.constructor a) abs Hnd) as Hpush.
    assert (Hon : forall b, attributes_on b (attributes ++ [a]) =
                    attributes_on b attributes ++
                    (if Nat.eqb (PrimitiveAttribute.buffer a) b
                     then [RenderPrimitiveAttribute.constructor a] else [])).
    { intros b. unfold attributes_on. rewrite List.filter_app, map_app.
      cbn [List.filter]. destruct (Nat.eqb (PrimitiveAttribute.buffer a) b); reflexivity. }
    destruct (push_attribute (PrimitiveAttribute.buffer a)
                (RenderPrimitiveAttribute.constructor a) abs) as [abs' |]; cbn [snd].
    + destruct Hpush as (Hb & Hmap & Hfor').
      split; [rewrite Hmap; exact Hnd |]. split.
      * intros b. rewrite Hfor', Hfor, Hon. reflexivity.
      * intros b. rewrite Hmap, Hin, map_app, elem_of_app. cbn [map].
        rewrite list_elem_of_singleton. split; [tauto |].
        intros [Hb' | ->]; [exact Hb' | apply Hin, Hb].
    + split; [| split].
      * rewrite map_app. apply NoDup_app. split; [exact Hnd |].
        split; [| apply NoDup_singleton].
        intros b Hb Hb'. cbn [map] in Hb'. apply list_elem_of_singleton in Hb'.
        subst b. apply Hpush, Hb.
      * intros b. rewrite attributes_for_app, Hfor, Hon. f_equal.
        unfold attributes_for. cbn [List.filter RenderPrimitiveAttributeBuffer._buffer].
        destruct (Nat.eqb (PrimitiveAttribute.buffer a) b); reflexivity.
      * intros b. rewrite !map_app, !elem_of_app, Hin. reflexivity.
Qed.

Lemma attributes_for_member ab abs :
  NoDup (map RenderPrimitiveAttributeBuffer._buffer abs) ->
  ab ∈ abs ->
  attributes_for (RenderPrimitiveAttributeBuffer._buffer ab) abs =
    RenderPrimitiveAttributeBuffer._attributes ab.
Proof.
  induction abs as [| ab' abs IH]; intros Hnd Hin; [inversion Hin |].
  rewrite map_cons in Hnd. apply NoDup_cons in Hnd. destruct Hnd as [Hhead Hnd].
  change (ab' :: abs) with ([ab'] ++ abs). rewrite attributes_for_app.
  apply elem_of_cons in Hin. destruct Hin as [-> | Hin].
  - rewrite (attributes_for_absent _ abs Hhead), app_nil_r.
    unfold attributes_for. cbn [List.filter]. rewrite Nat.eqb_refl.
    cbn [map concat]. apply app_nil_r.
  - rewrite (IH Hnd Hin).
    unfold attributes_for. cbn [List.filter].
    destruct (Nat.eqb_spec (RenderPrimitiveAttributeBuffer._buffer ab')
                (RenderPrimitiveAttributeBuffer._buffer ab)) as [Heq | _]; [| reflexivity].
    exfalso. apply Hhead. rewrite Heq.
    apply list_elem_of_fmap. exists ab. split; [reflexivity | exact Hin].
Qed.

(** X3: setPrimitive groups the attributes of the descriptor by buffer.
    The attribute buffers of the render primitive have pairwise distinct
    buffers; each holds, in the order of the descriptor, exactly the
    attributes that are read from its buffer, and so at least one; and
    every buffer that an attribute names has its attribute buffer. *)
Theorem setPrimitive_groups_attributes (primitive : Primitive.t) (p : RenderPrimitive.t) :
  let p' := setPrimitive_fields primitive p in
  NoDup (buffers_of p') /\
  (forall ab, ab ∈ RenderPrimitive._attributeBuffers p' ->
     RenderPrimitiveAttributeBuffer._attributes ab =
       attributes_on (RenderPrimitiveAttributeBuffer._buffer ab)
         (Primitive.attributes primitive) /\
     RenderPrimitiveAttributeBuffer._attributes ab <> []) /\
  (forall a, a ∈ Primitive.attributes primitive ->
     PrimitiveAttribute.buffer a ∈ buffers_of p').
Proof.
  intros p'.
  destruct (setPrimitive_attributes_spec (Primitive.attributes primitive))
    as (Hnd & Hfor & Hin).
  unfold p', buffers_of, setPrimitive_fields. cbn [RenderPrimitive._attributeBuffers].
  split; [exact Hnd |]. split.
  - intros ab Hab.
    assert (Heq : RenderPrimitiveAttributeBuffer._attributes ab =
                  attributes_on (RenderPrimitiveAttributeBuffer._buffer ab)
                    (Primitive.attributes primitive)).
    { rewrite <- Hfor. symmetry. apply attributes_for_member; assumption. }
    split; [exact Heq |].
    rewrite Heq.
    assert (Hb : RenderPrimitiveAttributeBuffer._buffer ab ∈
                 map PrimitiveAttribute.buffer (Primitive.attributes primitive)).
    { apply Hin. apply list_elem_of_fmap. exists ab. split; [reflexivity | exact Hab]. }
    apply list_elem_of_fmap in Hb. destruct Hb as (a & Ha & Hain).
    unfold attributes_on. intros Hnil. apply map_eq_nil in Hnil.
    assert (Hf : a ∈ List.filter
                   (fun a => Nat.eqb (PrimitiveAttribute.buffer a)
                               (RenderPrimitiveAttributeBuffer._buffer ab))
                   (Primitive.attributes primitive)).
    { apply list_elem_of_In, filter_In. split; [apply list_elem_of_In, Hain |].
      rewrite Ha. apply Nat.eqb_refl. }
    rewrite Hnil in Hf. inversion Hf.
  - intros a Ha. apply Hin, list_elem_of_fmap. exists a. split; [reflexivity | exact Ha].
Qed.

(** ** The attribute mask and the attribute arrays *)









Section BindPrimitive.
Context {material_js : MaterialJs} {program_js : ProgramJs}.

End BindPrimitive.


(** ** _bindMaterialState keeps the context in step with the material *)

Lemma gl_run_app a b s : gl_run (a ++ b) s = gl_run b (gl_run a s).
Proof. unfold gl_run. apply fold_left_app. Qed.

Lemma run_enable_segment e (b p : bool) s :
  let s' := gl_run (if Bool.eqb b p then []
                    else [if b then enable e else disable e]) s in
  (enabled s e = p -> enabled s' e = b) /\
  (forall e', (e' =? e) = false -> enabled s' e' = enabled s e') /\
  color_writemask s' = color_writemask s /\
  depth_writemask s' = depth_writemask s /\
  stencil_writemask s' = stencil_writemask s.
Proof.
  destruct b, p; cbn; repeat split; try tauto;
    try (intros _; apply Z.eqb_refl);
    try (intros _; rewrite Z.eqb_refl; reflexivity);
    try (intros e' He'; rewrite He'; reflexivity).
Qed.
Section StateDiff.
Context {material_js : MaterialJs}.
Variables (state prevState : Z).

(** Whether a capability bit is set in a state word. *)
Let on (s c : Z) : bool := truthy (js_and s c).

Lemma on_bit lowest c s :
  is_bit lowest c -> 0 <= lowest ->
  exists k, 0 <= k < 31 /\ lowest <= k /\ c = 2 ^ k /\
    js_and s c = if on s c then c else 0.
Proof.
  intros Hc Hlow.
  destruct (js_and_bit lowest c s Hlow Hc) as (k & Hk & Hlk & Hck & Hand & _).
  exists k. repeat (split; [assumption |]).
  unfold on. rewrite Hand.
  pose proof (bit_positive lowest c Hlow Hc).
  destruct (Z.testbit (ToInt32 s) k); unfold truthy.
  - destruct (Z.eqb_spec c 0); [lia | reflexivity].
  - reflexivity.
Qed.

Lemma setCap_cases glEnum c :
  is_bit 0 c ->
  setCap glEnum c prevState state =
    if Bool.eqb (on state c) (on prevState c) then []
    else [if on state c then enable glEnum else disable glEnum].
Proof.
  intros Hc. pose proof (bit_positive 0 c ltac:(lia) Hc) as Hpos.
  destruct (on_bit 0 c state Hc ltac:(lia)) as (_ & _ & _ & _ & Hs).
  destruct (on_bit 0 c prevState Hc ltac:(lia)) as (_ & _ & _ & _ & Hp).
  unfold setCap. rewrite Hs, Hp.
  destruct (on state c), (on prevState c); cbn [Bool.eqb].
  - rewrite Z.sub_diag. reflexivity.
  - rewrite Z.sub_0_r. destruct (Z.eqb_spec c 0); [lia |].
    destruct (Z.ltb_spec 0 c); [reflexivity | lia].
  - rewrite Z.sub_0_l. destruct (Z.eqb_spec (- c) 0); [lia |].
    destruct (Z.ltb_spec 0 (- c)); [lia | reflexivity].
  - reflexivity.
Qed.

Lemma mask_cases c :
  is_bit 1 c ->
  truthy (js_and state c - js_and prevState c) = negb (Bool.eqb (on state c) (on prevState c)) /\
  (Bool.eqb (on state c) (on prevState c) = false ->
   (1 <? js_and state c - js_and prevState c) = on state c).
Proof.
  intros Hc.
  destruct (on_bit 1 c state Hc ltac:(lia)) as (k & Hk & Hlk & Hck & Hs).
  destruct (on_bit 1 c prevState Hc ltac:(lia)) as (_ & _ & _ & _ & Hp).
  assert (2 <= c).
  { subst c. change 2 with (2 ^ 1). apply Z.pow_le_mono_r; lia. }
  rewrite Hs, Hp. unfold truthy.
  destruct (on state c), (on prevState c); cbn [Bool.eqb negb].
  - rewrite Z.sub_diag. split; [reflexivity | discriminate].
  - rewrite Z.sub_0_r. destruct (Z.eqb_spec c 0); [lia |].
    split; [reflexivity |]. intros _. destruct (Z.ltb_spec 1 c); [reflexivity | lia].
  - rewrite Z.sub_0_l. destruct (Z.eqb_spec (- c) 0); [lia |].
    split; [reflexivity |]. intros _. destruct (Z.ltb_spec 1 (- c)); [lia | reflexivity].
  - split; [reflexivity | discriminate].
Qed.

Lemma land_range_bounds a r : is_range r -> 0 <= Z.land a r < 2 ^ 31.
Proof.
  intros Hr. unfold is_range in Hr.
  assert (Hr31 : Z.land r (Z.ones 31) = r).
  { rewrite Z.land_ones by lia. apply Z.mod_small. lia. }
  assert (Hmod : Z.land a r = Z.land a r mod 2 ^ 31).
  { rewrite <- Z.land_ones by lia.
    rewrite <- Z.land_assoc, Hr31. reflexivity. }
  pose proof (Z.mod_pos_bound (Z.land a r) (2 ^ 31) ltac:(lia)). lia.
Qed.

(** Where _capsDiff finds no difference, no capability bit of the range
    differs. *)
Lemma capsDiff_none c :
  is_range MAT_STATE_CAPS_RANGE ->
  is_bit 0 c ->
  js_and c MAT_STATE_CAPS_RANGE = c ->
  truthy (_capsDiff state prevState) = false ->
  on state c = on prevState c.
Proof.
  intros Hr Hc Hin Hdiff.
  pose proof Hr as Hr'. unfold is_range in Hr'.
  unfold truthy in Hdiff. apply negb_false_iff, Z.eqb_eq in Hdiff.
  unfold _capsDiff, js_xor, js_and in Hdiff.
  rewrite (ToInt32_small MAT_STATE_CAPS_RANGE) in Hdiff by lia.
  pose proof (land_range_bounds (ToInt32 prevState) _ Hr) as Hbp.
  pose proof (land_range_bounds (ToInt32 state) _ Hr) as Hbs.
  rewrite (ToInt32_small (Z.land (ToInt32 prevState) MAT_STATE_CAPS_RANGE)) in Hdiff by lia.
  rewrite (ToInt32_small (Z.land (ToInt32 state) MAT_STATE_CAPS_RANGE)) in Hdiff by lia.
  apply Z.lxor_eq in Hdiff.
  destruct Hc as (k & Hk & ->).
  pose proof (pow2_bit_range k ltac:(lia)) as Hp.
  unfold js_and in Hin.
  rewrite (ToInt32_small (2 ^ k)), (ToInt32_small MAT_STATE_CAPS_RANGE) in Hin by lia.
  unfold on, js_and. rewrite (ToInt32_small (2 ^ k)) by lia.
  rewrite <- Hin, (Z.land_comm (2 ^ k)), !Z.land_assoc, Hdiff. reflexivity.
Qed.

End StateDiff.

Section CapsInStep.
Context {material_js : MaterialJs} {program_js : ProgramJs}.

(** X5: _bindMaterialState keeps the capabilities and write masks of the
    context in step with the material.  If, before the call, face
    culling, blending, the depth and stencil tests and the colour, depth
    and stencil write masks of the context are those of the previous
    state word, then after the calls of _bindMaterialState they are those
    of the state word of the material, whichever bits the two words
    differ in. *)
Theorem bindMaterialState_keeps_caps_in_step (state prevState : Z) (s : gl_caps) :
  packed_state ->
  caps_in_range ->
  caps_agree s prevState ->
  caps_agree (gl_run (bindMaterialState_calls state prevState) s) state.
Proof.
  intros Hps Hin (Hcull & Hblend & Hdepth & Hstencil & Hcm & Hdm & Hsm).
  unfold bindMaterialState_calls.
  destruct (Z.eqb_spec state prevState) as [-> | Hne].
  { repeat split; assumption. }
  rewrite !gl_run_app.
  assert (Hquiet : forall (b : bool) c s0,
            is_draw c = false ->
            match c with
            | blendFunc _ _ | depthFunc _ => True | _ => False end ->
            gl_run (if b then [c] else []) s0 = s0).
  { intros b c s0 _ Hc. destruct b; [| reflexivity]. destruct c; try contradiction; reflexivity. }
  rewrite (Hquiet _ (depthFunc _)) by (reflexivity || exact I).
  rewrite (Hquiet _ (blendFunc _ _)) by (reflexivity || exact I).
  clear Hquiet.
  unfold caps_in_range in Hin.
  repeat match type of Hin with
         | Forall _ (_ :: _) => apply Forall_cons in Hin; destruct Hin as [? Hin]
         end.
  destruct (truthy (_capsDiff state prevState)) eqn:Hdiff.
  - rewrite !gl_run_app.
    rewrite !setCap_cases
      by first [ exact (cull_face_bit Hps) | exact (blend_bit Hps)
               | exact (depth_test_bit Hps) | exact (stencil_test_bit Hps) ].
    unfold colorMaskChange, depthMaskChange, stencilMaskChange.
    destruct (mask_cases state prevState _ (color_mask_bit Hps)) as [-> Hcv].
    destruct (mask_cases state prevState _ (depth_mask_bit Hps)) as [-> Hdv].
    destruct (mask_cases state prevState _ (stencil_mask_bit Hps)) as [-> Hsv].
    set (s1 := gl_run _ s).
    set (s2 := gl_run _ s1).
    set (s3 := gl_run _ s2).
    set (s4 := gl_run _ s3).
    destruct (run_enable_segment GL.CULL_FACE
                (truthy (js_and state CAP_CULL_FACE))
                (truthy (js_and prevState CAP_CULL_FACE)) s)
      as (Q1 & Q1o & Q1c & Q1d & Q1s).
    destruct (run_enable_segment GL.BLEND
                (truthy (js_and state CAP_BLEND))
                (truthy (js_and prevState CAP_BLEND)) s1)
      as (Q2 & Q2o & Q2c & Q2d & Q2s).
    destruct (run_enable_segment GL.DEPTH_TEST
                (truthy (js_and state CAP_DEPTH_TEST))
                (truthy (js_and prevState CAP_DEPTH_TEST)) s2)
      as (Q3 & Q3o & Q3c & Q3d & Q3s).
    destruct (run_enable_segment GL.STENCIL_TEST
                (truthy (js_and state CAP_STENCIL_TEST))
                (truthy (js_and prevState CAP_STENCIL_TEST)) s3)
      as (Q4 & Q4o & Q4c & Q4d & Q4s).
    fold s1 in Q1, Q1o, Q1c, Q1d, Q1s, Q2, Q2o, Q2c, Q2d, Q2s.
    fold s2 in Q2, Q2o, Q2c, Q2d, Q2s, Q3, Q3o, Q3c, Q3d, Q3s.
    fold s3 in Q3, Q3o, Q3c, Q3d, Q3s, Q4, Q4o, Q4c, Q4d, Q4s.
    fold s4 in Q4, Q4o, Q4c, Q4d, Q4s.
    assert (Hen : enabled s4 GL.CULL_FACE = truthy (js_and state CAP_CULL_FACE) /\
                  enabled s4 GL.BLEND = truthy (js_and state CAP_BLEND) /\
                  enabled s4 GL.DEPTH_TEST = truthy (js_and state CAP_DEPTH_TEST) /\
                  enabled s4 GL.STENCIL_TEST = truthy (js_and state CAP_STENCIL_TEST)).
    { repeat split.
      - rewrite Q4o, Q3o, Q2o by reflexivity. apply Q1, Hcull.
      - rewrite Q4o, Q3o by reflexivity. apply Q2. rewrite Q1o by reflexivity. exact Hblend.
      - rewrite Q4o by reflexivity. apply Q3.
        rewrite Q2o, Q1o by reflexivity. exact Hdepth.
      - apply Q4. rewrite Q3o, Q2o, Q1o by reflexivity. exact Hstencil. }
    assert (Hms : color_writemask s4 = color_writemask s /\
                  depth_writemask s4 = depth_writemask s /\
                  stencil_writemask s4 = stencil_writemask s).
    { rewrite Q4c, Q3c, Q2c, Q1c, Q4d, Q3d, Q2d, Q1d, Q4s, Q3s, Q2s, Q1s.
      repeat split. }
    destruct Hen as (He1 & He2 & He3 & He4), Hms as (Hmc & Hmd & Hmst).
    clearbody s4. clear s1 s2 s3 Q1 Q1o Q1c Q1d Q1s Q2 Q2o Q2c Q2d Q2s
      Q3 Q3o Q3c Q3d Q3s Q4 Q4o Q4c Q4d Q4s.
    unfold caps_agree.
    destruct (Bool.eqb (truthy (js_and state CAP_COLOR_MASK))
                (truthy (js_and prevState CAP_COLOR_MASK))) eqn:Ec;
      [apply Bool.eqb_prop in Ec | rewrite (Hcv eq_refl)];
    (destruct (Bool.eqb (truthy (js_and state CAP_DEPTH_MASK))
                 (truthy (js_and prevState CAP_DEPTH_MASK))) eqn:Ed;
       [apply Bool.eqb_prop in Ed | rewrite (Hdv eq_refl)]);
    (destruct (Bool.eqb (truthy (js_and state CAP_STENCIL_MASK))
                 (truthy (js_and prevState CAP_STENCIL_MASK))) eqn:Es;
       [apply Bool.eqb_prop in Es | rewrite (Hsv eq_refl)]);
    cbn; rewrite ?He1, ?He2, ?He3, ?He4, ?Hmc, ?Hmd, ?Hmst, ?Hcm, ?Hdm, ?Hsm,
           ?Ec, ?Ed, ?Es;
    repeat split.
  - cbn [gl_run fold_left].
    pose proof (caps_range Hps) as Hr.
    unfold caps_agree.
    rewrite Hcull, Hblend, Hdepth, Hstencil, Hcm, Hdm, Hsm.
    assert (Hbit1 : forall c, is_bit 1 c -> is_bit 0 c).
    { intros c (k & Hk & ->). exists k. split; [lia | reflexivity]. }
    rewrite <- (capsDiff_none state prevState CAP_CULL_FACE Hr (cull_face_bit Hps))
      by assumption.
    rewrite <- (capsDiff_none state prevState CAP_BLEND Hr (blend_bit Hps))
      by assumption.
    rewrite <- (capsDiff_none state prevState CAP_DEPTH_TEST Hr (depth_test_bit Hps))
      by assumption.
    rewrite <- (capsDiff_none state prevState CAP_STENCIL_TEST Hr (stencil_test_bit Hps))
      by assumption.
    rewrite <- (capsDiff_none state prevState CAP_COLOR_MASK Hr
                  (Hbit1 _ (color_mask_bit Hps))) by assumption.
    rewrite <- (capsDiff_none state prevState CAP_DEPTH_MASK Hr
                  (Hbit1 _ (depth_mask_bit Hps))) by assumption.
    rewrite <- (capsDiff_none state prevState CAP_STENCIL_MASK Hr
                  (Hbit1 _ (stencil_mask_bit Hps))) by assumption.
    repeat split.
Qed.
End CapsInStep.

Lemma bindMaterialState_keeps_caps_in_step_witness :
  caps_agree (gl_run (bindMaterialState_calls 53 22) (caps_of 22)) 53.
Proof.
  apply (bindMaterialState_keeps_caps_in_step 53 22 (caps_of 22)).
  - exact sample_packed_state.
  - repeat constructor.
  - repeat split.
Defined.

(** ** Buffers made from a promise *)

Lemma alter_at_end {A} (f : A -> A) (l : list A) (a : A) :
  alter f (length l) (l ++ [a]) = l ++ [f a].
Proof.
  induction l as [| b l IH]; [reflexivity |].
  cbn. f_equal. exact IH.
Qed.

Lemma delete_at_end {A} (l : list A) (a : A) : delete (length l) (l ++ [a]) = l.
Proof.
  induction l as [| b l IH]; [reflexivity |].
  cbn. f_equal. exact IH.
Qed.

Lemma World_ext (w1 w2 : World) :
  gl_log w1 = gl_log w2 -> next_handle w1 = next_handle w2 ->
  buffers w1 = buffers w2 -> textures w1 = textures w2 ->
  programs w1 = programs w2 -> materials w1 = materials w2 ->
  primitives w1 = primitives w2 -> nodes w1 = nodes w2 ->
  stalled_videos w1 = stalled_videos w2 -> pending w1 = pending w2 ->
  renderer w1 = renderer w2 -> w1 = w2.
Proof. destruct w1, w2. simpl. intros. subst. reflexivity. Qed.

(** X6: a buffer made from a promise of data is, once the promise has
    resolved and its continuation has run, the buffer that
    createRenderBuffer makes from the data itself.  Until then the object
    has no WebGL buffer and the context has only seen createBuffer;
    afterwards the object, the calls made on the context and their order
    are the same, and so is the whole world. *)
Theorem createRenderBuffer_promise_resolved
    (target byteLength usage : Z) (w : World) :
  let b := length (buffers w) in
  let glBuffer := next_handle w in
  exists w1 w2,
    createRenderBuffer target (DataPromise (Resolves byteLength)) usage w
      = (w1, Return b) /\
    buffers w1 !! b =
      Some {| RenderBuffer._target := target; RenderBuffer._usage := usage;
              RenderBuffer._length := 0; RenderBuffer._buffer := None |} /\
    gl_log w1 = gl_log w ++ [createBuffer glBuffer] /\
    createRenderBuffer target (ArrayBuffer byteLength) usage w = (w2, Return b) /\
    buffers w2 !! b =
      Some {| RenderBuffer._target := target; RenderBuffer._usage := usage;
              RenderBuffer._length := byteLength;
              RenderBuffer._buffer := Some glBuffer |} /\
    gl_log w2 = gl_log w ++ [createBuffer glBuffer;
                             bindBuffer target (Some glBuffer);
                             bufferData target byteLength usage] /\
    settle (length (pending w)) w1 = (w2, Return tt).
Proof.
  intros b glBuffer.
  set (rb0 := {| RenderBuffer._target := target; RenderBuffer._usage := usage;
                 RenderBuffer._length := 0; RenderBuffer._buffer := None |}).
  set (w0 := set_gl_log (fun l => l ++ [createBuffer glBuffer]) (set_next_handle S w)).
  exists (set_pending (fun l => l ++ [FillBuffer b glBuffer (Resolves byteLength)])
            (set_buffers (fun l => l ++ [rb0]) w0)).
  exists (set_buffers
            (fun l => l ++ [{| RenderBuffer._target := target; RenderBuffer._usage := usage;
                               RenderBuffer._length := byteLength;
                               RenderBuffer._buffer := Some glBuffer |}])
            (set_gl_log (fun l => l ++ [bufferData target byteLength usage])
               (set_gl_log (fun l => l ++ [bindBuffer target (Some glBuffer)]) w0))).
  split; [reflexivity |].
  split; [apply list_lookup_middle; reflexivity |].
  split; [reflexivity |].
  split; [reflexivity |].
  split; [apply list_lookup_middle; reflexivity |].
  split; [unfold w0; cbn [gl_log set_buffers set_gl_log set_next_handle];
          rewrite <- !app_assoc; reflexivity |].
  unfold settle. rewrite bind_gets.
  change (pending (set_pending (fun l => l ++ [FillBuffer b glBuffer (Resolves byteLength)])
                     (set_buffers (fun l => l ++ [rb0]) w0)))
    with (pending w ++ [FillBuffer b glBuffer (Resolves byteLength)]).
  rewrite list_lookup_middle by reflexivity.
  unfold remove_continuation. rewrite bind_modify.
  unfold fill_buffer.
  rewrite (bind_deref bufferH b rb0) by (apply list_lookup_middle; reflexivity).
  rewrite !bind_gl. unfold update, modify.
  f_equal. change (set_objects bufferH) with set_buffers.
  apply World_ext; try reflexivity.
  - apply (alter_at_end (buf_set_filled byteLength glBuffer) (buffers w)).
  - apply (delete_at_end (pending w)).
Qed.

(** ** External textures *)

Section ExternalTextures.
Context {material_js : MaterialJs} {program_js : ProgramJs}.

End ExternalTextures.


(** ** A texture that is registered before it is sampled *)

Section ExternalFirst.
Context {material_js : MaterialJs} {program_js : ProgramJs}.

End ExternalFirst.


(** ** Marking a material active *)

Lemma bind_returns {A B} (m : M A) (k : A -> M B) w w' a :
  m w = (w', Return a) -> (x <- m ;; k x) w = k a w'.
Proof. intros Hm. unfold bind. rewrite Hm. reflexivity. Qed.









Section MaterialMarkActive.
Context {material_js : MaterialJs} {program_js : ProgramJs}.

End MaterialMarkActive.


(** ** Marking a primitive active *)

Section PrimitiveMarkActive.
Context {material_js : MaterialJs} {program_js : ProgramJs}.


End PrimitiveMarkActive.


(** ** What the code leaves as it is *)

#[local] Instance keeps_preorder {X} (proj : World -> X) : PreOrder (keeps proj).
Proof.
  split.
  - intros w. reflexivity.
  - intros w1 w2 w3 H12 H23. unfold keeps in *. congruence.
Qed.

Lemma keeps_weaken {X Y} (proj : World -> X) (g : X -> Y) {A} (m : M A) :
  respects (keeps proj) m -> respects (keeps (fun w => g (proj w))) m.
Proof. intros Hm w. unfold keeps. f_equal. apply Hm. Qed.

Create HintDb keeps.

Ltac keep_side := unfold keeps; try reflexivity.

Ltac keep_known := solve [eauto with keeps nocore].

Ltac keep_step :=
  lazymatch goal with
  | |- PreOrder _ => typeclasses eauto
  | |- respects _ (ret _) => apply respects_ret
  | |- respects _ (throw _) => apply respects_throw
  | |- respects _ (gets _) => apply respects_gets
  | |- respects _ (deref _ _) => apply respects_deref
  | |- respects _ (item _ _) => apply respects_item
  | |- respects _ (bind _ _) => apply respects_bind; [ | | intros ? ]
  | |- respects _ (when _ _) => apply respects_when
  | |- respects _ (for_each _ _) => apply respects_for_each; [ | intros ? ]
  | |- respects _ (modify _) => apply respects_modify; intros ?; keep_side
  | |- respects _ (gl _) => unfold gl
  | |- respects _ (gl_all _) => unfold gl_all
  | |- respects _ fresh_handle => unfold fresh_handle
  | |- respects _ (update _ _ _) => unfold update
  | |- respects _ (alloc _ _) => unfold alloc
  | |- respects _ get_renderer => unfold get_renderer
  | |- respects _ (update_renderer _) => unfold update_renderer
  | |- respects _ (add_continuation _) => unfold add_continuation
  | |- respects _ (remove_continuation _) => unfold remove_continuation
  | |- respects _ (match ?x with _ => _ end) => destruct x
  | |- respects _ (let _ := _ in _) => cbv zeta
  | |- respects _ _ => keep_known
  end.

Ltac keep := repeat keep_step.

Section Still.
Context {material_js : MaterialJs} {program_js : ProgramJs}.

Lemma still_RenderTexture_markActive t frameId :
  respects (keeps still) (RenderTexture_markActive t frameId).
Proof. unfold RenderTexture_markActive, activeCallback. keep. Qed.
#[local] Hint Resolve still_RenderTexture_markActive : keeps.

Lemma still_markActive_samplers m samplers frameId :
  respects (keeps still) (markActive_samplers m samplers frameId).
Proof. induction samplers as [| s samplers IH]; simpl; keep. Qed.
#[local] Hint Resolve still_markActive_samplers : keeps.

Lemma still_RenderMaterial_markActive m frameId :
  respects (keeps still) (RenderMaterial_markActive m frameId).
Proof. unfold RenderMaterial_markActive. keep. Qed.
#[local] Hint Resolve still_RenderMaterial_markActive : keeps.

Lemma still_camera_positions i views :
  respects (keeps still) (camera_positions i views).
Proof.
  revert i. induction views as [| view views IH]; intros i; simpl;
    unfold camera_position; keep.
Qed.
#[local] Hint Resolve still_camera_positions : keeps.

Lemma still_Program_use program : respects (keeps still) (Program_use program).
Proof. unfold Program_use. keep. Qed.
#[local] Hint Resolve still_Program_use : keeps.

Lemma frame_bindMaterialState_flags state prevState r :
  Renderer._frameId (bindMaterialState_flags state prevState r) = Renderer._frameId r.
Proof.
  unfold bindMaterialState_flags.
  destruct ((state =? prevState) || negb (truthy (_capsDiff state prevState)));
    [reflexivity |].
  destruct (truthy (colorMaskChange state prevState)),
           (truthy (depthMaskChange state prevState)); reflexivity.
Qed.

Lemma still_bindMaterialState material prevMaterial :
  respects (keeps still) (_bindMaterialState material prevMaterial).
Proof.
  unfold _bindMaterialState. keep.
  all: unfold still, frame_of; cbn [primitives nodes renderer set_renderer];
    rewrite frame_bindMaterialState_flags; reflexivity.
Qed.
#[local] Hint Resolve still_bindMaterialState : keeps.

Lemma still_RenderMaterial_bind material :
  respects (keeps still) (RenderMaterial_bind material).
Proof. unfold RenderMaterial_bind, bind_sampler, bind_uniform. keep. Qed.
#[local] Hint Resolve still_RenderMaterial_bind : keeps.

Lemma still_bindPrimitive primitive attribMask :
  respects (keeps still) (_bindPrimitive primitive attribMask).
Proof. unfold _bindPrimitive. keep. Qed.
#[local] Hint Resolve still_bindPrimitive : keeps.

Lemma still_draw_instances primitive frameId :
  respects (keeps still) (draw_instances primitive frameId).
Proof. unfold draw_instances. keep. Qed.
#[local] Hint Resolve still_draw_instances : keeps.

Lemma still_upload_view views depthData material i view :
  respects (keeps still) (upload_view views depthData material i view).
Proof. unfold upload_view. keep. Qed.
#[local] Hint Resolve still_upload_view : keeps.

Lemma still_draw_views views depthData primitive material frameId i rest :
  respects (keeps still) (draw_views views depthData primitive material frameId i rest).
Proof. revert i. induction rest as [| view rest IH]; intros i; simpl; keep. Qed.
#[local] Hint Resolve still_draw_views : keeps.

Lemma still_drawViews_end : respects (keeps still) drawViews_end.
Proof. unfold drawViews_end. keep. Qed.
#[local] Hint Resolve still_drawViews_end : keeps.
End Still.

#[local] Hint Resolve still_RenderTexture_markActive still_markActive_samplers
  still_RenderMaterial_markActive still_camera_positions still_Program_use
  still_bindMaterialState still_RenderMaterial_bind still_bindPrimitive
  still_draw_instances still_upload_view still_draw_views still_drawViews_end : keeps.

Lemma frame_from_still {A} (m : M A) :
  respects (keeps still) m -> respects (keeps frame_of) m.
Proof. intros Hm. exact (keeps_weaken still snd m Hm). Qed.
#[local] Hint Resolve frame_from_still : keeps.

Section FrameCounter.
Context {material_js : MaterialJs} {program_js : ProgramJs}.

Lemma frame_RenderPrimitive_markActive p frameId :
  respects (keeps frame_of) (RenderPrimitive_markActive p frameId).
Proof. unfold RenderPrimitive_markActive. keep. Qed.
#[local] Hint Resolve frame_RenderPrimitive_markActive : keeps.

Lemma frame_Node_markActive n frameId :
  respects (keeps frame_of) (Node_markActive n frameId).
Proof. unfold Node_markActive. keep. Qed.
#[local] Hint Resolve frame_Node_markActive : keeps.

Lemma frame_draw_primitive views depthData primitive locals :
  respects (keeps frame_of) (draw_primitive views depthData primitive locals).
Proof. unfold draw_primitive. keep. Qed.
#[local] Hint Resolve frame_draw_primitive : keeps.

Lemma frame_draw_primitives views depthData renderPrimitives locals :
  respects (keeps frame_of) (draw_primitives views depthData renderPrimitives locals).
Proof.
  revert locals. induction renderPrimitives as [| p rest IH]; intros locals; simpl; keep.
Qed.
#[local] Hint Resolve frame_draw_primitives : keeps.

Lemma frame_draw_bucket views depthData renderPrimitives :
  respects (keeps frame_of) (draw_bucket views depthData renderPrimitives).
Proof. unfold draw_bucket, _drawRenderPrimitiveSet. keep. Qed.
#[local] Hint Resolve frame_draw_bucket : keeps.

(** X11: drawViews advances the frame counter by exactly one when it is
    given a root node, whether the frame is drawn to its end or an
    exception leaves it early: neither the marking of the scene nor the
    drawing touches the counter.  Without a root node it returns at once
    and changes nothing. *)
Theorem drawViews_advances_frame (views : list RenderView.t)
    (rootNode : option (list noderef)) (depthData : option (list DepthData.t))
    (w : World) :
  match rootNode with
  | Some _ => frame_of (fst (drawViews views rootNode depthData w)) = frame_of w + 1
  | None => drawViews views rootNode depthData w = (w, Return tt)
  end.
Proof.
  destruct rootNode as [root |]; [| reflexivity].
  unfold drawViews, drawViews_begin.
  rewrite !bind_assoc. unfold update_renderer at 1. rewrite bind_modify.
  match goal with
  | |- frame_of (fst (?m ?w0)) = _ =>
      assert (Hkeep : respects (keeps frame_of) m) by keep;
      rewrite (Hkeep w0)
  end.
  reflexivity.
Qed.
End FrameCounter.

(** ** A primitive that is not complete is not drawn *)

#[local] Instance skips_preorder p : PreOrder (skips p).
Proof.
  split.
  - intros w Hs. split; [exact Hs |]. split; [reflexivity |].
    exists []. rewrite app_nil_r.
    split; [reflexivity | constructor].
  - intros w1 w2 w3 H12 H23 Hs.
    destruct (H12 Hs) as (Hs2 & Hp1 & l1 & Hl1 & Hf1).
    destruct (H23 Hs2) as (Hs3 & Hp2 & l2 & Hl2 & Hf2).
    split; [exact Hs3 |]. split; [rewrite Hp2; exact Hp1 |]. exists (l1 ++ l2).
    rewrite Hl2, Hl1, app_assoc. split; [reflexivity |].
    apply Forall_app. split; assumption.
Qed.

Lemma stale_at p w w' : at_p p w' = at_p p w -> stale p w -> stale p w'.
Proof.
  unfold at_p. intros [= Hp Hf] (rp & Hrp & Hc & Hlt).
  exists rp. rewrite Hp, Hf. repeat split; assumption.
Qed.

Lemma skips_from_keeps p {A} (m : M A) :
  respects (keeps (at_p p)) m ->
  respects (evolves (not_drawing p)) m ->
  respects (skips p) m.
Proof.
  intros Hk He w Hs. split; [| split].
  - exact (stale_at p w _ (Hk w) Hs).
  - exact (f_equal fst (Hk w)).
  - destruct (He w) as (_ & _ & _ & l & Hl & Hf). exists l. split; assumption.
Qed.

Lemma at_from_still p {A} (m : M A) :
  respects (keeps still) m -> respects (keeps (at_p p)) m.
Proof.
  intros Hm.
  exact (keeps_weaken still (fun s => (fst (fst s) !! p, snd s)) m Hm).
Qed.

Lemma no_draw_not_drawing p c : no_draw c -> not_drawing p c.
Proof. unfold no_draw, not_drawing. intros ->. discriminate. Qed.

Lemma draws_only_not_drawing p q c : q <> p -> draws_only q c -> not_drawing p c.
Proof. intros Hne Hq Hp. apply Hne. symmetry. exact (Hq p Hp). Qed.

Lemma skips_quiet p w w' :
  at_p p w' = at_p p w -> gl_log w' = gl_log w -> skips p w w'.
Proof.
  intros Hat Hlog Hs. split; [exact (stale_at p w w' Hat Hs) |].
  split; [exact (f_equal fst Hat) |].
  exists []. rewrite app_nil_r. split; [exact Hlog | constructor].
Qed.

Section Skips.
Context {material_js : MaterialJs} {program_js : ProgramJs}.
Variable p : primref.

(** Marking another primitive leaves this one as it is. *)
Lemma at_RenderPrimitive_markActive q frameId :
  q <> p -> respects (keeps (at_p p)) (RenderPrimitive_markActive q frameId).
Proof.
  intros Hne. unfold RenderPrimitive_markActive. keep.
  all: try (apply at_from_still; keep_known).
  all: unfold at_p; cbn [primitives set_objects primitiveH set_primitives frame_of renderer];
    rewrite list_lookup_alter_ne by exact Hne; reflexivity.
Qed.

Lemma skips_RenderPrimitive_markActive q frameId :
  respects (skips p) (RenderPrimitive_markActive q frameId).
Proof.
  destruct (decide (q = p)) as [-> | Hne].
  - intros w Hs. destruct Hs as (rp & Hrp & Hc & Hlt).
    unfold RenderPrimitive_markActive.
    rewrite (bind_deref primitiveH p rp) by exact Hrp. rewrite Hc. cbn [andb fst].
    split; [exists rp; repeat split; assumption |].
    split; [reflexivity |].
    exists []. rewrite app_nil_r. split; [reflexivity | constructor].
  - apply skips_from_keeps.
    + apply at_RenderPrimitive_markActive, Hne.
    + apply evolves_RenderPrimitive_markActive, no_draw_not_drawing.
Qed.

Lemma skips_Node_markActive n frameId :
  respects (skips p) (Node_markActive n frameId).
Proof.
  unfold Node_markActive. keep.
  - apply skips_quiet; reflexivity.
  - apply skips_RenderPrimitive_markActive.
Qed.

Lemma at_draw_primitive views depthData q locals :
  q <> p -> respects (keeps (at_p p)) (draw_primitive views depthData q locals).
Proof.
  intros Hne. unfold draw_primitive. keep.
  all: try (apply at_from_still; keep_known).
  all: unfold at_p; cbn [primitives set_objects primitiveH set_primitives frame_of renderer];
    rewrite list_lookup_alter_ne by exact Hne; reflexivity.
Qed.

Lemma skips_draw_primitive views depthData q locals :
  q <> p -> respects (skips p) (draw_primitive views depthData q locals).
Proof.
  intros Hne. apply skips_from_keeps.
  - apply at_draw_primitive, Hne.
  - eapply respects_weaken; [| apply evolves_draw_primitive].
    intros c. apply draws_only_not_drawing, Hne.
Qed.

(** The loop over a bucket leaves a stale primitive out: its stamp is
    not the frame counter. *)
Lemma skips_draw_primitives views depthData renderPrimitives locals :
  respects (skips p) (draw_primitives views depthData renderPrimitives locals).
Proof.
  revert locals. induction renderPrimitives as [| q rest IH]; intros locals.
  - apply respects_ret. typeclasses eauto.
  - destruct (decide (q = p)) as [-> | Hne].
    + intros w Hs. pose proof Hs as (rp & Hrp & Hc & Hlt).
      cbn [draw_primitives]. unfold get_renderer. rewrite bind_gets.
      rewrite (bind_deref primitiveH p rp) by exact Hrp.
      destruct (Z.eqb_spec (RenderPrimitive._activeFrameId rp)
                  (Renderer._frameId (renderer w))) as [Heq | _].
      * unfold frame_of in Hlt. lia.
      * cbn [negb]. apply IH, Hs.
    + cbn [draw_primitives]. keep.
      apply skips_draw_primitive, Hne.
Qed.

Lemma skips_draw_bucket views depthData renderPrimitives :
  respects (skips p) (draw_bucket views depthData renderPrimitives).
Proof.
  unfold draw_bucket, _drawRenderPrimitiveSet.
  destruct renderPrimitives as [[| q rest] |].
  - apply respects_ret. typeclasses eauto.
  - apply skips_draw_primitives.
  - apply respects_ret. typeclasses eauto.
Qed.

(** A frame leaves an unfinished primitive unfinished, and as it is, and
    issues no draw call for it. *)
Lemma drawViews_skips views rootNode depthData w :
  unfinished p w ->
  let w' := fst (drawViews views rootNode depthData w) in
  unfinished p w' /\
  primitives w' !! p = primitives w !! p /\
  exists l, gl_log w' = gl_log w ++ l /\ Forall (not_drawing p) l.
Proof.
  intros Hu w'. subst w'.
  destruct rootNode as [root |].
  2: { split; [exact Hu |]. split; [reflexivity |].
       exists []. rewrite app_nil_r. split; [reflexivity | constructor]. }
  unfold drawViews, drawViews_begin.
  rewrite !bind_assoc. unfold update_renderer at 1. rewrite bind_modify.
  match goal with
  | |- context [fst (?m ?w0)] =>
      assert (Hskip : respects (skips p) m);
      [| assert (Hs0 : stale p w0);
         [| destruct (Hskip w0 Hs0) as (Hs1 & Hsame & l & Hl & Hf) ] ]
  end.
  - keep.
    all: try apply skips_Node_markActive.
    all: try apply skips_draw_bucket.
    all: try (apply skips_from_keeps;
              [ apply at_from_still; keep_known
              | first [ apply evolves_camera_positions
                      | apply evolves_drawViews_end ];
                try apply no_draw_not_drawing ]).
    all: try (intros Hs; split; [exact (stale_at p _ _ eq_refl Hs) |];
              split; [reflexivity |];
              eexists; split; [reflexivity |];
              repeat constructor; apply no_draw_not_drawing; reflexivity).
  - destruct Hu as (rp & Hrp & Hc & Hle). exists rp.
    split; [exact Hrp |]. split; [exact Hc |].
    unfold frame_of in *. cbn. lia.
  - split; [| split].
    + destruct Hs1 as (rp & Hrp & Hc & Hlt). exists rp.
      split; [exact Hrp |]. split; [exact Hc | lia].
    + exact Hsame.
    + exists l. split; [exact Hl | exact Hf].
Qed.

(** X12: a primitive that is not complete is left out of every frame.
    Through any number of calls of drawViews, whatever they are given,
    no draw call is issued for the primitive, and it stays as it is: the
    same object, not complete, with its old stamp. *)
Theorem unfinished_primitive_not_drawn (ops : list op) (w : World) :
  unfinished p w ->
  Forall is_frame ops ->
  unfinished p (run w ops) /\
  primitives (run w ops) !! p = primitives w !! p /\
  Forall (not_drawing p) (calls_since w (run w ops)).
Proof.
  intros Hu Hops.
  assert (Hgen : unfinished p (run w ops) /\
                 primitives (run w ops) !! p = primitives w !! p /\
                 exists l, gl_log (run w ops) = gl_log w ++ l /\ Forall (not_drawing p) l).
  { revert w Hu. induction Hops as [| o ops (views & rootNode & depthData & ->) _ IH];
      intros w Hu.
    - split; [exact Hu |]. split; [reflexivity |].
      exists []. rewrite app_nil_r. split; [reflexivity | constructor].
    - change (run w (DrawViews views rootNode depthData :: ops))
        with (run (fst (drawViews views rootNode depthData w)) ops).
      destruct (drawViews_skips views rootNode depthData w Hu)
        as (Hu1 & Hp1 & l1 & Hl1 & Hf1).
      destruct (IH _ Hu1) as (Hu2 & Hp2 & l2 & Hl2 & Hf2).
      split; [exact Hu2 |]. split; [rewrite Hp2; exact Hp1 |].
      exists (l1 ++ l2). split.
      + rewrite Hl2, Hl1, app_assoc. reflexivity.
      + apply Forall_app. split; assumption. }
  destruct Hgen as (Hu' & Hp' & l & Hl & Hf).
  split; [exact Hu' |]. split; [exact Hp' |].
  unfold calls_since. rewrite Hl, drop_app_length. exact Hf.
Qed.
End Skips.

Lemma unfinished_primitive_not_drawn_witness :
  let ops := [DrawViews [sample_view] (Some [0%nat]) None;
              DrawViews [sample_view] (Some [0%nat]) None] in
  unfinished 0%nat (run swap_world ops) /\
  primitives (run swap_world ops) !! 0%nat = primitives swap_world !! 0%nat /\
  Forall (not_drawing 0%nat) (calls_since swap_world (run swap_world ops)).
Proof.
  intros ops.
  apply (unfinished_primitive_not_drawn 0%nat ops swap_world).
  - eexists. split; [vm_compute; reflexivity |].
    split; [reflexivity | vm_compute; discriminate].
  - repeat constructor; eexists _, _, _; reflexivity.
Defined.

(** ** The scratch array of camera positions *)

Section ScratchArray.
Context {material_js : MaterialJs} {program_js : ProgramJs}.

Lemma camera_position_other i view w :
  (i <= length (Renderer._cameraPositions (renderer w)))%nat ->
  forall j, j <> i ->
    Renderer._cameraPositions (renderer (fst (camera_position i view w))) !! j =
    Renderer._cameraPositions (renderer w) !! j.
Proof.
  intros Hi j Hj.
  destruct (camera_position_run i view w Hi) as (w' & Hrun & _ & Hother & Hlen).
  rewrite Hrun. cbn [fst].
  destruct (Nat.lt_ge_cases j (length (Renderer._cameraPositions (renderer w))))
    as [Hlt | Hge].
  - apply Hother; assumption.
  - rewrite (lookup_ge_None_2 (Renderer._cameraPositions (renderer w)) j) by exact Hge.
    apply lookup_ge_None_2. rewrite Hlen. lia.
Qed.

Lemma camera_positions_other views k w :
  (k <= length (Renderer._cameraPositions (renderer w)))%nat ->
  forall j, (j < k \/ k + length views <= j)%nat ->
    Renderer._cameraPositions (renderer (fst (camera_positions k views w))) !! j =
    Renderer._cameraPositions (renderer w) !! j.
Proof.
  revert k w. induction views as [| view views IH]; intros k w Hk j Hj; [reflexivity |].
  cbn [camera_positions length] in *.
  destruct (camera_position_run k view w Hk) as (w1 & Hrun & _ & _ & Hlen).
  rewrite (bind_returns _ _ w w1 tt Hrun).
  rewrite (IH (S k) w1) by lia.
  replace w1 with (fst (camera_position k view w)) by (rewrite Hrun; reflexivity).
  apply camera_position_other; [exact Hk | lia].
Qed.

(** X13: the loop of drawViews over the views fills the scratch array
    _cameraPositions.  It returns; afterwards the entry of every view is
    the position of the viewTransform of that view; the array has grown
    to the number of views if it was shorter and is never cut; and the
    entries beyond the views are the ones of earlier frames. *)
Theorem camera_positions_fill (views : list RenderView.t) (w : World) :
  exists w',
    camera_positions 0 views w = (w', Return tt) /\
    (forall i view, views !! i = Some view ->
       Renderer._cameraPositions (renderer w') !! i =
         Some (viewTransform_position view)) /\
    (forall j, (length views <= j)%nat ->
       Renderer._cameraPositions (renderer w') !! j =
         Renderer._cameraPositions (renderer w) !! j) /\
    length (Renderer._cameraPositions (renderer w')) =
      Nat.max (length (Renderer._cameraPositions (renderer w))) (length views).
Proof.
  destruct (camera_positions_run views 0 w ltac:(lia)) as (w' & Hrun & Hviews & _ & Hlen).
  exists w'. split; [exact Hrun |]. split; [exact Hviews |]. split; [| exact Hlen].
  intros j Hj.
  replace w' with (fst (camera_positions 0 views w)) by (rewrite Hrun; reflexivity).
  apply camera_positions_other; lia.
Qed.
End ScratchArray.

(** ** Binding a material whose sampler has no texture *)

(** X14: bind of a RenderMaterial reads _isArray of the render texture of
    a sampler before it asks whether there is one.  On the first bind of
    a material, if the first sampler whose uniform the program declares
    has no render texture (its material sampler had a null texture),
    bind throws a TypeError before any call reaches the context, although
    markActive counts such a sampler as ready: its loop over the samplers
    passes over the sampler, for which it clears nothing. *)
Theorem RenderMaterial_bind_null_texture
    (m : matref) (rm : RenderMaterial.t) (prog : Program.t)
    (sampler : RenderMaterialSampler.t) (rest : list RenderMaterialSampler.t)
    (w : World) :
  materials w !! m = Some rm ->
  RenderMaterial._firstBind rm = true ->
  programs w !! RenderMaterial._program rm = Some prog ->
  List.filter (fun s => Program.has_uniform prog (RenderMaterialSampler._uniformName s))
    (RenderMaterial._samplers rm) = sampler :: rest ->
  RenderMaterialSampler._renderTexture sampler = None ->
  snd (RenderMaterial_bind m w) =
    Throw (TypeError "Cannot read properties of null (reading '_isArray')") /\
  gl_log (fst (RenderMaterial_bind m w)) = gl_log w /\
  samplers_complete w [sampler] = true /\
  (forall frameId others,
     markActive_samplers m (sampler :: others) frameId w =
     markActive_samplers m others frameId w).
Proof.
  intros Hm Hfirst Hprog Hkept Hnull.
  assert (Hrun : exists w',
            RenderMaterial_bind m w =
              (w', Throw (TypeError "Cannot read properties of null (reading '_isArray')")) /\
            gl_log w' = gl_log w).
  { unfold RenderMaterial_bind.
    rewrite (bind_deref materialH m rm) by exact Hm. rewrite Hfirst.
    rewrite !bind_assoc.
    rewrite (bind_deref programH (RenderMaterial._program rm) prog) by exact Hprog.
    unfold update. rewrite bind_modify. rewrite Hkept.
    match goal with
    | |- context [deref materialH m] =>
        rewrite (bind_deref materialH m
                   (mat_set_bound (sampler :: rest)
                      (map (uniform_set_uniform true)
                         (List.filter
                            (fun u => Program.has_uniform prog
                                        (RenderMaterialUniform._uniformName u))
                            (RenderMaterial._uniforms rm))) rm))
          by (cbn [objects materialH set_objects materials set_materials];
              rewrite list_lookup_alter, decide_True by reflexivity;
              rewrite Hm; reflexivity)
    end.
    cbn [RenderMaterial._samplers mat_set_bound for_each].
    unfold bind_sampler at 1. rewrite Hnull.
    rewrite !bind_assoc, !bind_throw.
    eexists. split; reflexivity. }
  destruct Hrun as (w' & -> & Hlog).
  split; [reflexivity |]. split; [exact Hlog |].
  split; [unfold samplers_complete; cbn [forallb]; rewrite Hnull; reflexivity |].
  intros frameId others. cbn [markActive_samplers]. rewrite Hnull. reflexivity.
Qed.

Lemma RenderMaterial_bind_null_texture_witness :
  snd (RenderMaterial_bind 0%nat untextured_world) =
    Throw (TypeError "Cannot read properties of null (reading '_isArray')").
Proof.
  set (sampler := {| RenderMaterialSampler._uniformName := "baseColorTex";
                     RenderMaterialSampler._renderTexture := None;
                     RenderMaterialSampler._index := 0 |}).
  assert (Hm : exists rm, materials untextured_world !! 0%nat = Some rm /\
                 RenderMaterial._firstBind rm = true /\
                 RenderMaterial._program rm = 0%nat /\
                 RenderMaterial._samplers rm = [sampler]).
  { eexists. split; [vm_compute; reflexivity |]. repeat split. }
  destruct Hm as (rm & Hm & Hfirst & Hprogram & Hsamplers).
  assert (Hprog : exists prog, programs untextured_world !! 0%nat = Some prog /\
                    Program.has_uniform prog "baseColorTex" = true).
  { eexists. split; [vm_compute; reflexivity |]. reflexivity. }
  destruct Hprog as (prog & Hprog & Hhas).
  apply (RenderMaterial_bind_null_texture 0%nat rm prog sampler [] untextured_world
           Hm Hfirst).
  - rewrite Hprogram. exact Hprog.
  - rewrite Hsamplers. cbn [List.filter RenderMaterialSampler._uniformName sampler].
    rewrite Hhas. reflexivity.
  - reflexivity.
Defined.

(** ** A texture whose image is loaded later *)



(** ** Setting the geometry or the material anew *)

Lemma shape_p_alter p q g w :
  (forall rp, RenderPrimitive._complete (g rp) = RenderPrimitive._complete rp /\
              RenderPrimitive._activeFrameId (g rp) = RenderPrimitive._activeFrameId rp) ->
  shape_p p (set_primitives (alter g q) w) = shape_p p w.
Proof.
  intros Hg. unfold shape_p, frame_of. cbn [primitives set_primitives renderer].
  f_equal. rewrite list_lookup_alter.
  destruct (decide (q = p)) as [-> |]; [| reflexivity].
  destruct (primitives w !! p) as [rp |]; [| reflexivity].
  cbn. destruct (Hg rp) as [-> ->]. reflexivity.
Qed.

Lemma shape_completionPromises_of p abs acc :
  respects (keeps (shape_p p)) (completionPromises_of abs acc).
Proof. revert acc. induction abs as [| ab abs IH]; intros acc; simpl; keep. Qed.

Lemma shape_waitForComplete p this :
  respects (keeps (shape_p p)) (RenderPrimitive_waitForComplete this).
Proof.
  unfold RenderPrimitive_waitForComplete. keep.
  all: try apply shape_completionPromises_of.
  all: apply (shape_p_alter p this); intros rp; split; reflexivity.
Qed.

(** X16: setPrimitive and setRenderMaterial take the completion of a
    primitive back.  Whatever the primitive was, and whether the call
    returns or throws, the primitive is afterwards not complete, with the
    stamp it had, and the frame counter is as it was: so a primitive
    whose stamp is not ahead of the counter is left out of the frames
    until a completion runs. *)
Theorem resetting_primitive_unfinishes (p : primref) (rp : RenderPrimitive.t)
    (w : World) :
  primitives w !! p = Some rp ->
  (forall primitive,
     let w' := fst (RenderPrimitive_setPrimitive p primitive w) in
     shape_p p w' = (Some (false, RenderPrimitive._activeFrameId rp), frame_of w) /\
     (RenderPrimitive._activeFrameId rp <= frame_of w -> unfinished p w')) /\
  (forall material,
     let w' := fst (RenderPrimitive_setRenderMaterial p material w) in
     shape_p p w' = (Some (false, RenderPrimitive._activeFrameId rp), frame_of w) /\
     (RenderPrimitive._activeFrameId rp <= frame_of w -> unfinished p w')).
Proof.
  intros Hp.
  assert (Hshape : forall w', 
            shape_p p w' = (Some (false, RenderPrimitive._activeFrameId rp), frame_of w) ->
            RenderPrimitive._activeFrameId rp <= frame_of w -> unfinished p w').
  { intros w' Hs Hle. unfold shape_p in Hs. injection Hs as Hs Hf.
    destruct (primitives w' !! p) as [rp' |] eqn:Hrp'; [| discriminate].
    injection Hs as Hc Hstamp. exists rp'.
    split; [exact Hrp' |]. split; [exact Hc |]. rewrite Hstamp, Hf. exact Hle. }
  split.
  - intros primitive. cbv zeta.
    assert (Hs : shape_p p (fst (RenderPrimitive_setPrimitive p primitive w)) =
                 (Some (false, RenderPrimitive._activeFrameId rp), frame_of w)).
    { unfold RenderPrimitive_setPrimitive, update. rewrite bind_modify.
      set (w0 := set_objects primitiveH (alter (setPrimitive_fields primitive) p) w).
      assert (H0 : shape_p p w0 =
                   (Some (false, RenderPrimitive._activeFrameId rp), frame_of w)).
      { unfold shape_p, w0. cbn [primitives set_objects primitiveH set_primitives].
        rewrite list_lookup_alter, decide_True by reflexivity. rewrite Hp. reflexivity. }
      match goal with
      | |- shape_p p (fst (?m w0)) = _ =>
          assert (Hk : respects (keeps (shape_p p)) m)
            by (keep; apply shape_waitForComplete);
          rewrite (Hk w0)
      end.
      exact H0. }
    split; [exact Hs | apply Hshape, Hs].
  - intros material. cbv zeta.
    assert (Hs : shape_p p (fst (RenderPrimitive_setRenderMaterial p material w)) =
                 (Some (false, RenderPrimitive._activeFrameId rp), frame_of w)).
    { unfold RenderPrimitive_setRenderMaterial, update. rewrite bind_modify.
      set (w0 := set_objects primitiveH (alter (prim_set_material material false false) p) w).
      assert (H0 : shape_p p w0 =
                   (Some (false, RenderPrimitive._activeFrameId rp), frame_of w)).
      { unfold shape_p, w0. cbn [primitives set_objects primitiveH set_primitives].
        rewrite list_lookup_alter, decide_True by reflexivity. rewrite Hp. reflexivity. }
      match goal with
      | |- shape_p p (fst (?m w0)) = _ =>
          assert (Hk : respects (keeps (shape_p p)) m)
            by (keep; apply shape_waitForComplete);
          rewrite (Hk w0)
      end.
      exact H0. }
    split; [exact Hs | apply Hshape, Hs].
Qed.

Lemma resetting_primitive_unfinishes_witness :
  let w := run (sample_scene false) [DrawViews [sample_view] (Some [0%nat]) None] in
  let w' := fst (RenderPrimitive_setPrimitive 0%nat (sample_primitive 0%nat) w) in
  shape_p 0%nat w = (Some (true, 1), 1) /\
  shape_p 0%nat w' = (Some (false, 1), 1) /\
  unfinished 0%nat w'.
Proof.
  intros w w'.
  assert (Hp : exists rp, primitives w !! 0%nat = Some rp /\
                 RenderPrimitive._activeFrameId rp = 1 /\ frame_of w = 1).
  { eexists. split; [vm_compute; reflexivity |]. split; vm_compute; reflexivity. }
  destruct Hp as (rp & Hp & Hstamp & Hframe).
  pose proof (resetting_primitive_unfinishes 0%nat rp w Hp) as [H _].
  destruct (H (sample_primitive 0%nat)) as [Hs Hu].
  rewrite Hstamp, Hframe in Hs, Hu.
  split; [vm_compute; reflexivity |].
  split; [exact Hs | apply Hu; lia].
Defined.

(** ** The view loop without multiview *)

Ltac upload_done :=
  unfold ret, modify; rewrite ?set_gl_log_app; eexists; split; [reflexivity |];
  repeat (constructor; try reflexivity).

Section PerView.
Context {material_js : MaterialJs} {program_js : ProgramJs}.

(** The uploads before the instances of a view are drawn return and draw
    nothing. *)
Lemma upload_view_returns view0 view1 views depthData material m i view cam w :
  materials w !! material = Some m ->
  Renderer._cameraPositions (renderer w) !! i = Some cam ->
  depth_ok depthData ->
  exists calls,
    upload_view (view0 :: view1 :: views) depthData material i view w
      = (set_gl_log (fun l => l ++ calls) w, Return tt) /\
    Forall no_draw calls.
Proof.
  intros Hm Hcam Hd.
  unfold upload_view.
  assert (Hcam' : forall f, Renderer._cameraPositions (renderer (set_gl_log f w)) !! i = Some cam)
    by (intros f; exact Hcam).
  destruct (RenderView.viewport view) as [vp |];
    destruct (Renderer._multiview (renderer w)) eqn:Hmv;
    destruct (Nat.eqb i 0) eqn:Hi;
    destruct depthData as [[| depth0 rest] |];
    mrun; cbn [renderer set_gl_log]; rewrite ?Hmv; cbn [Nat.eqb]; rewrite ?Hi; mrun;
    cbn [renderer set_gl_log]; rewrite ?Hcam; mrun;
    try solve [upload_done].
  all: simpl in Hd; destruct (DepthData.projectionMatrix depth0) as [pm0 |];
    [ destruct Hd as (depth1 & rest' & m1 & -> & Hm1); mrun; rewrite Hm1; mrun
    | mrun ];
    rewrite (bind_deref materialH material m) by exact Hm; mrun;
    upload_done.
Qed.

Section Loop.
Variables (views : list RenderView.t) (depthData : option (list DepthData.t))
  (primitive : primref) (p : RenderPrimitive.t) (material : matref) (frameId : Z)
  (ns : list Node.t) (w : World).
Hypothesis Hmv : Renderer._multiview (renderer w) = false.
Hypothesis Hp : primitives w !! primitive = Some p.
Hypothesis Hns :
  Forall2 (fun r n => nodes w !! r = Some n) (RenderPrimitive._instances p) ns.
Hypothesis Hupload :
  forall i view acc, (i < length views)%nat ->
    exists calls,
      when (1 <? length views)%nat (upload_view views depthData material i view)
        (set_gl_log (fun l => l ++ acc) w)
      = (set_gl_log (fun l => l ++ acc ++ calls) w, Return tt) /\
      Forall no_draw calls.

Lemma draw_views_rounds rest :
  forall i acc, (i + length rest <= length views)%nat ->
    exists calls,
      draw_views views depthData primitive material frameId i rest
        (set_gl_log (fun l => l ++ acc) w)
      = (set_gl_log (fun l => l ++ acc ++ calls) w, Return tt) /\
      List.filter is_draw calls =
        concat (replicate (length rest)
                  (map (fun _ => draw_call primitive p)
                     (List.filter (active_in frameId) ns))).
Proof.
  induction rest as [| view rest IH]; intros i acc Hi.
  - exists []. rewrite app_nil_r. split; reflexivity.
  - cbn [draw_views length] in *.
    destruct (Hupload i view acc ltac:(lia)) as (c1 & Hc1 & Hnd1).
    rewrite (bind_returns _ _ _ _ tt Hc1).
    rewrite (bind_returns _ _ _ _ tt
               (draw_instances_run primitive p frameId ns
                  (set_gl_log (fun l => l ++ acc ++ c1) w) Hp Hns)).
    rewrite set_gl_log_app.
    unfold get_renderer. rewrite bind_gets.
    change (renderer (set_gl_log _ w)) with (renderer w). rewrite Hmv.
    destruct (IH (S i) ((acc ++ c1) ++ instance_calls primitive p frameId ns) ltac:(lia))
      as (c2 & Hc2 & Hd2).
    exists (c1 ++ instance_calls primitive p frameId ns ++ c2).
    split.
    + rewrite Hc2. rewrite <- !app_assoc. reflexivity.
    + rewrite !List.filter_app, (draws_of_no_draw c1 Hnd1), draws_of_instance_calls, Hd2.
      reflexivity.
Qed.
End Loop.

(** X17: without multiview the loop over the views draws the instances
    of a primitive once for every view.  The loop returns, and the draw
    calls among its calls are, view after view, one for each instance
    that is active in the frame, so that their number is the number of
    views times the number of active instances.  With a single view
    nothing is uploaded in the loop; with more, the uploads of a view
    come before its draw calls and need the camera position of the view,
    the material and, where the first entry of the depth data overrides
    the projection matrix, a second entry that does so too. *)
Theorem draw_views_once_per_view
    (views : list RenderView.t) (depthData : option (list DepthData.t))
    (primitive : primref) (p : RenderPrimitive.t) (material : matref)
    (m : RenderMaterial.t) (frameId : Z) (ns : list Node.t) (w : World) :
  Renderer._multiview (renderer w) = false ->
  primitives w !! primitive = Some p ->
  Forall2 (fun r n => nodes w !! r = Some n) (RenderPrimitive._instances p) ns ->
  materials w !! material = Some m ->
  depth_ok depthData ->
  (length views <= length (Renderer._cameraPositions (renderer w)))%nat ->
  exists calls,
    draw_views views depthData primitive material frameId 0 views w
      = (set_gl_log (fun l => l ++ calls) w, Return tt) /\
    List.filter is_draw calls =
      concat (replicate (length views)
                (map (fun _ => draw_call primitive p)
                   (List.filter (active_in frameId) ns))) /\
    length (List.filter is_draw calls) =
      (length views * length (List.filter (active_in frameId) ns))%nat.
Proof.
  intros Hmv Hp Hns Hm Hd Hcams.
  assert (Hupload : forall i view acc, (i < length views)%nat ->
            exists calls,
              when (1 <? length views)%nat (upload_view views depthData material i view)
                (set_gl_log (fun l => l ++ acc) w)
              = (set_gl_log (fun l => l ++ acc ++ calls) w, Return tt) /\
              Forall no_draw calls).
  { intros i view acc Hi.
    destruct views as [| view0 [| view1 views']].
    - simpl in Hi. lia.
    - exists []. rewrite app_nil_r. split; [reflexivity | constructor].
    - cbn [length Nat.ltb Nat.leb when].
      destruct (lookup_lt_is_Some_2 (Renderer._cameraPositions (renderer w)) i
                  ltac:(lia)) as [cam Hcam].
      destruct (upload_view_returns view0 view1 views' depthData material m i view cam
                  (set_gl_log (fun l => l ++ acc) w) Hm Hcam Hd)
        as (calls & Hrun & Hnd).
      exists calls. rewrite Hrun, set_gl_log_app. split; [reflexivity | exact Hnd]. }
  destruct (draw_views_rounds views depthData primitive p material frameId ns w
              Hmv Hp Hns Hupload views 0%nat [] ltac:(simpl; lia))
    as (calls & Hrun & Hdraws).
  rewrite set_gl_log_id in Hrun.
  exists calls. split; [exact Hrun |]. split; [exact Hdraws |].
  rewrite Hdraws.
  generalize (map (fun _ : Node.t => draw_call primitive p)
                (List.filter (active_in frameId) ns)) (length_map (fun _ : Node.t => draw_call primitive p)
                (List.filter (active_in frameId) ns)).
  intros l Hl. rewrite <- Hl. clear.
  induction (length views) as [| n IH]; [reflexivity |].
  cbn [replicate concat]. rewrite length_app, IH. reflexivity.
Qed.
End PerView.

Lemma draw_views_once_per_view_witness :
  let w := fst (drawViews [sample_view; sample_view_right] (Some [0%nat]) None
                  (sample_scene false)) in
  let views := [sample_view; sample_view_right] in
  exists calls,
    draw_views views None 0%nat 0%nat 1 0 views w
      = (set_gl_log (fun l => l ++ calls) w, Return tt) /\
    List.filter is_draw calls = [drawArrays 0%nat 4 0 3; drawArrays 0%nat 4 0 3].
Proof.
  intros w views.
  assert (Hmv : Renderer._multiview (renderer w) = false) by (vm_compute; reflexivity).
  assert (Hp : exists p, primitives w !! 0%nat = Some p /\
                         RenderPrimitive._instances p = [0%nat] /\
                         draw_call 0%nat p = drawArrays 0%nat 4 0 3)
    by (vm_compute; eexists; repeat split).
  assert (Hm : exists m, materials w !! 0%nat = Some m) by (vm_compute; eexists; reflexivity).
  assert (Hn : exists n, nodes w !! 0%nat = Some n /\ active_in 1 n = true)
    by (vm_compute; eexists; repeat split).
  assert (Hcams : (length views <= length (Renderer._cameraPositions (renderer w)))%nat)
    by (vm_compute; repeat constructor).
  destruct Hp as (p & Hp & Hinst & Hdraw), Hm as (m & Hm), Hn as (n & Hn & Hact).
  assert (Hns : Forall2 (fun r n => nodes w !! r = Some n) (RenderPrimitive._instances p) [n])
    by (rewrite Hinst; repeat constructor; exact Hn).
  destruct (draw_views_once_per_view views None 0%nat p 0%nat m 1 [n] w
              Hmv Hp Hns Hm I Hcams)
    as (calls & Hrun & Hdraws & _).
  exists calls. split; [exact Hrun |].
  rewrite Hdraws. cbn [List.filter]. rewrite Hact. cbn. rewrite Hdraw. reflexivity.
Defined.

(** ** A frame draws its primitives in the order of the buckets *)

Section FrameOrder.
Context {material_js : MaterialJs} {program_js : ProgramJs}.

Lemma draw_primitives_phased views depthData renderPrimitives :
  forall locals w,
  exists segs,
    gl_log (fst (draw_primitives views depthData renderPrimitives locals w)) =
      gl_log w ++ concat segs /\
    phased (map draws_only renderPrimitives) segs.
Proof.
  induction renderPrimitives as [| p ps IH]; intros locals w.
  - exists []. simpl. rewrite app_nil_r. split; [reflexivity | constructor].
  - cbn [draw_primitives]. unfold get_renderer. rewrite bind_gets.
    destruct (objects primitiveH w !! p) as [rp |] eqn:Hp.
    + rewrite (bind_deref primitiveH p rp) by exact Hp.
      destruct (negb (RenderPrimitive._activeFrameId rp =? Renderer._frameId (renderer w))).
      * destruct (IH locals w) as (segs & Hl & Hph).
        exists ([] :: segs). split; [exact Hl |].
        constructor; [constructor | exact Hph].
      * unfold bind.
        pose proof (evolves_draw_primitive views depthData p locals w)
          as (_ & _ & _ & l & Hl & HP).
        destruct (draw_primitive views depthData p locals w) as [w1 [locals' | e]];
          simpl in Hl.
        -- destruct (IH locals' w1) as (segs & Hs & Hph).
           exists (l :: segs). split.
           ++ rewrite Hs, Hl. simpl. rewrite app_assoc. reflexivity.
           ++ constructor; assumption.
        -- exists (l :: map (fun _ => []) (map draws_only ps)). split.
           ++ simpl. rewrite concat_nils, app_nil_r. exact Hl.
           ++ constructor; [exact HP | apply phased_nil].
    + rewrite bind_deref_none by exact Hp.
      exists (map (fun _ => []) (map draws_only (p :: ps))).
      rewrite concat_nils, app_nil_r. split; [reflexivity | apply phased_nil].
Qed.

Lemma draw_bucket_by_primitive views depthData b w :
  exists segs,
    gl_log (fst (draw_bucket views depthData b w)) = gl_log w ++ concat segs /\
    phased (map draws_only (default [] b)) segs.
Proof.
  destruct b as [[| p ps] |]; simpl.
  - exists []. simpl. rewrite app_nil_r. split; [reflexivity | constructor].
  - apply draw_primitives_phased.
  - exists []. simpl. rewrite app_nil_r. split; [reflexivity | constructor].
Qed.

Lemma draw_buckets_by_primitive views depthData arr w :
  exists segs,
    gl_log (fst (for_each arr (draw_bucket views depthData) w)) =
      gl_log w ++ concat segs /\
    phased (map draws_only (members arr)) segs.
Proof.
  revert w. induction arr as [| b arr IH]; intros w.
  - exists []. simpl. rewrite app_nil_r. split; [reflexivity | constructor].
  - change (members (b :: arr)) with (default [] b ++ members arr).
    rewrite map_app. simpl for_each. unfold bind.
    destruct (draw_bucket_by_primitive views depthData b w) as (s1 & H1 & P1).
    destruct (draw_bucket views depthData b w) as [w1 [[] | e]]; simpl in H1.
    + destruct (IH w1) as (s2 & H2 & P2).
      exists (s1 ++ s2). split.
      * rewrite H2, H1, concat_app, app_assoc. reflexivity.
      * apply Forall2_app; assumption.
    + exists (s1 ++ map (fun _ => []) (map draws_only (members arr))). split.
      * simpl. rewrite concat_app, concat_nils, app_nil_r. exact H1.
      * apply Forall2_app; [exact P1 | apply phased_nil].
Qed.

Lemma drawViews_by_primitive views rootNode depthData w :
  exists segs,
    gl_log (fst (drawViews views rootNode depthData w)) = gl_log w ++ concat segs /\
    phased (primitive_phases (Renderer._renderPrimitives (renderer w))) segs.
Proof.
  set (arr := Renderer._renderPrimitives (renderer w)).
  unfold drawViews. destruct rootNode as [root |].
  2: { exists (map (fun _ => []) (primitive_phases arr)).
       rewrite concat_nils, app_nil_r. split; [reflexivity | apply phased_nil]. }
  unfold bind at 1.
  pose proof (evolves_drawViews_begin no_draw (fun c H => H) views root w)
    as (Hb & _ & _ & l0 & Hl0 & HP0).
  destruct (drawViews_begin views root w) as [w1 [[] | e]]; simpl in Hb, Hl0.
  - unfold get_renderer. rewrite bind_gets. rewrite Hb. fold arr.
    unfold bind.
    destruct (draw_buckets_by_primitive views depthData arr w1) as (segs & Hsegs & Hph).
    destruct (for_each arr (draw_bucket views depthData) w1) as [w2 [[] | e]];
      simpl in Hsegs.
    + pose proof (evolves_drawViews_end no_draw (fun c H => H) w2)
        as (_ & _ & _ & l3 & Hl3 & HP3).
      exists (l0 :: segs ++ [l3]). split.
      * rewrite Hl3, Hsegs, Hl0. simpl.
        rewrite concat_app. simpl. rewrite app_nil_r, !app_assoc. reflexivity.
      * constructor; [exact HP0 |].
        apply Forall2_app; [exact Hph |]. repeat constructor. exact HP3.
    + exists (l0 :: segs ++ [[]]). split.
      * simpl. rewrite Hsegs, Hl0.
        rewrite concat_app. simpl. rewrite !app_nil_r, !app_assoc. reflexivity.
      * constructor; [exact HP0 |].
        apply Forall2_app; [exact Hph |]. repeat constructor.
  - exists (l0 :: map (fun _ => []) (map draws_only (members arr) ++ [no_draw])).
    split.
    + simpl. rewrite concat_nils, app_nil_r. exact Hl0.
    + constructor; [exact HP0 | apply phased_nil].
Qed.

(** X18: in a frame of drawViews from a world that operations lead to,
    the draw calls follow the order in which the loop over the buckets
    meets the primitives: when [p] comes before [q] in the list of the
    primitives of all buckets, taken bucket after bucket and inside a
    bucket in the order in which createRenderPrimitive pushed them, every
    draw call for [p] comes before every draw call for [q]. *)
Theorem frame_draws_in_bucket_order (w : World)
    (views : list RenderView.t) (rootNode : option (list noderef))
    (depthData : option (list DepthData.t)) (a b i j : nat) ci cj p q :
  reachable w ->
  members (Renderer._renderPrimitives (renderer w)) !! a = Some p ->
  members (Renderer._renderPrimitives (renderer w)) !! b = Some q ->
  (a < b)%nat ->
  calls_since w (fst (drawViews views rootNode depthData w)) !! i = Some ci ->
  calls_since w (fst (drawViews views rootNode depthData w)) !! j = Some cj ->
  drawn ci = Some p -> drawn cj = Some q ->
  (i < j)%nat.
Proof.
  intros Hreach Hp Hq Hab Hi Hj Hci Hcj.
  pose proof (reachable_buckets_wf w Hreach) as [Hnd _].
  destruct (drawViews_by_primitive views rootNode depthData w) as (segs & Hlog & Hph).
  unfold calls_since in Hi, Hj. rewrite Hlog, drop_app_length in Hi, Hj.
  set (arr := Renderer._renderPrimitives (renderer w)) in *.
  assert (Hphase : forall n P c r k,
             primitive_phases arr !! n = Some P -> P c -> drawn c = Some r ->
             members arr !! k = Some r -> n = S k).
  { intros n P c r k Hn HP Hc Hr. unfold primitive_phases in Hn.
    destruct n as [| n]; simpl in Hn.
    - injection Hn as <-. unfold no_draw in HP. congruence.
    - f_equal.
      destruct (decide (n < length (members arr))%nat) as [Hlt | Hge].
      + rewrite lookup_app_l in Hn by (rewrite length_map; exact Hlt).
        rewrite list_lookup_fmap in Hn.
        destruct (members arr !! n) as [r' |] eqn:Hr'; [| discriminate].
        simpl in Hn. injection Hn as <-.
        rewrite (HP r Hc) in Hr.
        exact (NoDup_lookup _ _ _ _ Hnd Hr' Hr).
      + rewrite lookup_app_r in Hn by (rewrite length_map; lia).
        rewrite length_map in Hn.
        destruct (n - length (members arr))%nat; simpl in Hn; [| discriminate].
        injection Hn as <-. unfold no_draw in HP. congruence. }
  eapply (phased_order _ _ Hph (S a) (S b)); try eassumption; try lia.
  - intros n P Hn HP. rewrite (Hphase n P ci p a Hn HP Hci Hp). lia.
  - intros n P Hn HP. rewrite (Hphase n P cj q b Hn HP Hcj Hq). lia.
Qed.
End FrameOrder.

Lemma crowd_scene_reachable : reachable crowd_scene.
Proof.
  destruct sample_scene_reachable as (r & ops & Hr & Hrun).
  exists r,
    (ops ++
     [CreateRenderPrimitive (sample_primitive 0%nat) (sample_material "slate" 4);
      AddRenderPrimitive 0%nat 2%nat;
      Settle 0%nat]).
  split; [exact Hr |].
  unfold crowd_scene. rewrite Hrun. unfold run. rewrite fold_left_app. reflexivity.
Defined.

Lemma frame_draws_in_bucket_order_witness :
  let frame :=
    calls_since crowd_scene
      (fst (drawViews [sample_view] (Some [0%nat]) None crowd_scene)) in
  members (Renderer._renderPrimitives (renderer crowd_scene)) =
    [1%nat; 2%nat; 0%nat] /\
  frame !! 26%nat = Some (drawArrays 1%nat 4 0 3) /\
  frame !! 45%nat = Some (drawArrays 2%nat 4 0 3) /\
  (26 < 45)%nat.
Proof.
  intros frame.
  assert (Hm : members (Renderer._renderPrimitives (renderer crowd_scene)) =
                 [1%nat; 2%nat; 0%nat]) by (vm_compute; reflexivity).
  assert (H26 : frame !! 26%nat = Some (drawArrays 1%nat 4 0 3))
    by (vm_compute; reflexivity).
  assert (H45 : frame !! 45%nat = Some (drawArrays 2%nat 4 0 3))
    by (vm_compute; reflexivity).
  repeat (split; [assumption |]).
  refine (frame_draws_in_bucket_order crowd_scene
            [sample_view] (Some [0%nat]) None 0%nat 1%nat 26%nat 45%nat
            _ _ 1%nat 2%nat crowd_scene_reachable _ _ _ H26 H45 eq_refl eq_refl).
  - rewrite Hm. reflexivity.
  - rewrite Hm. reflexivity.
  - lia.
Defined.

(** ** No stamp is ahead of the frame counter *)

#[local] Instance stays_stamped_preorder F : PreOrder (stays_stamped F).
Proof.
  split.
  - intros w H. exact H.
  - intros w1 w2 w3 H12 H23 H. exact (H23 (H12 H)).
Qed.

Lemma stays_from_keeps F {A} (m : M A) :
  respects (keeps stamps) m -> respects (stays_stamped F) m.
Proof.
  intros Hm w [HF Hs]. specialize (Hm w). unfold keeps in Hm.
  unfold stamped. change (frame_of (fst (m w))) with (snd (stamps (fst (m w)))).
  rewrite Hm. split; [exact HF | exact Hs].
Qed.

Lemma stamps_from_still {A} (m : M A) :
  respects (keeps still) m -> respects (keeps stamps) m.
Proof.
  intros Hm.
  exact (keeps_weaken still
           (fun s => (RenderPrimitive._activeFrameId <$> fst (fst s), snd s)) m Hm).
Qed.
#[local] Hint Resolve stamps_from_still : keeps.

Lemma stamps_alter g q w :
  (forall rp, RenderPrimitive._activeFrameId (g rp) = RenderPrimitive._activeFrameId rp) ->
  stamps (set_primitives (alter g q) w) = stamps w.
Proof.
  intros Hg. unfold stamps, frame_of. cbn [primitives set_primitives renderer].
  f_equal. generalize (primitives w). intros l. revert q.
  induction l as [| rp l IH]; intros q; [reflexivity |].
  destruct q as [| q]; cbn.
  - rewrite Hg. reflexivity.
  - f_equal. apply IH.
Qed.

Ltac stamps_side :=
  try (apply stamps_alter; intros ?; reflexivity).

Section Stamps.
Context {material_js : MaterialJs} {program_js : ProgramJs}.

Lemma stamps_completionPromises_of abs acc :
  respects (keeps stamps) (completionPromises_of abs acc).
Proof. revert acc. induction abs as [| ab abs IH]; intros acc; simpl; keep. Qed.
#[local] Hint Resolve stamps_completionPromises_of : keeps.

Lemma stamps_waitForComplete this :
  respects (keeps stamps) (RenderPrimitive_waitForComplete this).
Proof. unfold RenderPrimitive_waitForComplete. keep. all: stamps_side. Qed.
#[local] Hint Resolve stamps_waitForComplete : keeps.

Lemma stamps_setPrimitive this primitive :
  respects (keeps stamps) (RenderPrimitive_setPrimitive this primitive).
Proof. unfold RenderPrimitive_setPrimitive. keep. all: stamps_side. Qed.
#[local] Hint Resolve stamps_setPrimitive : keeps.

Lemma stamps_setRenderMaterial this material :
  respects (keeps stamps) (RenderPrimitive_setRenderMaterial this material).
Proof. unfold RenderPrimitive_setRenderMaterial. keep. all: stamps_side. Qed.
#[local] Hint Resolve stamps_setRenderMaterial : keeps.

Lemma stamps_Node_addRenderPrimitive this p :
  respects (keeps stamps) (Node_addRenderPrimitive this p).
Proof. unfold Node_addRenderPrimitive. keep. all: stamps_side. Qed.
#[local] Hint Resolve stamps_Node_addRenderPrimitive : keeps.

Lemma stamps_addExternalTexture key texture isArray :
  respects (keeps stamps) (addExternalTexture key texture isArray).
Proof. unfold addExternalTexture. keep. Qed.
#[local] Hint Resolve stamps_addExternalTexture : keeps.

Lemma stamps_upload_texture texture renderTexture textureHandle :
  respects (keeps stamps) (upload_texture texture renderTexture textureHandle).
Proof. unfold upload_texture. keep. Qed.
#[local] Hint Resolve stamps_upload_texture : keeps.

Lemma stamps__getRenderTexture texture :
  respects (keeps stamps) (_getRenderTexture texture).
Proof. unfold _getRenderTexture. keep. Qed.
#[local] Hint Resolve stamps__getRenderTexture : keeps.

Lemma stamps_createRenderBuffer target data usage :
  respects (keeps stamps) (createRenderBuffer target data usage).
Proof. unfold createRenderBuffer. keep. Qed.
#[local] Hint Resolve stamps_createRenderBuffer : keeps.

Lemma stamps_fill_buffer renderBuffer glBuffer byteLength :
  respects (keeps stamps) (fill_buffer renderBuffer glBuffer byteLength).
Proof. unfold fill_buffer. keep. Qed.
#[local] Hint Resolve stamps_fill_buffer : keeps.

Lemma stamps_settle i : respects (keeps stamps) (settle i).
Proof. unfold settle. keep. all: stamps_side. Qed.
#[local] Hint Resolve stamps_settle : keeps.

Lemma stamps_RenderMaterial_samplers i samplers :
  respects (keeps stamps) (RenderMaterial_samplers i samplers).
Proof. revert i. induction samplers as [| s samplers IH]; intros i; simpl; keep. Qed.
#[local] Hint Resolve stamps_RenderMaterial_samplers : keeps.

Lemma stamps_RenderMaterial_constructor material program :
  respects (keeps stamps) (RenderMaterial_constructor material program).
Proof. unfold RenderMaterial_constructor. keep. Qed.
#[local] Hint Resolve stamps_RenderMaterial_constructor : keeps.

Lemma stamps__getMaterialProgram material renderPrimitive :
  respects (keeps stamps) (_getMaterialProgram material renderPrimitive).
Proof. unfold _getMaterialProgram. keep. Qed.
#[local] Hint Resolve stamps__getMaterialProgram : keeps.

Lemma stamps_draw_primitive views depthData primitive locals :
  respects (keeps stamps) (draw_primitive views depthData primitive locals).
Proof. unfold draw_primitive. keep. all: stamps_side. Qed.
#[local] Hint Resolve stamps_draw_primitive : keeps.

Lemma stamps_draw_primitives views depthData renderPrimitives locals :
  respects (keeps stamps) (draw_primitives views depthData renderPrimitives locals).
Proof.
  revert locals. induction renderPrimitives as [| p rest IH]; intros locals; simpl; keep.
Qed.
#[local] Hint Resolve stamps_draw_primitives : keeps.

Lemma stamps_draw_bucket views depthData renderPrimitives :
  respects (keeps stamps) (draw_bucket views depthData renderPrimitives).
Proof. unfold draw_bucket, _drawRenderPrimitiveSet. keep. Qed.
#[local] Hint Resolve stamps_draw_bucket : keeps.

Lemma stays_quiet F w w' : stamps w' = stamps w -> stays_stamped F w w'.
Proof.
  intros Hk [HF Hs]. unfold stamped.
  change (frame_of w') with (snd (stamps w')). rewrite Hk.
  split; [exact HF | exact Hs].
Qed.

Lemma stamped_append F w rp :
  RenderPrimitive._activeFrameId rp = 0 ->
  stays_stamped F w (set_primitives (fun l => l ++ [rp]) w).
Proof.
  intros Hrp [HF [H0 Hs]]. split; [exact HF |]. split; [exact H0 |].
  unfold stamps in *. cbn [primitives set_primitives fst snd] in *.
  change (frame_of (set_primitives (fun l => l ++ [rp]) w)) with (frame_of w).
  rewrite fmap_app. apply Forall_app. split; [exact Hs |].
  cbn. rewrite Hrp. repeat constructor; lia.
Qed.

Lemma stamped_mark F q w :
  stays_stamped F w (set_primitives (alter (prim_set_activeFrameId F) q) w).
Proof.
  intros [HF [H0 Hs]]. split; [exact HF |]. split; [exact H0 |].
  unfold stamps in *. cbn [primitives set_primitives fst snd] in *.
  change (frame_of (set_primitives (alter (prim_set_activeFrameId F) q) w))
    with (frame_of w).
  rewrite Forall_fmap in *. apply Forall_alter; [exact Hs |].
  intros rp _ _. cbn. lia.
Qed.

Lemma stays_RenderPrimitive_markActive this F :
  respects (stays_stamped F) (RenderPrimitive_markActive this F).
Proof.
  unfold RenderPrimitive_markActive. keep.
  1: apply stays_from_keeps; keep_known.
  all: apply stamped_mark.
Qed.

Lemma stays_Node_markActive this F :
  respects (stays_stamped F) (Node_markActive this F).
Proof.
  unfold Node_markActive. keep.
  - apply stays_quiet. reflexivity.
  - apply stays_RenderPrimitive_markActive.
Qed.

Lemma stays_RenderPrimitive_constructor F primitive :
  respects (stays_stamped F) (RenderPrimitive_constructor primitive).
Proof.
  unfold RenderPrimitive_constructor. keep.
  apply stamped_append. reflexivity.
Qed.

Lemma stays_createRenderPrimitive F primitive material :
  respects (stays_stamped F) (createRenderPrimitive primitive material).
Proof.
  unfold createRenderPrimitive. keep.
  all: try (apply stays_from_keeps; keep_known).
  all: try apply stays_RenderPrimitive_constructor.
  all: apply stays_quiet; reflexivity.
Qed.

Lemma stays_exec F o :
  (forall views rootNode depthData, o <> DrawViews views rootNode depthData) ->
  respects (stays_stamped F) (exec o).
Proof.
  intros Ho. destruct o; simpl.
  9: exfalso; eapply Ho; reflexivity.
  all: keep.
  all: try (apply stays_from_keeps; keep_known).
  all: try apply stays_createRenderPrimitive.
  all: apply stays_quiet; reflexivity.
Qed.

Lemma stamped_drawViews views rootNode depthData w :
  stamped w -> stamped (fst (drawViews views rootNode depthData w)).
Proof.
  intros [H0 Hs]. destruct rootNode as [root |]; [| split; assumption].
  unfold drawViews, drawViews_begin.
  rewrite !bind_assoc. unfold update_renderer at 1. rewrite bind_modify.
  rewrite ?bind_assoc. unfold get_renderer at 1. rewrite bind_gets.
  match goal with
  | |- context [fst (?m ?w0)] =>
      set (F := Renderer._frameId (renderer w0));
      assert (Hstay : respects (stays_stamped F) m);
      [| assert (Hs0 : frame_of w0 = F /\ stamped w0);
         [| exact (proj2 (Hstay w0 Hs0)) ] ]
  end.
  - keep.
    all: try apply stays_Node_markActive.
    all: try (apply stays_from_keeps; keep_known).
    all: apply stays_quiet; reflexivity.
  - split; [reflexivity |]. split.
    + unfold stamps, frame_of in *. cbn in *. lia.
    + unfold stamps, frame_of in *. cbn in *.
      eapply Forall_impl; [exact Hs |]. cbn. intros s Hle. lia.
Qed.

Lemma stamped_step w o : stamped w -> stamped (step w o).
Proof.
  intros Hs. unfold step.
  assert (Hcases : (exists views rootNode depthData, o = DrawViews views rootNode depthData) \/
                   (forall views rootNode depthData, o <> DrawViews views rootNode depthData)).
  { destruct o; try (right; intros; discriminate). left. eexists _, _, _. reflexivity. }
  destruct Hcases as [(views & rootNode & depthData & ->) | Ho].
  - apply stamped_drawViews. exact Hs.
  - exact (proj2 (stays_exec (frame_of w) o Ho w (conj eq_refl Hs))).
Qed.

Lemma stamped_run ops w : stamped w -> stamped (run w ops).
Proof.
  revert w. induction ops as [| o ops IH]; intros w Hs; simpl.
  - exact Hs.
  - apply IH, stamped_step, Hs.
Qed.

Lemma reachable_stamped w : reachable w -> stamped w.
Proof.
  intros (r & ops & (ctx & gl & mv & msmv & ud & Hr) & ->).
  apply stamped_run.
  unfold Renderer_constructor in Hr.
  destruct gl as [gl |]; [| discriminate].
  destruct (GLContext.fragHighPrecision gl); [| discriminate].
  injection Hr as <-.
  split; [cbn; lia | constructor].
Qed.

(** X19: the stamps that markActive leaves never run ahead of the frame
    counter.  In every world that operations lead to from a new
    renderer, the _activeFrameId of each render primitive lies between 0,
    the value the constructor gives it, and the _frameId of the renderer,
    so that the counter of a new frame, which drawViews advances first,
    is ahead of every stamp until markActive stamps a primitive again. *)
Theorem reachable_stamps_within_frame (w : World) (p : primref)
    (rp : RenderPrimitive.t) :
  reachable w ->
  primitives w !! p = Some rp ->
  0 <= RenderPrimitive._activeFrameId rp <= Renderer._frameId (renderer w).
Proof.
  intros Hreach Hp.
  destruct (reachable_stamped w Hreach) as [_ Hs].
  unfold stamps in Hs. cbn [fst snd] in Hs.
  rewrite Forall_fmap, Forall_lookup in Hs.
  exact (Hs p rp Hp).
Qed.
End Stamps.

Lemma reachable_stamps_within_frame_witness :
  let w := run crowd_scene [DrawViews [sample_view] (Some [0%nat]) None;
                            DrawViews [sample_view] (Some [0%nat]) None] in
  exists rp, primitives w !! 1%nat = Some rp /\
    RenderPrimitive._activeFrameId rp = 2 /\
    0 <= RenderPrimitive._activeFrameId rp <= Renderer._frameId (renderer w).
Proof.
  intros w.
  assert (Hw : reachable w).
  { apply reachable_step, reachable_step. exact crowd_scene_reachable. }
  destruct (primitives w !! 1%nat) as [rp |] eqn:Hrp.
  2: { exfalso. vm_compute in Hrp. discriminate. }
  exists rp. split; [reflexivity |]. split.
  - vm_compute in Hrp. injection Hrp as <-. reflexivity.
  - exact (reachable_stamps_within_frame w 1%nat rp Hw Hrp).
Defined.

(** ** A primitive that the marking does not reach is not drawn *)

#[local] Instance passes_preorder p : PreOrder (passes p).
Proof.
  split.
  - intros w Hs. split; [exact Hs |]. exists []. rewrite app_nil_r.
    split; [reflexivity | constructor].
  - intros w1 w2 w3 H12 H23 Hs.
    destruct (H12 Hs) as (Hs2 & l1 & Hl1 & Hf1).
    destruct (H23 Hs2) as (Hs3 & l2 & Hl2 & Hf2).
    split; [exact Hs3 |]. exists (l1 ++ l2).
    rewrite Hl2, Hl1, app_assoc. split; [reflexivity |].
    apply Forall_app. split; assumption.
Qed.

Lemma behind_at p w w' : at_p p w' = at_p p w -> behind p w -> behind p w'.
Proof.
  unfold at_p. intros [= Hp Hf] (rp & Hrp & Hlt).
  exists rp. rewrite Hp, Hf. split; assumption.
Qed.

Lemma passes_from_keeps p {A} (m : M A) :
  respects (keeps (at_p p)) m ->
  respects (evolves (not_drawing p)) m ->
  respects (passes p) m.
Proof.
  intros Hk He w Hs. split.
  - exact (behind_at p w _ (Hk w) Hs).
  - destruct (He w) as (_ & _ & _ & l & Hl & Hf). exists l. split; assumption.
Qed.

Lemma passes_quiet p w w' :
  at_p p w' = at_p p w -> gl_log w' = gl_log w -> passes p w w'.
Proof.
  intros Hat Hlog Hs. split; [exact (behind_at p w w' Hat Hs) |].
  exists []. rewrite app_nil_r. split; [exact Hlog | constructor].
Qed.

Lemma apart_from_still p {A} (m : M A) :
  respects (keeps still) m -> respects (keeps (apart p)) m.
Proof.
  intros Hm.
  exact (keeps_weaken still
           (fun s => ((fst (fst s) !! p, snd s),
                      Node._renderPrimitives <$> snd (fst s))) m Hm).
Qed.

Lemma attached_alter g n w :
  (forall nd, Node._renderPrimitives (g nd) = Node._renderPrimitives nd) ->
  attached (set_nodes (alter g n) w) = attached w.
Proof.
  intros Hg. unfold attached. cbn [nodes set_nodes].
  generalize (nodes w). intros l. revert n.
  induction l as [| nd l IH]; intros n; [reflexivity |].
  destruct n as [| n]; cbn.
  - rewrite Hg. reflexivity.
  - f_equal. apply IH.
Qed.

Lemma respects_for_each_Forall (R : World -> World -> Prop) `{!PreOrder R}
    {A} (l : list A) (body : A -> M unit) :
  Forall (fun a => respects R (body a)) l -> respects R (for_each l body).
Proof.
  induction 1 as [| a l Ha _ IH]; simpl.
  - apply respects_ret. assumption.
  - apply respects_bind; [assumption | exact Ha | intros _; exact IH].
Qed.

Section Detached.
Context {material_js : MaterialJs} {program_js : ProgramJs}.
Variable p : primref.

Lemma apart_RenderPrimitive_markActive q frameId :
  q <> p -> respects (keeps (apart p)) (RenderPrimitive_markActive q frameId).
Proof.
  intros Hne. unfold RenderPrimitive_markActive. keep.
  all: try (apply apart_from_still; keep_known).
  all: unfold apart, at_p, attached;
    cbn [primitives nodes set_objects primitiveH set_primitives frame_of renderer];
    rewrite list_lookup_alter_ne by exact Hne; reflexivity.
Qed.

(** Marking a node to which the primitive is not attached leaves the
    primitive as it is. *)
Lemma Node_markActive_apart n frameId w :
  (forall ps, attached w !! n = Some ps -> p ∉ ps) ->
  apart p (fst (Node_markActive n frameId w)) = apart p w.
Proof.
  intros Hn. unfold Node_markActive.
  destruct (nodes w !! n) as [nd |] eqn:Hnd.
  2: { rewrite (bind_deref_none nodeH n) by exact Hnd. reflexivity. }
  rewrite (bind_deref nodeH n nd) by exact Hnd.
  unfold update at 1. rewrite bind_modify.
  assert (Hps : p ∉ Node._renderPrimitives nd).
  { apply Hn. unfold attached. rewrite list_lookup_fmap, Hnd. reflexivity. }
  assert (Hloop : respects (keeps (apart p))
            (for_each (Node._renderPrimitives nd)
               (fun q => RenderPrimitive_markActive q frameId))).
  { apply respects_for_each_Forall; [typeclasses eauto |].
    apply Forall_forall. intros q Hq.
    apply apart_RenderPrimitive_markActive. intros ->. exact (Hps Hq). }
  rewrite (Hloop _).
  unfold apart, at_p. f_equal.
  change (set_objects nodeH) with set_nodes.
  apply attached_alter. intros nd'. reflexivity.
Qed.

Lemma mark_nodes_apart root frameId w :
  detached p root w ->
  apart p (fst (for_each root (fun n => Node_markActive n frameId) w)) = apart p w.
Proof.
  revert w. induction root as [| n root IH]; intros w Hdet; [reflexivity |].
  simpl for_each. unfold bind.
  assert (Hn : apart p (fst (Node_markActive n frameId w)) = apart p w).
  { apply Node_markActive_apart. intros ps Hps.
    apply (Hdet n ps); [left | exact Hps]. }
  destruct (Node_markActive n frameId w) as [w1 [[] | e]];
    cbn [fst] in Hn |- *.
  - rewrite IH; [exact Hn |].
    intros n' ps Hn' Hps. apply (Hdet n' ps); [right; exact Hn' |].
    assert (Ha : attached w1 = attached w) by exact (f_equal snd Hn).
    rewrite <- Ha. exact Hps.
  - exact Hn.
Qed.

Lemma passes_draw_primitive views depthData q locals :
  q <> p -> respects (passes p) (draw_primitive views depthData q locals).
Proof.
  intros Hne. apply passes_from_keeps.
  - apply at_draw_primitive, Hne.
  - eapply respects_weaken; [| apply evolves_draw_primitive].
    intros c. apply draws_only_not_drawing, Hne.
Qed.

(** The loop over a bucket leaves out a primitive whose stamp is behind
    the frame counter. *)
Lemma passes_draw_primitives views depthData renderPrimitives locals :
  respects (passes p) (draw_primitives views depthData renderPrimitives locals).
Proof.
  revert locals. induction renderPrimitives as [| q rest IH]; intros locals.
  - apply respects_ret. typeclasses eauto.
  - destruct (decide (q = p)) as [-> | Hne].
    + intros w Hs. pose proof Hs as (rp & Hrp & Hlt).
      cbn [draw_primitives]. unfold get_renderer. rewrite bind_gets.
      rewrite (bind_deref primitiveH p rp) by exact Hrp.
      destruct (Z.eqb_spec (RenderPrimitive._activeFrameId rp)
                  (Renderer._frameId (renderer w))) as [Heq | _].
      * unfold frame_of in Hlt. lia.
      * cbn [negb]. apply IH, Hs.
    + cbn [draw_primitives]. keep.
      apply passes_draw_primitive, Hne.
Qed.

Lemma passes_draw_bucket views depthData renderPrimitives :
  respects (passes p) (draw_bucket views depthData renderPrimitives).
Proof.
  unfold draw_bucket, _drawRenderPrimitiveSet.
  destruct renderPrimitives as [[| q rest] |].
  - apply respects_ret. typeclasses eauto.
  - apply passes_draw_primitives.
  - apply respects_ret. typeclasses eauto.
Qed.

(** X20: a frame draws only what the marking reaches.  In a world that
    operations lead to from a new renderer, drawViews issues no draw call
    for a render primitive that is attached to none of the nodes that
    marking the root node reaches, whether the primitive is complete or
    not and whatever bucket it is in: the frame counter, advanced first,
    is ahead of its stamp, markActive of the other primitives leaves the
    stamp alone, and the loop over the buckets skips it. *)
Theorem detached_primitive_not_drawn (w : World) (rp : RenderPrimitive.t)
    (views : list RenderView.t) (root : list noderef)
    (depthData : option (list DepthData.t)) :
  reachable w ->
  primitives w !! p = Some rp ->
  detached p root w ->
  Forall (not_drawing p)
    (calls_since w (fst (drawViews views (Some root) depthData w))).
Proof.
  intros Hreach Hp Hdet.
  assert (Hle : RenderPrimitive._activeFrameId rp <= frame_of w).
  { destruct (reachable_stamped w Hreach) as [_ Hs].
    unfold stamps in Hs. cbn [fst snd] in Hs.
    rewrite Forall_fmap, Forall_lookup in Hs. exact (proj2 (Hs p rp Hp)). }
  unfold calls_since, drawViews, drawViews_begin.
  rewrite !bind_assoc. unfold update_renderer at 1. rewrite bind_modify.
  rewrite ?bind_assoc. unfold get_renderer at 1. rewrite bind_gets.
  rewrite ?bind_assoc.
  match goal with
  | |- context [fst (bind ?m1 ?k ?w0)] =>
      set (M1 := m1); set (K := k); set (W0 := w0)
  end.
  assert (Hb0 : behind p W0).
  { exists rp. split; [exact Hp |]. unfold W0, frame_of in *. cbn. lia. }
  assert (Hl0 : gl_log W0 = gl_log w) by reflexivity.
  assert (Hap : apart p (fst (M1 W0)) = apart p W0).
  { unfold M1. apply mark_nodes_apart. exact Hdet. }
  assert (Hev : evolves (not_drawing p) W0 (fst (M1 W0))).
  { unfold M1. apply respects_for_each; [typeclasses eauto |]. intros n.
    apply evolves_Node_markActive, no_draw_not_drawing. }
  assert (Hrest : respects (passes p) (K tt)).
  { unfold K. cbn beta. keep.
    all: try apply passes_draw_bucket.
    all: try (apply passes_from_keeps;
              [ apply at_from_still; keep_known
              | first [ apply evolves_camera_positions
                      | apply evolves_drawViews_end ];
                try apply no_draw_not_drawing ]).
    all: try (intros Hs; split; [exact (behind_at p _ _ eq_refl Hs) |];
              eexists; split; [reflexivity |];
              repeat constructor; apply no_draw_not_drawing; reflexivity). }
  unfold bind. revert Hap Hev.
  destruct (M1 W0) as [w1 [[] | e]]; cbn [fst]; intros Hap Hev;
    destruct Hev as (_ & _ & _ & l1 & Hl1 & Hf1).
  - assert (Hb1 : behind p w1).
    { apply (behind_at p W0); [| exact Hb0].
      change (fst (apart p w1) = fst (apart p W0)). rewrite Hap. reflexivity. }
    destruct (Hrest w1 Hb1) as (_ & l2 & Hl2 & Hf2).
    rewrite Hl2, Hl1, Hl0, <- app_assoc, drop_app_length.
    apply Forall_app. split; assumption.
  - rewrite Hl1, Hl0, drop_app_length. exact Hf1.
Qed.
End Detached.

Lemma two_node_scene_reachable : reachable two_node_scene.
Proof.
  destruct sample_scene_reachable as (r & ops & Hr & Hrun).
  exists r,
    (ops ++
     [CreateRenderPrimitive (sample_primitive 0%nat) (sample_material "slate" 4);
      CreateNode RenderView.mat4_identity;
      AddRenderPrimitive 1%nat 2%nat;
      Settle 0%nat]).
  split; [exact Hr |].
  unfold two_node_scene. rewrite Hrun. unfold run. rewrite fold_left_app. reflexivity.
Defined.

Lemma detached_primitive_not_drawn_witness :
  let frame :=
    calls_since two_node_scene
      (fst (drawViews [sample_view] (Some [0%nat]) None two_node_scene)) in
  attached two_node_scene = [[0%nat; 1%nat]; [2%nat]] /\
  (RenderPrimitive._complete <$> primitives two_node_scene) !! 2%nat = Some true /\
  frame !! 26%nat = Some (drawArrays 1%nat 4 0 3) /\
  Forall (not_drawing 2%nat) frame.
Proof.
  intros frame.
  assert (Hat : attached two_node_scene = [[0%nat; 1%nat]; [2%nat]])
    by (vm_compute; reflexivity).
  split; [exact Hat |].
  split; [vm_compute; reflexivity |].
  split; [vm_compute; reflexivity |].
  destruct (primitives two_node_scene !! 2%nat) as [rp |] eqn:Hrp.
  2: { exfalso. vm_compute in Hrp. discriminate. }
  apply (detached_primitive_not_drawn 2%nat two_node_scene rp
           [sample_view] [0%nat] None two_node_scene_reachable Hrp).
  intros n ps Hn Hps. rewrite Hat in Hps.
  apply list_elem_of_singleton in Hn. subst n.
  injection Hps as <-. intros Hin.
  repeat (apply elem_of_cons in Hin as [Hin | Hin]; [discriminate |]).
  inversion Hin.
Defined.

(** ** The frame counter counts the frames *)

Lemma frame_from_stamps {A} (m : M A) :
  respects (keeps stamps) m -> respects (keeps frame_of) m.
Proof. intros Hm. exact (keeps_weaken stamps snd m Hm). Qed.

#[local] Hint Resolve frame_from_stamps stamps_completionPromises_of
  stamps_waitForComplete stamps_setPrimitive stamps_setRenderMaterial
  stamps_Node_addRenderPrimitive stamps_addExternalTexture stamps_upload_texture
  stamps__getRenderTexture stamps_createRenderBuffer stamps_fill_buffer
  stamps_settle stamps_RenderMaterial_samplers stamps_RenderMaterial_constructor
  stamps__getMaterialProgram frame_RenderPrimitive_markActive
  frame_Node_markActive frame_draw_bucket : keeps.

Section FrameCount.
Context {material_js : MaterialJs} {program_js : ProgramJs}.

Lemma frame_createRenderPrimitive primitive material :
  respects (keeps frame_of) (createRenderPrimitive primitive material).
Proof. unfold createRenderPrimitive, RenderPrimitive_constructor. keep. Qed.

Lemma frame_exec o :
  (forall views rootNode depthData, o <> DrawViews views rootNode depthData) ->
  respects (keeps frame_of) (exec o).
Proof.
  intros Ho. destruct o; simpl.
  9: exfalso; eapply Ho; reflexivity.
  all: keep.
  all: apply frame_createRenderPrimitive.
Qed.

Lemma frame_drawViews views root depthData w :
  frame_of (fst (drawViews views (Some root) depthData w)) = frame_of w + 1.
Proof.
  unfold drawViews, drawViews_begin.
  rewrite !bind_assoc. unfold update_renderer at 1. rewrite bind_modify.
  match goal with
  | |- frame_of (fst (?m ?w0)) = _ =>
      assert (Hkeep : respects (keeps frame_of) m) by keep;
      rewrite (Hkeep w0)
  end.
  reflexivity.
Qed.

Lemma frame_step w o :
  frame_of (step w o) = frame_of w + (if rooted_frame o then 1 else 0).
Proof.
  assert (Hcases : (exists views rootNode depthData, o = DrawViews views rootNode depthData) \/
                   (forall views rootNode depthData, o <> DrawViews views rootNode depthData)).
  { destruct o; try (right; intros; discriminate). left. eexists _, _, _. reflexivity. }
  destruct Hcases as [(views & [root |] & depthData & ->) | Ho].
  - apply frame_drawViews.
  - change (frame_of w = frame_of w + 0). lia.
  - unfold step. rewrite (frame_exec o Ho w).
    destruct o; cbn [rooted_frame]; try lia.
    exfalso. eapply Ho. reflexivity.
Qed.

Lemma frame_run ops w : frame_of (run w ops) = frame_of w + frames_in ops.
Proof.
  revert w. induction ops as [| o ops IH]; intros w.
  - change (frame_of w = frame_of w + 0). lia.
  - change (run w (o :: ops)) with (run (step w o) ops).
    rewrite IH, frame_step. unfold frames_in.
    rewrite filter_cons.
    destruct (rooted_frame o); cbn [length];
      destruct (decide _) as [Heq | Hne]; try discriminate; try congruence;
      cbn [length]; lia.
Qed.

(** X21: the frame counter counts the frames.  After any operations on
    a new renderer, _frameId is the number of calls of drawViews that
    were given a root node, whether they drew to the end or an exception
    left them early: no other operation touches the counter, and a call
    without a root node does not either. *)
Theorem frameId_counts_frames (r : Renderer.t) (ops : list op) :
  constructed r ->
  Renderer._frameId (renderer (run (new_world r) ops)) = frames_in ops.
Proof.
  intros (ctx & gl & mv & msmv & ud & Hr).
  change (frame_of (run (new_world r) ops) = frames_in ops).
  rewrite frame_run.
  unfold Renderer_constructor in Hr.
  destruct gl as [gl |]; [| discriminate].
  destruct (GLContext.fragHighPrecision gl); [| discriminate].
  injection Hr as <-. cbn. lia.
Qed.
End FrameCount.

Lemma frameId_counts_frames_witness :
  let ops :=
    [CreateRenderBuffer GL.ARRAY_BUFFER (ArrayBuffer 36) GL.STATIC_DRAW;
     CreateRenderPrimitive (sample_primitive 0%nat) (sample_material "stone" 4);
     CreateNode RenderView.mat4_identity;
     AddRenderPrimitive 0%nat 0%nat;
     DrawViews [sample_view] (Some [0%nat]) None;
     Settle 0%nat;
     DrawViews [sample_view] None None;
     DrawViews [sample_view] (Some [0%nat]) None] in
  frames_in ops = 2 /\
  Renderer._frameId (renderer (run (new_world (sample_renderer false)) ops)) =
    frames_in ops.
Proof.
  intros ops. split; [reflexivity |].
  apply (frameId_counts_frames (sample_renderer false) ops).
  exists None, (Some sample_context), false, false, false. reflexivity.
Defined.

(** ** The texture unit of a sampler *)

Section SamplerUnits.
Context {material_js : MaterialJs} {program_js : ProgramJs}.

(** The constructor of RenderMaterial numbers the samplers by their
    place in the material and keeps their names. *)
Lemma RenderMaterial_samplers_run samplers :
  forall i w w' renderSamplers,
    RenderMaterial_samplers i samplers w = (w', Return renderSamplers) ->
    length renderSamplers = length samplers /\
    forall k s, renderSamplers !! k = Some s ->
      RenderMaterialSampler._index s = i + Z.of_nat k /\
      (MaterialSampler._uniformName <$> samplers) !! k =
        Some (RenderMaterialSampler._uniformName s).
Proof.
  induction samplers as [| ms samplers IH]; intros i w w' renderSamplers Hrun.
  - injection Hrun as _ <-. split; [reflexivity |]. intros k s Hk. discriminate.
  - cbn [RenderMaterial_samplers] in Hrun. unfold bind at 1 in Hrun.
    destruct (_getRenderTexture (MaterialSampler._texture ms) w) as [w1 [rt | e]];
      [| discriminate].
    unfold bind at 1 in Hrun.
    destruct (RenderMaterial_samplers (i + 1) samplers w1) as [w2 [rest | e]] eqn:Hrest;
      [| discriminate].
    injection Hrun as _ <-.
    destruct (IH _ _ _ _ Hrest) as [Hlen Hk].
    split; [cbn; rewrite Hlen; reflexivity |].
    intros [| k] s Hs.
    + injection Hs as <-. cbn. split; [lia | reflexivity].
    + destruct (Hk k s Hs) as [Hi Hn]. split; [lia | exact Hn].
Qed.

Lemma bind_sampler_indices_member program names :
  forall i k name,
    names !! k = Some name ->
    Program.has_uniform program name = true ->
    uniform1i name (i + Z.of_nat k) ∈ bind_sampler_indices program i names.
Proof.
  induction names as [| n names IH]; intros i k name Hk Hu; [discriminate |].
  cbn [bind_sampler_indices]. apply elem_of_app.
  destruct k as [| k].
  - injection Hk as ->. left. rewrite Hu, Z.add_0_r. left.
  - right. replace (i + Z.of_nat (S k)) with (i + 1 + Z.of_nat k) by lia.
    apply IH; assumption.
Qed.

Lemma bind_sampler_indices_place program names :
  forall i name u,
    uniform1i name u ∈ bind_sampler_indices program i names ->
    exists k, names !! k = Some name /\ u = i + Z.of_nat k /\
              Program.has_uniform program name = true.
Proof.
  induction names as [| n names IH]; intros i name u Hin.
  - inversion Hin.
  - cbn [bind_sampler_indices] in Hin. apply elem_of_app in Hin as [Hin | Hin].
    + destruct (Program.has_uniform program n) eqn:Hn; [| inversion Hin].
      apply list_elem_of_singleton in Hin. injection Hin as -> ->.
      exists 0%nat. split; [reflexivity | split; [lia | exact Hn]].
    + destruct (IH _ _ _ Hin) as (k & Hk & -> & Hn).
      exists (S k). split; [exact Hk | split; [lia | exact Hn]].
Qed.

Lemma programs__getRenderTexture texture :
  respects (keeps programs) (_getRenderTexture texture).
Proof. unfold _getRenderTexture. keep. Qed.
#[local] Hint Resolve programs__getRenderTexture : keeps.

Lemma programs_RenderMaterial_samplers i samplers :
  respects (keeps programs) (RenderMaterial_samplers i samplers).
Proof. revert i. induction samplers as [| s samplers IH]; intros i; simpl; keep. Qed.

(** A program that _getMaterialProgram makes, for a key that its cache
    does not hold, is left with one callback for its next use: the one
    that sets the sampler uniforms of the material. *)
Lemma _getMaterialProgram_new material p w w1 program :
  (forall name rp, Material.materialName material = Some name ->
     primitives w !! p = Some rp ->
     Renderer._programCache (renderer w) !!
       _getProgramKey name (Material.getProgramDefines material rp) = None) ->
  _getMaterialProgram material p w = (w1, Return program) ->
  exists pr,
    programs w1 !! program = Some pr /\
    Program._nextUseCallbacks pr =
      [MaterialSampler._uniformName <$> Material._samplers material].
Proof.
  intros Hmiss Hrun. unfold _getMaterialProgram in Hrun.
  destruct (Material.materialName material) as [name |]; [| discriminate].
  destruct (Material.vertexSource material) as [vs |]; [| discriminate].
  destruct (Material.fragmentSource material) as [fs |]; [| discriminate].
  destruct (primitives w !! p) as [rp |] eqn:Hp.
  2: { rewrite (bind_deref_none primitiveH p) in Hrun by exact Hp. discriminate. }
  rewrite (bind_deref primitiveH p rp) in Hrun by exact Hp.
  cbv zeta in Hrun. unfold get_renderer in Hrun. rewrite bind_gets in Hrun.
  rewrite (Hmiss name rp eq_refl eq_refl) in Hrun.
  cbv beta iota delta [bind gets modify ret alloc update_renderer] in Hrun.
  injection Hrun as <- <-.
  eexists. split.
  - cbn [programs set_renderer set_objects programH objects set_programs].
    apply list_lookup_middle. reflexivity.
  - reflexivity.
Qed.

(** The material that the constructor of RenderMaterial makes: it has
    not been bound, and its samplers are those of the material in their
    order, each with the index of its place. *)
Lemma RenderMaterial_constructor_run material program w w2 m :
  RenderMaterial_constructor material program w = (w2, Return m) ->
  exists rm,
    materials w2 !! m = Some rm /\
    programs w2 = programs w /\
    RenderMaterial._program rm = program /\
    RenderMaterial._firstBind rm = true /\
    length (RenderMaterial._samplers rm) = length (Material._samplers material) /\
    forall k s, RenderMaterial._samplers rm !! k = Some s ->
      RenderMaterialSampler._index s = 0 + Z.of_nat k /\
      (MaterialSampler._uniformName <$> Material._samplers material) !! k =
        Some (RenderMaterialSampler._uniformName s).
Proof.
  intros Hrun. unfold RenderMaterial_constructor in Hrun. unfold bind at 1 in Hrun.
  pose proof (programs_RenderMaterial_samplers 0 (Material._samplers material) w) as Hprog.
  destruct (RenderMaterial_samplers 0 (Material._samplers material) w)
    as [w' [renderSamplers | e]] eqn:Hs; [| discriminate].
  cbv beta iota delta [bind gets modify ret alloc] in Hrun.
  injection Hrun as <- <-.
  destruct (RenderMaterial_samplers_run _ _ _ _ _ Hs) as [Hlen Hk].
  eexists. split.
  - cbn [materials set_objects materialH objects set_materials].
    apply list_lookup_middle. reflexivity.
  - split; [exact Hprog |]. cbn [RenderMaterial._program RenderMaterial._firstBind
                                   RenderMaterial._samplers].
    repeat split; [exact Hlen | apply (Hk k s H) | apply (Hk k s H)].
Qed.

(** What bind does for one sampler: it throws before any call, or it
    activates the texture unit of the sampler's index and binds a
    texture there. *)
Lemma bind_sampler_run sampler w :
  (fst (bind_sampler sampler w) = w /\ snd (bind_sampler sampler w) <> Return tt) \/
  exists target texture,
    bind_sampler sampler w =
      (set_gl_log (fun l => l ++
         [activeTexture (GL.TEXTURE0 + RenderMaterialSampler._index sampler);
          bindTexture target texture]) w, Return tt).
Proof.
  unfold bind_sampler.
  destruct (RenderMaterialSampler._renderTexture sampler) as [r |];
    [| left; split; [reflexivity | discriminate]].
  destruct (textures w !! r) as [t |] eqn:Ht.
  - right. rewrite (bind_deref textureH r t) by exact Ht. rewrite bind_gl.
    destruct (RenderTexture._complete t); eexists _, _; unfold gl, modify;
      unfold set_gl_log; cbn; rewrite <- app_assoc; reflexivity.
  - left. rewrite (bind_deref_none textureH r) by exact Ht.
    split; [reflexivity | discriminate].
Qed.

(** The texture units that bind activates are the indices of the
    samplers it gets to; all of them when it returns. *)
Lemma bind_samplers_run samplers w :
  exists bound,
    gl_log (fst (for_each samplers bind_sampler w)) = gl_log w ++ bound /\
    (forall u, activeTexture (GL.TEXTURE0 + u) ∈ bound ->
       exists s, s ∈ samplers /\ RenderMaterialSampler._index s = u) /\
    (snd (for_each samplers bind_sampler w) = Return tt ->
       forall s, s ∈ samplers ->
         activeTexture (GL.TEXTURE0 + RenderMaterialSampler._index s) ∈ bound).
Proof.
  revert w. induction samplers as [| s samplers IH]; intros w.
  - exists []. cbn. rewrite app_nil_r. split; [reflexivity |].
    split; [intros u Hu; inversion Hu | intros _ s Hs; inversion Hs].
  - cbn [for_each]. unfold bind.
    destruct (bind_sampler_run s w) as [[Hw Hthrow] | (target & texture & Hrun)].
    + destruct (bind_sampler s w) as [w' [[] | e]]; [contradiction |].
      cbn in Hw. subst w'. exists []. cbn [fst snd]. rewrite app_nil_r.
      split; [reflexivity |].
      split; [intros u Hu; inversion Hu | discriminate].
    + rewrite Hrun.
      destruct (IH (set_gl_log (fun l => l ++
                  [activeTexture (GL.TEXTURE0 + RenderMaterialSampler._index s);
                   bindTexture target texture]) w)) as (bound & Hlog & Hin & Hall).
      exists ([activeTexture (GL.TEXTURE0 + RenderMaterialSampler._index s);
               bindTexture target texture] ++ bound).
      split; [rewrite Hlog; cbn [gl_log set_gl_log]; rewrite <- app_assoc; reflexivity |].
      split.
      * intros u Hu. apply elem_of_app in Hu as [Hu | Hu].
        -- apply elem_of_cons in Hu as [Hu | Hu].
           ++ injection Hu as Hu. exists s. split; [left | lia].
           ++ apply list_elem_of_singleton in Hu. discriminate.
        -- destruct (Hin u Hu) as (s' & Hs' & Hi). exists s'. split; [right; exact Hs' | exact Hi].
      * intros Hret s' Hs'. apply elem_of_app.
        apply elem_of_cons in Hs' as [-> | Hs'].
        -- left. left.
        -- right. apply Hall; assumption.
Qed.

(** The uniforms of a material are set without activating a texture
    unit. *)
Lemma bind_uniform_run u w :
  exists calls,
    bind_uniform u w = (set_gl_log (fun l => l ++ calls) w, Return tt) /\
    forall x, activeTexture x ∉ calls.
Proof.
  unfold bind_uniform. cbv zeta.
  repeat match goal with
         | |- context [match ?x with _ => _ end] => destruct x
         end.
  all: first
    [ exists []; split; [rewrite set_gl_log_id; reflexivity | intros x Hx; inversion Hx]
    | eexists [_]; split;
        [reflexivity | intros x Hx; apply list_elem_of_singleton in Hx; discriminate] ].
Qed.

Lemma bind_uniforms_run uniforms w :
  exists calls,
    for_each uniforms bind_uniform w = (set_gl_log (fun l => l ++ calls) w, Return tt) /\
    forall x, activeTexture x ∉ calls.
Proof.
  revert w. induction uniforms as [| u uniforms IH]; intros w.
  - exists []. split; [cbn; rewrite set_gl_log_id; reflexivity |].
    intros x Hx. inversion Hx.
  - destruct (bind_uniform_run u w) as (c1 & Hrun1 & Hno1).
    destruct (IH (set_gl_log (fun l => l ++ c1) w)) as (c2 & Hrun2 & Hno2).
    exists (c1 ++ c2). cbn [for_each]. unfold bind. rewrite Hrun1, Hrun2.
    split.
    + unfold set_gl_log. cbn. rewrite <- app_assoc. reflexivity.
    + intros x Hx. apply elem_of_app in Hx as [Hx | Hx];
        [exact (Hno1 x Hx) | exact (Hno2 x Hx)].
Qed.

(** X22: the texture unit that bind activates for a sampler is the value
    that the sampler's uniform has been set to.  _getMaterialProgram
    leaves a program that it makes with a callback for its first use,
    and the constructor of RenderMaterial numbers the samplers of the
    same material by their places.  So when the program is used for the
    first time and the material is then bound, use sets the sampler
    uniforms right after useProgram, and every texture unit that bind
    activates is TEXTURE0 plus a value that use has set the uniform of
    a sampler to, and, when no two samplers of the material share a
    name, the only value that uniform has been set to; when bind
    returns, it has activated the unit of every value that use has
    set. *)
Theorem sampler_unit_is_uniform_value (material : Material.t) (p : primref)
    (w w1 w2 : World) (program : progref) (m : matref) :
  (forall name rp, Material.materialName material = Some name ->
     primitives w !! p = Some rp ->
     Renderer._programCache (renderer w) !!
       _getProgramKey name (Material.getProgramDefines material rp) = None) ->
  _getMaterialProgram material p w = (w1, Return program) ->
  RenderMaterial_constructor material program w1 = (w2, Return m) ->
  let names := MaterialSampler._uniformName <$> Material._samplers material in
  exists pr rm,
    programs w2 !! program = Some pr /\
    materials w2 !! m = Some rm /\
    forall w3,
      programs w3 !! program = Some pr ->
      materials w3 !! m = Some rm ->
      exists w4 calls bound,
        Program_use program w3 = (w4, Return tt) /\
        gl_log w4 = gl_log w3 ++ useProgram program :: calls /\
        gl_log (fst (RenderMaterial_bind m w4)) = gl_log w4 ++ bound /\
        (forall u, activeTexture (GL.TEXTURE0 + u) ∈ bound ->
           exists name, uniform1i name u ∈ calls /\
             (NoDup names -> forall u', uniform1i name u' ∈ calls -> u' = u)) /\
        (snd (RenderMaterial_bind m w4) = Return tt ->
           forall name u, uniform1i name u ∈ calls ->
             activeTexture (GL.TEXTURE0 + u) ∈ bound).
Proof.
  intros Hmiss Hprogram Hmaterial names.
  destruct (_getMaterialProgram_new _ _ _ _ _ Hmiss Hprogram) as (pr & Hpr & Hcb).
  destruct (RenderMaterial_constructor_run _ _ _ _ _ Hmaterial)
    as (rm & Hrm & Hprogs & Hrmp & Hfirst & Hlen & Hk).
  exists pr, rm. split; [rewrite Hprogs; exact Hpr |]. split; [exact Hrm |].
  intros w3 Hpr3 Hrm3.
  set (calls := bind_sampler_indices pr 0 names).
  set (w4 := set_programs (alter prog_clear_callbacks program)
               (set_gl_log (fun l => l ++ calls)
                  (set_gl_log (fun l => l ++ [useProgram program]) w3))).
  assert (Huse : Program_use program w3 = (w4, Return tt)).
  { unfold Program_use. rewrite (bind_deref programH program pr) by exact Hpr3.
    rewrite bind_gl, Hcb. cbn [for_each]. rewrite !bind_assoc, bind_gl_all.
    rewrite bind_ret. reflexivity. }
  assert (Hpr4 : programs w4 !! program = Some (prog_clear_callbacks pr)).
  { unfold w4. cbn [programs set_programs set_gl_log].
    rewrite list_lookup_alter, decide_True by reflexivity. rewrite Hpr3. reflexivity. }
  assert (Hrm4 : materials w4 !! m = Some rm) by exact Hrm3.
  set (kept := List.filter
                 (fun s => Program.has_uniform (prog_clear_callbacks pr)
                             (RenderMaterialSampler._uniformName s))
                 (RenderMaterial._samplers rm)).
  set (uniforms := map (uniform_set_uniform true)
                     (List.filter
                        (fun u => Program.has_uniform (prog_clear_callbacks pr)
                                    (RenderMaterialUniform._uniformName u))
                        (RenderMaterial._uniforms rm))).
  set (w5 := set_materials (alter (mat_set_bound kept uniforms) m) w4).
  assert (Hbind : RenderMaterial_bind m w4 =
                    (for_each kept bind_sampler ;; for_each uniforms bind_uniform) w5).
  { unfold RenderMaterial_bind.
    rewrite (bind_deref materialH m rm) by exact Hrm4. rewrite Hfirst.
    rewrite !bind_assoc.
    rewrite (bind_deref programH (RenderMaterial._program rm) (prog_clear_callbacks pr))
      by (rewrite Hrmp; exact Hpr4).
    unfold update. rewrite bind_modify.
    fold kept. fold uniforms.
    change (set_objects materialH (alter (mat_set_bound kept uniforms) m) w4) with w5.
    rewrite (bind_deref materialH m (mat_set_bound kept uniforms rm)).
    - reflexivity.
    - unfold w5. cbn [objects materialH materials set_materials].
      rewrite list_lookup_alter, decide_True by reflexivity.
      rewrite Hrm4. reflexivity. }
  destruct (bind_samplers_run kept w5) as (bound & Hlog & Hin & Hall).
  assert (Hkept : forall s, s ∈ kept <->
            s ∈ RenderMaterial._samplers rm /\
            Program.has_uniform pr (RenderMaterialSampler._uniformName s) = true).
  { intros s. unfold kept. rewrite !list_elem_of_In, filter_In. reflexivity. }
  assert (Hrun : exists extra,
            RenderMaterial_bind m w4 =
              (fst (RenderMaterial_bind m w4), snd (RenderMaterial_bind m w4)) /\
            gl_log (fst (RenderMaterial_bind m w4)) = gl_log w4 ++ bound ++ extra /\
            (forall x, activeTexture x ∉ extra) /\
            (snd (RenderMaterial_bind m w4) = Return tt ->
             snd (for_each kept bind_sampler w5) = Return tt)).
  { rewrite Hbind. unfold bind.
    destruct (for_each kept bind_sampler w5) as [wa [[] | e]].
    - destruct (bind_uniforms_run uniforms wa) as (extra & -> & Hno).
      exists extra. split; [reflexivity |]. cbn [fst snd gl_log set_gl_log].
      split; [cbn [fst] in Hlog; rewrite Hlog, <- app_assoc; reflexivity |].
      split; [exact Hno | reflexivity].
    - exists []. split; [reflexivity |]. cbn [fst snd].
      split; [cbn [fst] in Hlog; rewrite Hlog, app_nil_r; reflexivity |].
      split; [intros x Hx; inversion Hx | discriminate]. }
  destruct Hrun as (extra & _ & Hlog5 & Hno & Hret).
  exists w4, calls, (bound ++ extra).
  split; [exact Huse |].
  split.
  { unfold w4. cbn [gl_log set_programs set_gl_log]. rewrite <- app_assoc. reflexivity. }
  split; [exact Hlog5 |].
  split.
  - intros u Hu. apply elem_of_app in Hu as [Hu | Hu]; [| destruct (Hno _ Hu)].
    destruct (Hin u Hu) as (s & Hs & Hi).
    apply Hkept in Hs as [Hs Hhas].
    apply list_elem_of_lookup in Hs as [k Hs].
    destruct (Hk k s Hs) as [Hindex Hname].
    exists (RenderMaterialSampler._uniformName s). split.
    + rewrite <- Hi, Hindex. apply bind_sampler_indices_member; assumption.
    + intros Hnd u' Hu'.
      destruct (bind_sampler_indices_place _ _ _ _ _ Hu') as (k' & Hk' & -> & _).
      rewrite (NoDup_lookup _ _ _ _ Hnd Hk' Hname). rewrite <- Hi. symmetry. exact Hindex.
  - intros Hreturn name u Hu. apply elem_of_app. left.
    destruct (bind_sampler_indices_place _ _ _ _ _ Hu) as (k & Hname & -> & Hhas).
    assert (Hs : is_Some (RenderMaterial._samplers rm !! k)).
    { apply lookup_lt_is_Some. rewrite Hlen.
      apply lookup_lt_Some in Hname. unfold names in Hname.
      rewrite length_fmap in Hname. exact Hname. }
    destruct Hs as [s Hs]. destruct (Hk k s Hs) as [Hindex Hname'].
    fold names in Hname'. rewrite Hname in Hname'. injection Hname' as ->.
    rewrite <- Hindex. apply (Hall (Hret Hreturn)).
    apply Hkept. split; [apply list_elem_of_lookup; exists k; exact Hs | exact Hhas].
Qed.
End SamplerUnits.

Lemma sampler_unit_is_uniform_value_witness :
  exists w1 w2 w4 calls bound,
    _getMaterialProgram (program_js := textured_program_js)
      layered_material 0%nat untextured_world = (w1, Return 1%nat) /\
    RenderMaterial_constructor (material_js := sample_material_js)
      layered_material 1%nat w1 = (w2, Return 1%nat) /\
    Program_use 1%nat w2 = (w4, Return tt) /\
    gl_log w4 = gl_log w2 ++ useProgram 1%nat :: calls /\
    gl_log (fst (RenderMaterial_bind 1%nat w4)) = gl_log w4 ++ bound /\
    uniform1i "baseColorTex" 1 ∈ calls /\
    activeTexture (GL.TEXTURE0 + 1) ∈ bound /\
    (forall u, activeTexture (GL.TEXTURE0 + u) ∈ bound ->
       exists name, uniform1i name u ∈ calls).
Proof.
  set (w := untextured_world).
  set (w1 := fst (_getMaterialProgram (program_js := textured_program_js)
                    layered_material 0%nat w)).
  assert (H1 : _getMaterialProgram (program_js := textured_program_js)
                 layered_material 0%nat w = (w1, Return 1%nat))
    by (vm_compute; reflexivity).
  set (w2 := fst (RenderMaterial_constructor (material_js := sample_material_js)
                    layered_material 1%nat w1)).
  assert (H2 : RenderMaterial_constructor (material_js := sample_material_js)
                 layered_material 1%nat w1 = (w2, Return 1%nat))
    by (vm_compute; reflexivity).
  destruct (sampler_unit_is_uniform_value
              (material_js := sample_material_js) (program_js := textured_program_js)
              layered_material 0%nat w w1 w2 1%nat 1%nat)
    as (pr & rm & Hpr & Hrm & Hnext).
  - intros name rp Hname Hrp. injection Hname as <-.
    vm_compute in Hrp. injection Hrp as <-. vm_compute. reflexivity.
  - exact H1.
  - exact H2.
  - destruct (Hnext w2 Hpr Hrm) as (w4 & calls & bound & Huse & Hlog & Hbound & Hunit & Hall).
    assert (Hw4 : w4 = fst (Program_use 1%nat w2)) by (rewrite Huse; reflexivity).
    assert (Hcalls : gl_log (fst (Program_use 1%nat w2)) =
                       gl_log w2 ++ useProgram 1%nat :: [uniform1i "baseColorTex" 1])
      by (vm_compute; reflexivity).
    assert (Hret : snd (RenderMaterial_bind 1%nat (fst (Program_use 1%nat w2))) = Return tt)
      by (vm_compute; reflexivity).
    rewrite <- Hw4 in Hcalls, Hret.
    rewrite Hcalls in Hlog. apply app_inv_head in Hlog. injection Hlog as Hlog.
    assert (Hin : uniform1i "baseColorTex" 1 ∈ calls) by (rewrite <- Hlog; left).
    exists w1, w2, w4, calls, bound.
    split; [exact H1 |]. split; [exact H2 |]. split; [exact Huse |].
    split; [rewrite Hcalls, Hlog; reflexivity |]. split; [exact Hbound |].
    split; [exact Hin |]. split; [exact (Hall Hret _ _ Hin) |].
    intros u Hu. destruct (Hunit u Hu) as (name & Hname & _).
    exists name. exact Hname.
Defined.

(** ** A frame that returns leaves the write masks on *)

#[local] Instance calm_preorder : PreOrder calm.
Proof.
  split.
  - intros w. split; [reflexivity |]. exists []. rewrite app_nil_r.
    split; [reflexivity | constructor].
  - intros w1 w2 w3 [Hf12 (l1 & Hl1 & HP1)] [Hf23 (l2 & Hl2 & HP2)].
    split; [rewrite Hf23; exact Hf12 |].
    exists (l1 ++ l2). rewrite Hl2, Hl1, app_assoc. split; [reflexivity |].
    apply Forall_app. split; assumption.
Qed.

#[local] Instance flagged_preorder s0 : PreOrder (flagged s0).
Proof.
  split.
  - intros w H. exact H.
  - intros w1 w2 w3 H12 H23 H. exact (H23 (H12 H)).
Qed.

Lemma masks_step_ext c s1 s2 :
  masks_of s1 = masks_of s2 -> masks_of (gl_step s1 c) = masks_of (gl_step s2 c).
Proof.
  unfold masks_of. intros [= Hd Hc].
  destruct c; cbn; rewrite ?Hd, ?Hc; reflexivity.
Qed.

Lemma masks_run_ext l s1 s2 :
  masks_of s1 = masks_of s2 -> masks_of (gl_run l s1) = masks_of (gl_run l s2).
Proof.
  revert s1 s2. induction l as [| c l IH]; intros s1 s2 H; [exact H |].
  cbn. apply IH, masks_step_ext, H.
Qed.

Lemma masks_calm l s :
  Forall (fun c => mask_call c = false) l -> masks_of (gl_run l s) = masks_of s.
Proof.
  intros Hl. revert s. induction Hl as [| c l Hc _ IH]; intros s; [reflexivity |].
  cbn. change (fold_left gl_step l (gl_step s c)) with (gl_run l (gl_step s c)).
  rewrite IH. destruct c; try discriminate; reflexivity.
Qed.

Lemma masks_calm_prefix a b s :
  Forall (fun c => mask_call c = false) a ->
  masks_of (gl_run (a ++ b) s) = masks_of (gl_run b s).
Proof.
  intros Ha. rewrite gl_run_app. apply masks_run_ext, masks_calm, Ha.
Qed.

Lemma flagged_of_calm s0 w w' : calm w w' -> flagged s0 w w'.
Proof.
  intros [Hf (l & Hl & HP)] H. unfold masks_flagged, context_of in *.
  rewrite Hf, Hl, gl_run_app, (masks_calm l _ HP). exact H.
Qed.

Lemma calm_gl c w :
  mask_call c = false -> calm w (set_gl_log (fun l => l ++ [c]) w).
Proof.
  intros Hc. split; [reflexivity |]. exists [c].
  split; [reflexivity | repeat constructor; exact Hc].
Qed.

Lemma calm_quiet w w' :
  reset_flags w' = reset_flags w -> gl_log w' = gl_log w -> calm w w'.
Proof.
  intros Hf Hl. split; [exact Hf |]. exists []. rewrite app_nil_r.
  split; [exact Hl | constructor].
Qed.

Lemma calm_gl_all cs :
  Forall (fun c => mask_call c = false) cs -> respects calm (gl_all cs).
Proof.
  intros Hcs w. rewrite gl_all_run. split; [reflexivity |].
  exists cs. split; [reflexivity | exact Hcs].
Qed.

Lemma respects_flagged_of_calm s0 {A} (m : M A) :
  respects calm m -> respects (flagged s0) m.
Proof. intros Hm w. apply flagged_of_calm, Hm. Qed.

Lemma calm_setSamplerParameters texture :
  Forall (fun c => mask_call c = false) (_setSamplerParameters texture).
Proof.
  unfold _setSamplerParameters.
  destruct (powerOfTwo texture && Texture.mipmap texture); repeat constructor.
Qed.

Lemma calm_bind_sampler_indices program i names :
  Forall (fun c => mask_call c = false) (bind_sampler_indices program i names).
Proof.
  revert i. induction names as [| name names IH]; intros i; simpl.
  - constructor.
  - apply Forall_app. split; [| apply IH].
    destruct (Program.has_uniform program name); repeat constructor.
Qed.

Lemma calm_attrib_arrays mask names :
  Forall (fun c => mask_call c = false) (concat (map (attrib_array mask) names)).
Proof.
  induction names as [| name names IH]; simpl; [constructor |].
  apply Forall_app. split; [| exact IH].
  unfold attrib_array.
  destruct (ATTRIB name); [| constructor].
  destruct (truthy _); repeat constructor.
Qed.

Lemma calm_attrib_pointers attributes :
  Forall (fun c => mask_call c = false) (map attrib_pointer attributes).
Proof. induction attributes; simpl; repeat constructor. assumption. Qed.

Lemma calm_setCap glEnum cap prevState state :
  Forall (fun c => mask_call c = false) (setCap glEnum cap prevState state).
Proof.
  unfold setCap. destruct (_ =? 0); [constructor |].
  destruct (0 <? _); repeat constructor.
Qed.

Create HintDb calm.

#[local] Hint Resolve calm_setSamplerParameters calm_bind_sampler_indices
  calm_attrib_arrays calm_attrib_pointers respects_flagged_of_calm : calm.

Ltac calm_side :=
  first
    [ apply calm_gl; reflexivity
    | apply calm_quiet; reflexivity
    | apply flagged_of_calm; first [ apply calm_gl; reflexivity
                                   | apply calm_quiet; reflexivity ] ].

Ltac calm_known := solve [eauto with calm nocore].

Ltac calm_step :=
  lazymatch goal with
  | |- PreOrder _ => typeclasses eauto
  | |- respects _ (ret _) => apply respects_ret
  | |- respects _ (throw _) => apply respects_throw
  | |- respects _ (gets _) => apply respects_gets
  | |- respects _ (deref _ _) => apply respects_deref
  | |- respects _ (item _ _) => apply respects_item
  | |- respects _ (bind _ _) => apply respects_bind; [ | | intros ? ]
  | |- respects _ (when _ _) => apply respects_when
  | |- respects _ (for_each _ _) => apply respects_for_each; [ | intros ? ]
  | |- respects _ (modify _) => apply respects_modify; intros ?; try calm_side
  | |- respects _ (gl _) => unfold gl
  | |- respects calm (gl_all _) => apply calm_gl_all; calm_known
  | |- respects _ (gl_all _) =>
      apply respects_flagged_of_calm, calm_gl_all; calm_known
  | |- respects _ fresh_handle => unfold fresh_handle
  | |- respects _ (update _ _ _) => unfold update
  | |- respects _ (alloc _ _) => unfold alloc
  | |- respects _ get_renderer => unfold get_renderer
  | |- respects _ (update_renderer _) => unfold update_renderer
  | |- respects _ (add_continuation _) => unfold add_continuation
  | |- respects _ (remove_continuation _) => unfold remove_continuation
  | |- respects _ (match ?x with _ => _ end) => destruct x
  | |- respects _ (let _ := _ in _) => cbv zeta
  | |- respects _ _ => calm_known
  end.

Ltac calm := repeat calm_step.

Section Calm.
Context {material_js : MaterialJs} {program_js : ProgramJs}.

Lemma calm_completionPromises_of abs acc :
  respects calm (completionPromises_of abs acc).
Proof. revert acc. induction abs as [| ab abs IH]; intros acc; simpl; calm. Qed.
#[local] Hint Resolve calm_completionPromises_of : calm.

Lemma calm_waitForComplete this :
  respects calm (RenderPrimitive_waitForComplete this).
Proof. unfold RenderPrimitive_waitForComplete. calm. Qed.
#[local] Hint Resolve calm_waitForComplete : calm.

Lemma calm_setPrimitive this primitive :
  respects calm (RenderPrimitive_setPrimitive this primitive).
Proof. unfold RenderPrimitive_setPrimitive. calm. Qed.
#[local] Hint Resolve calm_setPrimitive : calm.

Lemma calm_setRenderMaterial this material :
  respects calm (RenderPrimitive_setRenderMaterial this material).
Proof. unfold RenderPrimitive_setRenderMaterial. calm. Qed.
#[local] Hint Resolve calm_setRenderMaterial : calm.

Lemma calm_RenderPrimitive_constructor primitive :
  respects calm (RenderPrimitive_constructor primitive).
Proof. unfold RenderPrimitive_constructor. calm. Qed.
#[local] Hint Resolve calm_RenderPrimitive_constructor : calm.

Lemma calm_RenderTexture_markActive this frameId :
  respects calm (RenderTexture_markActive this frameId).
Proof. unfold RenderTexture_markActive, activeCallback. calm. Qed.
#[local] Hint Resolve calm_RenderTexture_markActive : calm.

Lemma calm_markActive_samplers this samplers frameId :
  respects calm (markActive_samplers this samplers frameId).
Proof. induction samplers as [| sampler samplers IH]; simpl; calm. Qed.
#[local] Hint Resolve calm_markActive_samplers : calm.

Lemma calm_RenderMaterial_markActive this frameId :
  respects calm (RenderMaterial_markActive this frameId).
Proof. unfold RenderMaterial_markActive. calm. Qed.
#[local] Hint Resolve calm_RenderMaterial_markActive : calm.

Lemma calm_RenderPrimitive_markActive this frameId :
  respects calm (RenderPrimitive_markActive this frameId).
Proof. unfold RenderPrimitive_markActive. calm. Qed.
#[local] Hint Resolve calm_RenderPrimitive_markActive : calm.

Lemma calm_Node_markActive this frameId :
  respects calm (Node_markActive this frameId).
Proof. unfold Node_markActive. calm. Qed.
#[local] Hint Resolve calm_Node_markActive : calm.

Lemma calm_Node_addRenderPrimitive this p :
  respects calm (Node_addRenderPrimitive this p).
Proof. unfold Node_addRenderPrimitive. calm. Qed.
#[local] Hint Resolve calm_Node_addRenderPrimitive : calm.

Lemma calm_addExternalTexture key texture isArray :
  respects calm (addExternalTexture key texture isArray).
Proof. unfold addExternalTexture. calm. Qed.
#[local] Hint Resolve calm_addExternalTexture : calm.

Lemma calm__getRenderTexture texture :
  respects calm (_getRenderTexture texture).
Proof. unfold _getRenderTexture. calm. Qed.
#[local] Hint Resolve calm__getRenderTexture : calm.

Lemma calm_upload_texture texture renderTexture textureHandle :
  respects calm (upload_texture texture renderTexture textureHandle).
Proof. unfold upload_texture. calm. Qed.
#[local] Hint Resolve calm_upload_texture : calm.

Lemma calm_createRenderBuffer target data usage :
  respects calm (createRenderBuffer target data usage).
Proof. unfold createRenderBuffer. calm. Qed.
#[local] Hint Resolve calm_createRenderBuffer : calm.

Lemma calm_fill_buffer renderBuffer glBuffer byteLength :
  respects calm (fill_buffer renderBuffer glBuffer byteLength).
Proof. unfold fill_buffer. calm. Qed.
#[local] Hint Resolve calm_fill_buffer : calm.

Lemma calm_settle i : respects calm (settle i).
Proof. unfold settle. calm. Qed.
#[local] Hint Resolve calm_settle : calm.

Lemma calm_RenderMaterial_samplers i samplers :
  respects calm (RenderMaterial_samplers i samplers).
Proof. revert i. induction samplers as [| s samplers IH]; intros i; simpl; calm. Qed.
#[local] Hint Resolve calm_RenderMaterial_samplers : calm.

Lemma calm_RenderMaterial_constructor material program :
  respects calm (RenderMaterial_constructor material program).
Proof. unfold RenderMaterial_constructor. calm. Qed.
#[local] Hint Resolve calm_RenderMaterial_constructor : calm.

Lemma calm__getMaterialProgram material renderPrimitive :
  respects calm (_getMaterialProgram material renderPrimitive).
Proof. unfold _getMaterialProgram. calm. Qed.
#[local] Hint Resolve calm__getMaterialProgram : calm.

Lemma calm_createRenderPrimitive primitive material :
  respects calm (createRenderPrimitive primitive material).
Proof. unfold createRenderPrimitive. calm. Qed.
#[local] Hint Resolve calm_createRenderPrimitive : calm.

Lemma calm_RenderMaterial_bind this : respects calm (RenderMaterial_bind this).
Proof. unfold RenderMaterial_bind, bind_sampler, bind_uniform. calm. Qed.
#[local] Hint Resolve calm_RenderMaterial_bind : calm.

Lemma calm_Program_use this : respects calm (Program_use this).
Proof. unfold Program_use. calm. Qed.
#[local] Hint Resolve calm_Program_use : calm.

Lemma calm__bindPrimitive primitive attribMask :
  respects calm (_bindPrimitive primitive attribMask).
Proof. unfold _bindPrimitive. calm. Qed.
#[local] Hint Resolve calm__bindPrimitive : calm.

Lemma calm_camera_positions i views : respects calm (camera_positions i views).
Proof.
  revert i. induction views as [| view views IH]; intros i; simpl;
    unfold camera_position; calm.
Qed.
#[local] Hint Resolve calm_camera_positions : calm.

Lemma calm_drawViews_begin views root : respects calm (drawViews_begin views root).
Proof. unfold drawViews_begin. calm. Qed.
#[local] Hint Resolve calm_drawViews_begin : calm.

Lemma calm_upload_view views depthData material i view :
  respects calm (upload_view views depthData material i view).
Proof. unfold upload_view. calm. Qed.
#[local] Hint Resolve calm_upload_view : calm.

Lemma calm_draw_instances primitive frameId :
  respects calm (draw_instances primitive frameId).
Proof. unfold draw_instances. calm. Qed.
#[local] Hint Resolve calm_draw_instances : calm.

Lemma calm_draw_views views depthData primitive material frameId i rest :
  respects calm (draw_views views depthData primitive material frameId i rest).
Proof. revert i. induction rest as [| view rest IH]; intros i; simpl; calm. Qed.
#[local] Hint Resolve calm_draw_views : calm.
End Calm.

#[local] Hint Resolve calm_completionPromises_of calm_waitForComplete
  calm_setPrimitive calm_setRenderMaterial calm_RenderPrimitive_constructor
  calm_RenderTexture_markActive calm_markActive_samplers
  calm_RenderMaterial_markActive calm_RenderPrimitive_markActive
  calm_Node_markActive calm_Node_addRenderPrimitive calm_addExternalTexture
  calm__getRenderTexture calm_upload_texture calm_createRenderBuffer
  calm_fill_buffer calm_settle calm_RenderMaterial_samplers
  calm_RenderMaterial_constructor calm__getMaterialProgram
  calm_createRenderPrimitive calm_RenderMaterial_bind calm_Program_use
  calm__bindPrimitive calm_camera_positions calm_drawViews_begin
  calm_upload_view calm_draw_instances calm_draw_views : calm.

Section WriteMasks.
Context {material_js : MaterialJs} {program_js : ProgramJs}.
Variable s0 : gl_caps.

(** The calls and the flags of _bindMaterialState go together: a mask
    that it turns off has its flag set, and a mask that it turns on has
    its flag cleared. *)
Lemma bindMaterialState_covers state prevState s r :
  flags_cover (masks_of s)
    (Renderer._depthMaskNeedsReset r, Renderer._colorMaskNeedsReset r) ->
  flags_cover (masks_of (gl_run (bindMaterialState_calls state prevState) s))
    (Renderer._depthMaskNeedsReset (bindMaterialState_flags state prevState r),
     Renderer._colorMaskNeedsReset (bindMaterialState_flags state prevState r)).
Proof.
  intros Hcov. unfold bindMaterialState_calls, bindMaterialState_flags.
  destruct (state =? prevState); [exact Hcov |]. cbn [orb].
  assert (Htail : Forall (fun c => mask_call c = false)
            ((if truthy (_blendDiff state prevState)
              then [blendFunc (material_blendFuncSrc state) (material_blendFuncDst state)]
              else []) ++
             (if truthy (_depthFuncDiff state prevState)
              then [depthFunc (material_depthFunc state)]
              else []))).
  { apply Forall_app. split; destruct (truthy _); repeat constructor. }
  destruct (truthy (_capsDiff state prevState)); cbn [negb].
  2: { cbn [app]. rewrite (masks_calm _ _ Htail). exact Hcov. }
  rewrite <- !app_assoc.
  do 4 (rewrite masks_calm_prefix by apply calm_setCap).
  assert (Htail' : Forall (fun c => mask_call c = false)
            ((if truthy (stencilMaskChange state prevState)
              then [stencilMask
                      (if 1 <? stencilMaskChange state prevState then 255 else 0)]
              else []) ++
             (if truthy (_blendDiff state prevState)
              then [blendFunc (material_blendFuncSrc state) (material_blendFuncDst state)]
              else []) ++
             (if truthy (_depthFuncDiff state prevState)
              then [depthFunc (material_depthFunc state)]
              else []))).
  { apply Forall_app. split; [| exact Htail].
    destruct (truthy (stencilMaskChange state prevState)); repeat constructor. }
  destruct Hcov as [Hd Hc]. unfold masks_of in Hd, Hc. cbn [fst snd] in Hd, Hc.
  destruct (truthy (colorMaskChange state prevState)),
           (truthy (depthMaskChange state prevState)); cbn [app gl_run fold_left];
    match goal with
    | |- context [fold_left gl_step ?l ?s'] =>
        change (fold_left gl_step l s') with (gl_run l s');
        rewrite (masks_calm l s' Htail')
    end;
    unfold flags_cover, masks_of; cbn.
  - split; [destruct (1 <? depthMaskChange state prevState); cbn; tauto |].
    destruct (1 <? colorMaskChange state prevState); cbn; tauto.
  - split; [exact Hd |].
    destruct (1 <? colorMaskChange state prevState); cbn; tauto.
  - split; [destruct (1 <? depthMaskChange state prevState); cbn; tauto |].
    exact Hc.
  - split; assumption.
Qed.

Lemma flagged__bindMaterialState material prevMaterial :
  respects (flagged s0) (_bindMaterialState material prevMaterial).
Proof.
  intros w Hf. unfold _bindMaterialState.
  destruct (objects materialH w !! material) as [m |] eqn:Hm.
  2: { rewrite (bind_deref_none materialH material) by exact Hm. exact Hf. }
  rewrite (bind_deref materialH material m) by exact Hm. cbv zeta.
  assert (Hrest : forall prev,
    masks_flagged s0
      (fst ((gl_all (bindMaterialState_calls (RenderMaterial._state m)
                       (prevState_of (RenderMaterial._state m) prev)) ;;
             update_renderer
               (bindMaterialState_flags (RenderMaterial._state m)
                  (prevState_of (RenderMaterial._state m) prev))) w))).
  { intros prev. rewrite bind_gl_all. unfold update_renderer, modify. cbn [fst].
    unfold masks_flagged, context_of, reset_flags in *.
    cbn [gl_log set_renderer set_gl_log renderer].
    rewrite gl_run_app. apply bindMaterialState_covers. exact Hf. }
  destruct prevMaterial as [pm |].
  - rewrite bind_assoc.
    destruct (objects materialH w !! pm) as [pm' |] eqn:Hpm.
    + rewrite (bind_deref materialH pm pm') by exact Hpm. rewrite bind_ret.
      apply Hrest.
    + rewrite (bind_deref_none materialH pm) by exact Hpm. exact Hf.
  - rewrite bind_ret. apply Hrest.
Qed.
#[local] Hint Resolve flagged__bindMaterialState : calm.

Lemma flagged_draw_primitive views depthData primitive locals :
  respects (flagged s0) (draw_primitive views depthData primitive locals).
Proof. unfold draw_primitive. calm. Qed.
#[local] Hint Resolve flagged_draw_primitive : calm.

Lemma flagged_draw_primitives views depthData renderPrimitives locals :
  respects (flagged s0) (draw_primitives views depthData renderPrimitives locals).
Proof.
  revert locals. induction renderPrimitives as [| p rest IH]; intros locals; simpl; calm.
Qed.
#[local] Hint Resolve flagged_draw_primitives : calm.

Lemma flagged_draw_bucket views depthData renderPrimitives :
  respects (flagged s0) (draw_bucket views depthData renderPrimitives).
Proof. unfold draw_bucket, _drawRenderPrimitiveSet. calm. Qed.
#[local] Hint Resolve flagged_draw_bucket : calm.

(** The end of drawViews turns on every mask whose flag is set. *)
Lemma drawViews_end_writes w :
  masks_flagged s0 w ->
  snd (drawViews_end w) = Return tt /\
  writes_on (context_of s0 (fst (drawViews_end w))) /\
  masks_flagged s0 (fst (drawViews_end w)).
Proof.
  intros [Hd Hc]. unfold reset_flags, masks_of, context_of in Hd, Hc.
  cbn [fst snd] in Hd, Hc.
  unfold drawViews_end, get_renderer. rewrite bind_gets.
  unfold writes_on, masks_flagged, flags_cover, masks_of, reset_flags, context_of.
  destruct (Renderer._vaoExt (renderer w)),
           (Renderer._depthMaskNeedsReset (renderer w)) eqn:Hfd,
           (Renderer._colorMaskNeedsReset (renderer w)) eqn:Hfc;
    unfold when, gl, bind, modify, ret;
    cbn [fst snd gl_log set_gl_log renderer];
    rewrite ?gl_run_app; cbn [gl_run fold_left gl_step depth_writemask color_writemask];
    rewrite ?Hfd, ?Hfc;
    try (destruct Hd as [Hd | Hd]; [| discriminate]);
    try (destruct Hc as [Hc | Hc]; [| discriminate]);
    rewrite ?Hd, ?Hc; repeat split; tauto.
Qed.
End WriteMasks.

#[local] Hint Resolve flagged__bindMaterialState flagged_draw_bucket : calm.

Section FrameEnd.
Context {material_js : MaterialJs} {program_js : ProgramJs}.
Variable s0 : gl_caps.

Lemma flagged_drawViews_end : respects (flagged s0) drawViews_end.
Proof. intros w Hf. exact (proj2 (proj2 (drawViews_end_writes s0 w Hf))). Qed.
#[local] Hint Resolve flagged_drawViews_end : calm.

Lemma flagged_drawViews views rootNode depthData :
  respects (flagged s0) (drawViews views rootNode depthData).
Proof. unfold drawViews. calm. Qed.

Lemma flagged_exec o : respects (flagged s0) (exec o).
Proof.
  destruct o; simpl.
  9: apply flagged_drawViews.
  all: calm.
Qed.

Lemma masks_flagged_run ops w :
  masks_flagged s0 w -> masks_flagged s0 (run w ops).
Proof.
  revert w. induction ops as [| o ops IH]; intros w Hf; simpl.
  - exact Hf.
  - apply IH. exact (flagged_exec o w Hf).
Qed.

Lemma reachable_masks_flagged w :
  writes_on s0 -> reachable w -> masks_flagged s0 w.
Proof.
  intros Hon (r & ops & _ & ->).
  apply masks_flagged_run.
  unfold masks_flagged, context_of. cbn [gl_log new_world gl_run fold_left].
  rewrite Hon. split; left; reflexivity.
Qed.

(** X23: a frame that returns leaves depth and colour writes enabled.
    Let the context have both write masks on when the renderer is made,
    and let nothing but the renderer call it.  Then after any operations,
    a call of drawViews that returns leaves the context with the depth
    mask and the colour mask on, whatever masks the materials of the
    frame had turned off: _bindMaterialState sets the flag of each mask
    it turns off, nothing else sets a mask, and the end of drawViews turns
    on every mask whose flag is set.  A frame that an exception leaves
    early may leave a mask off, but then its flag stays set for the next
    frame. *)
Theorem returned_frame_leaves_writes_on (w w' : World)
    (views : list RenderView.t) (root : list noderef)
    (depthData : option (list DepthData.t)) :
  writes_on s0 ->
  reachable w ->
  drawViews views (Some root) depthData w = (w', Return tt) ->
  writes_on (context_of s0 w').
Proof.
  intros Hon Hreach Hrun.
  pose proof (reachable_masks_flagged w Hon Hreach) as Hf.
  assert (Hon' : writes_on (context_of s0 w') /\ masks_flagged s0 w').
  { unfold drawViews in Hrun. unfold bind at 1 in Hrun.
    pose proof (respects_flagged_of_calm s0 _ (calm_drawViews_begin views root) w Hf)
      as Hf1.
    destruct (drawViews_begin views root w) as [w1 [[] | e]]; [| discriminate].
    cbn [fst] in Hf1.
    unfold get_renderer in Hrun. rewrite bind_gets in Hrun.
    unfold bind at 1 in Hrun.
    assert (Hloop : respects (flagged s0)
              (for_each (Renderer._renderPrimitives (renderer w1))
                 (draw_bucket views depthData))) by calm.
    pose proof (Hloop w1 Hf1) as Hf2.
    destruct (for_each (Renderer._renderPrimitives (renderer w1))
                (draw_bucket views depthData) w1) as [w2 [[] | e]]; [| discriminate].
    cbn [fst] in Hf2.
    destruct (drawViews_end_writes s0 w2 Hf2) as (_ & Hw & Hf3).
    rewrite Hrun in Hw, Hf3. split; assumption. }
  exact (proj1 Hon').
Qed.
End FrameEnd.

Lemma returned_frame_leaves_writes_on_witness :
  let r := drawViews [sample_view] (Some [0%nat]) None (sample_scene false) in
  let frame := calls_since (sample_scene false) (fst r) in
  frame !! 10%nat = Some (colorMask false false false false) /\
  frame !! 11%nat = Some (depthMask false) /\
  writes_on (context_of fresh_context (fst r)).
Proof.
  intros r frame.
  split; [vm_compute; reflexivity |].
  split; [vm_compute; reflexivity |].
  unfold r. clear frame r.
  destruct (drawViews [sample_view] (Some [0%nat]) None (sample_scene false))
    as [w' o] eqn:Hrun.
  assert (Ho : o = Return tt).
  { pose proof (f_equal snd Hrun) as Hc. cbn [snd] in Hc. rewrite <- Hc.
    vm_compute. reflexivity. }
  subst o. cbn [fst].
  exact (returned_frame_leaves_writes_on fresh_context (sample_scene false) w'
           [sample_view] [0%nat] None eq_refl sample_scene_reachable Hrun).
Defined.

(** ** A frame of two views under multiview *)

#[local] Instance prepares_preorder : PreOrder prepares.
Proof.
  split.
  - intros w. split; [reflexivity |]. exists []. rewrite app_nil_r.
    split; [reflexivity | constructor].
  - intros w1 w2 w3 [Hs12 (l1 & Hl1 & HP1)] [Hs23 (l2 & Hl2 & HP2)].
    split; [rewrite Hs23; exact Hs12 |].
    exists (l1 ++ l2). rewrite Hl2, Hl1, app_assoc. split; [reflexivity |].
    apply Forall_app. split; assumption.
Qed.

Lemma prepares_gl c w :
  plain c = true -> prepares w (set_gl_log (fun l => l ++ [c]) w).
Proof.
  intros Hc. split; [reflexivity |]. exists [c].
  split; [reflexivity | repeat constructor; exact Hc].
Qed.

Lemma prepares_quiet w w' :
  scene w' = scene w -> gl_log w' = gl_log w -> prepares w w'.
Proof.
  intros Hs Hl. split; [exact Hs |]. exists []. rewrite app_nil_r.
  split; [exact Hl | constructor].
Qed.

Lemma prepares_gl_all cs :
  Forall (fun c => plain c = true) cs -> respects prepares (gl_all cs).
Proof.
  intros Hcs w. rewrite gl_all_run. split; [reflexivity |].
  exists cs. split; [reflexivity | exact Hcs].
Qed.

Lemma plain_bind_sampler_indices program i names :
  Forall (fun c => plain c = true) (bind_sampler_indices program i names).
Proof.
  revert i. induction names as [| name names IH]; intros i; simpl.
  - constructor.
  - apply Forall_app. split; [| apply IH].
    destruct (Program.has_uniform program name); repeat constructor.
Qed.

Lemma plain_attrib_arrays mask names :
  Forall (fun c => plain c = true) (concat (map (attrib_array mask) names)).
Proof.
  induction names as [| name names IH]; simpl; [constructor |].
  apply Forall_app. split; [| exact IH].
  unfold attrib_array.
  destruct (ATTRIB name); [| constructor].
  destruct (truthy _); repeat constructor.
Qed.

Lemma plain_attrib_pointers attributes :
  Forall (fun c => plain c = true) (map attrib_pointer attributes).
Proof. induction attributes; simpl; repeat constructor. assumption. Qed.

Lemma plain_setCap glEnum cap prevState state :
  Forall (fun c => plain c = true) (setCap glEnum cap prevState state).
Proof.
  unfold setCap. destruct (_ =? 0); [constructor |].
  destruct (0 <? _); repeat constructor.
Qed.

Lemma scene_set_vao v p w :
  scene (set_primitives (alter (prim_set_vao v) p) w) = scene w.
Proof.
  unfold scene, frame_of, multiview_of. cbn [primitives set_primitives nodes renderer].
  do 3 f_equal. apply list_eq. intros i.
  change (map (prim_set_vao None)) with (fmap (M := list) (prim_set_vao None)).
  rewrite !list_lookup_fmap, list_lookup_alter.
  destruct (decide (p = i)) as [-> |]; [| reflexivity].
  destruct (primitives w !! i); reflexivity.
Qed.

Create HintDb prep.

#[local] Hint Resolve plain_bind_sampler_indices plain_attrib_arrays
  plain_attrib_pointers plain_setCap : prep.

Ltac prep_side :=
  first
    [ apply prepares_gl; reflexivity
    | apply prepares_quiet; reflexivity
    | apply prepares_quiet; [apply scene_set_vao | reflexivity] ].

Ltac prep_known := solve [eauto with prep nocore].

Ltac prep_step :=
  lazymatch goal with
  | |- PreOrder _ => typeclasses eauto
  | |- respects _ (ret _) => apply respects_ret
  | |- respects _ (throw _) => apply respects_throw
  | |- respects _ (gets _) => apply respects_gets
  | |- respects _ (deref _ _) => apply respects_deref
  | |- respects _ (item _ _) => apply respects_item
  | |- respects _ (bind _ _) => apply respects_bind; [ | | intros ? ]
  | |- respects _ (when _ _) => apply respects_when
  | |- respects _ (for_each _ _) => apply respects_for_each; [ | intros ? ]
  | |- respects _ (modify _) => apply respects_modify; intros ?; try prep_side
  | |- respects _ (gl _) => unfold gl
  | |- respects _ (gl_all _) => apply prepares_gl_all; prep_known
  | |- respects _ fresh_handle => unfold fresh_handle
  | |- respects _ (update _ _ _) => unfold update
  | |- respects _ get_renderer => unfold get_renderer
  | |- respects _ (update_renderer _) => unfold update_renderer
  | |- respects _ (match ?x with _ => _ end) => destruct x
  | |- respects _ (let _ := _ in _) => cbv zeta
  | |- respects _ _ => prep_known
  end.

Ltac prep := repeat prep_step.

Section Prepares.
Context {material_js : MaterialJs} {program_js : ProgramJs}.

Lemma plain_bindMaterialState_calls state prevState :
  Forall (fun c => plain c = true) (bindMaterialState_calls state prevState).
Proof.
  unfold bindMaterialState_calls.
  destruct (state =? prevState); [constructor |].
  repeat first
    [ apply Forall_nil_2
    | apply plain_setCap
    | apply Forall_app; split
    | match goal with
      | |- Forall _ (if ?b then _ else _) => destruct b
      | |- Forall _ (let _ := _ in _) => cbv zeta
      end
    | apply Forall_cons; split; [reflexivity |] ].
Qed.
#[local] Hint Resolve plain_bindMaterialState_calls : prep.

Lemma multiview_bindMaterialState_flags state prevState r :
  Renderer._multiview (bindMaterialState_flags state prevState r) = Renderer._multiview r.
Proof.
  unfold bindMaterialState_flags.
  destruct ((state =? prevState) || negb (truthy (_capsDiff state prevState)));
    [reflexivity |].
  destruct (truthy (colorMaskChange state prevState)),
           (truthy (depthMaskChange state prevState)); reflexivity.
Qed.

Lemma prepares_Program_use this : respects prepares (Program_use this).
Proof. unfold Program_use. prep. Qed.

Lemma prepares__bindMaterialState material prevMaterial :
  respects prepares (_bindMaterialState material prevMaterial).
Proof.
  unfold _bindMaterialState. prep.
  all: apply prepares_quiet; [| reflexivity];
    unfold scene, frame_of, multiview_of; cbn [primitives nodes renderer set_renderer];
    rewrite frame_bindMaterialState_flags, multiview_bindMaterialState_flags;
    reflexivity.
Qed.

Lemma prepares_RenderMaterial_bind this : respects prepares (RenderMaterial_bind this).
Proof. unfold RenderMaterial_bind, bind_sampler, bind_uniform. prep. Qed.

Lemma prepares__bindPrimitive primitive attribMask :
  respects prepares (_bindPrimitive primitive attribMask).
Proof. unfold _bindPrimitive. prep. Qed.
End Prepares.

#[local] Hint Resolve plain_bindMaterialState_calls prepares_Program_use
  prepares__bindMaterialState prepares_RenderMaterial_bind
  prepares__bindPrimitive : prep.

Section MultiviewKept.
Context {material_js : MaterialJs} {program_js : ProgramJs}.

Lemma multiview_RenderTexture_markActive t frameId :
  respects (keeps multiview_of) (RenderTexture_markActive t frameId).
Proof. unfold RenderTexture_markActive, activeCallback. keep. Qed.
#[local] Hint Resolve multiview_RenderTexture_markActive : keeps.

Lemma multiview_markActive_samplers m samplers frameId :
  respects (keeps multiview_of) (markActive_samplers m samplers frameId).
Proof. induction samplers as [| s samplers IH]; simpl; keep. Qed.
#[local] Hint Resolve multiview_markActive_samplers : keeps.

Lemma multiview_RenderMaterial_markActive m frameId :
  respects (keeps multiview_of) (RenderMaterial_markActive m frameId).
Proof. unfold RenderMaterial_markActive. keep. Qed.
#[local] Hint Resolve multiview_RenderMaterial_markActive : keeps.

Lemma multiview_RenderPrimitive_markActive p frameId :
  respects (keeps multiview_of) (RenderPrimitive_markActive p frameId).
Proof. unfold RenderPrimitive_markActive. keep. Qed.
#[local] Hint Resolve multiview_RenderPrimitive_markActive : keeps.

Lemma multiview_Node_markActive n frameId :
  respects (keeps multiview_of) (Node_markActive n frameId).
Proof. unfold Node_markActive. keep. Qed.
#[local] Hint Resolve multiview_Node_markActive : keeps.

Lemma multiview_camera_positions i views :
  respects (keeps multiview_of) (camera_positions i views).
Proof.
  revert i. induction views as [| view views IH]; intros i; simpl;
    unfold camera_position; keep.
Qed.
#[local] Hint Resolve multiview_camera_positions : keeps.

Lemma multiview_drawViews_begin views root :
  respects (keeps multiview_of) (drawViews_begin views root).
Proof. unfold drawViews_begin. keep. Qed.
End MultiviewKept.

(** *** What a computation that returns has done *)

Lemma returns_mono {A} (r : World * outcome A) (Q Post : World -> A -> Prop) :
  returns_with r Q -> (forall w a, Q w a -> Post w a) -> returns_with r Post.
Proof. destruct r as [w [a | e]]; simpl; [intros HQ H; apply H, HQ | trivial]. Qed.

Lemma returns_bind {A B} (R : World -> World -> Prop) (m : M A) (k : A -> M B)
    (Post : World -> B -> Prop) w :
  respects R m ->
  (forall a w1, R w w1 -> returns_with (k a w1) Post) ->
  returns_with ((x <- m ;; k x) w) Post.
Proof.
  intros Hm Hk. unfold bind. specialize (Hm w).
  destruct (m w) as [w1 [a | e]]; [apply Hk; exact Hm | exact I].
Qed.

Lemma returns_then {A B} (m : M A) (k : A -> M B) (Q : World -> A -> Prop)
    (Post : World -> B -> Prop) w :
  returns_with (m w) Q ->
  (forall a w1, Q w1 a -> returns_with (k a w1) Post) ->
  returns_with ((x <- m ;; k x) w) Post.
Proof.
  intros Hm Hk. unfold bind.
  destruct (m w) as [w1 [a | e]]; [apply Hk; exact Hm | exact I].
Qed.

Ltac uploads_returned :=
  unfold ret, modify; rewrite ?set_gl_log_app; cbn [returns_with];
  eexists; split; [reflexivity |];
  unfold stereo_uploads; repeat split; try reflexivity;
  repeat (constructor; try reflexivity).

Section MultiviewFrame.
Context {material_js : MaterialJs} {program_js : ProgramJs}.

(** The first round of the view loop under multiview, when it returns:
    it has issued no draw call and has uploaded each of the four matrices
    of the two eyes once. *)
Lemma upload_view_stereo view0 view1 depthData material w :
  multiview_of w = true ->
  returns_with (upload_view [view0; view1] depthData material 0 view0 w)
    (fun w' _ =>
       exists calls,
         w' = set_gl_log (fun l => l ++ calls) w /\
         stereo_uploads view0 view1 calls).
Proof.
  unfold multiview_of. intros Hmv. unfold upload_view.
  destruct (Renderer._cameraPositions (renderer w) !! 0%nat) as [cam0 |] eqn:Hcam.
  2: { destruct (RenderView.viewport view0) as [vp |];
         mrun; simpl Renderer._multiview; rewrite Hmv; simpl Nat.eqb; mrun;
         simpl Renderer._cameraPositions; rewrite Hcam; exact I. }
  destruct (RenderView.viewport view0) as [vp |];
    mrun; simpl Renderer._multiview; rewrite Hmv; simpl Nat.eqb; mrun;
    simpl Renderer._cameraPositions; rewrite Hcam; mrun.
  all: destruct depthData as [[| depth0 rest] |]; mrun; try uploads_returned.
  all: destruct (materials w !! material) as [m |] eqn:Hm.
  all: destruct (DepthData.projectionMatrix depth0) as [pm0 |]; mrun.
  all: try (destruct rest as [| depth1 rest']; [exact I |]; mrun;
            destruct (DepthData.projectionMatrix depth1) as [pm1 |]; [| exact I]; mrun).
  all: first
    [ rewrite (bind_deref materialH material m) by exact Hm; mrun; uploads_returned
    | rewrite (bind_deref_none materialH material) by exact Hm; exact I ].
Qed.

Lemma for_each_instances_returns primitive p frameId instances :
  forall w,
  returns_with
    (for_each instances (fun instance =>
       n <- deref nodeH instance ;;
       if negb (Node._activeFrameId n =? frameId) then ret tt
       else
         gl (uniformMatrix4fv "MODEL_MATRIX" (Node.worldMatrix n)) ;;
         if some (RenderPrimitive._indexBuffer p)
         then gl (drawElements primitive (RenderPrimitive._mode p)
                    (RenderPrimitive._elementCount p) (RenderPrimitive._indexType p)
                    (RenderPrimitive._indexByteOffset p))
         else gl (drawArrays primitive (RenderPrimitive._mode p) 0
                    (RenderPrimitive._elementCount p))) w)
    (fun w' _ =>
       exists ns,
         Forall2 (fun r n => nodes w !! r = Some n) instances ns /\
         w' = set_gl_log (fun l => l ++ instance_calls primitive p frameId ns) w).
Proof.
  induction instances as [| r instances IH]; intros w.
  - exists []. split; [constructor |]. cbn. rewrite set_gl_log_id. reflexivity.
  - cbn [for_each]. rewrite bind_assoc.
    destruct (nodes w !! r) as [n |] eqn:Hr;
      [| rewrite (bind_deref_none nodeH r) by exact Hr; exact I].
    rewrite (bind_deref nodeH r n) by exact Hr.
    destruct (Node._activeFrameId n =? frameId) eqn:Hact; cbn [negb].
    + rewrite bind_assoc, bind_gl.
      assert (Hcalls : forall ns,
                instance_calls primitive p frameId (n :: ns) =
                [uniformMatrix4fv "MODEL_MATRIX" (Node.worldMatrix n);
                 draw_call primitive p] ++ instance_calls primitive p frameId ns).
      { intros ns. unfold instance_calls, active_in. cbn [map concat].
        rewrite Hact. reflexivity. }
      unfold draw_call in Hcalls.
      destruct (some (RenderPrimitive._indexBuffer p)); rewrite bind_gl;
        (eapply returns_mono; [apply IH |]);
        intros w' [] (ns & Hns & ->); exists (n :: ns);
        (split; [constructor; [exact Hr | exact Hns] |]);
        rewrite Hcalls, !set_gl_log_app; reflexivity.
    + rewrite bind_ret. eapply returns_mono; [apply IH |].
      intros w' [] (ns & Hns & ->). exists (n :: ns).
      split; [constructor; [exact Hr | exact Hns] |].
      unfold instance_calls, active_in. cbn [map concat]. rewrite Hact. reflexivity.
Qed.

Lemma draw_instances_returns primitive frameId w :
  returns_with (draw_instances primitive frameId w)
    (fun w' _ =>
       exists rp ns,
         primitives w !! primitive = Some rp /\
         Forall2 (fun r n => nodes w !! r = Some n) (RenderPrimitive._instances rp) ns /\
         w' = set_gl_log (fun l => l ++ instance_calls primitive rp frameId ns) w).
Proof.
  unfold draw_instances.
  destruct (primitives w !! primitive) as [rp |] eqn:Hp;
    [| rewrite (bind_deref_none primitiveH primitive) by exact Hp; exact I].
  rewrite (bind_deref primitiveH primitive rp) by exact Hp.
  eapply returns_mono; [apply for_each_instances_returns |].
  intros w' [] (ns & Hns & ->). exists rp, ns. repeat split; assumption.
Qed.

(** The view loop for a primitive under multiview, when it returns. *)
Lemma draw_views_returns view0 view1 depthData primitive material frameId w :
  multiview_of w = true ->
  returns_with
    (draw_views [view0; view1] depthData primitive material frameId 0 [view0; view1] w)
    (fun w' _ =>
       exists rp ns pre,
         primitives w !! primitive = Some rp /\
         Forall2 (fun r n => nodes w !! r = Some n) (RenderPrimitive._instances rp) ns /\
         w' = set_gl_log (fun l => l ++ pre ++ instance_calls primitive rp frameId ns) w /\
         stereo_uploads view0 view1 pre).
Proof.
  intros Hmv. cbn [draw_views]. unfold when. cbn [length Nat.ltb Nat.leb].
  eapply returns_then; [apply upload_view_stereo, Hmv |].
  intros [] w1 (pre & -> & Hpre).
  eapply returns_then; [apply draw_instances_returns |].
  intros [] w2 (rp & ns & Hp & Hns & ->).
  unfold get_renderer. rewrite bind_gets.
  change (Renderer._multiview (renderer _)) with (multiview_of w). rewrite Hmv.
  exists rp, ns, pre. rewrite set_gl_log_app.
  split; [exact Hp | split; [exact Hns | split; [reflexivity | exact Hpre]]].
Qed.

Lemma scene_primitive w w' p rp' :
  scene w' = scene w ->
  primitives w' !! p = Some rp' ->
  exists rp, primitives w !! p = Some rp /\
             prim_set_vao None rp = prim_set_vao None rp'.
Proof.
  intros Hs Hp'. unfold scene in Hs. injection Hs as Hprims _ _ _.
  assert (Hl : (prim_set_vao None <$> primitives w') !! p =
               (prim_set_vao None <$> primitives w) !! p)
    by (change (fmap (M := list) (prim_set_vao None)) with (map (prim_set_vao None));
        rewrite Hprims; reflexivity).
  rewrite !list_lookup_fmap, Hp' in Hl.
  destruct (primitives w !! p) as [rp |]; [| discriminate].
  exists rp. split; [reflexivity |].
  cbn [fmap option_fmap option_map] in Hl. congruence.
Qed.

Lemma erased_same rp rp' :
  prim_set_vao None rp = prim_set_vao None rp' ->
  RenderPrimitive._activeFrameId rp = RenderPrimitive._activeFrameId rp' /\
  RenderPrimitive._instances rp = RenderPrimitive._instances rp' /\
  (forall p, draw_call p rp = draw_call p rp') /\
  (forall p frameId ns, instance_calls p rp frameId ns = instance_calls p rp' frameId ns).
Proof.
  intros H.
  assert (Hd : forall p, draw_call p rp = draw_call p rp').
  { intros p. unfold draw_call.
    rewrite (f_equal RenderPrimitive._indexBuffer H : RenderPrimitive._indexBuffer rp = _).
    rewrite (f_equal RenderPrimitive._mode H : RenderPrimitive._mode rp = _).
    rewrite (f_equal RenderPrimitive._elementCount H : RenderPrimitive._elementCount rp = _).
    rewrite (f_equal RenderPrimitive._indexType H : RenderPrimitive._indexType rp = _).
    rewrite (f_equal RenderPrimitive._indexByteOffset H
               : RenderPrimitive._indexByteOffset rp = _).
    reflexivity. }
  split; [exact (f_equal RenderPrimitive._activeFrameId H) |].
  split; [exact (f_equal RenderPrimitive._instances H) |].
  split; [exact Hd |].
  intros p frameId ns. unfold instance_calls. rewrite Hd. reflexivity.
Qed.

Lemma uploads_of_plain name l :
  Forall (fun c => plain c = true) l -> uploads_of name l = [].
Proof.
  induction 1 as [| c l Hc _ IH]; [reflexivity |].
  change (uploads_of name (c :: l)) with (uploads_of name ([c] ++ l)).
  rewrite uploads_of_app, IH, app_nil_r.
  destruct c; try discriminate; reflexivity.
Qed.

Lemma stereo_uploads_after_plain view0 view1 l pre :
  Forall (fun c => plain c = true) l ->
  stereo_uploads view0 view1 pre ->
  stereo_uploads view0 view1 (l ++ pre).
Proof.
  intros Hl (Hno & H1 & H2 & H3 & H4). unfold stereo_uploads.
  rewrite !uploads_of_app, !(uploads_of_plain _ l Hl). cbn [app].
  split; [| repeat split; assumption].
  apply Forall_app. split; [| exact Hno].
  eapply Forall_impl; [exact Hl |].
  intros c Hc. unfold no_draw. destruct c; try discriminate; reflexivity.
Qed.

Lemma stereo_once_segment view0 view1 pre p rp frameId ns :
  stereo_uploads view0 view1 pre ->
  stereo_once view0 view1 (pre ++ instance_calls p rp frameId ns).
Proof.
  intros (_ & H1 & H2 & H3 & H4). unfold stereo_once.
  rewrite !uploads_of_app, !uploads_of_instance_calls by reflexivity.
  rewrite !app_nil_r. repeat split; assumption.
Qed.

Lemma multiview_segment_scene view0 view1 w w' p seg :
  scene w' = scene w ->
  multiview_segment view0 view1 w' p seg ->
  multiview_segment view0 view1 w p seg.
Proof.
  intros Hs (rp' & Hp' & Hcase).
  destruct (scene_primitive w w' p rp' Hs Hp') as (rp & Hp & Herase).
  destruct (erased_same rp rp' Herase) as (Hstamp & Hinst & _ & Hcalls).
  unfold scene in Hs. injection Hs as _ Hnodes Hframe _.
  exists rp. split; [exact Hp |].
  rewrite Hstamp, <- Hframe.
  destruct (RenderPrimitive._activeFrameId rp' =? frame_of w'); [| exact Hcase].
  destruct Hcase as (pre & ns & Hns & -> & Hpre & Honce).
  exists pre, ns. rewrite Hinst, Hcalls, <- Hnodes.
  split; [exact Hns | split; [reflexivity | split; [exact Hpre | exact Honce]]].
Qed.

Lemma omap_Forall2 {A B} (f : A -> option B) l ns :
  Forall2 (fun r n => f r = Some n) l ns -> omap f l = ns.
Proof.
  induction 1 as [| r n l ns Hr _ IH]; [reflexivity |].
  cbn. rewrite Hr, IH. reflexivity.
Qed.

(** The draw calls of the calls for a primitive are one for each of its
    active instances. *)
Lemma multiview_segment_draws view0 view1 w p seg :
  multiview_segment view0 view1 w p seg ->
  List.filter is_draw seg = frame_draws w p.
Proof.
  intros (rp & Hp & Hcase). unfold frame_draws. rewrite Hp.
  destruct (RenderPrimitive._activeFrameId rp =? frame_of w); [| subst seg; reflexivity].
  destruct Hcase as (pre & ns & Hns & -> & (Hno & _) & _).
  rewrite List.filter_app, (draws_of_no_draw pre Hno), draws_of_instance_calls.
  rewrite (omap_Forall2 _ _ _ Hns). reflexivity.
Qed.

Lemma multiview_segments_draws view0 view1 w ps segs :
  Forall2 (multiview_segment view0 view1 w) ps segs ->
  List.filter is_draw (concat segs) = concat (map (frame_draws w) ps).
Proof.
  induction 1 as [| p seg ps segs Hseg _ IH]; [reflexivity |].
  cbn [concat map]. rewrite List.filter_app, IH.
  rewrite (multiview_segment_draws _ _ _ _ _ Hseg). reflexivity.
Qed.

(** One round of the loop over the primitives of a bucket, when it
    returns. *)
Lemma draw_primitive_returns view0 view1 depthData p locals w :
  multiview_of w = true ->
  returns_with (draw_primitive [view0; view1] depthData p locals w)
    (fun w' _ =>
       scene w' = scene w /\
       exists rp pre ns,
         primitives w !! p = Some rp /\
         Forall2 (fun r n => nodes w !! r = Some n) (RenderPrimitive._instances rp) ns /\
         gl_log w' = gl_log w ++ pre ++ instance_calls p rp (frame_of w) ns /\
         stereo_uploads view0 view1 pre).
Proof.
  intros Hmv. unfold draw_primitive, get_renderer. rewrite bind_gets.
  destruct (primitives w !! p) as [rp |] eqn:Hp;
    [| rewrite (bind_deref_none primitiveH p) by exact Hp; exact I].
  rewrite (bind_deref primitiveH p rp) by exact Hp.
  destruct (RenderPrimitive._material rp) as [material |]; [rewrite bind_ret | exact I].
  destruct (materials w !! material) as [m |] eqn:Hm;
    [| rewrite (bind_deref_none materialH material) by exact Hm; exact I].
  rewrite (bind_deref materialH material m) by exact Hm. cbv zeta.
  cbn [length Nat.eqb when].
  apply (returns_bind prepares); [prep |]. intros [] w1 H1.
  apply (returns_bind prepares); [prep |]. intros [] w2 H2.
  apply (returns_bind prepares); [prep |]. intros attribMask w3 H3.
  assert (H : prepares w w3)
    by (etransitivity; [exact H1 | etransitivity; [exact H2 | exact H3]]).
  clear H1 H2 H3. destruct H as [Hscene (l & Hl & Hplain)].
  assert (Hmv3 : multiview_of w3 = true).
  { unfold scene in Hscene. injection Hscene as _ _ _ ->. exact Hmv. }
  eapply returns_then; [apply draw_views_returns, Hmv3 |].
  intros [] w4 (rp3 & ns & pre & Hp3 & Hns & -> & Hpre).
  cbn [returns_with ret].
  destruct (scene_primitive w w3 p rp3 Hscene Hp3) as (rp0 & Hp0 & Herase).
  rewrite Hp in Hp0. injection Hp0 as <-.
  destruct (erased_same rp rp3 Herase) as (_ & Hinst & _ & Hcalls).
  split; [exact Hscene |].
  exists rp, (l ++ pre), ns.
  split; [reflexivity |].
  split.
  { rewrite Hinst. unfold scene in Hscene. injection Hscene as _ <- _ _. exact Hns. }
  split.
  { cbn [gl_log set_gl_log]. rewrite Hl, Hcalls, <- !app_assoc. reflexivity. }
  apply stereo_uploads_after_plain; assumption.
Qed.

Lemma draw_primitives_returns view0 view1 depthData ps :
  forall locals w,
  multiview_of w = true ->
  returns_with (draw_primitives [view0; view1] depthData ps locals w)
    (fun w' _ =>
       scene w' = scene w /\
       exists segs,
         gl_log w' = gl_log w ++ concat segs /\
         Forall2 (multiview_segment view0 view1 w) ps segs).
Proof.
  induction ps as [| p ps IH]; intros locals w Hmv.
  - split; [reflexivity |]. exists []. cbn. rewrite app_nil_r.
    split; [reflexivity | constructor].
  - cbn [draw_primitives]. unfold get_renderer. rewrite bind_gets.
    destruct (primitives w !! p) as [rp |] eqn:Hp;
      [| rewrite (bind_deref_none primitiveH p) by exact Hp; exact I].
    rewrite (bind_deref primitiveH p rp) by exact Hp.
    change (Renderer._frameId (renderer w)) with (frame_of w).
    destruct (RenderPrimitive._activeFrameId rp =? frame_of w) eqn:Hact; cbn [negb].
    + eapply returns_then; [apply draw_primitive_returns, Hmv |].
      intros locals' w1 (Hscene & rp' & pre & ns & Hp' & Hns & Hlog & Hpre).
      rewrite Hp in Hp'. injection Hp' as <-.
      assert (Hmv1 : multiview_of w1 = true).
      { unfold scene in Hscene. injection Hscene as _ _ _ ->. exact Hmv. }
      eapply returns_mono; [apply (IH locals' w1 Hmv1) |].
      intros w' [] (Hscene' & segs & Hlog' & Hsegs).
      split; [rewrite Hscene'; exact Hscene |].
      exists ((pre ++ instance_calls p rp (frame_of w) ns) :: segs).
      split; [rewrite Hlog', Hlog; cbn [concat]; rewrite <- !app_assoc; reflexivity |].
      constructor.
      * exists rp. split; [exact Hp |]. rewrite Hact.
        exists pre, ns.
        split; [exact Hns | split; [reflexivity | split; [exact Hpre |]]].
        apply stereo_once_segment, Hpre.
      * eapply Forall2_impl; [exact Hsegs |].
        intros q seg. apply multiview_segment_scene, Hscene.
    + eapply returns_mono; [apply (IH locals w Hmv) |].
      intros w' [] (Hscene' & segs & Hlog' & Hsegs).
      split; [exact Hscene' |].
      exists ([] :: segs). split; [exact Hlog' |].
      constructor; [| exact Hsegs].
      exists rp. split; [exact Hp |]. rewrite Hact. reflexivity.
Qed.

Lemma draw_buckets_returns view0 view1 depthData arr :
  forall w,
  multiview_of w = true ->
  returns_with (for_each arr (draw_bucket [view0; view1] depthData) w)
    (fun w' _ =>
       scene w' = scene w /\
       exists segs,
         gl_log w' = gl_log w ++ concat segs /\
         Forall2 (multiview_segment view0 view1 w) (members arr) segs).
Proof.
  induction arr as [| b arr IH]; intros w Hmv.
  - split; [reflexivity |]. exists []. cbn. rewrite app_nil_r.
    split; [reflexivity | constructor].
  - change (members (b :: arr)) with (default [] b ++ members arr).
    cbn [for_each].
    assert (Hb : returns_with (draw_bucket [view0; view1] depthData b w)
              (fun w' _ =>
                 scene w' = scene w /\
                 exists segs,
                   gl_log w' = gl_log w ++ concat segs /\
                   Forall2 (multiview_segment view0 view1 w) (default [] b) segs)).
    { destruct b as [[| p ps] |]; cbn [draw_bucket default].
      - split; [reflexivity |]. exists []. cbn. rewrite app_nil_r.
        split; [reflexivity | constructor].
      - apply draw_primitives_returns, Hmv.
      - split; [reflexivity |]. exists []. cbn. rewrite app_nil_r.
        split; [reflexivity | constructor]. }
    eapply returns_then; [exact Hb |].
    intros [] w1 (Hscene & s1 & Hlog1 & Hs1).
    assert (Hmv1 : multiview_of w1 = true).
    { unfold scene in Hscene. injection Hscene as _ _ _ ->. exact Hmv. }
    eapply returns_mono; [apply (IH w1 Hmv1) |].
    intros w' [] (Hscene' & s2 & Hlog2 & Hs2).
    split; [rewrite Hscene'; exact Hscene |].
    exists (s1 ++ s2).
    split; [rewrite Hlog2, Hlog1, concat_app, <- app_assoc; reflexivity |].
    apply Forall2_app; [exact Hs1 |].
    eapply Forall2_impl; [exact Hs2 |].
    intros q seg. apply multiview_segment_scene, Hscene.
Qed.

(** C8, amended: a call of drawViews with exactly two views, under
    multiview, that returns.  Without a root node it issues no call.
    With one, its calls are the calls before the buckets, which draw
    nothing, the calls for each primitive of the buckets in turn, and the
    calls after the buckets, which draw nothing.  For a primitive that
    the frame has not marked there are no calls.  For one that it has
    marked, the calls begin with calls that draw nothing and upload each
    of the LEFT and RIGHT projection and view matrices once, and go on
    with the world matrix and one draw call for each instance that the
    frame has marked, without another upload of the four matrices: the
    loop over the views is left after its first round.  So the draw
    calls of the frame are exactly one for each pair of a marked
    primitive and a marked instance of it. *)
Theorem C8_multiview_one_draw_per_instance
    (view0 view1 : RenderView.t) (rootNode : option (list noderef))
    (depthData : option (list DepthData.t)) (w w' : World) :
  Renderer._multiview (renderer w) = true ->
  drawViews [view0; view1] rootNode depthData w = (w', Return tt) ->
  match rootNode with
  | None => gl_log w' = gl_log w
  | Some root =>
      let marked := fst (drawViews_begin [view0; view1] root w) in
      let ps := members (Renderer._renderPrimitives (renderer w)) in
      exists before segs after,
        gl_log w' = gl_log w ++ before ++ concat segs ++ after /\
        Forall no_draw before /\
        Forall no_draw after /\
        Forall2 (multiview_segment view0 view1 marked) ps segs /\
        List.filter is_draw (calls_since w w') = concat (map (frame_draws marked) ps)
  end.
Proof.
  intros Hmv Hrun. destruct rootNode as [root |].
  2: { injection Hrun as <-. reflexivity. }
  cbv zeta.
  unfold drawViews in Hrun. unfold bind at 1 in Hrun.
  pose proof (evolves_drawViews_begin no_draw (fun c H => H) [view0; view1] root w)
    as (Hb & _ & _ & l0 & Hl0 & HP0).
  pose proof (multiview_drawViews_begin [view0; view1] root w) as Hmv1.
  destruct (drawViews_begin [view0; view1] root w) as [w1 [[] | e]];
    [| discriminate].
  cbn [fst] in *. unfold keeps in Hmv1.
  change (multiview_of w) with (Renderer._multiview (renderer w)) in Hmv1.
  rewrite Hmv in Hmv1.
  unfold get_renderer in Hrun. rewrite bind_gets, Hb in Hrun.
  unfold bind in Hrun.
  pose proof (draw_buckets_returns view0 view1 depthData
                (Renderer._renderPrimitives (renderer w)) w1 Hmv1) as Hbuckets.
  destruct (for_each (Renderer._renderPrimitives (renderer w))
              (draw_bucket [view0; view1] depthData) w1) as [w2 [[] | e]];
    [| discriminate].
  cbn [returns_with] in Hbuckets. destruct Hbuckets as (_ & segs & Hlog2 & Hsegs).
  pose proof (evolves_drawViews_end no_draw (fun c H => H) w2)
    as (_ & _ & _ & l3 & Hl3 & HP3).
  rewrite Hrun in Hl3. cbn [fst] in Hl3.
  assert (Hlog : gl_log w' = gl_log w ++ l0 ++ concat segs ++ l3)
    by (rewrite Hl3, Hlog2, Hl0, <- !app_assoc; reflexivity).
  exists l0, segs, l3.
  split; [exact Hlog |]. split; [exact HP0 |]. split; [exact HP3 |].
  split; [exact Hsegs |].
  unfold calls_since. rewrite Hlog, drop_app_length.
  rewrite !List.filter_app, (draws_of_no_draw l0 HP0), (draws_of_no_draw l3 HP3).
  rewrite app_nil_r. cbn [app].
  apply (multiview_segments_draws view0 view1 w1), Hsegs.
Qed.
End MultiviewFrame.

Lemma C8_multiview_one_draw_per_instance_witness :
  exists w',
    drawViews [sample_view; sample_view_right] (Some [0%nat]) None (sample_scene true)
      = (w', Return tt) /\
    List.filter is_draw (calls_since (sample_scene true) w') =
      [drawArrays 1%nat 4 0 3; drawArrays 0%nat 4 0 3].
Proof.
  destruct (drawViews [sample_view; sample_view_right] (Some [0%nat]) None
              (sample_scene true)) as [w' o] eqn:Hrun.
  assert (Ho : o = Return tt).
  { pose proof (f_equal snd Hrun) as Hc. cbn [snd] in Hc. rewrite <- Hc.
    vm_compute. reflexivity. }
  subst o. exists w'. split; [reflexivity |].
  destruct (C8_multiview_one_draw_per_instance sample_view sample_view_right
              (Some [0%nat]) None (sample_scene true) w')
    as (before & segs & after & _ & _ & _ & _ & Hdraws).
  - vm_compute. reflexivity.
  - exact Hrun.
  - rewrite Hdraws. vm_compute. reflexivity.
Defined.

(** C8, as stated, fails: with two views, multiview on and depth data
    whose only entry overrides the projection matrix, the frame marks two
    primitives with one instance each and is then left by a TypeError
    when the uploads for the first of them read the second entry of the
    depth data, before any draw call. *)
Lemma C8_depth_data_without_second_entry :
  let w := sample_scene true in
  let views := [sample_view; sample_view_right] in
  let r := drawViews views (Some [0%nat]) (Some [lone_depth]) w in
  Renderer._multiview (renderer w) = true /\
  concat (map (frame_draws (fst (drawViews_begin views [0%nat] w)))
            (members (Renderer._renderPrimitives (renderer w)))) =
    [drawArrays 1%nat 4 0 3; drawArrays 0%nat 4 0 3] /\
  snd r = Throw (TypeError "Cannot read properties of undefined") /\
  List.filter is_draw (calls_since w (fst r)) = [].
Proof. vm_compute. repeat split. Qed.
